(* ===== verification/_CoqProject ===== *)
-Q . S2P
Prelude.v
IntUtil.v
Varint.v
Archive.v
Keccak.v
Base58.v
Config.v
Reward.v
TxFormat.v
RctFormat.v
Transaction.v
TxParse.v
TxExtra.v
Address.v
Difficulty.v
HashTemplate.v
Hex.v
Checkpoints.v
JsonText.v
HardFork.v
Pruning.v
TreeHash.v
TxHash.v
TxWeight.v
RollingMedian.v
BlockWeight.v
Money.v
MinerTx.v
TxVerify.v
ChainDb.v
ChainDifficulty.v
FeesTime.v
TxInputs.v
Floats.v
TxPool.v
PoolInvariant.v
PoolTheorems.v
Blockchain.v
BlockHandling.v
Reorganize.v
