(* ===== verification/Prelude.v ===== *)
(** * A verification of the consensus core of the Jero node

    Jero is a copy of Monero.  Its daemon keeps a chain of blocks in a database,
    a pool of transactions waiting for a block, and the rules that decide which
    blocks and transactions are accepted.  This library models that core and proves
    what makes it correct.  Paths below are under the root of the repository
    (src/... is the C++ source tree, contrib/epee the utility library).

    ** The program and its model

    A blob arrives, is parsed into a transaction or a block, hashed, and checked
    against rules that need only the object and then against rules that read the
    chain; a transaction enters the pool, a block takes its transactions from the
    pool and enters the database, or is kept for another chain, which replaces the
    main chain when it has more work.  The files follow that path.

    - Integers, text and hashing.  [Prelude] (this file): machine integers as [Z]
      with their wrap-around written out, lemmas on lists and bytes, tactics and
      hint databases.  [IntUtil]: contrib/epee int-util.h.  [Varint]:
      src/common/varint.h.  [Base58]: src/common/base58.cpp.  [Hex], [JsonText]:
      the hexadecimal codecs and the JSON lexer of epee.  [Keccak]:
      src/crypto/keccak.c, hash.c, hmac-keccak.c.  [TreeHash]: tree-hash.c.
      [RollingMedian]: contrib/epee rolling_median.h.  [Floats]: what the pool uses
      of [double] and [float].  [HashTemplate], [Pruning], [Money], [Address]: hash
      masks, pruning seeds, amounts and addresses.

    - Formats.  [Archive] models the binary archives of src/serialization as
      codecs, pairs of a writer and a reader, and the class [Lawful] is what a
      codec promises to its users.  [TxFormat], [RctFormat], [Transaction],
      [TxExtra] build the formats of transactions and blocks from it
      (cryptonote_basic.h, rctTypes.h, tx_extra.h); [TxParse], [TxHash], [TxWeight]
      are the parsing, hashing and weighing functions of
      cryptonote_format_utils.cpp.

    - Rules.  [Config], [Reward], [Difficulty], [HardFork], [BlockWeight],
      [FeesTime], [MinerTx], [TxVerify]: constants, subsidy, work and retargeting,
      fork votes, weight limits, fees and times, coinbase, and the checks of
      transactions that need no chain data (difficulty.cpp, hardfork.cpp,
      tx_verification_utils.cpp and parts of blockchain.cpp).

    - State.  [ChainDb]: the tables of BlockchainLMDB as finite maps, adding and
      popping blocks.  [TxInputs]: inputs against the chain.  [TxPool] with
      [PoolInvariant] and [PoolTheorems]: tx_pool.cpp.  [Checkpoints]:
      checkpoints.cpp.  [ChainDifficulty]: the difficulty of the next block with its
      caches.  [Blockchain] with [BlockHandling] and [Reorganize]: the composition,
      from [add_new_block] to [switch_to_alternative_blockchain].

    A class of the source is a record, a method a function from the record to its
    result and the new record.  An exception, a failed assertion and an access out
    of range are [None] or an [Err] with the exception; a [false] return is a
    boolean or an [option], as the file says.  Exceptions that a handler of the
    source catches are caught by the model in the same place.  A [std::map] or a
    table is a finite map, or a list in key order where the order matters.

    ** Parameters

    Curve arithmetic, ring signatures and range proofs, the proof-of-work hash and
    the clock are arguments of the definitions, and the theorems hold for all of
    them: nothing is assumed of them (the class [Crypto] of TxPool.v bundles the
    verification functions and has no laws).  The table of forks, the list of
    precomputed block hashes and the checkpoints are data and arguments too.
    Boost's text conversions are parameters with the documented behaviour as
    hypotheses (Money.v).

    ** What the theorems show

    - Round trips and canonicity: what is written is read back, and what is accepted
      is the encoding of what was read, for varints, Base58, addresses, hexadecimal
      text, JSON strings, transactions, blocks and pruning seeds.  The summary and
      the pruning of a transaction blob agree with the full parser.

    - Binding: equal block ids, transaction hashes or Merkle roots come from equal
      data, or two different inputs of Keccak with the same hash are exhibited.

    - Rules: the work check is hash * difficulty < 2^256, the retargeting rule gives
      the least difficulty for the observed rate, the reward has the quadratic
      penalty for weight, the supply is the sum of the claimed rewards, the
      medians of weights are medians of the last blocks whatever the caches hold,
      the fork state survives restarts and reorganizations, and the checks of
      transactions accept exactly what the listed rules allow.

    - Database: after any additions and pops the tables are those of the current
      chain added to an empty database, so popping undoes adding, and no chain holds
      one key image twice.

    - Pool: from an empty pool, every sequence of operations keeps its tables, key
      images, weight and order consistent; a restart rebuilds it; pruning ends
      within the limit or with nothing left that may go; the transactions of a
      template filled without cached verdicts can be mined together.

    - Chain: a refused block leaves the chain as it was; an accepted one obeyed
      every rule and is stored with the values the rules determine; a reorganization
      ends on the new chain or on a prefix of the old one that has the split; the
      main chain is left only for more work or a checkpoint; and whatever blocks a
      node is given, its database is one linked chain from its genesis block.  The
      cached difficulty is that of the last 735 blocks.

    Some theorems show where the code differs from its comments or allows what it
    should not: ring offsets that wrap (TxInputs.v), a template with a double spend
    (PoolTheorems.v), the adjusted time (FeesTime.v), the votes of popped blocks
    (HardFork.v).

    ** Bounds and fuel

    Loops that count down or walk a list are structural.  The others have fuel, and
    the caller passes enough for every input: 64 rounds for the digits of a word in
    Base58, 32 for the hexadecimal digits of a 128-bit difficulty, 20 or 21 for the
    decimal digits of an amount, the binary length of the number for a varint, the
    length of the input for the blocks of Keccak and the fields of the extra field,
    31 levels for heaps indexed by [int], 28 levels for trees of at most 2^28
    hashes, 32 doublings for the padding of range proofs; the number of blocks for
    popping down to the split, where popping the genesis block throws; and the
    number of alternative blocks for following their parents, where a longer walk is
    a cycle on which the source does not end either.  Reorganizations within
    reorganizations have a bound that [handle_alternative_block] takes as an
    argument; the theorems about it hold for every value of it.

    ** Not modelled

    Curve arithmetic, signatures and range proofs, CryptoNight and RandomX: each
    needs a development of its own, and the core only uses their verdicts.  LMDB
    itself, with batches and cursors: its tables are maps here.  The network, the
    relay protocol, RPC, the wallet and its interfaces, devices, tools, logging and
    configuration: driven by I/O, time and concurrency, and no part of the verdict
    on a block.  Of the modelled classes: locks (operations are sequential, as the
    locks make them), notifications and statistics, threads that hash or look up
    ahead (their tables are part of the state, with any content), loading of
    checkpoints from files and DNS, block templates beyond [fill_block_template],
    the migrations of the database, and the queries that only fill answers of RPC. *)
From stdpp Require Export base tactics list numbers sorting strings.
From Stdlib Require Export Lia.

#[global] Open Scope Z_scope.
Coercion Z.of_nat : nat >-> Z.

(** ** Machine integers

    A [w]-bit unsigned integer of the source is a [Z] in [0, 2^w); every
    operation that can leave the range is followed by [wrap]. *)

Definition wrap (w z : Z) : Z := z mod 2 ^ w.
Definition is_uint (w z : Z) : Prop := 0 <= z < 2 ^ w.
Definition is_uintb (w z : Z) : bool := (0 <=? z) && (z <? 2 ^ w).

Abbreviation u8 := (wrap 8).
Abbreviation u32 := (wrap 32).
Abbreviation u64 := (wrap 64).
Abbreviation u128 := (wrap 128).
Abbreviation is_u8 := (is_uint 8).
Abbreviation is_u32 := (is_uint 32).
Abbreviation is_u64 := (is_uint 64).
Abbreviation is_u128 := (is_uint 128).
Abbreviation UINT64_MAX := (2 ^ 64 - 1).

(** Arithmetic on [uint64_t], as the C++ operators compute it. *)
Declare Scope mach_scope.
Delimit Scope mach_scope with mach.
Notation "a ⊞ b" := (wrap 64 (a + b)) (at level 50, left associativity) : mach_scope.
Notation "a ⊟ b" := (wrap 64 (a - b)) (at level 50, left associativity) : mach_scope.
Notation "a ⊠ b" := (wrap 64 (a * b)) (at level 40, left associativity) : mach_scope.

(** ** Automation *)

Create HintDb mach.
#[global] Hint Constants Transparent : mach.


Lemma pow2_pos w : 0 <= w -> 0 < 2 ^ w.
Proof. intros. apply Z.pow_pos_nonneg; lia. Qed.

Lemma wrap_range w z : 0 <= w -> is_uint w (wrap w z).
Proof. intros. apply Z.mod_pos_bound, pow2_pos; lia. Qed.

Lemma wrap_small w z : is_uint w z -> wrap w z = z.
Proof. intros. apply Z.mod_small, H. Qed.

Lemma wrap_wrap w z : 0 <= w -> wrap w (wrap w z) = wrap w z.
Proof. intros. apply wrap_small, wrap_range, H. Qed.

Lemma wrap_add_l w a b : wrap w (wrap w a + b) = wrap w (a + b).
Proof. apply Zplus_mod_idemp_l. Qed.

Lemma wrap_add_r w a b : wrap w (a + wrap w b) = wrap w (a + b).
Proof. apply Zplus_mod_idemp_r. Qed.

Lemma wrap_sub_l w a b : wrap w (wrap w a - b) = wrap w (a - b).
Proof. apply Zminus_mod_idemp_l. Qed.

Lemma wrap_mul_l w a b : wrap w (wrap w a * b) = wrap w (a * b).
Proof. apply Zmult_mod_idemp_l. Qed.

Lemma is_uintb_spec w z : is_uintb w z = true <-> is_uint w z.
Proof. unfold is_uintb, is_uint. rewrite andb_true_iff, Z.leb_le, Z.ltb_lt. done. Qed.

#[global] Instance is_uint_dec w z : Decision (is_uint w z).
Proof. unfold is_uint. apply _. Defined.

Lemma is_uint_mono w v z : is_uint w z -> 0 <= w <= v -> is_uint v z.
Proof.
  intros [H1 H2] Hv. split; [done|].
  eapply Z.lt_le_trans; [done|]. apply Z.pow_le_mono_r; lia.
Qed.

#[export] Hint Resolve wrap_range pow2_pos : mach.

(** Division and modulus goals with literal divisors: expose the defining
    equations of quotients and remainders and close with [nia]. *)
Ltac zdm := Z.div_mod_to_equations; nia.
Ltac zlia := Z.div_mod_to_equations; lia.

(** Split a goal on the boolean tests of the source, turning each test into
    the proposition it decides. *)
Ltac bcase_hyps :=
  repeat match goal with
  | H : (_ <=? _) = true |- _ => apply Z.leb_le in H
  | H : (_ <=? _) = false |- _ => apply Z.leb_gt in H
  | H : (_ <? _) = true |- _ => apply Z.ltb_lt in H
  | H : (_ <? _) = false |- _ => apply Z.ltb_ge in H
  | H : (_ =? _) = true |- _ => apply Z.eqb_eq in H
  | H : (_ =? _) = false |- _ => apply Z.eqb_neq in H
  | H : (_ && _) = true |- _ => apply andb_true_iff in H; destruct H
  | H : (_ || _) = false |- _ => apply orb_false_iff in H; destruct H
  | H : negb _ = true |- _ => apply negb_true_iff in H
  | H : negb _ = false |- _ => apply negb_false_iff in H
  end.
Ltac bcase :=
  repeat match goal with
  | |- context [if ?b then _ else _] =>
      lazymatch type of b with bool => destruct b eqn:? end
  end; bcase_hyps.

(** Decide a boolean test of the goal by arithmetic. *)
Ltac btrue b :=
  replace b with true
    by (symmetry; rewrite ?andb_true_iff, ?Z.leb_le, ?Z.ltb_lt, ?Z.eqb_eq; repeat split; first [lia|zlia]).
Ltac bfalse b :=
  replace b with false
    by (symmetry; rewrite ?Z.leb_gt, ?Z.ltb_ge, ?Z.eqb_neq; first [lia|zlia]).

(** Split on the value of a [Z] known to lie in [0, hi). *)
Ltac zcases n hi :=
  let H := fresh in
  assert (H : n ∈ seqZ 0 hi) by (apply elem_of_seqZ; lia);
  change (seqZ 0 hi) with ltac:(let t := eval vm_compute in (seqZ 0 hi) in exact t) in H;
  repeat (apply elem_of_cons in H; destruct H as [->|H]);
  [..|by apply elem_of_nil in H].

(** ** Bit operations as arithmetic *)

Lemma land_ones_mod x w : 0 <= w -> Z.land x (2 ^ w - 1) = x mod 2 ^ w.
Proof. intros. rewrite <- Z.land_ones by done. by rewrite Z.ones_equiv, Z.sub_1_r. Qed.

Lemma shiftr_div x n : 0 <= n -> Z.shiftr x n = x / 2 ^ n.
Proof. apply Z.shiftr_div_pow2. Qed.

Lemma shiftl_mul x n : 0 <= n -> Z.shiftl x n = x * 2 ^ n.
Proof. apply Z.shiftl_mul_pow2. Qed.

(** A field of [w] bits at position [k], selected by a mask. *)
Lemma land_field x w k :
  0 <= w -> 0 <= k -> Z.land x ((2 ^ w - 1) * 2 ^ k) = ((x / 2 ^ k) mod 2 ^ w) * 2 ^ k.
Proof.
  intros Hw Hk. rewrite <- land_ones_mod by lia. rewrite <- !shiftl_mul, <- shiftr_div by lia.
  rewrite Z.shiftl_land. apply Z.bits_inj'; intros i Hi. rewrite !Z.land_spec.
  destruct (Z.ltb_spec i k).
  - rewrite !(Z.shiftl_spec_low _ k i) by lia. rewrite !andb_false_r. done.
  - f_equal. rewrite Z.shiftl_spec, Z.shiftr_spec by lia. f_equal. lia.
Qed.

(** An [or] whose operands occupy disjoint bit ranges is a sum. *)
Lemma lor_disjoint a b n : 0 <= n -> 0 <= b < 2 ^ n -> Z.lor (a * 2 ^ n) b = a * 2 ^ n + b.
Proof.
  intros Hn Hb. rewrite <- Z.shiftl_mul_pow2 by done.
  symmetry. rewrite <- Z.lxor_lor, Z.add_nocarry_lxor; [done|..].
  all: apply Z.bits_inj'; intros i Hi; rewrite Z.land_spec, Z.bits_0.
  all: destruct (Z.ltb_spec i n).
  all: try by rewrite Z.shiftl_spec_low.
  all: rewrite <- (Z.mod_small b (2 ^ n)) by done; rewrite Z.mod_pow2_bits_high by lia; apply andb_false_r.
Qed.

Lemma lor_disjoint_l a b n : 0 <= n -> 0 <= b < 2 ^ n -> Z.lor b (a * 2 ^ n) = a * 2 ^ n + b.
Proof. rewrite Z.lor_comm. apply lor_disjoint. Qed.

(** ** Bytes and little-endian words *)

Abbreviation byte_list := (list Z) (only parsing).
Definition bytes (l : list Z) : Prop := Forall is_u8 l.

Lemma lor_range w a b : 0 <= w -> is_uint w a -> is_uint w b -> is_uint w (Z.lor a b).
Proof.
  intros Hw [Ha Ha'] [Hb Hb']. split; [by apply Z.lor_nonneg|].
  destruct (Z.eq_dec (Z.lor a b) 0) as [->|Hn]; [by apply pow2_pos|].
  pose proof (proj2 (Z.lor_nonneg a b) (conj Ha Hb)). apply Z.log2_lt_pow2; [lia|]. rewrite Z.log2_lor by done.
  assert (Hl : forall x, 0 <= x < 2 ^ w -> x <> 0 -> Z.log2 x < w) by (intros x Hx Hx0; apply Z.log2_lt_pow2; lia).
  destruct (Z.eq_dec a 0) as [->|Ha0]; destruct (Z.eq_dec b 0) as [->|Hb0]; [done|..].
  - change (Z.log2 0) with 0. rewrite Z.max_r by apply Z.log2_nonneg. by apply Hl.
  - change (Z.log2 0) with 0. rewrite Z.max_l by apply Z.log2_nonneg. by apply Hl.
  - apply Z.max_lub_lt; by apply Hl.
Qed.

(** The value of a little-endian byte sequence, and its inverse on [n] bytes. *)
Fixpoint le_val (l : list Z) : Z :=
  match l with
  | [] => 0
  | b :: l' => b + 256 * le_val l'
  end.

Fixpoint le_bytes (n : nat) (z : Z) : list Z :=
  match n with
  | O => []
  | S n' => z mod 256 :: le_bytes n' (z / 256)
  end.

Lemma length_le_bytes n z : length (le_bytes n z) = n.
Proof. revert z; induction n; intros; simpl; congruence. Qed.

Lemma le_bytes_bytes n z : bytes (le_bytes n z).
Proof.
  unfold bytes. revert z; induction n; intros z; simpl; [done|]. constructor; [|done].
  split; change (2 ^ 8) with 256; zlia.
Qed.

Lemma le_val_range l : bytes l -> 0 <= le_val l < 256 ^ length l.
Proof.
  induction 1 as [|b l Hb _ IH]; [simpl; lia|].
  simpl length. rewrite Nat2Z.inj_succ, Z.pow_succ_r by lia.
  destruct Hb as [? Hb]. change (2 ^ 8) with 256 in Hb. simpl. nia.
Qed.

Lemma le_val_le_bytes (n : nat) z : 0 <= z < 256 ^ n -> le_val (le_bytes n z) = z.
Proof.
  revert z. induction n as [|n IH]; intros z Hz; [simpl in *; lia|].
  rewrite Nat2Z.inj_succ, Z.pow_succ_r in Hz by lia.
  simpl. rewrite IH; zdm.
Qed.

Lemma le_bytes_le_val l : bytes l -> le_bytes (length l) (le_val l) = l.
Proof.
  induction 1 as [|b l Hb Hl IH]; [done|]. destruct Hb as [? Hb]. change (2 ^ 8) with 256 in Hb.
  simpl. f_equal; [zlia|]. replace ((b + 256 * le_val l) / 256) with (le_val l) by zlia. done.
Qed.

Lemma le_val_app l1 l2 : le_val (l1 ++ l2) = le_val l1 + 256 ^ length l1 * le_val l2.
Proof.
  induction l1 as [|b l1 IH]; simpl length; [cbn [app le_val]; lia|].
  rewrite Nat2Z.inj_succ, Z.pow_succ_r by lia. cbn [app le_val]. rewrite IH. lia.
Qed.

Lemma le_val_inj l1 l2 :
  bytes l1 -> bytes l2 -> length l1 = length l2 -> le_val l1 = le_val l2 -> l1 = l2.
Proof.
  intros H1 H2 Hl Hv.
  rewrite <- (le_bytes_le_val l1), <- (le_bytes_le_val l2) by done. congruence.
Qed.

Lemma le_val_zeros n : le_val (replicate n 0) = 0.
Proof. induction n; simpl; lia. Qed.

(** The value of a big-endian sequence in an arbitrary base. *)
Definition be_val (base : Z) (l : list Z) : Z := fold_left (fun acc d => acc * base + d) l 0.

Lemma fold_be base l acc :
  fold_left (fun acc d => acc * base + d) l acc = acc * base ^ length l + be_val base l.
Proof.
  unfold be_val. revert acc. induction l as [|d l IH]; intros acc; [simpl; lia|].
  simpl length. rewrite Nat2Z.inj_succ, Z.pow_succ_r by lia. cbn [fold_left].
  rewrite IH, (IH (0 * base + d)). lia.
Qed.

Lemma be_val_cons base d l : be_val base (d :: l) = d * base ^ length l + be_val base l.
Proof. unfold be_val at 1. cbn [fold_left]. rewrite fold_be. f_equal. Qed.

Lemma be_val_app base l1 l2 :
  be_val base (l1 ++ l2) = be_val base l1 * base ^ length l2 + be_val base l2.
Proof. unfold be_val at 1. by rewrite fold_left_app, fold_be. Qed.

Lemma be_val_snoc base d l : be_val base (l ++ [d]) = be_val base l * base + d.
Proof. rewrite be_val_app. unfold be_val at 2. simpl. lia. Qed.

Lemma be_val_range base l :
  0 < base -> Forall (fun d => 0 <= d < base) l -> 0 <= be_val base l < base ^ length l.
Proof.
  intros Hb. induction 1 as [|d l Hd _ IH]; [unfold be_val; simpl; lia|].
  rewrite be_val_cons. simpl length. rewrite Nat2Z.inj_succ, Z.pow_succ_r by lia. nia.
Qed.

Lemma be_val_inj base l1 l2 :
  0 < base -> Forall (fun d => 0 <= d < base) l1 -> Forall (fun d => 0 <= d < base) l2 ->
  length l1 = length l2 -> be_val base l1 = be_val base l2 -> l1 = l2.
Proof.
  intros Hb H1. revert l2. induction H1 as [|d1 l1 Hd1 Hl1 IH]; intros [|d2 l2] H2 Hl Hv; try done.
  inversion H2; subst. rewrite !be_val_cons in Hv. simplify_eq/=.
  pose proof (be_val_range base l1 Hb Hl1). pose proof (be_val_range base l2 Hb ltac:(done)).
  rewrite <- Hl in *. set (B := base ^ length l1) in *.
  assert (d1 = d2) as -> by nia. f_equal. apply IH; [done|done|nia].
Qed.

Lemma be_val_reverse l : be_val 256 (reverse l) = le_val l.
Proof. induction l as [|b l IH]; [done|]. rewrite reverse_cons, be_val_snoc, IH. simpl. lia. Qed.

(** ** Digits in a base, most significant first, on a fixed number of places *)

Fixpoint digits (base : Z) (n : nat) (z : Z) : list Z :=
  match n with
  | O => []
  | S n' => digits base n' (z / base) ++ [z mod base]
  end.

Lemma length_digits base n z : length (digits base n z) = n.
Proof. revert z. induction n; intros; simpl; [done|]. rewrite length_app, IHn. simpl. lia. Qed.

Lemma digits_range base n z : 0 < base -> Forall (fun d => 0 <= d < base) (digits base n z).
Proof.
  intros Hb. revert z. induction n; intros; simpl; [constructor|].
  apply Forall_app. split; [done|]. repeat constructor; apply Z.mod_pos_bound; lia.
Qed.

Lemma be_val_digits base (n : nat) z : 0 < base -> 0 <= z < base ^ n -> be_val base (digits base n z) = z.
Proof.
  intros Hb. revert z. induction n as [|n IH]; intros z Hz; [simpl in *; unfold be_val; simpl; lia|].
  rewrite Nat2Z.inj_succ, Z.pow_succ_r in Hz by lia. simpl. rewrite be_val_snoc, IH.
  - pose proof (Z.div_mod z base ltac:(lia)). lia.
  - split; [apply Z.div_pos; lia|]. apply Z.div_lt_upper_bound; lia.
Qed.

Lemma digits_be_val base l :
  0 < base -> Forall (fun d => 0 <= d < base) l -> digits base (length l) (be_val base l) = l.
Proof.
  intros Hb Hl. apply (be_val_inj base); [done|by apply digits_range|done|apply length_digits|].
  apply be_val_digits; [done|]. by apply be_val_range.
Qed.

Lemma digits_0 base n : 0 < base -> digits base n 0 = replicate n 0.
Proof.
  intros Hb. induction n; [done|]. cbn [digits]. rewrite Z.div_0_l, Z.mod_0_l by lia.
  rewrite IHn. by rewrite <- replicate_cons_app.
Qed.

(** The bytes of a string literal. *)
Definition str_bytes (s : string) : list Z :=
  map (fun a => Z.of_N (Ascii.N_of_ascii a)) (String.list_ascii_of_string s).

(** ** Lists *)

Lemma foldl_length {A B} (f : list A -> B -> list A) l xs :
  (forall l x, length (f l x) = length l) -> length (foldl f l xs) = length l.
Proof. intros Hf. revert l. induction xs as [|x xs IH]; intros l; [done|]. simpl. by rewrite IH, Hf. Qed.

Lemma foldl_ext_in {A B} (f g : A -> B -> A) a xs :
  (forall a x, x ∈ xs -> f a x = g a x) -> foldl f a xs = foldl g a xs.
Proof.
  intros H. revert a. induction xs as [|x xs IH]; intros a; [done|]. simpl.
  rewrite H by (by left). apply IH. intros a' y Hy. apply H. by right.
Qed.

Lemma length_flat_map_const {A B} (f : A -> list B) k l :
  (forall x, length (f x) = k) -> length (flat_map f l) = (k * length l)%nat.
Proof. intros Hf. induction l as [|x l IH]; simpl; [lia|]. rewrite length_app, Hf, IH. lia. Qed.

Lemma take_flat_map_const {A B} (f : A -> list B) k n l :
  (forall x, length (f x) = k) -> take (k * n) (flat_map f l) = flat_map f (take n l).
Proof.
  intros Hf. revert n. induction l as [|x l IH]; intros [|n]; simpl;
    rewrite ?Nat.mul_0_r, ?take_nil; try done.
  replace (k * S n)%nat with (length (f x) + k * n)%nat by (rewrite Hf; lia).
  by rewrite take_app_add', IH.
Qed.

Lemma strongly_sorted_lookup {A} (R : A -> A -> Prop) l i j x y :
  StronglySorted R l -> (i < j)%nat -> l !! i = Some x -> l !! j = Some y -> R x y.
Proof.
  intros HS. revert i j. induction HS as [|a l HS IH HF]; intros i j Hij Hx Hy; [done|].
  destruct i as [|i], j as [|j]; try lia; simplify_eq/=.
  - eapply Forall_lookup_1; eauto.
  - eapply IH; [|done|done]. lia.
Qed.

Lemma filter_Forall_id {A} (P : A -> Prop) `{!forall x, Decision (P x)} l : Forall P l -> filter P l = l.
Proof. induction 1 as [|x l Hx _ IH]; [done|]. by rewrite filter_cons_True, IH. Qed.

(** The last [n] elements. *)
Definition lastn {A} (n : nat) (l : list A) : list A := drop (length l - n) l.

Lemma length_lastn {A} n (l : list A) : length (lastn n l) = (n `min` length l)%nat.
Proof. unfold lastn. rewrite length_drop. lia. Qed.

Lemma lastn_all {A} n (l : list A) : (length l <= n)%nat -> lastn n l = l.
Proof. intros. unfold lastn. replace (length l - n)%nat with 0%nat by lia. apply drop_0. Qed.

Lemma lastn_snoc {A} n (l : list A) x : lastn (S n) (l ++ [x]) = lastn n l ++ [x].
Proof.
  unfold lastn. rewrite length_app. simpl. replace (length l + 1 - S n)%nat with (length l - n)%nat by lia.
  by rewrite drop_app_le by lia.
Qed.

Lemma lastn_lastn {A} n m (l : list A) : (n <= m)%nat -> lastn n (lastn m l) = lastn n l.
Proof. intros. unfold lastn. rewrite length_drop, drop_drop. f_equal. lia. Qed.

(** Occurrences of a value. *)
Definition occ (v : Z) (l : list Z) : Z := Z.of_nat (length (filter (fun x => x = v) l)).

Lemma occ_cons v x l : occ v (x :: l) = (if decide (x = v) then 1 else 0) + occ v l.
Proof. unfold occ. rewrite filter_cons. case_decide; simpl; lia. Qed.

Lemma occ_app v l1 l2 : occ v (l1 ++ l2) = occ v l1 + occ v l2.
Proof. unfold occ. rewrite filter_app, length_app. lia. Qed.

Lemma occ_le_length v l : 0 <= occ v l <= length l.
Proof. unfold occ. pose proof (length_filter (fun x => x = v) l). lia. Qed.

Lemma occ_sum_le_length ks l : NoDup ks -> foldr Z.add 0 (map (fun k => occ k l) ks) <= length l.
Proof.
  intros Hks. induction l as [|x l IH].
  - assert (foldr Z.add 0 (map (fun k => occ k []) ks) = 0) as ->; [|done].
    clear Hks. induction ks as [|k ks IH]; [done|]. simpl. rewrite IH. done.
  - assert (foldr Z.add 0 (map (fun k => occ k (x :: l)) ks) <= 1 + foldr Z.add 0 (map (fun k => occ k l) ks)); [|simpl length; lia].
    clear IH. induction Hks as [|k ks Hk Hks IH]; [simpl; lia|]. cbn [map foldr]. rewrite occ_cons.
    case_decide as E; [|lia]. subst k.
    assert (map (fun k => occ k (x :: l)) ks = map (fun k => occ k l) ks) as ->; [|lia].
    apply list_fmap_ext. intros i k Hi. rewrite occ_cons. case_decide; [|lia]. subst.
    exfalso. apply Hk. by eapply list_elem_of_lookup_2.
Qed.

(** A strictly increasing list of integers of a bounded interval is short. *)
Lemma sorted_length l lo hi :
  StronglySorted Z.lt l -> Forall (fun x => lo <= x < hi) l -> lo <= hi -> length l <= hi - lo.
Proof.
  intros HS. revert lo. induction HS as [|x l HS IH Hx]; intros lo HF Hle; [simpl; lia|].
  apply Forall_cons in HF as [H1 HF]. cbn [length].
  assert (length l <= hi - (x + 1)); [|lia]. apply IH; [|lia].
  apply Forall_forall. intros y Hy. rewrite Forall_forall in HF, Hx. specialize (HF y Hy). specialize (Hx y Hy). lia.
Qed.

Lemma filter_none {A} (P : A -> Prop) `{!forall x, Decision (P x)} l : Forall (fun x => ~ P x) l -> filter P l = [].
Proof. induction 1; [done|]. by rewrite filter_cons_False. Qed.

Lemma filter_every {A} (P : A -> Prop) `{!forall x, Decision (P x)} l : Forall P l -> filter P l = l.
Proof. induction 1; [done|]. rewrite filter_cons_True by done. by f_equal. Qed.

Lemma forallb_spec {A} (f : A -> bool) (P : A -> Prop) l : (forall x, f x = true <-> P x) -> forallb f l = true <-> Forall P l.
Proof. intros Hf. induction l as [|x l IH]; cbn; [split; [by constructor|done]|]. by rewrite andb_true_iff, Forall_cons, Hf, IH. Qed.

Lemma strongly_lookup {A} (R : A -> A -> Prop) l i j x y : StronglySorted R l -> l !! i = Some x -> l !! j = Some y -> (i < j)%nat -> R x y.
Proof.
  intros Hs. revert i j. induction Hs as [|a l Hs IH HF]; intros i j Hi Hj Hlt; [by rewrite lookup_nil in Hi|]. destruct j as [|j]; [lia|]. cbn in Hj. destruct i as [|i]; cbn in Hi.
  - simplify_eq. rewrite Forall_forall in HF. apply HF. by eapply list_elem_of_lookup_2.
  - apply (IH i j); [done..|lia].
Qed.

Lemma strict_nodup l : StronglySorted Z.lt l -> NoDup l.
Proof. induction 1 as [|a l _ IH HF]; [constructor|]. constructor; [|done]. intros Hin. rewrite Forall_forall in HF. specialize (HF a Hin). lia. Qed.
