(* ===== verification/IntUtil.v ===== *)
(** * IntUtil: contrib/epee/include/int-util.h and contrib/epee/src/int-util.cpp

    The 64-bit helpers the consensus code is written with: 64x64->128
    multiplication, long division, saturating addition and byte swapping.
    Out-parameters become components of the result. *)
From S2P Require Import Prelude.
Local Open Scope mach_scope.

(** ** Definitions *)

Definition rol32 (x r : Z) : Z :=
  Z.lor (u32 (Z.shiftl x (Z.land r 31))) (Z.shiftr x (Z.land (- r) 31)).

Definition rol64 (x r : Z) : Z :=
  Z.lor (u64 (Z.shiftl x (Z.land r 63))) (Z.shiftr x (Z.land (- r) 63)).

Definition hi_dword (val : Z) : Z := Z.shiftr val 32.
Definition lo_dword (val : Z) : Z := Z.land val 0xFFFFFFFF.

(** [mul128] returns [(product_lo, product_hi)]. *)
Definition mul128 (multiplier multiplicand : Z) : Z * Z :=
  let a := hi_dword multiplier in
  let b := lo_dword multiplier in
  let c := hi_dword multiplicand in
  let d := lo_dword multiplicand in
  let ac := a ⊠ c in
  let ad := a ⊠ d in
  let bc := b ⊠ c in
  let bd := b ⊠ d in
  let adbc := ad ⊞ bc in
  let adbc_carry := if adbc <? ad then 1 else 0 in
  let product_lo := bd ⊞ u64 (Z.shiftl adbc 32) in
  let product_lo_carry := if product_lo <? bd then 1 else 0 in
  let product_hi := ac ⊞ Z.shiftr adbc 32 ⊞ u64 (Z.shiftl adbc_carry 32) ⊞ product_lo_carry in
  (product_lo, product_hi).

(** Returns [(quotient, remainder)]; the remainder of the previous digit is
    an argument.  A zero divisor is undefined in the source. *)
Definition div_with_reminder (dividend divisor remainder : Z) : Z * Z :=
  let dividend := Z.lor dividend (u64 (Z.shiftl remainder 32)) in
  (dividend / divisor, u32 (dividend mod divisor)).

(** Returns [(quotient_hi, quotient_lo, remainder)]. *)
Definition div128_32 (dividend_hi dividend_lo divisor : Z) : Z * Z * Z :=
  let '(q3, r3) := div_with_reminder (hi_dword dividend_hi) divisor 0 in
  let '(q2, r2) := div_with_reminder (lo_dword dividend_hi) divisor r3 in
  let '(q1, r1) := div_with_reminder (hi_dword dividend_lo) divisor r2 in
  let '(q0, r0) := div_with_reminder (lo_dword dividend_lo) divisor r1 in
  (Z.lor (u64 (Z.shiftl q3 32)) q2, Z.lor (u64 (Z.shiftl q1 32)) q0, r0).

(** Returns [(quotient_hi, quotient_lo, remainder_hi, remainder_lo)]. *)
Definition div128_64 (dividend_hi dividend_lo divisor : Z) : Z * Z * Z * Z :=
  let dividend := Z.lor (u128 (Z.shiftl dividend_hi 64)) dividend_lo in
  let q := dividend / divisor in
  let r := dividend mod divisor in
  (Z.land (Z.shiftr q 64) 0xffffffffffffffff, Z.land q 0xffffffffffffffff,
   Z.land (Z.shiftr r 64) 0xffffffffffffffff, Z.land r 0xffffffffffffffff).

Definition add64clamp (value add : Z) : Z :=
  if UINT64_MAX ⊟ add <? value then UINT64_MAX else value ⊞ add.

Definition sub64clamp (value sub : Z) : Z :=
  if value <? sub then 0 else value ⊟ sub.

Definition swap16 (x : Z) : Z :=
  wrap 16 (Z.lor (Z.shiftl (Z.land x 0x00ff) 8) (Z.shiftr (Z.land x 0xff00) 8)).

Definition swap32 (x : Z) : Z :=
  let x := Z.lor (u32 (Z.shiftl (Z.land x 0x00ff00ff) 8)) (Z.shiftr (Z.land x 0xff00ff00) 8) in
  Z.lor (u32 (Z.shiftl x 16)) (Z.shiftr x 16).

Definition swap64 (x : Z) : Z :=
  let x := Z.lor (u64 (Z.shiftl (Z.land x 0x00ff00ff00ff00ff) 8))
                 (Z.shiftr (Z.land x 0xff00ff00ff00ff00) 8) in
  let x := Z.lor (u64 (Z.shiftl (Z.land x 0x0000ffff0000ffff) 16))
                 (Z.shiftr (Z.land x 0xffff0000ffff0000) 16) in
  Z.lor (u64 (Z.shiftl x 32)) (Z.shiftr x 32).

(** The macro [SWAP64]. *)
Definition SWAP64 (x : Z) : Z :=
  Z.lor (Z.lor (Z.lor (Z.lor (Z.lor (Z.lor (Z.lor
    (u64 (Z.shiftl (Z.land x 0x00000000000000ff) 56))
    (u64 (Z.shiftl (Z.land x 0x000000000000ff00) 40)))
    (u64 (Z.shiftl (Z.land x 0x0000000000ff0000) 24)))
    (u64 (Z.shiftl (Z.land x 0x00000000ff000000) 8)))
    (Z.shiftr (Z.land x 0x000000ff00000000) 8))
    (Z.shiftr (Z.land x 0x0000ff0000000000) 24))
    (Z.shiftr (Z.land x 0x00ff000000000000) 40))
    (Z.shiftr (Z.land x 0xff00000000000000) 56).

(** On a little-endian host [SWAP64LE] is the identity and [SWAP64BE] swaps;
    the development fixes that byte order. *)
Definition SWAP64LE (x : Z) : Z := x.
Definition SWAP64BE (x : Z) : Z := SWAP64 x.

(** ** Lemmas *)

Lemma hi_dword_div x : hi_dword x = x / 2 ^ 32.
Proof. apply shiftr_div. lia. Qed.

Lemma lo_dword_mod x : lo_dword x = x mod 2 ^ 32.
Proof. apply (land_ones_mod x 32). lia. Qed.

(** The carry test [s < x] of an unsigned sum. *)
Lemma add_carry x y :
  is_u64 x -> is_u64 y ->
  (x ⊞ y) + 2 ^ 64 * (if x ⊞ y <? x then 1 else 0) = x + y.
Proof.
  unfold is_uint, wrap. intros Hx Hy. bcase; Z.div_mod_to_equations; nia.
Qed.

Lemma dword_mul a b : 0 <= a < 2 ^ 32 -> 0 <= b < 2 ^ 32 -> is_u64 (a * b) /\ a * b <= (2 ^ 32 - 1) * (2 ^ 32 - 1).
Proof. unfold is_uint. change (2 ^ 64) with (2 ^ 32 * 2 ^ 32). nia. Qed.

Lemma dword_range x : is_u64 x -> 0 <= hi_dword x < 2 ^ 32 /\ 0 <= lo_dword x < 2 ^ 32.
Proof.
  rewrite hi_dword_div, lo_dword_mod. unfold is_uint. intros.
  split; Z.div_mod_to_equations; lia.
Qed.

Lemma dword_split x : x = hi_dword x * 2 ^ 32 + lo_dword x.
Proof. rewrite hi_dword_div, lo_dword_mod. Z.div_mod_to_equations; lia. Qed.

Lemma mul128_correct x y lo hi :
  is_u64 x -> is_u64 y -> mul128 x y = (lo, hi) ->
  lo + 2 ^ 64 * hi = x * y /\ is_u64 lo /\ is_u64 hi.
Proof.
  intros Hx Hy. unfold mul128.
  pose proof (dword_range x Hx) as [Ha Hb]. pose proof (dword_range y Hy) as [Hc Hd].
  pose proof (dword_split x) as Ex. pose proof (dword_split y) as Ey.
  set (a := hi_dword x) in *. set (b := lo_dword x) in *.
  set (c := hi_dword y) in *. set (d := lo_dword y) in *.
  destruct (dword_mul a c) as [Hac Lac]; [done..|]. destruct (dword_mul a d) as [Had Lad]; [done..|].
  destruct (dword_mul b c) as [Hbc Lbc]; [done..|]. destruct (dword_mul b d) as [Hbd Lbd]; [done..|].
  rewrite !(wrap_small 64 (_ * _)) by done.
  pose proof (add_carry (a * d) (b * c) Had Hbc) as Hcarry.
  assert (is_u64 (a * d ⊞ b * c)) as Hs by (apply wrap_range; lia).
  set (s := a * d ⊞ b * c) in *. set (k := if s <? a * d then 1 else 0) in *.
  assert (0 <= k <= 1) as Hk by (unfold k; case_match; lia). clearbody k s.
  rewrite !shiftl_mul, !shiftr_div by lia.
  assert (is_u64 (u64 (s * 2 ^ 32))) as Hs' by (apply wrap_range; lia).
  pose proof (add_carry (b * d) (u64 (s * 2 ^ 32)) Hbd Hs') as Hlo.
  assert (is_u64 (b * d ⊞ u64 (s * 2 ^ 32))) as Hl by (apply wrap_range; lia).
  set (l := b * d ⊞ u64 (s * 2 ^ 32)) in *.
  set (m := if l <? b * d then 1 else 0) in *.
  assert (0 <= m <= 1) as Hm by (unfold m; case_match; lia). clearbody m l.
  intros [= <- <-].
  assert (u64 (s * 2 ^ 32) = (s mod 2 ^ 32) * 2 ^ 32) as Es.
  { unfold wrap. change (2 ^ 64) with (2 ^ 32 * 2 ^ 32). rewrite Z.mul_mod_distr_r by lia. done. }
  assert (u64 (k * 2 ^ 32) = k * 2 ^ 32) as -> by (apply wrap_small; unfold is_uint; lia).
  assert (Hprod : x * y = a * c * 2 ^ 64 + (a * d + b * c) * 2 ^ 32 + b * d).
  { rewrite Ex, Ey. ring. }
  assert (Hbound : x * y < 2 ^ 64 * 2 ^ 64) by (unfold is_uint in Hx, Hy; nia).
  rewrite Es in Hlo.
  assert (Hsum : l + 2 ^ 64 * (a * c + s / 2 ^ 32 + k * 2 ^ 32 + m) = x * y).
  { rewrite Hprod, <- Hcarry. pose proof (Z.div_mod s (2 ^ 32) ltac:(lia)). nia. }
  assert (0 <= s / 2 ^ 32) by (apply Z.div_pos; unfold is_uint in Hs; lia).
  assert (is_u64 (a * c + s / 2 ^ 32 + k * 2 ^ 32 + m)) as Hfin.
  { unfold is_uint in *. split; [lia|]. nia. }
  rewrite (wrap_small 64 (a * c + s / 2 ^ 32)), (wrap_small 64 (a * c + s / 2 ^ 32 + _)),
    (wrap_small 64 (_ + m)) by (unfold is_uint in *; lia).
  done.
Qed.

Lemma div_with_reminder_correct x d r q r' :
  0 <= x < 2 ^ 32 -> 0 < d < 2 ^ 32 -> 0 <= r < d ->
  div_with_reminder x d r = (q, r') ->
  r * 2 ^ 32 + x = q * d + r' /\ 0 <= r' < d /\ 0 <= q < 2 ^ 32.
Proof.
  intros Hx Hd Hr. unfold div_with_reminder. rewrite shiftl_mul by lia.
  rewrite (wrap_small 64) by (unfold is_uint; nia).
  rewrite lor_disjoint_l by lia. set (n := r * 2 ^ 32 + x). intros [= <- <-].
  pose proof (Z.mod_pos_bound n d ltac:(lia)).
  rewrite wrap_small by (unfold is_uint; lia).
  pose proof (Z.div_mod n d ltac:(lia)). split_and!; try lia.
  - apply Z.div_pos; lia.
  - apply Z.div_lt_upper_bound; lia.
Qed.

Lemma div128_32_correct hi lo d qh ql r :
  is_u64 hi -> is_u64 lo -> 0 < d < 2 ^ 32 ->
  div128_32 hi lo d = (qh, ql, r) ->
  hi * 2 ^ 64 + lo = (qh * 2 ^ 64 + ql) * d + r /\ 0 <= r < d /\ is_u64 qh /\ is_u64 ql.
Proof.
  intros Hhi Hlo Hd. unfold div128_32.
  pose proof (dword_range hi Hhi) as [H3 H2]. pose proof (dword_range lo Hlo) as [H1 H0].
  pose proof (dword_split hi) as Eh. pose proof (dword_split lo) as El.
  destruct (div_with_reminder (hi_dword hi) d 0) as [q3 r3] eqn:E3.
  apply div_with_reminder_correct in E3 as (? & ? & ?); [|lia..].
  destruct (div_with_reminder (lo_dword hi) d r3) as [q2 r2] eqn:E2.
  apply div_with_reminder_correct in E2 as (? & ? & ?); [|lia..].
  destruct (div_with_reminder (hi_dword lo) d r2) as [q1 r1] eqn:E1.
  apply div_with_reminder_correct in E1 as (? & ? & ?); [|lia..].
  destruct (div_with_reminder (lo_dword lo) d r1) as [q0 r0] eqn:E0.
  apply div_with_reminder_correct in E0 as (? & ? & ?); [|lia..].
  rewrite !shiftl_mul, !wrap_small, !lor_disjoint by (unfold is_uint; lia).
  intros [= <- <- <-]. unfold is_uint. split_and!; try lia.
Qed.

Lemma div128_64_correct hi lo d :
  is_u64 hi -> is_u64 lo -> is_u64 d -> 0 < d ->
  exists qh ql rl, div128_64 hi lo d = (qh, ql, 0, rl) /\
    hi * 2 ^ 64 + lo = (qh * 2 ^ 64 + ql) * d + rl /\ 0 <= rl < d /\ is_u64 qh /\ is_u64 ql.
Proof.
  unfold is_uint. intros Hhi Hlo Hd Hd0. unfold div128_64.
  rewrite shiftl_mul by lia. rewrite (wrap_small 128) by (unfold is_uint; lia).
  rewrite lor_disjoint by lia. set (n := hi * 2 ^ 64 + lo).
  change 18446744073709551615 with (2 ^ 64 - 1).
  rewrite !land_ones_mod, !shiftr_div by lia.
  assert (0 <= n < 2 ^ 64 * 2 ^ 64) as Hn by (unfold n; lia). clearbody n.
  pose proof (Z.mod_pos_bound n d ltac:(lia)) as Hr. pose proof (Z.div_mod n d ltac:(lia)) as En.
  assert (0 <= n / d < 2 ^ 64 * 2 ^ 64) as Hq.
  { split; [apply Z.div_pos; lia|]. apply Z.div_lt_upper_bound; nia. }
  assert (Hqh : (n / d) / 2 ^ 64 < 2 ^ 64) by (apply Z.div_lt_upper_bound; lia).
  assert (0 <= (n / d) / 2 ^ 64) by (apply Z.div_pos; lia).
  eexists _, _, _. split_and!.
  - f_equal. f_equal. rewrite (Z.div_small (n mod d)) by lia. done.
  - rewrite (Z.mod_small (n / d / _)), (Z.mod_small (n mod d)) by lia.
    pose proof (Z.div_mod (n / d) (2 ^ 64) ltac:(lia)). nia.
  - rewrite Z.mod_small; lia.
  - rewrite Z.mod_small; lia.
  - apply Z.mod_pos_bound; lia.
  - apply Z.mod_pos_bound; lia.
  - apply Z.mod_pos_bound; lia.
  - apply Z.mod_pos_bound; lia.
Qed.

(** Byte [k / 8] of a word, selected by a mask. *)
Lemma land_byte x k : 0 <= k -> Z.land x (255 * 2 ^ k) = ((x / 2 ^ k) mod 256) * 2 ^ k.
Proof. apply (land_field x 8 k). lia. Qed.

Lemma lor_horner a b n m :
  0 <= n -> m = n + 8 -> 0 <= b < 256 -> Z.lor (a * 2 ^ m) (b * 2 ^ n) = (a * 256 + b) * 2 ^ n.
Proof.
  intros Hn -> Hb. assert (2 ^ (n + 8) = 2 ^ n * 256) as E by (rewrite Z.pow_add_r by lia; done).
  pose proof (pow2_pos n Hn).
  rewrite lor_disjoint by nia. rewrite E. ring.
Qed.

(** [SWAP64] reverses the eight bytes of a word. *)
Lemma SWAP64_le_val l :
  bytes l -> length l = 8%nat -> SWAP64 (le_val l) = le_val (reverse l).
Proof.
  intros Hl Hlen. do 9 (destruct l as [|? l]; try discriminate Hlen).
  unfold bytes in Hl. decompose_Forall_hyps. unfold is_uint in *.
  change (2 ^ 8) with 256 in *. cbv [reverse]; cbn [rev_append le_val].
  set (x := z + _).
  unfold SWAP64.
  change 0x00000000000000ff with (255 * 2 ^ 0). change 0x000000000000ff00 with (255 * 2 ^ 8).
  change 0x0000000000ff0000 with (255 * 2 ^ 16). change 0x00000000ff000000 with (255 * 2 ^ 24).
  change 0x000000ff00000000 with (255 * 2 ^ 32). change 0x0000ff0000000000 with (255 * 2 ^ 40).
  change 0x00ff000000000000 with (255 * 2 ^ 48). change 0xff00000000000000 with (255 * 2 ^ 56).
  rewrite !land_byte by lia.
  assert ((x / 2 ^ 0) mod 256 = z) as -> by (unfold x; zlia).
  assert ((x / 2 ^ 8) mod 256 = z0) as -> by (unfold x; zlia).
  assert ((x / 2 ^ 16) mod 256 = z1) as -> by (unfold x; zlia).
  assert ((x / 2 ^ 24) mod 256 = z2) as -> by (unfold x; zlia).
  assert ((x / 2 ^ 32) mod 256 = z3) as -> by (unfold x; zlia).
  assert ((x / 2 ^ 40) mod 256 = z4) as -> by (unfold x; zlia).
  assert ((x / 2 ^ 48) mod 256 = z5) as -> by (unfold x; zlia).
  assert ((x / 2 ^ 56) mod 256 = z6) as -> by (unfold x; zlia).
  clear x. rewrite !shiftl_mul, !shiftr_div by lia.
  rewrite !wrap_small by (unfold is_uint; lia).
  replace (z * 2 ^ 0 * 2 ^ 56) with (z * 2 ^ 56) by lia.
  replace (z0 * 2 ^ 8 * 2 ^ 40) with (z0 * 2 ^ 48) by lia.
  replace (z1 * 2 ^ 16 * 2 ^ 24) with (z1 * 2 ^ 40) by lia.
  replace (z2 * 2 ^ 24 * 2 ^ 8) with (z2 * 2 ^ 32) by lia.
  replace (z3 * 2 ^ 32 / 2 ^ 8) with (z3 * 2 ^ 24) by zlia.
  replace (z4 * 2 ^ 40 / 2 ^ 24) with (z4 * 2 ^ 16) by zlia.
  replace (z5 * 2 ^ 48 / 2 ^ 40) with (z5 * 2 ^ 8) by zlia.
  replace (z6 * 2 ^ 56 / 2 ^ 56) with (z6 * 2 ^ 0) by zlia.
  rewrite !lor_horner by lia. lia.
Qed.

Lemma SWAP64_involutive x : is_u64 x -> SWAP64 (SWAP64 x) = x.
Proof.
  intros Hx. rewrite <- (le_val_le_bytes 8 x) by exact Hx.
  assert (bytes (reverse (le_bytes 8 x))) by (apply Forall_reverse, le_bytes_bytes).
  rewrite !SWAP64_le_val; [by rewrite reverse_involutive|done..|apply le_bytes_bytes|done].
Qed.
