(* ===== verification/Varint.v ===== *)
(** * Varint: src/common/varint.h

    The base-128 variable-length encoding of unsigned integers.  The output
    iterator becomes the list of bytes written; [read_varint] returns its
    return code, the value of its out-parameter and what is left of the input. *)
From S2P Require Import Prelude.
Local Open Scope mach_scope.

(** ** Definitions *)

Definition EVARINT_OVERFLOW : Z := -1.
Definition EVARINT_REPRESENT : Z := -2.

(** The loop of [write_varint]; every iteration drops seven bits, so [log2 i + 1]
    iterations are enough ([write_varint_unfold]). *)
Fixpoint write_varint_loop (fuel : nat) (i : Z) : list Z :=
  match fuel with
  | O => []
  | S fuel' =>
      if 0x80 <=? i
      then Z.lor (Z.land (u8 i) 0x7f) 0x80 :: write_varint_loop fuel' (Z.shiftr i 7)
      else [u8 i]
  end.

Definition write_varint (i : Z) : list Z :=
  write_varint_loop (S (Z.to_nat (Z.log2 i))) i.

Definition get_varint_data (v : Z) : list Z := write_varint v.

(** [read_varint<bits>]: [shift], [read] and [write] are the loop's variables. *)
Fixpoint read_varint_loop (bits shift read write : Z) (input : list Z) : Z * Z * list Z :=
  match input with
  | [] => (read, write, [])
  | byte :: rest =>
      let read := read + 1 in
      if (bits <=? shift + 7) && (Z.shiftl 1 (bits - shift) <=? byte)
      then (EVARINT_OVERFLOW, write, rest)
      else if (byte =? 0) && negb (shift =? 0)
      then (EVARINT_REPRESENT, write, rest)
      else
        let write := Z.lor write (wrap bits (Z.shiftl (Z.land byte 0x7f) shift)) in
        if Z.land byte 0x80 =? 0
        then (read, write, rest)
        else read_varint_loop bits (shift + 7) read write rest
  end.

Definition read_varint (bits : Z) (input : list Z) : Z * Z * list Z :=
  read_varint_loop bits 0 0 0 input.

Fixpoint get_varint_byte_size_loop (fuel : nat) (val : Z) : Z :=
  match fuel with
  | O => 0
  | S fuel' =>
      let val := Z.shiftr val 7 in
      1 + (if val =? 0 then 0 else get_varint_byte_size_loop fuel' val)
  end.

Definition get_varint_byte_size (val : Z) : Z :=
  get_varint_byte_size_loop (S (Z.to_nat (Z.log2 val))) val.

(** ** Lemmas *)

Lemma log2_shift7 i : 0x80 <= i -> (Z.to_nat (Z.log2 (i / 128)) < Z.to_nat (Z.log2 i))%nat.
Proof.
  intros Hi. change 128 with (2 ^ 7). rewrite <- (Z.shiftr_div_pow2 i 7) by lia.
  rewrite Z.log2_shiftr by lia.
  pose proof (Z.log2_le_mono 0x80 i Hi) as Hl. change (Z.log2 128) with 7 in Hl. lia.
Qed.

Lemma write_varint_fuel n m i :
  0 <= i -> (Z.to_nat (Z.log2 i) < n)%nat -> (Z.to_nat (Z.log2 i) < m)%nat ->
  write_varint_loop n i = write_varint_loop m i.
Proof.
  revert m i. induction n as [|n IH]; intros [|m] i Hi Hn Hm; try lia. simpl.
  case_match; [|done]. bcase_hyps. f_equal. rewrite shiftr_div by lia. change (2 ^ 7) with 128.
  pose proof (log2_shift7 i ltac:(done)). apply IH; [zlia|lia|lia].
Qed.

(** One iteration of the loop: the fuel given by [write_varint] is enough. *)
Lemma write_varint_unfold i :
  0 <= i ->
  write_varint i =
    if 0x80 <=? i then (i mod 128 + 128) :: write_varint (i / 128) else [i].
Proof.
  intros Hi. unfold write_varint at 1. cbn [write_varint_loop]. case_match; bcase_hyps.
  - f_equal.
    + change 0x7f with (2 ^ 7 - 1). rewrite land_ones_mod by lia.
      rewrite Z.lor_comm. change 0x80 with (1 * 2 ^ 7).
      rewrite lor_disjoint by (try apply Z.mod_pos_bound; lia). unfold wrap.
      change (2 ^ 7) with 128. change (2 ^ 8) with (128 * 2). zlia.
    + rewrite shiftr_div by lia. change (2 ^ 7) with 128.
      pose proof (log2_shift7 i ltac:(done)). apply write_varint_fuel; [zlia|lia|lia].
  - f_equal. apply wrap_small. unfold is_uint. change (2 ^ 8) with 256. lia.
Qed.

(** Induction following the loop. *)
Lemma varint_ind (P : Z -> Prop) :
  (forall i, 0 <= i < 128 -> P i) ->
  (forall i, 128 <= i -> P (i / 128) -> P i) ->
  forall i, 0 <= i -> P i.
Proof.
  intros H1 H2 i Hi. apply (Z_lt_induction (fun i => 0 <= i -> P i)); [|done..].
  intros x IH Hx. destruct (Z.lt_ge_cases x 128); [apply H1; lia|].
    apply H2; [done|]. apply IH; zlia.
Qed.

Lemma write_varint_bytes i : 0 <= i -> bytes (write_varint i).
Proof.
  revert i. apply varint_ind; intros i Hi.
  - rewrite write_varint_unfold by lia. case_match; bcase_hyps; [lia|].
    repeat constructor; unfold is_uint; change (2 ^ 8) with 256; lia.
  - intros IH. rewrite write_varint_unfold by lia. case_match; bcase_hyps; [|lia].
    constructor; [|done]. unfold is_uint. change (2 ^ 8) with 256. zlia.
Qed.

Lemma length_write_varint i : 0 <= i -> (0 < length (write_varint i))%nat.
Proof. intros. rewrite write_varint_unfold by done. case_match; simpl; lia. Qed.

Lemma length_write_varint_le (n : nat) : forall i, 0 <= i < 128 ^ n -> (length (write_varint i) <= S (n - 1))%nat.
Proof.
  induction n as [|n IH]; intros i Hi; rewrite write_varint_unfold by lia; case_match; bcase_hyps; cbn [length]; try lia.
  rewrite Nat2Z.inj_succ, Z.pow_succ_r in Hi by lia. destruct n as [|n]; [change (128 ^ 0%nat) with 1 in Hi; lia|].
  assert (Hd : 0 <= i / 128 < 128 ^ S n) by (split; [zlia|apply Z.div_lt_upper_bound; lia]). specialize (IH _ Hd). lia.
Qed.

Lemma length_write_varint_max i : is_u64 i -> (length (write_varint i) <= 10)%nat.
Proof. intros [H1 H2]. apply (length_write_varint_le 10). change (128 ^ 10%nat) with (2 ^ 70). lia. Qed.

Lemma varint_byte_size_fuel i : 0 <= i -> forall n, (Z.to_nat (Z.log2 i) < n)%nat -> get_varint_byte_size_loop n i = length (write_varint i).
Proof.
  revert i. apply (varint_ind (fun i => forall n, (Z.to_nat (Z.log2 i) < n)%nat -> get_varint_byte_size_loop n i = length (write_varint i)));
    intros i Hi; [|intros IH]; intros [|n] Hn; try lia; cbn [get_varint_byte_size_loop]; rewrite write_varint_unfold by lia; rewrite shiftr_div by lia; change (2 ^ 7) with 128.
  - bfalse (0x80 <=? i). rewrite Z.div_small by lia. done.
  - btrue (0x80 <=? i). assert (1 <= i / 128) by zlia. bfalse (i / 128 =? 0). cbn [length]. pose proof (log2_shift7 i Hi). rewrite IH by lia. lia.
Qed.

Lemma varint_byte_size i : 0 <= i -> get_varint_byte_size i = length (write_varint i).
Proof. intros Hi. apply varint_byte_size_fuel; [done|lia]. Qed.

Lemma land_msb b : 0 <= b < 256 -> Z.land b 0x80 = if b <? 128 then 0 else 128.
Proof.
  intros Hb. pose proof (land_field b 1 7 ltac:(lia) ltac:(lia)) as E.
  change ((2 ^ 1 - 1) * 2 ^ 7) with 0x80 in E. rewrite E.
  change (2 ^ 7) with 128. change (2 ^ 1) with 2. case_match; bcase_hyps; zlia.
Qed.

Lemma land_low7 b : Z.land b 0x7f = b mod 128.
Proof. apply (land_ones_mod b 7). lia. Qed.

(** The bits placed by one iteration do not overlap those already read. *)
Lemma varint_place bits shift write b :
  0 <= shift -> 0 <= write < 2 ^ shift -> 0 <= b -> b * 2 ^ shift < 2 ^ bits ->
  Z.lor write (wrap bits (Z.shiftl b shift)) = write + b * 2 ^ shift.
Proof.
  intros Hs Hw Hb Hfit. rewrite shiftl_mul by lia.
  pose proof (pow2_pos shift Hs). rewrite wrap_small by (unfold is_uint; nia).
  rewrite lor_disjoint_l by lia. lia.
Qed.

(** A continuation byte that passes the overflow test. *)
Lemma read_varint_more bits shift read write b rest :
  0 <= shift -> shift + 7 < bits -> 0 <= b < 128 -> 0 <= write < 2 ^ shift ->
  read_varint_loop bits shift read write ((b + 128) :: rest) =
    read_varint_loop bits (shift + 7) (read + 1) (write + b * 2 ^ shift) rest.
Proof.
  intros Hs Hb Hbyte Hw. cbn [read_varint_loop].
  replace (bits <=? shift + 7) with false by (symmetry; apply Z.leb_gt; lia).
  replace (b + 128 =? 0) with false by (symmetry; apply Z.eqb_neq; lia). cbn [andb].
  rewrite land_msb, land_low7 by lia.
  replace (b + 128 <? 128) with false by (symmetry; apply Z.ltb_ge; lia). cbn [Z.eqb].
  replace ((b + 128) mod 128) with b by zlia. rewrite varint_place; [done|lia..|].
  eapply Z.lt_le_trans; [apply (Z.mul_lt_mono_pos_r (2 ^ shift) b (2 ^ 7))|]; [lia| |].
  - change (2 ^ 7) with 128. lia.
  - rewrite <- Z.pow_add_r by lia. apply Z.pow_le_mono_r; lia.
Qed.

(** A final byte that passes both tests. *)
Lemma read_varint_last bits shift read write b rest :
  0 <= shift <= bits -> 0 <= b < 128 -> (b <> 0 \/ shift = 0) ->
  0 <= write < 2 ^ shift -> b * 2 ^ shift < 2 ^ bits ->
  read_varint_loop bits shift read write (b :: rest) =
    (read + 1, write + b * 2 ^ shift, rest).
Proof.
  intros Hs Hbyte Hnz Hw Hfit. cbn [read_varint_loop].
  assert ((bits <=? shift + 7) && (Z.shiftl 1 (bits - shift) <=? b) = false) as ->.
  { apply andb_false_iff. right. apply Z.leb_gt. rewrite shiftl_mul, Z.mul_1_l by lia.
    apply (Z.mul_lt_mono_pos_r (2 ^ shift)); [apply pow2_pos; lia|].
    rewrite <- Z.pow_add_r by lia. by replace (bits - shift + shift) with bits by lia. }
  assert ((b =? 0) && negb (shift =? 0) = false) as ->.
  { destruct Hnz as [?| ->]; [by rewrite (proj2 (Z.eqb_neq b 0))|]. apply andb_false_r. }
  rewrite land_msb, land_low7, Z.mod_small by lia.
  replace (b <? 128) with true by (symmetry; apply Z.ltb_lt; lia). cbn [Z.eqb].
  rewrite varint_place; [done|lia..].
Qed.

Lemma read_write_loop bits i :
  0 <= i -> forall shift read write rest,
  0 <= shift <= bits -> 0 <= write < 2 ^ shift -> i * 2 ^ shift < 2 ^ bits -> (i <> 0 \/ shift = 0) ->
  read_varint_loop bits shift read write (write_varint i ++ rest) =
    (read + length (write_varint i), write + i * 2 ^ shift, rest).
Proof.
  revert i. apply (varint_ind (fun i => forall shift read write rest, _ -> _ -> _ -> _ -> _)).
  - intros i Hi shift read write rest Hs Hw Hfit Hnz. rewrite write_varint_unfold by lia.
    replace (128 <=? i) with false by (symmetry; apply Z.leb_gt; lia).
    cbn [app length]. rewrite read_varint_last by (done || lia). done.
  - intros i Hi IH shift read write rest Hs Hw Hfit Hnz. rewrite write_varint_unfold by lia.
    replace (128 <=? i) with true by (symmetry; apply Z.leb_le; lia).
    pose proof (pow2_pos shift ltac:(lia)).
    assert (2 ^ (shift + 7) = 2 ^ shift * 128) as E7 by (rewrite Z.pow_add_r by lia; done).
    assert (shift + 7 < bits) as Hlt.
    { destruct (Z.lt_ge_cases (shift + 7) bits); [done|]. exfalso.
      pose proof (Z.pow_le_mono_r 2 bits (shift + 7) ltac:(lia) ltac:(lia)). nia. }
    cbn [app length]. rewrite read_varint_more by zlia. rewrite IH; [|lia|zdm|zdm|left; zlia].
    rewrite E7. f_equal; f_equal; [lia|zdm].
Qed.

Lemma read_write_overflow bits i :
  0 <= i -> forall shift read write rest,
  0 <= shift < bits -> 0 <= write < 2 ^ shift -> 2 ^ bits <= i * 2 ^ shift ->
  (read_varint_loop bits shift read write (write_varint i ++ rest)).1.1 = EVARINT_OVERFLOW.
Proof.
  revert i. apply (varint_ind (fun i => forall shift read write rest, _ -> _ -> _ -> _)).
  - intros i Hi shift read write rest Hs Hw Hfit. rewrite write_varint_unfold by lia.
    replace (128 <=? i) with false by (symmetry; apply Z.leb_gt; lia). cbn [app read_varint_loop].
    assert (2 ^ bits = 2 ^ (bits - shift) * 2 ^ shift) as Eb by (rewrite <- Z.pow_add_r by lia; f_equal; lia).
    pose proof (pow2_pos shift ltac:(lia)).
    assert (2 ^ (bits - shift) <= i) as Hle by nia.
    assert (bits - shift < 7) by (apply (Z.pow_lt_mono_r_iff 2); change (2 ^ 7) with 128; lia).
    rewrite shiftl_mul, Z.mul_1_l by lia.
    replace (bits <=? shift + 7) with true by (symmetry; apply Z.leb_le; lia).
    replace (2 ^ (bits - shift) <=? i) with true by (symmetry; apply Z.leb_le; lia). done.
  - intros i Hi IH shift read write rest Hs Hw Hfit. rewrite write_varint_unfold by lia.
    replace (128 <=? i) with true by (symmetry; apply Z.leb_le; lia). cbn [app].
    assert (2 ^ (shift + 7) = 2 ^ shift * 128) as E7 by (rewrite Z.pow_add_r by lia; done).
    pose proof (pow2_pos shift ltac:(lia)).
    destruct (Z.lt_ge_cases (shift + 7) bits).
    + rewrite read_varint_more by zlia. apply IH; [lia|zdm|].
      assert (2 ^ bits = 2 ^ (bits - shift - 7) * 2 ^ (shift + 7)) as Eb
        by (rewrite <- Z.pow_add_r by lia; f_equal; lia).
      apply (Z.le_trans _ (2 ^ (bits - shift - 7) * 2 ^ (shift + 7))); [lia|].
      apply Z.mul_le_mono_nonneg_r; [lia|]. apply Z.div_le_lower_bound; [lia|]. nia.
    + cbn [read_varint_loop]. rewrite shiftl_mul, Z.mul_1_l by lia.
      replace (bits <=? shift + 7) with true by (symmetry; apply Z.leb_le; lia).
      pose proof (Z.pow_le_mono_r 2 (bits - shift) 7 ltac:(lia) ltac:(lia)).
      replace (2 ^ (bits - shift) <=? i mod 128 + 128) with true; [done|].
      symmetry; apply Z.leb_le. zlia.
Qed.

(** What the reader has consumed when it stops without an error. *)
Lemma read_varint_loop_inv bits l :
  bytes l -> forall shift read write n v rest,
  0 <= shift < bits -> 0 <= write < 2 ^ shift -> 0 <= read ->
  read_varint_loop bits shift read write l = (n, v, rest) -> 0 <= n ->
  (exists i, 0 <= i /\ l = write_varint i ++ rest /\ v = write + i * 2 ^ shift /\
     i * 2 ^ shift < 2 ^ bits /\ n = read + length (write_varint i) /\ (i <> 0 \/ shift = 0)) \/
  (rest = [] /\ Forall (fun b => 128 <= b) l /\ n = read + length l).
Proof.
  induction 1 as [|b l Hb Hl IH]; intros shift read write n v rest Hs Hw Hr E Hn.
  { simpl in E. simplify_eq. right. repeat split; [constructor|simpl; lia]. }
  unfold is_uint in Hb. change (2 ^ 8) with 256 in Hb.
  cbn [read_varint_loop] in E. rewrite shiftl_mul, Z.mul_1_l in E by lia.
  destruct (_ && _) eqn:Eo in E; [simplify_eq; done|].
  destruct ((b =? 0) && _) eqn:Ez in E; [simplify_eq; done|].
  assert (Hfit : 2 ^ bits = 2 ^ (bits - shift) * 2 ^ shift) by (rewrite <- Z.pow_add_r by lia; f_equal; lia).
  pose proof (pow2_pos shift ltac:(lia)).
  assert (Hok : shift + 7 < bits \/ b < 2 ^ (bits - shift)).
  { apply andb_false_iff in Eo as [?|?]; bcase_hyps; lia. }
  assert (E7 : 2 ^ (shift + 7) = 2 ^ shift * 128) by (rewrite Z.pow_add_r by lia; done).
  rewrite land_msb, land_low7 in E by lia. destruct (b <? 128) eqn:E128; bcase_hyps; cbn [Z.eqb] in E.
  - left. exists b. rewrite Z.mod_small in E by lia.
    assert (b * 2 ^ shift < 2 ^ bits).
    { destruct Hok; [|nia]. pose proof (Z.pow_lt_mono_r 2 (shift + 7) bits). nia. }
    rewrite varint_place in E by lia. simplify_eq.
    rewrite write_varint_unfold by lia. replace (128 <=? b) with false by (symmetry; apply Z.leb_gt; lia).
    repeat split; [lia|done|].
    apply andb_false_iff in Ez as [?|?]; bcase_hyps; [left; done|]. right. lia.
  - assert (shift + 7 < bits) as Hlt.
    { destruct Hok as [|Hok]; [done|]. assert (7 < bits - shift); [|lia].
      apply (Z.pow_lt_mono_r_iff 2); change (2 ^ 7) with 128; lia. }
    assert (b mod 128 = b - 128) as Em by zlia. rewrite Em, varint_place in E; [|lia..|].
    2: { pose proof (Z.pow_lt_mono_r 2 (shift + 7) bits). nia. }
    apply IH in E as [(i & Hi & -> & -> & Hif & -> & Hnz)|(-> & HF & ->)]; [|right|lia|nia|lia|done].
    + left. exists (b - 128 + 128 * i). assert (i <> 0) by lia.
      rewrite (write_varint_unfold (_ + _)) by lia.
      replace (128 <=? _) with true by (symmetry; apply Z.leb_le; lia).
      replace ((b - 128 + 128 * i) mod 128 + 128) with b by zlia.
      replace ((b - 128 + 128 * i) / 128) with i by zlia.
      assert (2 ^ bits = 2 ^ (bits - shift - 7) * 2 ^ (shift + 7)) as Eb
        by (rewrite <- Z.pow_add_r by lia; f_equal; lia).
      assert (i < 2 ^ (bits - shift - 7)) by nia.
      rewrite E7 in *. split_and!; [lia|done|ring|nia|simpl length; lia|lia].
    + repeat split; [by constructor|simpl length; lia].
Qed.

(** The value fits its type, whatever the input. *)
Lemma read_varint_loop_range bits l : forall shift read write n v rest,
  0 <= bits -> is_uint bits write -> read_varint_loop bits shift read write l = (n, v, rest) -> is_uint bits v.
Proof.
  induction l as [|b l IH]; intros shift read write n v rest Hb Hw E; cbn [read_varint_loop] in E; [by simplify_eq|].
  assert (is_uint bits (Z.lor write (wrap bits (Z.shiftl (Z.land b 127) shift)))) by (apply lor_range; [done..|by apply wrap_range]).
  repeat case_match; simplify_eq; try done. by eapply IH.
Qed.

Lemma read_varint_range bits l n v rest : 0 <= bits -> read_varint bits l = (n, v, rest) -> is_uint bits v.
Proof. intros Hb. apply read_varint_loop_range; [done|]. split; [lia|by apply pow2_pos]. Qed.

Lemma read_varint_written bits i rest :
  0 < bits -> is_uint bits i -> read_varint bits (write_varint i ++ rest) = (length (write_varint i) : Z, i, rest).
Proof.
  intros Hb [Hi Hu]. unfold read_varint. rewrite (read_write_loop bits i Hi 0 0 0 rest) by (simpl; lia). f_equal; f_equal; lia.
Qed.

(** No encoding is a prefix of another. *)
Lemma write_varint_inj n n' s s' : 0 <= n -> 0 <= n' -> write_varint n ++ s = write_varint n' ++ s' -> n = n' /\ s = s'.
Proof.
  intros Hn Hn' E. assert (Hu : forall m, 0 <= m <= n + n' -> is_uint (n + n' + 1) m).
  { intros m Hm. pose proof (Z.pow_gt_lin_r 2 (n + n' + 1) ltac:(lia) ltac:(lia)). unfold is_uint. lia. }
  pose proof (read_varint_written (n + n' + 1) n s ltac:(lia) (Hu n ltac:(lia))) as R.
  pose proof (read_varint_written (n + n' + 1) n' s' ltac:(lia) (Hu n' ltac:(lia))) as R'. rewrite E in R. rewrite R' in R. by injection R as _ -> ->.
Qed.

Lemma read_varint_inv bits l n v rest :
  0 < bits -> bytes l -> read_varint bits l = (n, v, rest) -> 0 <= n ->
  (is_uint bits v /\ l = write_varint v ++ rest /\ n = length (write_varint v)) \/
  (rest = [] /\ Forall (fun b => 128 <= b) l /\ n = length l).
Proof.
  intros Hb Hl E Hn. unfold read_varint in E.
  apply (read_varint_loop_inv bits l Hl) in E as [(i & Hi & -> & -> & Hfit & -> & _)|(-> & HF & ->)];
    [left|right|simpl; lia..].
  - rewrite Z.pow_0_r, Z.mul_1_r in *. rewrite Z.add_0_l. done.
  - repeat split; done || lia.
Qed.

(** An input that ends inside a varint of value zero: bytes 0x80, at most nine of them for 64 bits. *)
Lemma read_varint_loop_zero l : bytes l -> forall bits shift read write n,
  0 <= shift <= bits -> 0 <= write -> Forall (fun b => 128 <= b) l -> l <> [] ->
  read_varint_loop bits shift read write l = (n, 0, []) -> 0 <= n ->
  write = 0 /\ l = replicate (length l) 128 /\ 7 * length l + shift < bits.
Proof.
  induction 1 as [|b l Hb Hl IH]; intros bits shift read write n Hs Hw HF Hne E Hn; [done|].
  apply Forall_cons in HF as [Hb' HF]. unfold is_uint in Hb. change (2 ^ 8) with 256 in Hb.
  cbn [read_varint_loop] in E. rewrite shiftl_mul, Z.mul_1_l in E by lia.
  destruct (_ && _) eqn:Eo in E; [simplify_eq; done|].
  destruct ((b =? 0) && _) eqn:Ez in E; [simplify_eq; done|].
  assert (Hlt : shift + 7 < bits).
  { apply andb_false_iff in Eo as [?|?]; bcase_hyps; [lia|]. destruct (Z.lt_ge_cases (shift + 7) bits) as [|Hge]; [done|].
    pose proof (Z.pow_le_mono_r 2 (bits - shift) 7 ltac:(lia) ltac:(lia)). change (2 ^ 7) with 128 in *. lia. }
  rewrite land_msb, land_low7 in E by lia. destruct (b <? 128) eqn:E128; bcase_hyps; [lia|]. cbn [Z.eqb] in E.
  assert (Hz : forall w, 0 <= w -> Z.lor write w = 0 -> write = 0 /\ w = 0) by (intros w ? ?%Z.lor_eq_0_iff; done).
  assert (Hp : 0 <= wrap bits (Z.shiftl (b mod 128) shift)) by (apply wrap_range; lia).
  assert (Hd : Z.lor write (wrap bits (Z.shiftl (b mod 128) shift)) = 0 -> write = 0 /\ b = 128).
  { intros [-> E0]%Hz; [|done]. split; [done|]. rewrite shiftl_mul in E0 by lia.
    assert (2 ^ (shift + 7) <= 2 ^ bits) by (apply Z.pow_le_mono_r; lia).
    rewrite Z.pow_add_r in * by lia. change (2 ^ 7) with 128 in *. pose proof (pow2_pos shift ltac:(lia)).
    pose proof (Z.mod_pos_bound b 128 ltac:(lia)). rewrite wrap_small in E0 by (unfold is_uint; nia).
    assert (b mod 128 = 0) by nia. zlia. }
  destruct l as [|c l].
  - cbn [read_varint_loop] in E. injection E as _ E. destruct (Hd E) as [-> ->]. repeat split. simpl. lia.
  - apply IH in E as (E0 & El & Hlen); [|lia|apply Z.lor_nonneg; lia|done..]. destruct (Hd E0) as [-> ->].
    split; [done|]. split; [cbn [length replicate]; f_equal; exact El|cbn [length] in *; lia].
Qed.

(** ** Properties *)

(** reading what [write_varint] wrote gives the value back, consumes exactly
    the bytes written and reports their number, for every value of a [bits]-bit
    unsigned type and whatever follows in the stream. *)
Theorem varint_roundtrip bits i rest :
  0 < bits -> is_uint bits i ->
  read_varint bits (get_varint_data i ++ rest) = (length (get_varint_data i) : Z, i, rest).
Proof.
  apply read_varint_written.
Qed.

Lemma varint_roundtrip_witness :
  (0 < 64 /\ is_uint 64 300) /\
  read_varint 64 (get_varint_data 300 ++ [7]) = (length (get_varint_data 300) : Z, 300, [7]).
Proof.
  assert (H : 0 < 64 /\ is_uint 64 300) by (vm_compute; split; [|split]; done || discriminate).
  split; [exact H|]. apply (varint_roundtrip 64 300 [7]); apply H.
Defined.

(** a value that does not fit is refused: reading the encoding of an integer of
    at least [2^bits] as a [bits]-bit integer reports [EVARINT_OVERFLOW]. *)
Theorem varint_overflow_rejected bits i rest :
  0 < bits -> 2 ^ bits <= i ->
  (read_varint bits (get_varint_data i ++ rest)).1.1 = EVARINT_OVERFLOW.
Proof.
  intros Hb Hi. pose proof (pow2_pos bits ltac:(lia)).
  apply read_write_overflow; simpl; lia.
Qed.

Lemma varint_overflow_rejected_witness :
  (0 < 8 /\ 2 ^ 8 <= 300) /\ (read_varint 8 (get_varint_data 300 ++ [])).1.1 = EVARINT_OVERFLOW.
Proof.
  assert (H : 0 < 8 /\ 2 ^ 8 <= 300) by (vm_compute; split; done || discriminate).
  split; [exact H|]. apply (varint_overflow_rejected 8 300 []); apply H.
Defined.

(** the encoding is canonical.  Whenever the reader reports success, either it
    consumed exactly the bytes [write_varint] produces for the value it returns
    (so no integer has two accepted encodings), or the input ended inside a
    varint: every byte had its continuation bit set and nothing is left. *)
Theorem varint_canonical bits l n v rest :
  0 < bits -> bytes l -> read_varint bits l = (n, v, rest) -> 0 <= n ->
  (is_uint bits v /\ l = get_varint_data v ++ rest /\ n = length (get_varint_data v)) \/
  (rest = [] /\ Forall (fun b => 128 <= b) l /\ n = length l).
Proof.
  apply read_varint_inv.
Qed.

Lemma varint_canonical_witness :
  (0 < 64 /\ bytes [172; 2; 9] /\ read_varint 64 [172; 2; 9] = (2, 300, [9]) /\ 0 <= 2) /\
  ((is_uint 64 300 /\ [172; 2; 9] = get_varint_data 300 ++ [9] /\ 2 = length (get_varint_data 300)) \/
   ([9] = [] /\ Forall (fun b => 128 <= b) [172; 2; 9] /\ 2 = length [172; 2; 9])).
Proof.
  assert (H : 0 < 64 /\ bytes [172; 2; 9] /\ read_varint 64 [172; 2; 9] = (2, 300, [9]) /\ 0 <= 2).
  { split_and!; [done| |vm_compute; done|done]. repeat constructor; vm_compute; done || discriminate. }
  split; [exact H|]. apply (varint_canonical 64 [172; 2; 9] 2 300 [9]); apply H.
Defined.
