(* ===== verification/Archive.v ===== *)
(** * Archive: the binary archives of src/serialization

    Models src/serialization/binary_archive.h, serialization.h, container.h,
    containers.h, variant.h, string.h and crypto.h.  The source describes each
    type once, with one list of fields for loading and saving; here that list is
    a [codec], built from the same pieces.  [put] is what [binary_archive<true>]
    writes, [None] when the serializer returns false; [get] is what
    [binary_archive<false>] loads and the bytes it leaves, [None] when the
    serializer returns false or [good_] is cleared: every field macro returns at
    once on a bad archive, so nothing is read after the first failure.

    [Lawful] is the interface the users of a codec rely on. *)
From S2P Require Import Prelude Varint.

#[global] Arguments write_varint : simpl never.
#[global] Arguments read_varint : simpl never.

(** ** Definitions *)

Record codec (A : Type) := mk_codec {
  put : A -> option (list Z);
  get : list Z -> option (A * list Z);
}.
Arguments mk_codec {A} _ _.
Arguments put {A} _ _.
Arguments get {A} _ _.

(** [serialize_uint] on a [n]-byte type. *)
Definition serialize_uint (n : nat) : codec Z := mk_codec
  (fun v => Some (le_bytes n v))
  (fun input => if (n <=? length input)%nat then Some (le_val (take n input), drop n input) else None).

(** [serialize_blob] on a [n]-byte structure. *)
Definition serialize_blob (n : nat) : codec (list Z) := mk_codec
  (fun b => Some b)
  (fun input => if (n <=? length input)%nat then Some (take n input, drop n input) else None).

(** [serialize_varint] on a [bits]-bit type. *)
Definition serialize_varint (bits : Z) : codec Z := mk_codec
  (fun v => Some (write_varint v))
  (fun input => let '(n, v, rest) := read_varint bits input in if 1 <=? n then Some (v, rest) else None).

(** No field. *)
Definition c_unit : codec unit := mk_codec (fun _ => Some []) (fun input => Some (tt, input)).

(** A field, then fields that may depend on its value. *)
Definition c_dep {A B} (c1 : codec A) (c2 : A -> codec B) : codec (A * B) := mk_codec
  (fun '(a, b) => b1 ← put c1 a; b2 ← put (c2 a) b; Some (b1 ++ b2))
  (fun input => '(a, r) ← get c1 input; '(b, r) ← get (c2 a) r; Some (a, b, r)).
Abbreviation c_seq c1 c2 := (c_dep c1 (fun _ => c2)).

(** [if (!p) return false;] after the fields. *)
Definition c_check {A} (p : A -> bool) (c : codec A) : codec A := mk_codec
  (fun a => if p a then put c a else None)
  (fun input => '(a, r) ← get c input; if p a then Some (a, r) else None).

(** The fields of a structure. *)
Definition c_map {A B} (f : A -> B) (g : B -> A) (c : codec A) : codec B := mk_codec
  (fun b => put c (g b))
  (fun input => '(a, r) ← get c input; Some (f a, r)).

(** Fields that are not saved, and a serializer that always fails. *)
Definition c_pure {A} (d : A) : codec A := mk_codec (fun _ => Some []) (fun input => Some (d, input)).
Definition c_fail {A} : codec A := mk_codec (fun _ => None) (fun _ => None).

(** One alternative of a [boost::variant]. *)
Definition c_alt {A B} (f : A -> B) (g : B -> option A) (c : codec A) : codec B := mk_codec
  (fun b => a ← g b; put c a)
  (fun input => '(a, r) ← get c input; Some (f a, r)).

(** [variant_reader]: the first alternative with the tag read. *)
Fixpoint variant_find {A} (alts : list (Z * codec A)) (t : Z) : option (codec A) :=
  match alts with
  | [] => None
  | (t', c) :: alts => if t' =? t then Some c else variant_find alts t
  end.

Definition c_variant {A} (tag_of : A -> Z) (alts : list (Z * codec A)) : codec A := mk_codec
  (fun a => c ← variant_find alts (tag_of a); t ← put (serialize_uint 1) (tag_of a); b ← put c a; Some (t ++ b))
  (fun input => '(t, r) ← get (serialize_uint 1) input; c ← variant_find alts t; get c r).

(** [n] elements, one after the other. *)
Fixpoint get_n {A} (c : codec A) (n : nat) (input : list Z) : option (list A * list Z) :=
  match n with
  | O => Some ([], input)
  | S n' => '(a, r) ← get c input; '(l, r) ← get_n c n' r; Some (a :: l, r)
  end.

Fixpoint put_all {A} (c : codec A) (l : list A) : option (list Z) :=
  match l with
  | [] => Some []
  | a :: l => b ← put c a; bs ← put_all c l; Some (b ++ bs)
  end.

(** [do_serialize_container], on containers whose elements are added at the back. *)
Definition do_serialize_container {A} (c : codec A) (max_cnt : Z) : codec (list A) := mk_codec
  (fun l => if max_cnt <? length l then None
            else n ← put (serialize_varint 64) (Z.of_nat (length l)); b ← put_all c l; Some (n ++ b))
  (fun input => '(cnt, r) ← get (serialize_varint 64) input;
                if (max_cnt <? cnt) || (length r <? cnt) then None else get_n c (Z.to_nat cnt) r).

(** The default [max_cnt]. *)
Definition size_t_max : Z := 2 ^ 64 - 1.
Definition c_list {A} (c : codec A) : codec (list A) := do_serialize_container c size_t_max.

(** [PREPARE_CUSTOM_VECTOR_SERIALIZATION] and the loop after it: [n] elements, the
    count not saved; loading stops when fewer than [min_size] bytes per element are left. *)
Definition prepare_custom_vector_serialization (size : Z) (min_size : Z) (input : list Z) : bool :=
  negb (negb (size =? 0) && (length input / size <? min_size)).

Definition c_vec {A} (n : nat) (min_size : Z) (c : codec A) : codec (list A) := mk_codec
  (fun l => if negb (length l =? n)%nat then None else put_all c l)
  (fun input => if negb (prepare_custom_vector_serialization n min_size input) then None else get_n c n input).

(** [std::string] and [std::vector<uint8_t>]. *)
Definition do_serialize_string : codec (list Z) := mk_codec
  (fun str => n ← put (serialize_varint 64) (Z.of_nat (length str)); Some (n ++ str))
  (fun input => '(size, r) ← get (serialize_varint 64) input;
                if length r <? size then None else get (serialize_blob (Z.to_nat size)) r).

(** [parse_binary], [dump_binary] and the [noeof] variant. *)
Definition parse_binary {A} (c : codec A) (blob : list Z) : option A :=
  '(a, r) ← get c blob; match r with [] => Some a | _ => None end.
Definition serialize_noeof {A} (c : codec A) (blob : list Z) : option A := '(a, _) ← get c blob; Some a.
Definition dump_binary {A} (c : codec A) (a : A) : option (list Z) := put c a.

(** ** The interface

    [ok] are the values the type can hold, [m] a lower bound on their size and
    [tight] the values whose encoding is the only input that loads them even at
    the end of the blob; with bytes left after it, every encoding is. *)
Class Lawful {A} (ok : A -> Prop) (m : nat) (tight : A -> Prop) (c : codec A) : Prop := {
  law_put a : ok a -> exists bs, put c a = Some bs /\ bytes bs /\ (m <= length bs)%nat;
  law_get_put a bs rest : ok a -> put c a = Some bs -> get c (bs ++ rest) = Some (a, rest);
  law_get input a rest : bytes input -> get c input = Some (a, rest) ->
    ok a /\ exists used, input = used ++ rest /\ (tight a \/ rest <> [] -> put c a = Some used);
  law_empty : (0 < m)%nat -> get c [] = None;
}.



(** ** Lemmas *)

Lemma bytes_app l1 l2 : bytes (l1 ++ l2) <-> bytes l1 /\ bytes l2.
Proof. apply Forall_app. Qed.

Lemma lawful_mono {A} (ok ok' : A -> Prop) (m m' : nat) (t t' : A -> Prop) c :
  Lawful ok m t c -> (forall a, ok' a <-> ok a) -> (m' <= m)%nat -> (forall a, ok a -> t' a -> t a) -> Lawful ok' m' t' c.
Proof.
  intros [L1 L2 L3 L4] Hok Hm Ht. split.
  - intros a (bs & ? & ? & ?)%Hok%L1. exists bs. split_and!; [done..|lia].
  - intros a bs rest Ha%Hok. by apply L2.
  - intros input a rest Hi (Ha & used & -> & Hp)%L3; [|done]. split; [by apply Hok|]. exists used. split; [done|].
    intros [?|?]; apply Hp; [left; by apply Ht|by right].
  - intros ?. apply L4. lia.
Qed.

Section codecs.
Context {A B : Type} (ok1 : A -> Prop) (m1 : nat) (t1 : A -> Prop) (c1 : codec A) `{L1 : !Lawful ok1 m1 t1 c1}.

(** What is left is a suffix of the input. *)
Lemma get_suffix input a rest : bytes input -> get c1 input = Some (a, rest) -> exists used, input = used ++ rest.
Proof. intros Hi H. destruct (law_get input a rest Hi H) as (_ & used & ? & _). by exists used. Qed.

Lemma lawful_dep (ok2 : A -> B -> Prop) (m2 : A -> nat) (m : nat) (t2 : A -> B -> Prop) (c2 : A -> codec B) :
  (forall a, ok1 a -> Lawful (ok2 a) (m2 a) (t2 a) (c2 a)) -> (forall a, ok1 a -> (m <= m1 + m2 a)%nat) ->
  Lawful (fun p => ok1 p.1 /\ ok2 p.1 p.2) m (fun p => t2 p.1 p.2 /\ (t1 p.1 \/ (0 < m2 p.1)%nat)) (c_dep c1 c2).
Proof.
  intros L2 Hm. split.
  - intros [a b] [Ha Hb]. specialize (L2 a Ha). destruct (law_put a Ha) as (x & E1 & Hx & Hlx), (law_put b Hb) as (y & E2 & Hy & Hly).
    exists (x ++ y). cbn. rewrite E1; cbn. rewrite E2; cbn. split; [done|]. rewrite bytes_app, length_app. specialize (Hm a Ha). cbn in *. split; [done|lia].
  - intros [a b] bs rest [Ha Hb] E. specialize (L2 a Ha). cbn in E. destruct (put c1 a) as [x|] eqn:E1; [|done]. cbn in E.
    destruct (put (c2 a) b) as [y|] eqn:E2; [|done]. cbn in E. simplify_eq. cbn. rewrite <- app_assoc, (law_get_put a x _ Ha E1). cbn.
    by rewrite (law_get_put b y rest Hb E2).
  - intros input [a b] rest Hi E. cbn in E. destruct (get c1 input) as [[a' r]|] eqn:E1; [|done]. cbn in E.
    destruct (get (c2 a') r) as [[b' r']|] eqn:E2; [|done]. cbn in E. simplify_eq.
    destruct (law_get _ _ _ Hi E1) as (Ha & u1 & -> & H1). apply bytes_app in Hi as [Hu1 Hr].
    pose proof (L2 a Ha) as L2a. destruct (law_get _ _ _ Hr E2) as (Hb & u2 & -> & H2).
    split; [done|]. exists (u1 ++ u2). rewrite app_assoc. split; [done|]. cbn. intros Ht. rewrite H1, H2; [done|tauto|].
    destruct Ht as [[_ [?|Hm2]]|Hn]; [by left|right|right; by destruct u2].
    intros En. rewrite En in E2. pose proof (law_empty Hm2) as E3. congruence.
  - intros Hpos. cbn. destruct (get c1 []) as [[a r]|] eqn:E1; [|done]. cbn.
    destruct (law_get _ _ _ (Forall_nil_2 _) E1) as (Ha & u1 & E & _). destruct u1; [|done]. cbn in E; subst r.
    destruct m1 eqn:Em; [|pose proof (law_empty (Lawful := L1) ltac:(lia)); congruence].
    specialize (L2 a Ha). rewrite (law_empty (c := c2 a)); [done|]. specialize (Hm a Ha). lia.
Qed.

Lemma lawful_check (p : A -> bool) : Lawful (fun a => ok1 a /\ p a = true) m1 t1 (c_check p c1).
Proof.
  split.
  - intros a [Ha Hp]. cbn. rewrite Hp. by apply law_put.
  - intros a bs rest [Ha Hp] E. cbn in *. rewrite Hp in E. rewrite (law_get_put a bs rest Ha E). cbn. by rewrite Hp.
  - intros input a rest Hi E. cbn in *. destruct (get c1 input) as [[a' r]|] eqn:E1; [|done]. cbn in E.
    destruct (p a') eqn:Hp; simplify_eq. destruct (law_get _ _ _ Hi E1) as (Ha & u & -> & H). split; [done|].
    exists u. split; [done|]. by rewrite Hp.
  - intros Hm. cbn. by rewrite law_empty.
Qed.

Lemma lawful_map (f : A -> B) (g : B -> A) :
  (forall a, ok1 a -> g (f a) = a) ->
  Lawful (fun b => ok1 (g b) /\ f (g b) = b) m1 (fun b => t1 (g b)) (c_map f g c1).
Proof.
  intros Hgf. split.
  - intros b [Hb _]. by apply (law_put (g b)).
  - intros b bs rest [Hb Hfg] E. cbn in *. rewrite (law_get_put _ bs rest Hb E). cbn. by rewrite Hfg.
  - intros input b rest Hi E. cbn in *. destruct (get c1 input) as [[a r]|] eqn:E1; [|done]. cbn in E. simplify_eq.
    destruct (law_get _ _ _ Hi E1) as (Ha & u & -> & H). rewrite Hgf by done. split; [done|]. by exists u.
  - intros Hm. cbn. by rewrite law_empty.
Qed.

Lemma lawful_alt (f : A -> B) (g : B -> option A) (okb : B -> Prop) (m : nat) (tb : B -> Prop) :
  (forall a, g (f a) = Some a) -> (forall a, ok1 a -> okb (f a)) -> (forall b, okb b -> exists a, g b = Some a /\ b = f a /\ ok1 a) ->
  (m <= m1)%nat -> (forall a, tb (f a) -> t1 a) ->
  Lawful okb m tb (c_alt f g c1).
Proof.
  intros Hg Hok' Hok Hm Ht. split.
  - intros b (a & _ & -> & Ha)%Hok. cbn. rewrite Hg. cbn. destruct (law_put a Ha) as (bs & ? & ? & ?). exists bs. split_and!; [done..|lia].
  - intros b bs rest (a & _ & -> & Ha)%Hok E. cbn in *. rewrite Hg in E. cbn in E. by rewrite (law_get_put _ bs rest Ha E).
  - intros input b rest Hi E. cbn in *. destruct (get c1 input) as [[a r]|] eqn:E1; [|done]. cbn in E. simplify_eq.
    destruct (law_get _ _ _ Hi E1) as (Ha & u & -> & H). split; [by apply Hok'|]. exists u. rewrite Hg.
    split; [done|]. intros [?|?]; apply H; [left; by apply Ht|by right].
  - intros Hpos. cbn. rewrite law_empty; [done|lia].
Qed.

End codecs.

(** *** Fields *)

Lemma lawful_uint (n : nat) : Lawful (is_uint (8 * n)) n (fun _ => True) (serialize_uint n).
Proof.
  assert (E8 : 2 ^ (8 * n) = 256 ^ n) by (rewrite Z.pow_mul_r by lia; done). split.
  - intros v _. exists (le_bytes n v). rewrite length_le_bytes. split_and!; [done|apply le_bytes_bytes|lia].
  - intros v bs rest [Hv Hv'] E. cbn in *. simplify_eq. rewrite length_app, length_le_bytes.
    destruct (Nat.leb_spec n (n + length rest)); [|lia].
    rewrite take_app_length', drop_app_length' by (by rewrite length_le_bytes). rewrite le_val_le_bytes by lia. done.
  - intros input v rest Hi E. cbn in E. destruct (Nat.leb_spec n (length input)); simplify_eq.
    assert (Ht : bytes (take n input)) by (by apply Forall_take).
    assert (El : length (take n input) = n) by (apply length_take_le; lia).
    pose proof (le_val_range _ Ht) as Hr. rewrite El in Hr. split; [unfold is_uint; lia|].
    exists (take n input). rewrite take_drop. split; [done|]. intros _. cbn. f_equal.
    rewrite <- El at 1. by apply le_bytes_le_val.
  - intros Hn. cbn. destruct n; [lia|done].
Qed.

#[global] Instance lawful_u8 : Lawful is_u8 1 (fun _ => True) (serialize_uint 1) := lawful_uint 1.
#[global] Instance lawful_u32 : Lawful is_u32 4 (fun _ => True) (serialize_uint 4) := lawful_uint 4.

Definition is_blob (n : nat) (b : list Z) : Prop := bytes b /\ length b = n.

#[global] Instance lawful_blob (n : nat) : Lawful (is_blob n) n (fun _ => True) (serialize_blob n).
Proof.
  split.
  - intros b [Hb E]. exists b. split_and!; [done..|lia].
  - intros b bs rest [Hb El] E. cbn in *. simplify_eq. rewrite length_app.
    destruct (Nat.leb_spec (length bs) (length bs + length rest)); [|lia].
    rewrite take_app_length, drop_app_length. done.
  - intros input v rest Hi E. cbn in E. destruct (Nat.leb_spec n (length input)); simplify_eq.
    split; [split; [by apply Forall_take|apply length_take_le; lia]|].
    exists (take n input). rewrite take_drop. done.
  - intros Hn. cbn. destruct n; [lia|done].
Qed.

Lemma lawful_varint bits : 0 < bits -> Lawful (is_uint bits) 1 (fun _ => False) (serialize_varint bits).
Proof.
  intros Hb. split.
  - intros v [Hv _]. exists (write_varint v). split_and!; [done|by apply write_varint_bytes|by apply length_write_varint].
  - intros v bs rest Hv E. cbn [serialize_varint put get] in *. simplify_eq. rewrite read_varint_written by done.
    pose proof (length_write_varint v (proj1 Hv)). btrue (1 <=? length (write_varint v)). done.
  - intros input v rest Hi E. cbn [serialize_varint put get] in *. destruct (read_varint bits input) as [[n v'] r] eqn:E'.
    destruct (1 <=? n) eqn:En; simplify_eq. bcase_hyps. split; [by eapply read_varint_range; [|exact E']; lia|].
    destruct (read_varint_inv _ _ _ _ _ Hb Hi E' ltac:(lia)) as [(_ & -> & _)|(-> & _ & _)].
    + exists (write_varint v). done.
    + exists input. rewrite app_nil_r. split; [done|]. by intros [?|?].
  - done.
Qed.

#[global] Instance lawful_varint64 : Lawful is_u64 1 (fun _ => False) (serialize_varint 64).
Proof. by apply lawful_varint. Qed.

#[global] Instance lawful_unit : Lawful (fun _ => True) 0 (fun _ => True) c_unit.
Proof.
  split; [intros a _; exists []; split_and!; [done|constructor|done]|..].
  - intros [] bs rest _ E. cbn in *. by simplify_eq.
  - intros input [] rest _ E. cbn in E. simplify_eq. split; [done|]. by exists [].
  - lia.
Qed.

#[global] Instance lawful_pure {A} (d : A) : Lawful (fun a => a = d) 0 (fun _ => True) (c_pure d).
Proof.
  split; [intros a _; exists []; split_and!; [done|constructor|done]|..].
  - intros a bs rest -> E. cbn in *. by simplify_eq.
  - intros input a rest _ E. cbn in E. simplify_eq. split; [done|]. by exists [].
  - lia.
Qed.

#[global] Instance lawful_fail {A} (m : nat) (t : A -> Prop) : Lawful (fun _ => False) m t c_fail.
Proof. by split. Qed.

Lemma lawful_if {A} (b : bool) (ok1 ok2 : A -> Prop) (m1 m2 : nat) (t1 t2 : A -> Prop) c1 c2 :
  Lawful ok1 m1 t1 c1 -> Lawful ok2 m2 t2 c2 ->
  Lawful (fun a => if b then ok1 a else ok2 a) (if b then m1 else m2) (fun a => if b then t1 a else t2 a) (if b then c1 else c2).
Proof. by destruct b. Qed.

(** *** Variants *)

Lemma lawful_variant {A} (tag_of : A -> Z) (alts : list (Z * codec A)) (ok : A -> Prop) (m : nat) (t : A -> Prop) :
  Forall (fun p => is_u8 p.1 /\ Lawful (fun a => ok a /\ tag_of a = p.1) m t p.2) alts ->
  (forall a, ok a -> existsb (Z.eqb (tag_of a)) (map fst alts) = true) ->
  Lawful ok (S m) t (c_variant tag_of alts) .
Proof.
  intros HF Hin.
  assert (Hfind : forall g c, variant_find alts g = Some c -> is_u8 g /\ Lawful (fun a => ok a /\ tag_of a = g) m t c).
  { clear Hin. intros g c. induction HF as [|[g' c'] alts [Hg HL] _ IH]; [done|]. cbn. destruct (g' =? g) eqn:Eg; [|done].
    bcase_hyps. intros; by simplify_eq. }
  assert (Hex : forall g, existsb (Z.eqb g) (map fst alts) = true -> exists c, variant_find alts g = Some c).
  { clear. intros g. induction alts as [|[g' c'] alts IH]; cbn; [done|]. rewrite (Z.eqb_sym g').
    destruct (g =? g'); [by eexists|done]. }
  split.
  - intros a Ha. destruct (Hex _ (Hin a Ha)) as [c Ec]. destruct (Hfind _ _ Ec) as [Hg HL].
    destruct (law_put a (conj Ha eq_refl)) as (bs & E & Hbs & Hm). exists (le_bytes 1 (tag_of a) ++ bs). cbn [c_variant put].
    rewrite Ec. cbn [mbind option_bind serialize_uint put]. rewrite E. cbn [mbind option_bind]. split; [done|].
    rewrite bytes_app, length_app, length_le_bytes. split; [split; [apply le_bytes_bytes|done]|lia].
  - intros a bs rest Ha E. destruct (Hex _ (Hin a Ha)) as [c Ec]. destruct (Hfind _ _ Ec) as [Hg HL].
    cbn [c_variant put get] in *. rewrite Ec in E. cbn [mbind option_bind serialize_uint put] in E.
    destruct (put c a) as [b|] eqn:Eb; [|done]. cbn [mbind option_bind] in E. apply (inj Some) in E. subst bs. rewrite <- app_assoc.
    rewrite (law_get_put (c := serialize_uint 1) (tag_of a) _ _ Hg eq_refl). cbn [mbind option_bind]. rewrite Ec. cbn [mbind option_bind].
    by apply (law_get_put a b rest (conj Ha eq_refl)).
  - intros input a rest Hi E. cbn [c_variant put get] in *. destruct (get (serialize_uint 1) input) as [[g r]|] eqn:E1; [|done].
    cbn [mbind option_bind] in E. destruct (variant_find alts g) as [c|] eqn:Ec; [|done]. cbn [mbind option_bind] in E.
    destruct (Hfind _ _ Ec) as [Hg HL]. destruct (law_get _ _ _ Hi E1) as (_ & u1 & -> & H1). apply bytes_app in Hi as [_ Hr].
    destruct (law_get _ _ _ Hr E) as ([Ha <-] & u2 & -> & H2). split; [done|]. exists (u1 ++ u2). rewrite app_assoc. split; [done|].
    intros Ht. rewrite Ec. cbn [mbind option_bind]. rewrite H1 by (by left). cbn [mbind option_bind]. by rewrite H2.
  - done.
Qed.

(** *** Sequences *)

Section sequences.
Context {A : Type} (ok : A -> Prop) (m : nat) (t : A -> Prop) (c : codec A) `{L : !Lawful ok m t c}.

Lemma put_all_ok l : Forall ok l -> exists bs, put_all c l = Some bs /\ bytes bs /\ (m * length l <= length bs)%nat.
Proof.
  induction 1 as [|a l Ha _ (bs & E & Hb & Hl)]; [exists []; split_and!; [done|constructor|simpl; lia]|].
  destruct (law_put a Ha) as (x & Ex & Hx & Hlx). exists (x ++ bs). cbn. rewrite Ex. cbn. rewrite E. cbn.
  rewrite bytes_app, length_app. split_and!; [done..|cbn; lia].
Qed.

Lemma get_n_put l bs rest : Forall ok l -> put_all c l = Some bs -> get_n c (length l) (bs ++ rest) = Some (l, rest).
Proof.
  intros H. revert bs. induction H as [|a l Ha _ IH]; intros bs E; cbn in E; [by simplify_eq|].
  destruct (put c a) as [x|] eqn:Ex; [|done]. cbn in E. destruct (put_all c l) as [y|] eqn:Ey; [|done]. cbn in E. simplify_eq.
  cbn. rewrite <- app_assoc, (law_get_put a x _ Ha Ex). cbn. by rewrite (IH y).
Qed.

Lemma get_n_inv n : forall input l rest, bytes input -> get_n c n input = Some (l, rest) ->
  length l = n /\ Forall ok l /\ exists used, input = used ++ rest /\ (Forall t l \/ rest <> [] -> put_all c l = Some used).
Proof.
  induction n as [|n IH]; intros input l rest Hi E; cbn in E; [simplify_eq; split_and!; [done|constructor|by exists []]|].
  destruct (get c input) as [[a r]|] eqn:E1; [|done]. cbn in E. destruct (get_n c n r) as [[l' r']|] eqn:E2; [|done]. cbn in E. simplify_eq.
  destruct (law_get _ _ _ Hi E1) as (Ha & u1 & -> & H1). apply bytes_app in Hi as [_ Hr].
  destruct (IH _ _ _ Hr E2) as (<- & Hl & u2 & -> & H2). split_and!; [done|by constructor|]. exists (u1 ++ u2). rewrite app_assoc. split; [done|].
  intros Ht. cbn. rewrite H1; [|destruct Ht as [[? _]%Forall_cons|?]; [by left|right; by destruct u2]]. cbn.
  rewrite H2; [done|]. destruct Ht as [[_ ?]%Forall_cons|?]; [by left|by right].
Qed.

Lemma prepare_ok (n : nat) (min_size : Z) input :
  min_size <= m -> (m * n <= length input)%nat -> prepare_custom_vector_serialization n min_size input = true.
Proof.
  intros Hmin Hlen. unfold prepare_custom_vector_serialization. destruct (Z.eqb_spec n 0); [done|]. cbn [negb andb].
  apply negb_true_iff, Z.ltb_ge. apply Z.div_le_lower_bound; [lia|]. nia.
Qed.

Lemma lawful_vec (n : nat) (min_size : Z) :
  min_size <= m -> Lawful (fun l => length l = n /\ Forall ok l) (n * m) (Forall t) (c_vec n min_size c).
Proof.
  intros Hmin. split.
  - intros l [<- Hl]. destruct (put_all_ok l Hl) as (bs & E & Hb & Hlen). exists bs. cbn. rewrite Nat.eqb_refl. split_and!; [done..|lia].
  - intros l bs rest [<- Hl] E. cbn in *. rewrite Nat.eqb_refl in E. cbn in E. destruct (put_all_ok l Hl) as (bs' & E' & _ & Hlen).
    rewrite E in E'. simplify_eq. replace (prepare_custom_vector_serialization _ _ _) with true; [by apply get_n_put|].
    symmetry. apply prepare_ok; [done|]. rewrite length_app. lia.
  - intros input l rest Hi E. cbn in E. destruct (negb _); [done|]. apply get_n_inv in E as (<- & Hl & u & -> & H); [|done].
    split; [done|]. exists u. split; [done|]. cbn. rewrite Nat.eqb_refl. done.
  - intros Hn. cbn. destruct n as [|n]; [lia|]. destruct (negb _); [done|]. cbn. rewrite law_empty; [done|]. destruct m; lia.
Qed.

Definition list_ok (max_cnt : Z) (l : list A) : Prop := Forall ok l /\ length l <= max_cnt /\ is_u64 (length l).

Lemma lawful_container (max_cnt : Z) :
  (0 < m)%nat -> Lawful (list_ok max_cnt) 1 (fun l => l <> [] /\ Forall t l) (do_serialize_container c max_cnt).
Proof.
  intros Hm. split.
  - intros l (Hl & Hmax & Hu). destruct (put_all_ok l Hl) as (bs & E & Hb & Hlen). cbn. bfalse (max_cnt <? length l). cbn. rewrite E. cbn.
    eexists. split; [done|]. rewrite bytes_app, length_app. pose proof (length_write_varint (length l) ltac:(lia)).
    split; [split; [apply write_varint_bytes; lia|done]|lia].
  - intros l bs rest (Hl & Hmax & Hu) E. cbn [do_serialize_container put get] in *. bfalse (max_cnt <? length l).
    replace (max_cnt <? length l) with false in E by (symmetry; apply Z.ltb_ge; lia).
    destruct (put_all_ok l Hl) as (bs' & E' & _ & Hlen). cbn [serialize_varint put mbind option_bind] in E. rewrite E' in E. cbn in E.
    apply (inj Some) in E. subst bs. rewrite <- app_assoc. rewrite (law_get_put (c := serialize_varint 64) (length l) _ _ Hu eq_refl). cbn [mbind option_bind].
    bfalse (max_cnt <? length l). rewrite length_app.
    assert (length l <= length bs')%nat by nia. bfalse ((length bs' + length rest)%nat <? length l). cbn [orb].
    rewrite Nat2Z.id. by apply get_n_put.
  - intros input l rest Hi E. cbn [do_serialize_container put get] in *. destruct (get (serialize_varint 64) input) as [[cnt r]|] eqn:E1; [|done]. cbn [mbind option_bind] in E.
    destruct (_ || _) eqn:Ec; [done|]. apply orb_false_iff in Ec as [Ec1 Ec2]. bcase_hyps.
    destruct (law_get _ _ _ Hi E1) as (Hc & u1 & -> & H1). apply bytes_app in Hi as [_ Hr].
    destruct (get_n_inv _ _ _ _ Hr E) as (Hlen & Hl & u2 & -> & H2). unfold is_uint in Hc.
    assert (Ecnt : cnt = length l) by lia. split; [unfold list_ok, is_uint; split_and!; [done|lia..]|]. exists (u1 ++ u2). rewrite app_assoc. split; [done|].
    intros Ht. bfalse (max_cnt <? length l). rewrite <- Ecnt. rewrite H1; [|right]. 1: cbn [mbind option_bind]; rewrite H2; [done|tauto].
    destruct Ht as [[Hne _]|?]; [|by destruct u2]. destruct l; [done|]. intros En. rewrite En, <- Hlen in E. cbn in E. by rewrite law_empty in E.
  - done.
Qed.

(** At the end of the input the only other way to load a container is an empty
    one, from a count that ends in the middle of its varint. *)
Lemma container_at_end (max_cnt : Z) input l :
  (0 < m)%nat -> bytes input -> (forall a, ok a -> t a) -> get (do_serialize_container c max_cnt) input = Some (l, []) ->
  put (do_serialize_container c max_cnt) l = Some input \/
  (l = [] /\ exists k : nat, 1 <= k <= 9 /\ input = replicate k 128).
Proof.
  intros Hm Hi Ht E. pose proof (lawful_container max_cnt Hm) as LC. destruct (law_get _ _ _ Hi E) as ((Hl & Hmax & Hu) & u & Eu & H).
  rewrite app_nil_r in Eu. subst u. destruct l as [|a l].
  2: { left. apply H. left. split; [done|]. eapply Forall_impl; [exact Hl|done]. }
  cbn [do_serialize_container serialize_varint get] in E. destruct (read_varint 64 input) as [[n cnt] r] eqn:Er.
  destruct (1 <=? n) eqn:En; [|done]. cbn [mbind option_bind] in E. bcase_hyps.
  destruct (_ || _) eqn:Ec; [done|]. apply orb_false_iff in Ec as [Ec1 Ec2]. bcase_hyps.
  pose proof (read_varint_range 64 _ _ _ _ ltac:(lia) Er) as Hcnt. unfold is_uint in Hcnt.
  destruct (read_varint_inv 64 _ _ _ _ ltac:(lia) Hi Er ltac:(lia)) as [(_ & Ei & _)|(-> & HF & Hn)].
  - assert (bytes r) by (rewrite Ei in Hi; by apply bytes_app in Hi as [_ ?]).
    destruct (get_n_inv _ _ _ _ ltac:(done) E) as (Hlen & _ & u & Er' & Hp). cbn in Hlen. rewrite app_nil_r in Er'. subst u.
    assert (cnt = 0) as -> by lia. rewrite Ei. specialize (Hp (or_introl (Forall_nil_2 _))). cbn in Hp. simplify_eq.
    left. cbn in Hmax |- *. by bfalse (max_cnt <? 0%nat).
  - right. split; [done|]. cbn in Ec2. assert (cnt = 0) as -> by lia. exists (length input). unfold read_varint in Er.
    destruct (read_varint_loop_zero input Hi 64 0 0 0 n ltac:(lia) ltac:(lia) HF) as (_ & Er' & Hk); [intros ->; cbn in Hn; lia|done|lia|].
    split; [lia|done].
Qed.

End sequences.

#[global] Instance lawful_seq {A B} (ok1 : A -> Prop) (m1 : nat) (t1 : A -> Prop) c1 (ok2 : B -> Prop) (m2 : nat) (t2 : B -> Prop) c2 :
  Lawful ok1 m1 t1 c1 -> Lawful ok2 m2 t2 c2 ->
  Lawful (fun p => ok1 p.1 /\ ok2 p.2) (m1 + m2) (fun p => t2 p.2 /\ (t1 p.1 \/ (0 < m2)%nat)) (c_seq c1 c2).
Proof. intros L1 L2. apply (lawful_dep ok1 m1 t1 c1 (fun _ => ok2) (fun _ => m2) _ (fun _ => t2) (fun _ => c2)); [done|lia]. Qed.

(** A codec for a structure, from the codec of its fields; fields that are not
    saved have their default value in well-formed structures. *)
Lemma lawful_struct {A B} (ok1 : A -> Prop) (m1 : nat) (t1 : A -> Prop) (c : codec A) (f : A -> B) (g : B -> A) (ok : B -> Prop) (m : nat) (t : B -> Prop) :
  Lawful ok1 m1 t1 c -> (forall a, ok1 a -> g (f a) = a) ->
  (forall b, ok b <-> ok1 (g b) /\ f (g b) = b) -> (m <= m1)%nat -> (forall b, ok b -> t b -> t1 (g b)) -> Lawful ok m t (c_map f g c).
Proof.
  intros L Hgf Hok Hm Ht. apply (lawful_mono (fun b => ok1 (g b) /\ f (g b) = b) _ m1 _ (fun b => t1 (g b))); [by apply lawful_map|done|done|].
  intros b Hb. by apply Ht, Hok.
Qed.

Definition string_ok (str : list Z) : Prop := bytes str /\ is_u64 (length str).

#[global] Instance lawful_string : Lawful string_ok 1 (fun s => s <> []) do_serialize_string.
Proof.
  split.
  - intros s [Hs Hu]. cbn. eexists. split; [done|]. rewrite bytes_app, length_app. pose proof (length_write_varint (length s) ltac:(lia)).
    split; [split; [apply write_varint_bytes; lia|done]|lia].
  - intros s bs rest [Hs Hu] E. cbn [do_serialize_string put get serialize_varint mbind option_bind] in E. apply (inj Some) in E. subst bs.
    cbn [do_serialize_string get]. rewrite <- app_assoc, (law_get_put (c := serialize_varint 64) (length s) _ _ Hu eq_refl). cbn [mbind option_bind].
    rewrite length_app. bfalse ((length s + length rest)%nat <? length s). rewrite Nat2Z.id. by apply (law_get_put s s rest (c := serialize_blob (length s))).
  - intros input s rest Hi E. cbn [do_serialize_string get] in E. destruct (get (serialize_varint 64) input) as [[n r]|] eqn:E1; [|done]. cbn [mbind option_bind] in E.
    destruct (_ <? _) eqn:En; [done|]. bcase_hyps. destruct (law_get _ _ _ Hi E1) as (Hn & u1 & -> & H1). apply bytes_app in Hi as [_ Hr].
    unfold is_uint in Hn. destruct (law_get _ _ _ Hr E) as ([Hs Hl] & u2 & -> & H2). specialize (H2 (or_introl I)). cbn in H2. simplify_eq.
    split; [split; [done|unfold is_uint; lia]|]. exists (u1 ++ u2). rewrite app_assoc. split; [done|]. intros Ht. cbn.
    replace (Z.of_nat (length u2)) with n by lia. cbn in H1. assert (u2 ++ rest <> []) by (intros [-> ->]%app_nil; tauto).
    specialize (H1 (or_intror H)). by simplify_eq.
  - done.
Qed.

(** Loading what was saved. *)
Section parse.
Context {A : Type} (ok : A -> Prop) (m : nat) (t : A -> Prop) (c : codec A) `{L : !Lawful ok m t c}.

Lemma parse_dump a : ok a -> exists blob, dump_binary c a = Some blob /\ bytes blob /\ parse_binary c blob = Some a.
Proof.
  intros Ha. destruct (law_put a Ha) as (bs & E & Hb & _). exists bs. split_and!; [done..|]. unfold parse_binary.
  pose proof (law_get_put a bs [] Ha E) as E'. rewrite app_nil_r in E'. by rewrite E'.
Qed.

Lemma parse_binary_inv blob a : bytes blob -> parse_binary c blob = Some a -> ok a /\ (t a -> dump_binary c a = Some blob).
Proof.
  unfold parse_binary. intros Hb E. destruct (get c blob) as [[a' r]|] eqn:E1; [|done]. cbn in E. destruct r; simplify_eq.
  destruct (law_get _ _ _ Hb E1) as (Ha & u & Eu & H). rewrite app_nil_r in Eu. subst u. split; [done|]. intros Ht. apply H. by left.
Qed.

End parse.
