(* ===== verification/Keccak.v ===== *)
(** * Keccak: src/crypto/keccak.c, src/crypto/hash.c, src/crypto/hmac-keccak.c

    The hash function of the program, one-shot and incremental, and its HMAC.
    A state is its 25 words, a buffer its bytes; [local_abort] is [None]. *)
From S2P Require Import Prelude IntUtil.

(** ** The permutation *)

Definition KECCAK_ROUNDS : nat := 24.
Definition HASH_DATA_AREA : Z := 136.
Definition HASH_SIZE : Z := 32.

Definition keccakf_rndc : list Z := [
  0x0000000000000001; 0x0000000000008082; 0x800000000000808a;
  0x8000000080008000; 0x000000000000808b; 0x0000000080000001;
  0x8000000080008081; 0x8000000000008009; 0x000000000000008a;
  0x0000000000000088; 0x0000000080008009; 0x000000008000000a;
  0x000000008000808b; 0x800000000000008b; 0x8000000000008089;
  0x8000000000008003; 0x8000000000008002; 0x8000000000000080;
  0x000000000000800a; 0x800000008000000a; 0x8000000080008081;
  0x8000000000008080; 0x0000000080000001; 0x8000000080008008].

Definition ROTL64 (x y : Z) : Z := Z.lor (u64 (Z.shiftl x y)) (Z.shiftr x (64 - y)).

(** [a[i]] and [a[i] ^= v]. *)
Definition at_ (a : list Z) (i : nat) : Z := nth i a 0.
Definition xor_at (i : nat) (v : Z) (a : list Z) : list Z := <[i := Z.lxor (at_ a i) v]> a.

Definition theta_bc (st : list Z) (i : nat) : Z :=
  Z.lxor (Z.lxor (Z.lxor (Z.lxor (at_ st i) (at_ st (i + 5))) (at_ st (i + 10)))
    (at_ st (i + 15))) (at_ st (i + 20)).

(** The macro [THETA]. *)
Definition THETA (bc : list Z) (st : list Z) (i : nat) : list Z :=
  let t := Z.lxor (at_ bc ((i + 4) mod 5)) (ROTL64 (at_ bc ((i + 1) mod 5)) 1) in
  xor_at (i + 20) t (xor_at (i + 15) t (xor_at (i + 10) t (xor_at (i + 5) t (xor_at i t st)))).

Definition theta (st : list Z) : list Z :=
  let bc := map (theta_bc st) (seq 0 5) in
  foldl (THETA bc) st (seq 0 5).

(** The assignments [st[dst] = ROTL64(st[src], n)] in source order. *)
Definition rho_pi_moves : list (nat * nat * nat) := [
  (1, 6, 44); (6, 9, 20); (9, 22, 61); (22, 14, 39); (14, 20, 18); (20, 2, 62);
  (2, 12, 43); (12, 13, 25); (13, 19, 8); (19, 23, 56); (23, 15, 41); (15, 4, 27);
  (4, 24, 14); (24, 21, 2); (21, 8, 55); (8, 16, 45); (16, 5, 36); (5, 3, 28);
  (3, 18, 21); (18, 17, 15); (17, 11, 10); (11, 7, 6); (7, 10, 3)]%nat.

Definition rho_pi (st : list Z) : list Z :=
  let t := at_ st 1 in
  let st := foldl (fun st '(dst, src, n) => <[dst := ROTL64 (at_ st src) (Z.of_nat n)]> st) st rho_pi_moves in
  <[10%nat := ROTL64 t 1]> st.

(** The macro [CHI]. *)
Definition CHI (st : list Z) (j : nat) : list Z :=
  let st0 := at_ st j in
  let st1 := at_ st (j + 1) in
  let st2 := at_ st (j + 2) in
  let st3 := at_ st (j + 3) in
  let st4 := at_ st (j + 4) in
  let not64 x := u64 (Z.lnot x) in
  xor_at (j + 4) (Z.land (not64 st0) st1)
    (xor_at (j + 3) (Z.land (not64 st4) st0)
      (xor_at (j + 2) (Z.land (not64 st3) st4)
        (xor_at (j + 1) (Z.land (not64 st2) st3)
          (xor_at j (Z.land (not64 st1) st2) st)))).

Definition keccak_round (st : list Z) (round : nat) : list Z :=
  let st := theta st in
  let st := rho_pi st in
  let st := foldl CHI st [0; 5; 10; 15; 20]%nat in
  xor_at 0 (nth round keccakf_rndc 0) st.

Definition keccakf (st : list Z) (rounds : nat) : list Z :=
  foldl keccak_round st (seq 0 rounds).

(** ** One-shot hashing *)

(** [memset(st, 0, sizeof(st))]. *)
Definition zero_state : list Z := replicate 25 0.

(** Word [i] of a byte buffer, and [st[i] ^= SWAP64LE(temp[i])] for [i < n]. *)
Definition word_at (temp : list Z) (i : nat) : Z := le_val (take 8 (drop (8 * i) temp)).

Definition xor_words (n : nat) (temp st : list Z) : list Z :=
  foldl (fun st i => xor_at i (SWAP64LE (word_at temp i)) st) st (seq 0 n).

(** [for ( ; inlen >= rsiz; inlen -= rsiz, in += rsiz)]: returns the state and the
    unread input.  [length in] iterations are enough. *)
Fixpoint keccak_absorb (fuel rsiz : nat) (st inp : list Z) : list Z * list Z :=
  match fuel with
  | O => (st, inp)
  | S fuel' =>
      if (rsiz <=? length inp)%nat
      then keccak_absorb fuel' rsiz
             (keccakf (xor_words (rsiz / 8) (take rsiz inp) st) KECCAK_ROUNDS) (drop rsiz inp)
      else (st, inp)
  end.

(** The last block: what is left of the input, [1], zeros, and the last bit. *)
Definition keccak_pad (rsiz : nat) (inp : list Z) : list Z :=
  let temp := replicate 144 0 in
  let temp := inp ++ drop (length inp) temp in
  let temp := <[length inp := 1]> temp in
  <[(rsiz - 1)%nat := Z.lor (at_ temp (rsiz - 1)) 0x80]> temp.

(** [memcpy_swap64le(md, st, n)]. *)
Definition words_to_bytes (n : nat) (st : list Z) : list Z :=
  flat_map (fun w => le_bytes 8 (SWAP64LE w)) (take n st).

Definition keccak (inp : list Z) (mdlen : Z) : option (list Z) :=
  if (mdlen <=? 0) || ((100 <=? mdlen) && negb (200 =? mdlen)) || negb (mdlen mod 8 =? 0) then None
  else
    let rsiz := if 200 =? mdlen then HASH_DATA_AREA else 200 - 2 * mdlen in
    let rsizw := rsiz / 8 in
    if (rsiz =? 0) || (144 <? rsiz) || (144 <? rsizw * 8) then None
    else
      let st := zero_state in
      let '(st, inp) := keccak_absorb (length inp) (Z.to_nat rsiz) st inp in
      if rsiz <=? length inp then None
      else
        let st := xor_words (Z.to_nat rsizw) (keccak_pad (Z.to_nat rsiz) inp) st in
        let st := keccakf st KECCAK_ROUNDS in
        Some (words_to_bytes (Z.to_nat (mdlen / 8)) st).

Definition keccak1600 (inp : list Z) : option (list Z) := keccak inp 200.

Definition hash_process (buf : list Z) : option (list Z) := keccak1600 buf.

Definition cn_fast_hash_opt (data : list Z) : option (list Z) :=
  state ← hash_process data; Some (take (Z.to_nat HASH_SIZE) state).

(** [cn_fast_hash] never aborts ([cn_fast_hash_total]). *)
Definition cn_fast_hash (data : list Z) : list Z := default [] (cn_fast_hash_opt data).

(** ** Incremental hashing *)

Record KECCAK_CTX := mk_ctx {
  ctx_hash : list Z;      (* 25 words *)
  ctx_message : list Z;   (* 136 bytes *)
  ctx_rest : Z;           (* count of bytes in the message buffer *)
}.

Definition KECCAK_FINALIZED : Z := 0x80000000.
Definition KECCAK_BLOCKLEN : nat := 136.
Definition KECCAK_WORDS : nat := 17.
Definition KECCAK_DIGESTSIZE : nat := 32.

Definition KECCAK_PROCESS_BLOCK (st block : list Z) : list Z :=
  keccakf (xor_words KECCAK_WORDS block st) KECCAK_ROUNDS.

(** [memcpy((char* )dst + off, src, length src)]. *)
Definition memcpy_at (off : nat) (src dst : list Z) : list Z :=
  take off dst ++ src ++ drop (off + length src) dst.

Definition keccak_init : KECCAK_CTX := mk_ctx zero_state (replicate 136 0) 0.

(** [while (inlen >= KECCAK_BLOCKLEN)]: returns hash, message buffer, unread input. *)
Fixpoint keccak_update_blocks (fuel : nat) (hash message inp : list Z) : list Z * list Z * list Z :=
  match fuel with
  | O => (hash, message, inp)
  | S fuel' =>
      if (KECCAK_BLOCKLEN <=? length inp)%nat then
        let message := memcpy_at 0 (take KECCAK_BLOCKLEN inp) message in
        keccak_update_blocks fuel' (KECCAK_PROCESS_BLOCK hash message) message (drop KECCAK_BLOCKLEN inp)
      else (hash, message, inp)
  end.

Definition keccak_update_rest (rest : Z) (hash message inp : list Z) : KECCAK_CTX :=
  let '(hash, message, inp) := keccak_update_blocks (length inp) hash message inp in
  let message := if (0 <? length inp)%nat then memcpy_at 0 inp message else message in
  mk_ctx hash message rest.

Definition keccak_update (ctx : KECCAK_CTX) (inp : list Z) : option KECCAK_CTX :=
  if negb (Z.land (ctx_rest ctx) KECCAK_FINALIZED =? 0) then None
  else
    let idx := Z.to_nat (ctx_rest ctx) in
    let rest := u64 (ctx_rest ctx + length inp) mod KECCAK_BLOCKLEN in
    if (0 <? idx)%nat then
      let left := (KECCAK_BLOCKLEN - idx)%nat in
      let message := memcpy_at idx (take left inp) (ctx_message ctx) in
      if (length inp <? left)%nat then Some (mk_ctx (ctx_hash ctx) message rest)
      else Some (keccak_update_rest rest (KECCAK_PROCESS_BLOCK (ctx_hash ctx) message)
                   message (drop left inp))
    else Some (keccak_update_rest rest (ctx_hash ctx) (ctx_message ctx) inp).

(** Returns the digest and the finalized context. *)
Definition keccak_finish (ctx : KECCAK_CTX) : list Z * KECCAK_CTX :=
  let ctx :=
    if Z.land (ctx_rest ctx) KECCAK_FINALIZED =? 0 then
      let rest := Z.to_nat (ctx_rest ctx) in
      let message := memcpy_at rest (replicate (KECCAK_BLOCKLEN - rest) 0) (ctx_message ctx) in
      let message := <[rest := Z.lor (at_ message rest) 0x01]> message in
      let message := <[(KECCAK_BLOCKLEN - 1)%nat := Z.lor (at_ message (KECCAK_BLOCKLEN - 1)) 0x80]> message in
      mk_ctx (KECCAK_PROCESS_BLOCK (ctx_hash ctx) message) message KECCAK_FINALIZED
    else ctx in
  (words_to_bytes (KECCAK_DIGESTSIZE / 8) (ctx_hash ctx), ctx).

(** ** HMAC *)

Record hmac_keccak_state := mk_hmac { hmac_inner : KECCAK_CTX; hmac_outer : KECCAK_CTX }.

(** [memset(pad, v, BLOCKLEN); for (i < keylen) pad[i] ^= key[i]]. *)
Definition hmac_pad (v : Z) (key : list Z) : list Z :=
  foldl (fun pad i => xor_at i (at_ key i) pad) (replicate KECCAK_BLOCKLEN v) (seq 0 (length key)).

Definition hmac_keccak_init (key : list Z) : option hmac_keccak_state :=
  key ← (if (KECCAK_BLOCKLEN <? length key)%nat then keccak key HASH_SIZE else Some key);
  inner ← keccak_update keccak_init (hmac_pad 0x36 key);
  outer ← keccak_update keccak_init (hmac_pad 0x5c key);
  Some (mk_hmac inner outer).

Definition hmac_keccak_update (S : hmac_keccak_state) (data : list Z) : option hmac_keccak_state :=
  inner ← keccak_update (hmac_inner S) data; Some (mk_hmac inner (hmac_outer S)).

Definition hmac_keccak_finish (S : hmac_keccak_state) : option (list Z) :=
  let '(ihash, _) := keccak_finish (hmac_inner S) in
  outer ← keccak_update (hmac_outer S) ihash;
  Some (keccak_finish outer).1.

Definition hmac_keccak_hash (key inp : list Z) : option (list Z) :=
  S ← hmac_keccak_init key;
  S ← hmac_keccak_update S inp;
  hmac_keccak_finish S.

(** A known answer of tests/hash/tests-fast.txt. *)
Example cn_fast_hash_empty :
  be_val 256 (cn_fast_hash []) = 0xc5d2460186f7233c927e7db2dcc703c0e500b653ca82273b7bfad8045d85a470.
Proof. vm_compute. reflexivity. Qed.
Example cn_fast_hash_41fb :
  be_val 256 (cn_fast_hash [0x41; 0xfb]) = 0xa8eaceda4d47b3281a795ad9e1ea2122b407baf9aabcb9e18b5717b7873537d2.
Proof. vm_compute. reflexivity. Qed.

(** ** Lemmas: sizes *)

Lemma length_xor_at i v a : length (xor_at i v a) = length a.
Proof. apply length_insert. Qed.

Lemma length_keccakf st n : length (keccakf st n) = length st.
Proof.
  apply foldl_length. intros l r. unfold keccak_round. rewrite length_xor_at, foldl_length.
  2: { intros ??. unfold CHI. by rewrite !length_xor_at. }
  unfold rho_pi. rewrite length_insert, foldl_length.
  2: { intros ? [[??]?]. apply length_insert. }
  unfold theta. apply foldl_length. intros ??. unfold THETA. by rewrite !length_xor_at.
Qed.

Lemma length_xor_words n temp st : length (xor_words n temp st) = length st.
Proof. apply foldl_length. intros. apply length_xor_at. Qed.

Lemma length_words_to_bytes n st : (n <= length st)%nat -> length (words_to_bytes n st) = (8 * n)%nat.
Proof.
  intros. unfold words_to_bytes. rewrite (length_flat_map_const _ 8).
  - rewrite length_take. lia.
  - intros. apply length_le_bytes.
Qed.

Lemma take_words_to_bytes n m st : (n <= m)%nat -> take (8 * n) (words_to_bytes m st) = words_to_bytes n st.
Proof.
  intros. unfold words_to_bytes. rewrite (take_flat_map_const _ 8) by (intros; apply length_le_bytes).
  rewrite take_take. by replace (n `min` m)%nat with n by lia.
Qed.

Lemma words_to_bytes_bytes n st : bytes (words_to_bytes n st).
Proof.
  unfold words_to_bytes. induction (take n st) as [|w l IH]; [constructor|].
  apply Forall_app. split; [apply le_bytes_bytes|done].
Qed.

(** Only the first [8 * n] bytes of the buffer are read. *)
Lemma xor_words_ext n t1 t2 st :
  take (8 * n) t1 = take (8 * n) t2 -> xor_words n t1 st = xor_words n t2 st.
Proof.
  intros E. apply foldl_ext_in. intros a i Hi. apply elem_of_seq in Hi.
  assert (forall t, word_at t i = le_val (take 8 (drop (8 * i) (take (8 * n) t)))) as Hw.
  { intros t. unfold word_at. rewrite skipn_firstn_comm, take_take. do 2 f_equal. lia. }
  by rewrite (Hw t1), (Hw t2), E.
Qed.

(** ** Lemmas: absorbing *)

Abbreviation BL := KECCAK_BLOCKLEN.
#[local] Opaque keccakf xor_words words_to_bytes zero_state.

Definition absorb (st inp : list Z) : list Z * list Z := keccak_absorb (length inp) BL st inp.

Lemma keccak_absorb_fuel f1 f2 st inp :
  (length inp <= f1)%nat -> (length inp <= f2)%nat ->
  keccak_absorb f1 BL st inp = keccak_absorb f2 BL st inp.
Proof.
  revert f2 st inp. induction f1 as [|f1 IH]; intros f2 st inp H1 H2.
  { destruct inp; [|simpl in H1; lia]. by destruct f2. }
  destruct f2 as [|f2]; [destruct inp; [done|simpl in H2; lia]|].
  cbn [keccak_absorb]. case_match eqn:E; [|done]. apply Nat.leb_le in E.
  unfold KECCAK_BLOCKLEN in E. apply IH; rewrite length_drop; unfold KECCAK_BLOCKLEN; lia.
Qed.

Lemma absorb_unfold st inp :
  absorb st inp =
    if (BL <=? length inp)%nat then absorb (KECCAK_PROCESS_BLOCK st (take BL inp)) (drop BL inp)
    else (st, inp).
Proof.
  unfold absorb at 1. destruct (length inp) as [|n] eqn:El; [by destruct inp|].
  cbn [keccak_absorb]. rewrite El. case_match eqn:E; [|done]. apply Nat.leb_le in E.
  change (BL / 8)%nat with KECCAK_WORDS. fold (KECCAK_PROCESS_BLOCK st (take BL inp)).
  apply keccak_absorb_fuel; rewrite ?length_drop; unfold KECCAK_BLOCKLEN in *; lia.
Qed.

Lemma absorb_small st inp : (length inp < BL)%nat -> absorb st inp = (st, inp).
Proof. intros. rewrite absorb_unfold. case_match eqn:E; [apply Nat.leb_le in E; lia|done]. Qed.

Lemma absorb_big st inp :
  (BL <= length inp)%nat -> absorb st inp = absorb (KECCAK_PROCESS_BLOCK st (take BL inp)) (drop BL inp).
Proof. intros. rewrite absorb_unfold. case_match eqn:E; [done|apply Nat.leb_gt in E; lia]. Qed.

(** Induction on the number of full blocks of the input. *)
Lemma blocks_ind (P : list Z -> Prop) :
  (forall inp, (length inp < BL)%nat -> P inp) ->
  (forall inp, (BL <= length inp)%nat -> P (drop BL inp) -> P inp) ->
  forall inp, P inp.
Proof.
  intros H1 H2 inp. remember (length inp) as n eqn:Hn. revert inp Hn.
  induction (lt_wf n) as [n _ IH]. intros inp ->.
  destruct (decide (length inp < BL)%nat); [by apply H1|]. apply H2; [lia|].
  eapply IH; [|done]. rewrite length_drop. unfold KECCAK_BLOCKLEN in *. lia.
Qed.

Lemma absorb_app inp : forall st inp2,
  absorb st (inp ++ inp2) = absorb (absorb st inp).1 ((absorb st inp).2 ++ inp2).
Proof.
  induction inp as [inp Hl|inp Hl IH] using blocks_ind.
  - intros st inp2. by rewrite (absorb_small st inp).
  - intros st inp2. rewrite absorb_big by (rewrite length_app; lia).
    rewrite (absorb_big st inp) by done. rewrite take_app_le, drop_app_le by done. apply IH.
Qed.

Lemma absorb_tail inp : forall st,
  length (absorb st inp).2 = (length inp mod BL)%nat /\ length (absorb st inp).1 = length st.
Proof.
  induction inp as [inp Hl|inp Hl IH] using blocks_ind.
  - intros st. rewrite absorb_small by done. by rewrite Nat.mod_small.
  - intros st. rewrite absorb_big by done. destruct (IH (KECCAK_PROCESS_BLOCK st (take BL inp))) as [-> ->].
    rewrite length_drop. split.
    + rewrite <- (Nat.sub_add BL (length inp)) at 2 by done.
      symmetry. rewrite <- (Nat.mul_1_l BL) at 2. apply Nat.Div0.mod_add.
    + unfold KECCAK_PROCESS_BLOCK. by rewrite length_keccakf, length_xor_words.
Qed.

(** [keccak] at the two digest sizes the program uses, both at rate 136. *)
Definition squeeze (n : nat) (inp : list Z) : list Z :=
  let '(st, rest) := absorb zero_state inp in
  words_to_bytes n (keccakf (xor_words KECCAK_WORDS (keccak_pad BL rest) st) KECCAK_ROUNDS).

Lemma keccak_squeeze inp mdlen :
  mdlen = 32 \/ mdlen = 200 -> keccak inp mdlen = Some (squeeze (Z.to_nat (mdlen / 8)) inp).
Proof.
  intros Hm. unfold keccak, squeeze.
  replace ((mdlen <=? 0) || ((100 <=? mdlen) && negb (200 =? mdlen)) || negb (mdlen mod 8 =? 0))
    with false by (destruct Hm; subst; done).
  assert ((if 200 =? mdlen then HASH_DATA_AREA else 200 - 2 * mdlen) = 136) as -> by (destruct Hm; subst; done).
  change (Z.to_nat 136) with BL. change (Z.to_nat (136 / 8)) with KECCAK_WORDS.
  cbn [Z.eqb]. change (144 <? 136) with false. change (144 <? 136 / 8 * 8) with false. cbn [orb].
  fold (absorb zero_state inp).
  pose proof (absorb_tail inp zero_state) as [Ht _].
  destruct (absorb zero_state inp) as [st rest]. simpl in Ht.
  pose proof (Nat.mod_upper_bound (length inp) BL ltac:(done)).
  change BL with 136%nat in *. bfalse (136 <=? length rest). done.
Qed.

Lemma squeeze_length n inp : (n <= 25)%nat -> length (squeeze n inp) = (8 * n)%nat.
Proof.
  intros. unfold squeeze. pose proof (absorb_tail inp zero_state) as [_ Hs].
  destruct (absorb _ _) as [st rest]. simpl in Hs.
  apply length_words_to_bytes. by rewrite length_keccakf, length_xor_words, Hs.
Qed.

Lemma squeeze_take n m inp : (n <= m)%nat -> take (8 * n) (squeeze m inp) = squeeze n inp.
Proof. intros. unfold squeeze. destruct (absorb _ _). by apply take_words_to_bytes. Qed.

Lemma squeeze_bytes n inp : bytes (squeeze n inp).
Proof. unfold squeeze. destruct (absorb _ _). apply words_to_bytes_bytes. Qed.

Lemma cn_fast_hash_squeeze data : cn_fast_hash_opt data = Some (squeeze 4 data).
Proof.
  unfold cn_fast_hash_opt, hash_process, keccak1600. rewrite keccak_squeeze by auto.
  cbn [mbind option_bind]. f_equal. apply (squeeze_take 4 25). lia.
Qed.

Lemma cn_fast_hash_total data : cn_fast_hash_opt data = Some (cn_fast_hash data).
Proof. unfold cn_fast_hash. by rewrite cn_fast_hash_squeeze. Qed.

Lemma length_cn_fast_hash data : length (cn_fast_hash data) = 32%nat.
Proof. unfold cn_fast_hash. rewrite cn_fast_hash_squeeze. exact (squeeze_length 4 data ltac:(lia)). Qed.

Lemma cn_fast_hash_bytes data : bytes (cn_fast_hash data).
Proof. unfold cn_fast_hash. rewrite cn_fast_hash_squeeze. exact (squeeze_bytes 4 data). Qed.

(** ** Lemmas: the incremental interface *)

(** What a context that has been fed [data] holds. *)
Record ctx_fed (ctx : KECCAK_CTX) (data : list Z) : Prop := {
  fed_hash : (absorb zero_state data).1 = ctx_hash ctx;
  fed_rest : ctx_rest ctx = length (absorb zero_state data).2;
  fed_len : length (ctx_message ctx) = BL;
  fed_message : take (length (absorb zero_state data).2) (ctx_message ctx) =
                (absorb zero_state data).2;
}.

Lemma length_memcpy_at off src dst :
  (off + length src <= length dst)%nat -> length (memcpy_at off src dst) = length dst.
Proof. intros. unfold memcpy_at. rewrite !length_app, length_take, length_drop. lia. Qed.

Lemma take_memcpy_at off src dst n :
  (off <= length dst)%nat -> n = (off + length src)%nat -> take n (memcpy_at off src dst) = take off dst ++ src.
Proof.
  intros Ho ->. unfold memcpy_at. rewrite app_assoc. apply take_app_length'.
  rewrite length_app, length_take. lia.
Qed.

Lemma process_block_ext st b1 b2 : take BL b1 = take BL b2 -> KECCAK_PROCESS_BLOCK st b1 = KECCAK_PROCESS_BLOCK st b2.
Proof. intros E. unfold KECCAK_PROCESS_BLOCK. by rewrite (xor_words_ext KECCAK_WORDS b1 b2 st E). Qed.
#[local] Opaque KECCAK_PROCESS_BLOCK.

Lemma keccak_update_blocks_spec inp : forall fuel hash message,
  (length inp <= fuel)%nat -> length message = BL ->
  exists message', length message' = BL /\
    keccak_update_blocks fuel hash message inp = ((absorb hash inp).1, message', (absorb hash inp).2).
Proof.
  induction inp as [inp Hl|inp Hl IH] using blocks_ind; intros fuel hash message Hf Hm.
  - exists message. split; [done|]. rewrite absorb_small by done. destruct fuel; [done|].
    cbn [keccak_update_blocks]. case_match eqn:E; [apply Nat.leb_le in E; lia|done].
  - destruct fuel as [|fuel]; [unfold KECCAK_BLOCKLEN in Hl; lia|]. cbn [keccak_update_blocks].
    replace (BL <=? length inp)%nat with true by (symmetry; by apply Nat.leb_le).
    assert (length (take BL inp) = BL) as Ht by (rewrite length_take; lia).
    set (m := memcpy_at 0 (take BL inp) message).
    assert (length m = BL) as Hml by (unfold m; rewrite length_memcpy_at; lia).
    destruct (IH fuel (KECCAK_PROCESS_BLOCK hash m) m) as (m' & Hm' & E);
      [rewrite length_drop; unfold KECCAK_BLOCKLEN in *; lia|done|].
    exists m'. split; [done|]. rewrite E, (absorb_big hash inp) by done.
    rewrite (process_block_ext hash m (take BL inp)); [reflexivity|]. unfold m. rewrite take_memcpy_at by lia. rewrite take_take.
    by replace (BL `min` BL)%nat with BL by lia.
Qed.

(** The tail of [keccak_update]: no partial block is pending. *)
Lemma keccak_update_rest_spec data st inp (rest : Z) hash message :
  absorb zero_state data = absorb st inp -> hash = st -> length message = BL ->
  rest = length (absorb zero_state data).2 ->
  ctx_fed (keccak_update_rest rest hash message inp) data.
Proof.
  intros Ea -> Hm Hr. unfold keccak_update_rest.
  destruct (keccak_update_blocks_spec inp (length inp) st message) as (m' & Hm' & E); [lia|done|].
  rewrite E. pose proof (absorb_tail inp st) as [Ht _].
  pose proof (Nat.mod_upper_bound (length inp) BL ltac:(done)) as Hlt.
  rewrite <- Ht in Hlt. rewrite Ea in Hr. split; simpl; rewrite ?Ea; try done.
  - case_match; [|done]. rewrite length_memcpy_at; lia.
  - case_match eqn:E0.
    + rewrite take_memcpy_at; [done|lia|lia].
    + apply Nat.ltb_ge in E0. assert (length (absorb st inp).2 = 0%nat) as H0 by lia.
      by apply nil_length_inv in H0 as ->.
Qed.

Lemma rest_not_final r : 0 <= r < 136 -> Z.land r KECCAK_FINALIZED = 0.
Proof.
  intros Hr. pose proof (land_field r 1 31 ltac:(lia) ltac:(lia)) as E.
  change ((2 ^ 1 - 1) * 2 ^ 31) with KECCAK_FINALIZED in E. rewrite E.
  rewrite (Z.div_small r) by lia. done.
Qed.

Lemma keccak_update_fed ctx data inp :
  ctx_fed ctx data -> length inp < 2 ^ 63 ->
  exists ctx', keccak_update ctx inp = Some ctx' /\ ctx_fed ctx' (data ++ inp).
Proof.
  intros [Hh Hr Hl Hm] Hin. unfold keccak_update.
  pose proof (absorb_tail data zero_state) as [Ht _].
  pose proof (absorb_tail (data ++ inp) zero_state) as [Ht' _].
  pose proof (Nat.mod_upper_bound (length data) BL ltac:(done)) as Hlt. rewrite <- Ht in Hlt.
  pose proof (absorb_app data zero_state inp) as Happ. rewrite Hh in Happ.
  set (tail := (absorb zero_state data).2) in *.
  rewrite Hr, rest_not_final by (unfold KECCAK_BLOCKLEN in Hlt; lia). cbn [Z.eqb negb].
  assert (Hrest : u64 (length tail + length inp) mod BL = length (absorb zero_state (data ++ inp)).2).
  { rewrite wrap_small by (unfold is_uint, KECCAK_BLOCKLEN in *; lia).
    rewrite Ht', length_app, Ht, <- Nat2Z.inj_add, <- Nat2Z.inj_mod.
    by rewrite Nat.Div0.add_mod_idemp_l. }
  rewrite Hrest, Nat2Z.id. case_match eqn:E0.
  - apply Nat.ltb_lt in E0. case_match eqn:E1.
    + apply Nat.ltb_lt in E1. eexists. split; [done|].
      rewrite (absorb_small (ctx_hash ctx)) in Happ by (rewrite length_app; lia).
      rewrite take_ge by lia.
      split; simpl; rewrite ?Happ; simpl; [done|done|rewrite length_memcpy_at; lia|].
      rewrite take_memcpy_at by (rewrite ?length_app; lia). by rewrite Hm.
    + apply Nat.ltb_ge in E1. eexists. split; [done|].
      assert (length (take (BL - length tail) inp) = (BL - length tail)%nat) as Htk by (rewrite length_take; lia).
      eapply keccak_update_rest_spec; [| |rewrite length_memcpy_at; lia|done].
      * rewrite Happ, absorb_big by (rewrite length_app; lia).
        rewrite drop_app_ge by lia. reflexivity.
      * apply process_block_ext. rewrite take_memcpy_at by lia. rewrite Hm.
        rewrite take_take, Nat.min_id. by rewrite take_app_ge by lia.
  - apply Nat.ltb_ge in E0. eexists. split; [done|].
    assert (tail = []) as Htl by (apply nil_length_inv; lia). rewrite Htl in Happ.
    eapply keccak_update_rest_spec; [exact Happ|done|done|done].
Qed.

Lemma keccak_init_fed : ctx_fed keccak_init [].
Proof. split; done. Qed.

#[local] Transparent KECCAK_PROCESS_BLOCK.
Lemma keccak_finish_fed ctx data : ctx_fed ctx data -> (keccak_finish ctx).1 = squeeze 4 data.
Proof.
  intros [Hh Hr Hl Hm]. unfold keccak_finish, squeeze.
  pose proof (absorb_tail data zero_state) as [Ht _].
  pose proof (Nat.mod_upper_bound (length data) BL ltac:(done)) as Hlt. rewrite <- Ht in Hlt.
  destruct (absorb zero_state data) as [st tail]. cbn [fst snd] in *. subst st.
  rewrite Hr, rest_not_final by (unfold KECCAK_BLOCKLEN in Hlt; lia). cbn [Z.eqb fst ctx_hash].
  rewrite Nat2Z.id. change (KECCAK_DIGESTSIZE / 8)%nat with 4%nat. unfold KECCAK_PROCESS_BLOCK.
  rewrite (xor_words_ext KECCAK_WORDS _ (keccak_pad BL tail)); [reflexivity|].
  set (m := memcpy_at _ _ _).
  assert (m = tail ++ replicate (BL - length tail) 0) as ->.
  { unfold m, memcpy_at. rewrite Hm, length_replicate, drop_ge by lia. by rewrite app_nil_r. }
  assert (tail ++ drop (length tail) (replicate 144 0) = (tail ++ replicate (BL - length tail) 0) ++ replicate 8 0) as Ep.
  { rewrite <- app_assoc, <- replicate_add, drop_replicate. do 2 f_equal. unfold KECCAK_BLOCKLEN in *. lia. }
  unfold keccak_pad. rewrite Ep. set (b := tail ++ replicate (BL - length tail) 0).
  assert (length b = BL) as Hb by (unfold b; rewrite length_app, length_replicate; lia).
  assert (at_ b (length tail) = 0) as Hb0.
  { unfold at_, b. rewrite app_nth2, Nat.sub_diag by lia.
    destruct (BL - length tail)%nat eqn:E; [lia|done]. }
  rewrite Hb0. change (Z.lor 0 1) with 1. rewrite !insert_app_l by (rewrite ?length_insert; lia).
  change (8 * KECCAK_WORDS)%nat with BL.
  assert (forall c : list Z, length c = BL -> at_ (c ++ replicate 8 0) (BL - 1) = at_ c (BL - 1)) as Hat.
  { intros c Hc. unfold at_. rewrite app_nth1; [done|]. rewrite Hc. unfold KECCAK_BLOCKLEN. lia. }
  rewrite Hat by (by rewrite length_insert). 
  by rewrite take_app_le by (rewrite !length_insert; lia).
Qed.

(** Feeding a sequence of buffers. *)
Fixpoint keccak_updates (ctx : KECCAK_CTX) (chunks : list (list Z)) : option KECCAK_CTX :=
  match chunks with
  | [] => Some ctx
  | c :: chunks' => ctx ← keccak_update ctx c; keccak_updates ctx chunks'
  end.

Lemma keccak_updates_fed chunks : forall ctx data,
  ctx_fed ctx data -> Forall (fun c : list Z => length c < 2 ^ 63) chunks ->
  exists ctx', keccak_updates ctx chunks = Some ctx' /\ ctx_fed ctx' (data ++ concat chunks).
Proof.
  induction chunks as [|c chunks IH]; intros ctx data Hc Hl; cbn [keccak_updates concat].
  { exists ctx. by rewrite app_nil_r. }
  inversion_clear Hl as [|?? Hlc Hlcs].
  destruct (keccak_update_fed ctx data c Hc Hlc) as (ctx' & -> & Hc'). cbn [mbind option_bind].
  rewrite app_assoc. by apply IH.
Qed.

Lemma hmac_pad_prefix v key n : (n <= length key <= BL)%nat ->
  foldl (fun pad i => xor_at i (at_ key i) pad) (replicate BL v) (seq 0 n) =
    zip_with Z.lxor (replicate n v) (take n key) ++ replicate (BL - n) v.
Proof.
  induction n as [|n IH]; intros Hn.
  { rewrite Nat.sub_0_r. reflexivity. }
  rewrite seq_S, foldl_app, IH by lia. cbn [foldl Nat.add].
  assert (length (zip_with Z.lxor (replicate n v) (take n key)) = n) as Hl.
  { rewrite length_zip_with, length_replicate, length_take. lia. }
  destruct (lookup_lt_is_Some_2 key n) as [k Hk]; [lia|].
  assert (at_ key n = k) as Hat by (unfold at_; by apply nth_lookup_Some).
  rewrite Hat. replace (BL - n)%nat with (S (BL - S n)) by lia.
  unfold xor_at, at_. rewrite app_nth2 by lia. rewrite Hl, Nat.sub_diag. cbn [replicate nth].
  rewrite insert_app_r_alt by lia. rewrite Hl, Nat.sub_diag. cbn [insert list_insert].
  rewrite (take_S_r _ _ _ Hk), (replicate_cons_app n), zip_with_app.
  - rewrite <- app_assoc. done.
  - rewrite length_replicate, length_take. lia.
Qed.

Lemma hmac_pad_spec v key :
  (length key <= BL)%nat ->
  hmac_pad v key = zip_with Z.lxor (replicate BL v) (key ++ replicate (BL - length key) 0).
Proof.
  intros Hk. unfold hmac_pad. rewrite hmac_pad_prefix, take_ge by lia.
  replace (replicate BL v) with (replicate (length key) v ++ replicate (BL - length key) v)
    by (rewrite <- replicate_add; f_equal; lia).
  rewrite zip_with_app by (by rewrite length_replicate). f_equal.
  rewrite zip_with_replicate_r_eq by (by rewrite length_replicate).
  induction (BL - length key)%nat as [|n IH]; [done|]. simpl. rewrite Z.lxor_0_r. by f_equal.
Qed.

Lemma length_hmac_pad v key : length (hmac_pad v key) = BL.
Proof. unfold hmac_pad. rewrite foldl_length by (intros; apply length_xor_at). apply length_replicate. Qed.

(** The construction of RFC 2104 over a hash with block size 136. *)
Definition rfc2104 (H : list Z -> list Z) (key m : list Z) : list Z :=
  let key := if (BL <? length key)%nat then H key else key in
  let key0 := key ++ replicate (BL - length key) 0 in
  let ipad := replicate BL 0x36 in
  let opad := replicate BL 0x5c in
  H (zip_with Z.lxor opad key0 ++ H (zip_with Z.lxor ipad key0 ++ m)).

(** ** Properties *)

(** incremental hashing agrees with one-shot hashing: for every way of cutting a
    message into buffers, [keccak_init], one [keccak_update] per buffer and
    [keccak_finish] never abort and give the 32-byte [keccak] digest of the whole. *)
Theorem keccak_incremental chunks :
  Forall (fun c : list Z => length c < 2 ^ 63) chunks ->
  exists ctx, keccak_updates keccak_init chunks = Some ctx /\
    keccak (concat chunks) 32 = Some (keccak_finish ctx).1.
Proof.
  intros Hl. destruct (keccak_updates_fed chunks _ _ keccak_init_fed Hl) as (ctx & E & Hc).
  exists ctx. split; [done|]. rewrite keccak_squeeze by auto. by rewrite (keccak_finish_fed _ _ Hc).
Qed.

Lemma keccak_incremental_witness :
  Forall (fun c : list Z => length c < 2 ^ 63) [[65]; []; [251; 3]] /\
  exists ctx, keccak_updates keccak_init [[65]; []; [251; 3]] = Some ctx /\
    keccak (concat [[65]; []; [251; 3]]) 32 = Some (keccak_finish ctx).1.
Proof.
  assert (H : Forall (fun c : list Z => length c < 2 ^ 63) [[65]; []; [251; 3]]).
  { repeat constructor. }
  split; [exact H|]. apply (keccak_incremental [[65]; []; [251; 3]] H).
Defined.

(** [cn_fast_hash] is Keccak-256: it never aborts, its result is the 32-byte
    [keccak] digest of the data, 32 bytes long. *)
Theorem cn_fast_hash_keccak256 data :
  keccak data HASH_SIZE = Some (cn_fast_hash data) /\
  length (cn_fast_hash data) = 32%nat /\ bytes (cn_fast_hash data).
Proof.
  split; [|split; [apply length_cn_fast_hash|apply cn_fast_hash_bytes]].
  rewrite keccak_squeeze by auto. unfold cn_fast_hash. by rewrite cn_fast_hash_squeeze.
Qed.

(** [hmac_keccak_hash] is the HMAC of RFC 2104 over [cn_fast_hash], for keys shorter
    and longer than a block. *)
Theorem hmac_keccak_rfc2104 key m :
  length m < 2 ^ 63 ->
  hmac_keccak_hash key m = Some (rfc2104 cn_fast_hash key m).
Proof.
  intros Hm. unfold hmac_keccak_hash, hmac_keccak_init, rfc2104.
  assert (forall x, keccak x HASH_SIZE = Some (cn_fast_hash x)) as Hk.
  { intros x. rewrite keccak_squeeze by auto. unfold cn_fast_hash. by rewrite cn_fast_hash_squeeze. }
  assert (exists k, (if (BL <? length key)%nat then keccak key HASH_SIZE else Some key) = Some k /\
    k = (if (BL <? length key)%nat then cn_fast_hash key else key) /\ (length k <= BL)%nat) as (k & -> & <- & Hkl).
  { case_match eqn:E; eexists; split_and!; [apply Hk|done| |done|done|by apply Nat.ltb_ge in E].
    rewrite length_cn_fast_hash. unfold KECCAK_BLOCKLEN. lia. }
  cbn [mbind option_bind]. rewrite <- !hmac_pad_spec by done.
  assert (forall v, length (hmac_pad v k) < 2 ^ 63) as Hpad.
  { intros v. rewrite length_hmac_pad. unfold KECCAK_BLOCKLEN. lia. }
  assert (forall x, squeeze 4 x = cn_fast_hash x) as Hsq.
  { intros x. unfold cn_fast_hash. by rewrite cn_fast_hash_squeeze. }
  destruct (keccak_update_fed keccak_init [] (hmac_pad 0x36 k) keccak_init_fed (Hpad _)) as (ci & -> & Hi).
  destruct (keccak_update_fed keccak_init [] (hmac_pad 0x5c k) keccak_init_fed (Hpad _)) as (co & -> & Ho).
  rewrite app_nil_l in Hi, Ho. cbn [mbind option_bind]. unfold hmac_keccak_update, hmac_keccak_finish. cbn [hmac_inner hmac_outer].
  destruct (keccak_update_fed ci _ m Hi Hm) as (ci' & -> & Hi'). cbn [mbind option_bind hmac_inner hmac_outer].
  pose proof (keccak_finish_fed ci' _ Hi') as Ef. destruct (keccak_finish ci') as [ih ?]. cbn [fst] in Ef. subst ih.
  rewrite Hsq. destruct (keccak_update_fed co _ (cn_fast_hash (hmac_pad 0x36 k ++ m)) Ho) as (co' & -> & Ho').
  { rewrite length_cn_fast_hash. lia. }
  cbn [mbind option_bind]. f_equal. rewrite (keccak_finish_fed co' _ Ho'). apply Hsq.
Qed.

Lemma hmac_keccak_rfc2104_witness :
  length [104; 105] < 2 ^ 63 /\ hmac_keccak_hash [1; 2; 3] [104; 105] = Some (rfc2104 cn_fast_hash [1; 2; 3] [104; 105]).
Proof.
  assert (H : length [104; 105] < 2 ^ 63) by (vm_compute; done).
  split; [exact H|]. apply (hmac_keccak_rfc2104 [1; 2; 3] [104; 105] H).
Defined.
