(* ===== verification/Base58.v ===== *)
(** * Base58: src/common/base58.cpp

    The block-wise base-58 encoding of addresses.  A [std::string] is its list
    of bytes; a write outside the buffer of a block, which the C++ code would
    perform silently, is [None] here. *)
From S2P Require Import Prelude IntUtil Varint Keccak.
Local Open Scope mach_scope.

(** ** Definitions *)

Definition alphabet : list Z :=
  str_bytes "123456789ABCDEFGHJKLMNPQRSTUVWXYZabcdefghijkmnopqrstuvwxyz".
Definition alphabet_size : Z := 58.
Definition encoded_block_sizes : list Z := [0; 2; 3; 5; 6; 7; 9; 10; 11].
Definition full_block_size : Z := 8.
Definition full_encoded_block_size : Z := 11.
Definition addr_checksum_size : Z := 4.

Definition alphabet_at (i : Z) : Z := nth (Z.to_nat i) alphabet 0.
Definition encoded_block_size (i : Z) : Z := nth (Z.to_nat i) encoded_block_sizes 0.

(** A [char] of the target is signed. *)
Definition schar (c : Z) : Z := if 128 <=? c then c - 256 else c.

(** The table built by the constructor of [reverse_alphabet]. *)
Definition reverse_alphabet_data : list Z :=
  foldl (fun m_data i => <[Z.to_nat (alphabet_at i - alphabet_at 0) := i]> m_data)
    (replicate (Z.to_nat (alphabet_at (alphabet_size - 1) - alphabet_at 0 + 1)) (-1))
    (map Z.of_nat (seq 0 (Z.to_nat alphabet_size))).

Definition reverse_alphabet (letter : Z) : Z :=
  let idx := u64 (schar letter - alphabet_at 0) in
  if idx <? length reverse_alphabet_data
  then nth (Z.to_nat idx) reverse_alphabet_data (-1) else -1.

(** The table built by the constructor of [decoded_block_sizes]. *)
Definition decoded_block_sizes_data : list Z :=
  foldl (fun m_data i => <[Z.to_nat (encoded_block_size i) := i]> m_data)
    (replicate (Z.to_nat (encoded_block_size full_block_size + 1)) (-1))
    (map Z.of_nat (seq 0 (S (Z.to_nat full_block_size)))).

Definition decoded_block_sizes (encoded_block_size : Z) : Z :=
  nth (Z.to_nat encoded_block_size) decoded_block_sizes_data (-1).

(** [memcpy] into the last [size] bytes of a zeroed word, then byte swap. *)
Definition uint_8be_to_64 (data : list Z) : Z :=
  SWAP64BE (le_val (replicate (8 - length data) 0 ++ data)).

Definition uint_64_to_8be (num : Z) (size : nat) : list Z :=
  drop (8 - size) (le_bytes 8 (SWAP64BE num)).

(** The loop of [encode_block]: [res[i] = alphabet[num % 58]] from the last
    position downwards. *)
Fixpoint encode_block_loop (fuel : nat) (num i : Z) (res : list Z) : option (list Z) :=
  match fuel with
  | O => None
  | S fuel' =>
      if 0 <? num then
        let remainder := num mod alphabet_size in
        let num := num / alphabet_size in
        if (0 <=? i) && (i <? length res)
        then encode_block_loop fuel' num (i - 1) (<[Z.to_nat i := alphabet_at remainder]> res)
        else None
      else Some res
  end.

(** [res] is the part of the output the block is written to. *)
Definition encode_block (block : list Z) (res : list Z) : option (list Z) :=
  let num := uint_8be_to_64 block in
  let i := encoded_block_size (length block) - 1 in
  encode_block_loop 64 num i res.

(** The loop of [decode_block] runs from the last symbol to the first: the
    argument is the block in that order. *)
Fixpoint decode_block_loop (rblock : list Z) (res_num order : Z) : option Z :=
  match rblock with
  | [] => Some res_num
  | c :: rblock' =>
      let digit := reverse_alphabet c in
      if digit <? 0 then None
      else
        let '(product_lo, product_hi) := mul128 order digit in
        let tmp := res_num ⊞ product_lo in
        if (tmp <? res_num) || negb (0 =? product_hi) then None
        else decode_block_loop rblock' tmp (order ⊠ alphabet_size)
  end.

Definition decode_block (block : list Z) : option (list Z) :=
  let res_size := decoded_block_sizes (length block) in
  if res_size <=? 0 then None
  else
    match decode_block_loop (reverse block) 0 1 with
    | None => None
    | Some res_num =>
        if (res_size <? full_block_size) && (Z.shiftl 1 (8 * res_size) <=? res_num) then None
        else Some (uint_64_to_8be res_num (Z.to_nat res_size))
    end.

(** The loop over the full blocks of [encode], then the last block. *)
Fixpoint encode_full_blocks (count : nat) (data : list Z) : option (list Z * list Z) :=
  match count with
  | O => Some ([], data)
  | S count' =>
      res ← encode_block (take 8 data) (replicate 11 (alphabet_at 0));
      '(ress, last) ← encode_full_blocks count' (drop 8 data);
      Some (res ++ ress, last)
  end.

Definition encode (data : list Z) : option (list Z) :=
  match data with
  | [] => Some []
  | _ =>
      let full_block_count := length data / full_block_size in
      let last_block_size := length data mod full_block_size in
      '(res, last) ← encode_full_blocks (Z.to_nat full_block_count) data;
      if 0 <? last_block_size then
        lres ← encode_block last
          (replicate (Z.to_nat (encoded_block_size last_block_size)) (alphabet_at 0));
        Some (res ++ lres)
      else Some res
  end.

Fixpoint decode_full_blocks (count : nat) (enc : list Z) : option (list Z * list Z) :=
  match count with
  | O => Some ([], enc)
  | S count' =>
      res ← decode_block (take 11 enc);
      '(ress, last) ← decode_full_blocks count' (drop 11 enc);
      Some (res ++ ress, last)
  end.

Definition decode (enc : list Z) : option (list Z) :=
  match enc with
  | [] => Some []
  | _ =>
      let full_block_count := length enc / full_encoded_block_size in
      let last_block_size := length enc mod full_encoded_block_size in
      let last_block_decoded_size := decoded_block_sizes last_block_size in
      if last_block_decoded_size <? 0 then None
      else
        '(res, last) ← decode_full_blocks (Z.to_nat full_block_count) enc;
        if 0 <? last_block_size then
          lres ← decode_block last; Some (res ++ lres)
        else Some res
  end.

Definition encode_addr (tag : Z) (data : list Z) : option (list Z) :=
  let buf := get_varint_data tag ++ data in
  let hash := cn_fast_hash buf in
  encode (buf ++ take (Z.to_nat addr_checksum_size) hash).

Definition decode_addr (addr : list Z) : option (Z * list Z) :=
  addr_data ← decode addr;
  if length addr_data <=? addr_checksum_size then None
  else
    let n := (length addr_data - Z.to_nat addr_checksum_size)%nat in
    let checksum := drop n addr_data in
    let addr_data := take n addr_data in
    let hash := cn_fast_hash addr_data in
    let expected_checksum := take (Z.to_nat addr_checksum_size) hash in
    if negb (bool_decide (expected_checksum = checksum)) then None
    else
      let '(read, tag, _) := read_varint 64 addr_data in
      if read <=? 0 then None
      else Some (tag, drop (Z.to_nat read) addr_data).

(** ** Lemmas: the tables *)

Lemma reverse_alphabet_spec c :
  is_u8 c ->
  (0 <= reverse_alphabet c < 58 /\ alphabet_at (reverse_alphabet c) = c) \/ reverse_alphabet c = -1.
Proof.
  intros Hc.
  assert (H : forallb (fun n => let r := reverse_alphabet (Z.of_nat n) in
    ((0 <=? r) && (r <? 58) && (alphabet_at r =? Z.of_nat n)) || (r =? -1)) (seq 0 256) = true)
    by (vm_compute; reflexivity).
  rewrite forallb_forall in H. unfold is_uint in Hc. change (2 ^ 8) with 256 in Hc.
  specialize (H (Z.to_nat c) ltac:(apply in_seq; lia)). cbv zeta in H. rewrite Z2Nat.id in H by lia.
  apply orb_true_iff in H as [H|H]; bcase_hyps; [left|right]; lia.
Qed.

Lemma reverse_alphabet_at d : 0 <= d < 58 -> reverse_alphabet (alphabet_at d) = d.
Proof.
  intros Hd.
  assert (H : forallb (fun n => reverse_alphabet (alphabet_at (Z.of_nat n)) =? Z.of_nat n) (seq 0 58) = true)
    by (vm_compute; reflexivity).
  rewrite forallb_forall in H. specialize (H (Z.to_nat d) ltac:(apply in_seq; lia)).
  rewrite Z2Nat.id in H by lia. by bcase_hyps.
Qed.

Lemma alphabet_at_byte d : 0 <= d < 58 -> is_u8 (alphabet_at d).
Proof.
  intros Hd.
  assert (H : forallb (fun n => is_uintb 8 (alphabet_at (Z.of_nat n))) (seq 0 58) = true)
    by (vm_compute; reflexivity).
  rewrite forallb_forall in H. specialize (H (Z.to_nat d) ltac:(apply in_seq; lia)).
  rewrite Z2Nat.id in H by lia. by apply is_uintb_spec.
Qed.

(** The two block-size tables are inverse to each other, and an encoded block has
    room for every block of bytes of its size. *)
Lemma block_sizes_spec n :
  0 <= n <= 8 ->
  decoded_block_sizes (encoded_block_size n) = n /\ 256 ^ n <= 58 ^ (encoded_block_size n) /\
  0 <= encoded_block_size n <= 11 /\ (0 < n -> 0 < encoded_block_size n) /\
  (n < 8 -> encoded_block_size n < 11).
Proof.
  intros Hn.
  zcases n 9; vm_compute; split_and!; done.
Qed.

Lemma decoded_block_sizes_inv n :
  0 <= n <= 11 -> 0 <= decoded_block_sizes n ->
  encoded_block_size (decoded_block_sizes n) = n /\ decoded_block_sizes n <= 8.
Proof.
  intros Hn.
  zcases n 12; vm_compute; intros; split; done.
Qed.

(** ** Lemmas: words and bytes *)

Lemma uint_8be_to_64_be data :
  bytes data -> (length data <= 8)%nat -> uint_8be_to_64 data = be_val 256 data.
Proof.
  intros Hb Hl. unfold uint_8be_to_64, SWAP64BE. rewrite SWAP64_le_val.
  - rewrite reverse_app, reverse_replicate, le_val_app, le_val_zeros, Z.mul_0_r, Z.add_0_r.
    by rewrite <- be_val_reverse, reverse_involutive.
  - apply Forall_app. split; [|done]. apply Forall_replicate. done.
  - rewrite length_app, length_replicate. lia.
Qed.

Lemma uint_64_to_8be_spec num (size : nat) :
  (size <= 8)%nat -> 0 <= num < 256 ^ size -> uint_64_to_8be num size = digits 256 size num.
Proof.
  intros Hs Hn. unfold uint_64_to_8be, SWAP64BE.
  assert (Hn8 : 0 <= num < 256 ^ 8%nat).
  { split; [lia|]. eapply Z.lt_le_trans; [apply Hn|]. apply Z.pow_le_mono_r; lia. }
  rewrite <- (le_val_le_bytes 8 num) at 1 by done.
  assert (Hr : bytes (reverse (le_bytes 8 num))) by (apply Forall_reverse, le_bytes_bytes).
  rewrite SWAP64_le_val by (apply le_bytes_bytes || apply length_le_bytes).
  assert (Hl8 : length (reverse (le_bytes 8 num)) = 8%nat) by (by rewrite length_reverse, length_le_bytes).
  rewrite <- Hl8 at 2. rewrite le_bytes_le_val by done.
  assert (Hd : bytes (digits 256 size num)).
  { eapply Forall_impl; [apply digits_range; lia|]. done. }
  assert (reverse (le_bytes 8 num) = replicate (8 - size) 0 ++ digits 256 size num) as ->.
  { apply (be_val_inj 256); [lia| | | |].
    - done.
    - apply Forall_app. split; [|done]. by apply Forall_replicate.
    - rewrite Hl8, length_app, length_replicate, length_digits. lia.
    - rewrite be_val_reverse, le_val_le_bytes by done.
      rewrite be_val_app, be_val_digits by lia.
      rewrite <- (digits_0 256), be_val_digits by lia. lia. }
  rewrite drop_app_length' by (by rewrite length_replicate). done.
Qed.

(** ** Lemmas: one block *)

Lemma encode_block_loop_spec fuel (k : nat) num done_ :
  0 <= num < 58 ^ k -> (k < fuel)%nat ->
  encode_block_loop fuel num (k - 1) (replicate k (alphabet_at 0) ++ done_) =
    Some (map alphabet_at (digits 58 k num) ++ done_).
Proof.
  revert k num done_. induction fuel as [|fuel IH]; intros k num done_ Hn Hf; [lia|].
  cbn [encode_block_loop]. case_match; bcase_hyps.
  - destruct k as [|k]; [simpl in Hn; lia|].
    rewrite length_app, length_replicate.
    btrue ((0 <=? S k - 1) && (S k - 1 <? (S k + length done_)%nat)).
    unfold alphabet_size. replace (Z.to_nat (S k - 1)) with k by lia.
    replace (S k - 1 - 1) with (k - 1) by lia.
    rewrite replicate_S_end, <- app_assoc, insert_app_r_alt by (rewrite length_replicate; lia).
    rewrite length_replicate, Nat.sub_diag. cbn [app insert list_insert].
    rewrite Nat2Z.inj_succ, Z.pow_succ_r in Hn by lia.
    rewrite IH; [|split; [apply Z.div_pos|apply Z.div_lt_upper_bound]; lia|lia].
    cbn [digits]. by rewrite map_app, <- app_assoc.
  - assert (num = 0) as -> by lia. rewrite digits_0 by lia.
    change (map alphabet_at ?l) with (alphabet_at <$> l). by rewrite fmap_replicate.
Qed.

(** The symbols a block of bytes is encoded to. *)
Definition block_symbols (block : list Z) : list Z :=
  map alphabet_at (digits 58 (Z.to_nat (encoded_block_size (length block))) (be_val 256 block)).

Lemma encode_block_spec block :
  bytes block -> (0 < length block <= 8)%nat ->
  encode_block block (replicate (Z.to_nat (encoded_block_size (length block))) (alphabet_at 0)) =
    Some (block_symbols block).
Proof.
  intros Hb Hl. unfold encode_block. rewrite uint_8be_to_64_be by (done || lia).
  destruct (block_sizes_spec (length block)) as (_ & H58 & Hr & Hpos & _); [lia|].
  pose proof (be_val_range 256 block ltac:(lia) Hb) as Hv.
  set (k := Z.to_nat (encoded_block_size (length block))).
  assert (encoded_block_size (length block) = k) as Ek by lia.
  rewrite Ek in *. rewrite <- (app_nil_r (replicate k _)).
  rewrite encode_block_loop_spec by lia. by rewrite app_nil_r.
Qed.

Lemma decode_block_loop_spec ds (k : nat) res :
  Forall (fun d => 0 <= d < 58) ds -> (k + length ds <= 11)%nat -> is_u64 res ->
  decode_block_loop (map alphabet_at ds) res (u64 (58 ^ k)) =
    (let v := res + 58 ^ k * be_val 58 (reverse ds) in
     if v <? 2 ^ 64 then Some v else None).
Proof.
  intros Hds. revert k res. induction Hds as [|d ds Hd Hds IH]; intros k res Hk Hres.
  { cbn. unfold be_val. simpl. unfold is_uint in Hres.
    rewrite Z.mul_0_r, Z.add_0_r. btrue (res <? 2 ^ 64). done. }
  cbn [map decode_block_loop length] in *. rewrite reverse_alphabet_at by done. bfalse (d <? 0).
  assert (0 < 58 ^ k < 2 ^ 64) as Hord.
  { split; [apply Z.pow_pos_nonneg; lia|].
    eapply Z.le_lt_trans; [apply (Z.pow_le_mono_r 58 k 10); lia|]. done. }
  rewrite (wrap_small 64 (58 ^ k)) by (unfold is_uint; lia).
  destruct (mul128 (58 ^ k) d) as [lo hi] eqn:Em.
  apply mul128_correct in Em as (Em & Hlo & Hhi); [|unfold is_uint; lia..].
  pose proof (add_carry res lo Hres Hlo) as Hc.
  pose proof (wrap_range 64 (res + lo) ltac:(lia)) as Hw.
  assert (Hds' : 0 <= be_val 58 (reverse ds)).
  { apply (be_val_range 58); [lia|]. by apply Forall_reverse. }
  rewrite reverse_cons, be_val_snoc. cbv zeta.
  assert (0 <= 58 ^ k * be_val 58 (reverse ds)) as Hnn by nia.
  rewrite Z.mul_add_distr_l, (Z.mul_assoc (58 ^ k)).
  destruct (res ⊞ lo <? res) eqn:Ec; cbn [orb].
  { bcase_hyps. unfold is_uint in *. case_match; [|done]. bcase_hyps. exfalso. lia. }
  destruct (0 =? hi) eqn:Eh; bcase_hyps; cbn [negb].
  2: { case_match; [|done]. bcase_hyps. unfold is_uint in *. exfalso. lia. }
  subst hi.
  assert (58 ^ k ⊠ alphabet_size = u64 (58 ^ S k)) as ->.
  { f_equal. rewrite Nat2Z.inj_succ, Z.pow_succ_r by lia. unfold alphabet_size. lia. }
  rewrite IH by (lia || (apply wrap_range; lia)). cbv zeta.
  replace (res ⊞ lo) with (res + 58 ^ k * d) by lia.
  rewrite Nat2Z.inj_succ, Z.pow_succ_r by lia.
  replace (res + 58 ^ k * d + 58 * 58 ^ k * be_val 58 (reverse ds))
    with (res + (58 ^ k * be_val 58 (reverse ds) * 58 + 58 ^ k * d)) by ring.
  done.
Qed.

Lemma decode_block_loop_valid l res order v :
  bytes l -> decode_block_loop l res order = Some v ->
  exists ds, l = map alphabet_at ds /\ Forall (fun d => 0 <= d < 58) ds.
Proof.
  intros Hl. revert res order. induction Hl as [|c l Hc Hl IH]; intros res order E.
  { by exists []. }
  cbn [decode_block_loop] in E. destruct (reverse_alphabet c <? 0) eqn:Er; [done|]. bcase_hyps.
  destruct (reverse_alphabet_spec c Hc) as [[Hr Ea]|]; [|lia].
  destruct (mul128 _ _) as [lo hi]. case_match; [done|].
  apply IH in E as (ds & -> & Hds). exists (reverse_alphabet c :: ds). simpl. split; [congruence|by constructor].
Qed.

Lemma length_block_symbols block : length (block_symbols block) = Z.to_nat (encoded_block_size (length block)).
Proof. unfold block_symbols. by rewrite length_map, length_digits. Qed.

Lemma block_symbols_bytes block : bytes (block_symbols block).
Proof.
  apply Forall_map. eapply Forall_impl; [apply (digits_range 58); lia|]. apply alphabet_at_byte.
Qed.

Lemma pow256 (n : nat) : 256 ^ n = 2 ^ (8 * n).
Proof. change 256 with (2 ^ 8). by rewrite <- Z.pow_mul_r by lia. Qed.

Lemma decode_block_symbols block :
  bytes block -> (0 < length block <= 8)%nat -> decode_block (block_symbols block) = Some block.
Proof.
  intros Hb Hl. unfold decode_block. rewrite length_block_symbols.
  destruct (block_sizes_spec (length block)) as (Hd & H58 & Hr & Hpos & _); [lia|].
  rewrite Z2Nat.id by lia. rewrite Hd. bfalse (length block <=? 0).
  unfold block_symbols. set (k := Z.to_nat _). set (v := be_val 256 block).
  assert (encoded_block_size (length block) = k) as Ek by lia. rewrite Ek in H58.
  pose proof (be_val_range 256 block ltac:(lia) Hb) as Hv. fold v in Hv.
  change (map alphabet_at ?l) with (alphabet_at <$> l). rewrite <- fmap_reverse.
  change (alphabet_at <$> ?l) with (map alphabet_at l). change 1 with (u64 (58 ^ 0%nat)) at 1.
  assert (256 ^ length block <= 2 ^ 64) by (rewrite pow256; apply Z.pow_le_mono_r; lia).
  rewrite decode_block_loop_spec.
  - rewrite reverse_involutive, be_val_digits by lia. rewrite Z.pow_0_r, Z.mul_1_l, Z.add_0_l.
    cbv zeta. btrue (v <? 2 ^ 64). rewrite shiftl_mul, Z.mul_1_l, <- pow256 by lia.
    bfalse (256 ^ length block <=? v). rewrite andb_false_r, Nat2Z.id.
    rewrite uint_64_to_8be_spec by lia. f_equal. apply digits_be_val; [lia|done].
  - apply Forall_reverse, digits_range. lia.
  - rewrite length_reverse, length_digits. lia.
  - done.
Qed.

Lemma decode_block_inv enc data :
  bytes enc -> (length enc <= 11)%nat -> decode_block enc = Some data ->
  bytes data /\ (0 < length data <= 8)%nat /\ block_symbols data = enc.
Proof.
  intros He Hl E. unfold decode_block in E.
  destruct (decoded_block_sizes _ <=? 0) eqn:Ed; [done|]. bcase_hyps.
  destruct (decoded_block_sizes_inv (length enc)) as [Hinv H8]; [lia..|].
  set (n := Z.to_nat (decoded_block_sizes (length enc))) in *.
  assert (decoded_block_sizes (length enc) = n) as En by lia. rewrite En in *.
  destruct (decode_block_loop _ _ _) as [v|] eqn:Ev; [|done].
  assert (bytes (reverse enc)) as Hre by by apply Forall_reverse.
  destruct (decode_block_loop_valid _ _ _ _ Hre Ev) as (rds & Erds & Hrds).
  assert (enc = map alphabet_at (reverse rds)) as Eenc.
  { rewrite <- (reverse_involutive enc), Erds.
    change (map alphabet_at ?l) with (alphabet_at <$> l). by rewrite fmap_reverse. }
  rewrite Erds in Ev. change 1 with (u64 (58 ^ 0%nat)) in Ev at 1.
  assert (length rds = length enc) as Hlr by (rewrite Eenc, length_map, length_reverse; done).
  rewrite decode_block_loop_spec in Ev by (done || lia).
  rewrite Z.pow_0_r, Z.mul_1_l, Z.add_0_l in Ev. cbv zeta in Ev.
  destruct (_ <? 2 ^ 64) eqn:E64; [|done]. bcase_hyps. simplify_eq.
  set (ds := reverse rds) in *. assert (Forall (fun d => 0 <= d < 58) ds) as Hds by by apply Forall_reverse.
  pose proof (be_val_range 58 ds ltac:(lia) Hds) as Hv. set (v := be_val 58 ds) in *.
  assert (v < 256 ^ n) as Hvn.
  { rewrite pow256. destruct (_ && _) eqn:Ec; [done|]. rewrite shiftl_mul, Z.mul_1_l in Ec by lia.
    apply andb_false_iff in Ec as [Ec|Ec]; bcase_hyps; [|done].
    replace (8 * n) with 64 by (unfold full_block_size in Ec; lia). done. }
  case_match; [done|]. simplify_eq. rewrite uint_64_to_8be_spec by lia.
  split_and!; [|rewrite length_digits; lia..|].
  - eapply Forall_impl; [apply (digits_range 256); lia|done].
  - unfold block_symbols. rewrite length_digits, Hinv, Nat2Z.id, be_val_digits by lia.
    rewrite <- Hlr. f_equal. rewrite <- (length_reverse rds). by apply digits_be_val.
Qed.

(** ** Lemmas: the block loops *)

Lemma encode_full_blocks_spec n data :
  bytes data -> (8 * n <= length data)%nat ->
  exists res, encode_full_blocks n data = Some (res, drop (8 * n) data) /\
    bytes res /\ length res = (11 * n)%nat /\
    forall tail, decode_full_blocks n (res ++ tail) = Some (take (8 * n) data, tail).
Proof.
  revert data. induction n as [|n IH]; intros data Hb Hl.
  { exists []. split_and!; try done. constructor. }
  cbn [encode_full_blocks decode_full_blocks].
  assert (length (take 8 data) = 8%nat) as Ht by (rewrite length_take; lia).
  assert (bytes (take 8 data)) as Hbt by by apply Forall_take.
  pose proof (encode_block_spec (take 8 data) Hbt ltac:(lia)) as He. rewrite Ht in He.
  change (Z.to_nat (encoded_block_size 8%nat)) with 11%nat in He. rewrite He. cbn [mbind option_bind].
  destruct (IH (drop 8 data)) as (res & -> & Hrb & Hrl & Hdec).
  { by apply Forall_drop. } { rewrite length_drop. lia. }
  cbn [mbind option_bind]. rewrite drop_drop.
  pose proof (length_block_symbols (take 8 data)) as Hls. rewrite Ht in Hls.
  change (Z.to_nat (encoded_block_size 8%nat)) with 11%nat in Hls.
  eexists. split_and!; [repeat f_equal; lia|apply Forall_app; split; [apply block_symbols_bytes|done]|rewrite length_app; lia|].
  intros tail. rewrite <- app_assoc, take_app_length' by done. rewrite decode_block_symbols by (done || lia).
  cbn [mbind option_bind]. rewrite drop_app_length' by done. rewrite Hdec. cbn [mbind option_bind].
  do 2 f_equal. replace (8 * S n)%nat with (8 + 8 * n)%nat by lia.
  by rewrite <- take_take_drop.
Qed.

Lemma decode_full_blocks_inv n enc data rest :
  bytes enc -> (11 * n <= length enc)%nat -> decode_full_blocks n enc = Some (data, rest) ->
  rest = drop (11 * n) enc /\ bytes data /\ length data = (8 * n)%nat /\
  forall tail, encode_full_blocks n (data ++ tail) = Some (take (11 * n) enc, tail).
Proof.
  revert enc data rest. induction n as [|n IH]; intros enc data rest He Hl E.
  { simpl in E. simplify_eq. split_and!; done || constructor. }
  cbn [decode_full_blocks] in E.
  destruct (decode_block (take 11 enc)) as [b|] eqn:Eb; [|done]. cbn [mbind option_bind] in E.
  destruct (decode_full_blocks n (drop 11 enc)) as [[ds last]|] eqn:Ed; [|done].
  cbn [mbind option_bind] in E. simplify_eq.
  assert (length (take 11 enc) = 11%nat) as Ht by (rewrite length_take; lia).
  apply decode_block_inv in Eb as (Hbb & Hbl & Esym); [|by apply Forall_take|lia].
  apply IH in Ed as (-> & Hdb & Hdl & Henc); [|by apply Forall_drop|rewrite length_drop; lia].
  assert (length b = 8%nat) as Hb8.
  { pose proof (length_block_symbols b) as H. rewrite Esym, Ht in H.
    destruct (block_sizes_spec (length b)) as (_ & _ & _ & _ & Hlt); [lia|]. lia. }
  split_and!; [rewrite drop_drop; f_equal; lia|by apply Forall_app|rewrite length_app; lia|].
  intros tail. cbn [encode_full_blocks]. rewrite <- app_assoc, take_app_length', drop_app_length' by done.
  pose proof (encode_block_spec b Hbb ltac:(lia)) as Hencb. rewrite Hb8 in Hencb.
  change (Z.to_nat (encoded_block_size 8%nat)) with 11%nat in Hencb. rewrite Hencb.
  cbn [mbind option_bind]. rewrite Henc. cbn [mbind option_bind]. do 2 f_equal.
  replace (11 * S n)%nat with (11 + 11 * n)%nat by lia. by rewrite <- take_take_drop, Esym.
Qed.

Lemma div_mod_blocks {A} (l : list A) (k n m : nat) :
  length l = (k * n + m)%nat -> (m < k)%nat ->
  Z.to_nat (length l / k) = n /\ Z.of_nat (length l) mod k = m.
Proof.
  intros Hl Hm. rewrite <- Nat2Z.inj_div, <- Nat2Z.inj_mod, Nat2Z.id. split.
  - symmetry. apply (Nat.div_unique _ k n m); lia.
  - f_equal. symmetry. apply (Nat.mod_unique _ k n m); lia.
Qed.

(** [encode] and [decode] with the number [n] of full blocks and the size [m] of
    the last one made explicit. *)
Lemma encode_unfold data (n m : nat) :
  length data = (8 * n + m)%nat -> (m < 8)%nat ->
  encode data =
    ('(res, last) ← encode_full_blocks n data;
     if 0 <? m then
       lres ← encode_block last (replicate (Z.to_nat (encoded_block_size m)) (alphabet_at 0));
       Some (res ++ lres)
     else Some res).
Proof.
  intros Hl Hm. destruct (div_mod_blocks data 8 n m Hl Hm) as [E1 E2].
  change (Z.of_nat 8) with 8 in E1, E2. unfold encode. destruct data as [|z data].
  - simpl in Hl. assert (n = 0%nat /\ m = 0%nat) as [-> ->] by lia. done.
  - unfold full_block_size. cbv zeta. by rewrite E1, E2.
Qed.

Lemma decode_unfold enc (n m : nat) :
  length enc = (11 * n + m)%nat -> (m < 11)%nat ->
  decode enc =
    if decoded_block_sizes m <? 0 then None
    else
      '(res, last) ← decode_full_blocks n enc;
      if 0 <? m then lres ← decode_block last; Some (res ++ lres) else Some res.
Proof.
  intros Hl Hm. destruct (div_mod_blocks enc 11 n m Hl Hm) as [E1 E2].
  change (Z.of_nat 11) with 11 in E1, E2. unfold decode. destruct enc as [|z enc].
  - simpl in Hl. assert (n = 0%nat /\ m = 0%nat) as [-> ->] by lia. done.
  - unfold full_encoded_block_size. cbv zeta. by rewrite E1, E2.
Qed.

Lemma block_count {A} (l : list A) (k : nat) :
  (0 < k)%nat -> exists n m, length l = (k * n + m)%nat /\ (m < k)%nat.
Proof.
  intros Hk. exists (length l / k)%nat, (length l mod k)%nat.
  split; [apply Nat.div_mod_eq|apply Nat.mod_upper_bound; lia].
Qed.

(** The last, partial block: what [encode] appends for it. *)
Definition last_symbols (last : list Z) : list Z :=
  if 0 <? length last then block_symbols last else [].

Lemma length_last_symbols last :
  (length last < 8)%nat -> Z.of_nat (length (last_symbols last)) = encoded_block_size (length last).
Proof.
  intros Hl. destruct (block_sizes_spec (length last)) as (_ & _ & ? & _ & _); [lia|].
  unfold last_symbols. case_match; bcase_hyps; [rewrite length_block_symbols; lia|].
  by assert (length last = 0%nat) as -> by lia.
Qed.

Lemma encode_spec data :
  bytes data -> exists enc, encode data = Some enc /\ bytes enc /\ decode enc = Some data.
Proof.
  intros Hb. destruct (block_count data 8) as (n & m & Hl & Hm); [lia|].
  destruct (encode_full_blocks_spec n data Hb ltac:(lia)) as (res & Eres & Hrb & Hrl & Hdec).
  assert (Hlast : length (drop (8 * n) data) = m) by (rewrite length_drop; lia).
  assert (Hlb : bytes (drop (8 * n) data)) by by apply Forall_drop.
  rewrite (encode_unfold data n m), Eres by done. cbn [mbind option_bind].
  pose proof (take_drop (8 * n) data) as Edata. set (last := drop (8 * n) data) in *.
  destruct (block_sizes_spec m) as (Hds & _ & Hr & Hpos & Hlt); [lia|].
  pose proof (length_last_symbols last ltac:(lia)) as Hsl. rewrite Hlast in Hsl.
  exists (res ++ last_symbols last). split_and!.
  - unfold last_symbols. rewrite Hlast. case_match; bcase_hyps; [|by rewrite app_nil_r].
    rewrite <- Hlast, encode_block_spec by (done || lia). done.
  - apply Forall_app. split; [done|]. unfold last_symbols. case_match; [apply block_symbols_bytes|constructor].
  - rewrite (decode_unfold _ n (length (last_symbols last))) by (rewrite ?length_app; lia).
    rewrite Hsl, Hds. bfalse (m <? 0). rewrite Hdec. cbn [mbind option_bind].
    unfold last_symbols. rewrite Hlast. destruct (0 <? m) eqn:Em; bcase_hyps.
    + btrue (0 <? encoded_block_size m). rewrite decode_block_symbols by (done || lia).
      cbn [mbind option_bind]. by rewrite Edata.
    + assert (m = 0%nat) as -> by lia. change (0 <? encoded_block_size 0%nat) with false.
      apply nil_length_inv in Hlast. rewrite Hlast, app_nil_r in Edata. by rewrite Edata.
Qed.

Lemma decode_inv enc data :
  bytes enc -> decode enc = Some data -> bytes data /\ encode data = Some enc.
Proof.
  intros He E. destruct (block_count enc 11) as (n & m & Hl & Hm); [lia|].
  rewrite (decode_unfold enc n m) in E by done.
  destruct (_ <? 0) eqn:Eneg; [done|]. bcase_hyps.
  destruct (decode_full_blocks n enc) as [[ds last]|] eqn:Ed; [|done]. cbn [mbind option_bind] in E.
  apply decode_full_blocks_inv in Ed as (-> & Hdb & Hdl & Henc); [|done|lia].
  assert (Hlast : length (drop (11 * n) enc) = m) by (rewrite length_drop; lia).
  assert (Hlb : bytes (drop (11 * n) enc)) by by apply Forall_drop.
  rewrite <- (take_drop (11 * n) enc). set (tail := drop (11 * n) enc) in *.
  destruct (0 <? m) eqn:Em; bcase_hyps.
  - destruct (decode_block tail) as [lb|] eqn:El; [|done]. cbn [mbind option_bind] in E. simplify_eq.
    apply decode_block_inv in El as (Hb1 & Hb2 & Hsym); [|done|lia].
    assert (length lb < 8)%nat as Hlb8.
    { destruct (decide (length lb = 8%nat)) as [Hl8|]; [|lia]. exfalso.
      pose proof (length_block_symbols lb) as Hls. rewrite Hsym, Hl8 in Hls.
      change (Z.to_nat (encoded_block_size 8%nat)) with 11%nat in Hls. lia. }
    split; [by apply Forall_app|].
    rewrite (encode_unfold _ n (length lb)), Henc by (rewrite ?length_app; lia).
    cbn [mbind option_bind]. btrue (0 <? length lb). rewrite encode_block_spec by (done || lia).
    cbn [mbind option_bind]. by rewrite Hsym.
  - assert (m = 0%nat) as -> by lia. simplify_eq. split; [done|].
    rewrite (encode_unfold _ n 0) by lia. specialize (Henc []). rewrite app_nil_r in Henc.
    rewrite Henc. cbn [mbind option_bind]. apply nil_length_inv in Hlast. by rewrite Hlast, app_nil_r.
Qed.

(** ** Properties *)

(** every byte string can be encoded, no write leaves the output buffer, and
    decoding the result gives the string back. *)
Theorem base58_roundtrip data :
  bytes data -> exists enc, encode data = Some enc /\ decode enc = Some data.
Proof. intros H. destruct (encode_spec data H) as (enc & ? & _ & ?). eauto. Qed.

Lemma base58_roundtrip_witness :
  bytes [0; 255; 18; 200; 7; 1; 2; 3; 99; 100] /\
  exists enc, encode [0; 255; 18; 200; 7; 1; 2; 3; 99; 100] = Some enc /\
    decode enc = Some [0; 255; 18; 200; 7; 1; 2; 3; 99; 100].
Proof.
  assert (H : bytes [0; 255; 18; 200; 7; 1; 2; 3; 99; 100]) by (repeat constructor; vm_compute; done || discriminate).
  split; [exact H|]. apply (base58_roundtrip _ H).
Defined.

(** decoding accepts only canonical text: whatever string [decode] accepts is the
    encoding of the data it returns, so no two strings decode to the same data. *)
Theorem base58_decode_canonical enc data :
  bytes enc -> decode enc = Some data -> encode data = Some enc.
Proof. intros He Hd. by apply decode_inv. Qed.

Lemma base58_decode_canonical_witness :
  (bytes [53; 81] /\ decode [53; 81] = Some [255]) /\ encode [255] = Some [53; 81].
Proof.
  assert (H : bytes [53; 81] /\ decode [53; 81] = Some [255]).
  { split; [repeat constructor; vm_compute; done || discriminate|vm_compute; done]. }
  split; [exact H|]. apply (base58_decode_canonical [53; 81] [255]); apply H.
Defined.

Lemma take4_cn_fast_hash x : length (take 4 (cn_fast_hash x)) = 4%nat.
Proof. rewrite length_take, length_cn_fast_hash. done. Qed.

Lemma decode_encode_addr tag data :
  is_u64 tag -> bytes data ->
  exists addr, encode_addr tag data = Some addr /\ decode_addr addr = Some (tag, data).
Proof.
  intros Ht Hd. unfold encode_addr. change (Z.to_nat addr_checksum_size) with 4%nat. cbv zeta.
  set (buf := get_varint_data tag ++ data).
  assert (Hbuf : bytes buf).
  { apply Forall_app. split; [apply write_varint_bytes, Ht|done]. }
  destruct (encode_spec (buf ++ take 4 (cn_fast_hash buf))) as (addr & Ee & _ & Edec).
  { apply Forall_app. split; [done|]. apply Forall_take, cn_fast_hash_bytes. }
  exists addr. split; [done|]. unfold decode_addr. rewrite Edec. cbn [mbind option_bind].
  change (Z.to_nat addr_checksum_size) with 4%nat. unfold addr_checksum_size.
  pose proof (take4_cn_fast_hash buf) as H4.
  assert (Hl : length (buf ++ take 4 (cn_fast_hash buf)) = (length buf + 4)%nat) by (rewrite length_app; lia).
  assert (0 < length buf)%nat as Hb0.
  { unfold buf, get_varint_data. rewrite length_app. pose proof (length_write_varint tag ltac:(apply Ht)). lia. }
  rewrite Hl. bfalse (Z.of_nat (length buf + 4)%nat <=? 4).
  replace (length buf + 4 - 4)%nat with (length buf) by lia. cbv zeta.
  rewrite drop_app_length, take_app_length, bool_decide_eq_true_2 by done. cbn [negb].
  unfold buf. unfold read_varint, get_varint_data. destruct Ht as [Ht0 Ht1].
  rewrite (read_write_loop 64 tag Ht0 0 0 0 data) by (simpl; lia).
  rewrite Z.add_0_l, Z.pow_0_r, Z.mul_1_r, Z.add_0_l.
  pose proof (length_write_varint tag Ht0). bfalse (length (write_varint tag) <=? 0).
  by rewrite Nat2Z.id, drop_app_length.
Qed.

Lemma decode_addr_bytes addr tag data : bytes addr -> decode_addr addr = Some (tag, data) -> bytes data.
Proof.
  intros Ha E. unfold decode_addr in E. destruct (decode addr) as [ad|] eqn:Ed; [|done].
  apply decode_inv in Ed as [Hb _]; [|done]. cbn [mbind option_bind] in E. cbv zeta in E.
  repeat case_match; simplify_eq. by apply Forall_drop, Forall_take.
Qed.

Lemma decode_addr_inv addr tag data :
  bytes addr -> decode_addr addr = Some (tag, data) ->
  encode_addr tag data = Some addr \/
  (data = [] /\ exists payload, Forall (fun b => 128 <= b) payload /\
     encode (payload ++ take 4 (cn_fast_hash payload)) = Some addr).
Proof.
  intros Ha E. unfold decode_addr in E. destruct (decode addr) as [ad|] eqn:Ed; [|done].
  cbn [mbind option_bind] in E. apply decode_inv in Ed as [Hb Henc]; [|done].
  change (Z.to_nat addr_checksum_size) with 4%nat in E. unfold addr_checksum_size in E.
  destruct (length ad <=? 4) eqn:El; [done|]. bcase_hyps. cbv zeta in E.
  rewrite <- (take_drop (length ad - 4) ad) in Henc. assert (Hp : bytes (take (length ad - 4) ad)) by by apply Forall_take.
  assert (Hpl : (0 < length (take (length ad - 4) ad))%nat) by (rewrite length_take; lia).
  set (payload := take (length ad - 4) ad) in *. set (chk := drop (length ad - 4) ad) in *.
  case_bool_decide as Hc; [|done]. cbn [negb] in E. subst chk. rewrite <- Hc in Henc.
  destruct (read_varint 64 payload) as [[read v] rest] eqn:Er.
  destruct (read <=? 0) eqn:Er0; [done|]. bcase_hyps. simplify_eq.
  apply (read_varint_loop_inv 64 payload Hp) in Er
    as [(i & Hi & Ep & -> & Hfit & -> & _)|(-> & HF & ->)]; [left|right|simpl; lia..].
  - rewrite Z.add_0_l, Z.pow_0_r, Z.mul_1_r, Z.add_0_l, Nat2Z.id in *. unfold encode_addr, get_varint_data.
    assert (write_varint i ++ drop (length (write_varint i)) payload = payload) as ->; [|done].
    rewrite Ep, drop_app_length. done.
  - split; [|by exists payload]. apply drop_ge. lia.
Qed.

(** an address written by [encode_addr] is read back by [decode_addr] with its tag
    and its data, for every 64-bit tag. *)
Theorem address_roundtrip tag data :
  is_u64 tag -> bytes data ->
  exists addr, encode_addr tag data = Some addr /\ decode_addr addr = Some (tag, data).
Proof. apply decode_encode_addr. Qed.

Lemma address_roundtrip_witness :
  (is_u64 18 /\ bytes [1; 2; 3]) /\
  exists addr, encode_addr 18 [1; 2; 3] = Some addr /\ decode_addr addr = Some (18, [1; 2; 3]).
Proof.
  assert (H : is_u64 18 /\ bytes [1; 2; 3]).
  { split; [vm_compute; split; done || discriminate|repeat constructor; vm_compute; done || discriminate]. }
  split; [exact H|]. apply (address_roundtrip 18 [1; 2; 3]); apply H.
Defined.

(** [decode_addr] is sound: an accepted address is the encoding of the tag and data
    returned, checksum included, unless its whole payload is one varint cut
    short (every byte has the continuation bit), in which case no data is returned. *)
Theorem address_canonical addr tag data :
  bytes addr -> decode_addr addr = Some (tag, data) ->
  encode_addr tag data = Some addr \/
  (data = [] /\ exists payload, Forall (fun b => 128 <= b) payload /\
     encode (payload ++ take 4 (cn_fast_hash payload)) = Some addr).
Proof. apply decode_addr_inv. Qed.

Lemma address_canonical_witness :
  let addr := [52; 49; 102; 75; 106; 87; 97; 52; 57; 55; 106] in
  (bytes addr /\ decode_addr addr = Some (18, [1; 2; 3])) /\
  (encode_addr 18 [1; 2; 3] = Some addr \/
   ([1; 2; 3] = [] /\ exists payload, Forall (fun b => 128 <= b) payload /\
      encode (payload ++ take 4 (cn_fast_hash payload)) = Some addr)).
Proof.
  set (addr := [52; 49; 102; 75; 106; 87; 97; 52; 57; 55; 106]). cbv zeta.
  assert (H : bytes addr /\ decode_addr addr = Some (18, [1; 2; 3])).
  { split; [repeat constructor; vm_compute; done || discriminate|vm_compute; done]. }
  split; [exact H|]. apply (address_canonical addr 18 [1; 2; 3]); apply H.
Defined.
