(* ===== verification/Config.v ===== *)
(** * Config: consensus constants and network parameters

    Models the constants of src/cryptonote_config.h that the other components
    use, the network types and [get_config]. *)
From S2P Require Import Prelude.

(** [crypto::null_hash]. *)
Definition null_hash : list Z := replicate 32 0.

Definition CRYPTONOTE_MAX_BLOCK_NUMBER : Z := 500000000.
Definition CRYPTONOTE_MAX_TX_SIZE : Z := 1000000.
Definition CRYPTONOTE_MAX_TX_PER_BLOCK : Z := 0x10000000.
Definition CURRENT_TRANSACTION_VERSION : Z := 2.
Definition BULLETPROOF_MAX_OUTPUTS : Z := 16.
Definition BULLETPROOF_PLUS_MAX_OUTPUTS : Z := 16.
Definition CRYPTONOTE_MINED_MONEY_UNLOCK_WINDOW : Z := 60.
Definition CRYPTONOTE_BLOCK_FUTURE_TIME_LIMIT : Z := 60 * 60 * 2.
Definition CRYPTONOTE_DEFAULT_TX_SPENDABLE_AGE : Z := 10.
Definition BLOCKCHAIN_TIMESTAMP_CHECK_WINDOW : Z := 60.

Definition CRYPTONOTE_COINBASE_BLOB_RESERVED_SIZE : Z := 600.

Definition MONEY_SUPPLY : Z := UINT64_MAX.
Definition EMISSION_SPEED_FACTOR_PER_MINUTE : Z := 20.
Definition FINAL_SUBSIDY_PER_MINUTE : Z := 300000000000.

Definition CRYPTONOTE_REWARD_BLOCKS_WINDOW : Z := 100.
Definition CRYPTONOTE_BLOCK_GRANTED_FULL_REWARD_ZONE_V2 : Z := 60000.
Definition CRYPTONOTE_BLOCK_GRANTED_FULL_REWARD_ZONE_V1 : Z := 20000.
Definition CRYPTONOTE_BLOCK_GRANTED_FULL_REWARD_ZONE_V5 : Z := 300000.
Definition CRYPTONOTE_LONG_TERM_BLOCK_WEIGHT_WINDOW_SIZE : Z := 100000.
Definition CRYPTONOTE_SHORT_TERM_BLOCK_WEIGHT_SURGE_FACTOR : Z := 50.
Definition CRYPTONOTE_DISPLAY_DECIMAL_POINT : Z := 12.
Definition DYNAMIC_FEE_REFERENCE_TRANSACTION_WEIGHT : Z := 3000.

Definition DIFFICULTY_TARGET_V2 : Z := 120.
Definition DIFFICULTY_TARGET_V1 : Z := 60.
Definition DIFFICULTY_WINDOW : Z := 720.
Definition DIFFICULTY_LAG : Z := 15.
Definition DIFFICULTY_CUT : Z := 60.
Definition DIFFICULTY_BLOCKS_COUNT : Z := DIFFICULTY_WINDOW + DIFFICULTY_LAG.

Definition CRYPTONOTE_LOCKED_TX_ALLOWED_DELTA_BLOCKS : Z := 1.
Definition CRYPTONOTE_LOCKED_TX_ALLOWED_DELTA_SECONDS_V1 : Z :=
  DIFFICULTY_TARGET_V1 * CRYPTONOTE_LOCKED_TX_ALLOWED_DELTA_BLOCKS.
Definition CRYPTONOTE_LOCKED_TX_ALLOWED_DELTA_SECONDS_V2 : Z :=
  DIFFICULTY_TARGET_V2 * CRYPTONOTE_LOCKED_TX_ALLOWED_DELTA_BLOCKS.

Definition HF_VERSION_DYNAMIC_FEE : Z := 4.
Definition HF_VERSION_MIN_MIXIN_4 : Z := 6.
Definition HF_VERSION_MIN_MIXIN_6 : Z := 7.
Definition HF_VERSION_MIN_MIXIN_10 : Z := 8.
Definition HF_VERSION_MIN_MIXIN_15 : Z := 15.
Definition HF_VERSION_ENFORCE_RCT : Z := 6.
Definition HF_VERSION_PER_BYTE_FEE : Z := 8.
Definition HF_VERSION_SMALLER_BP : Z := 10.
Definition HF_VERSION_LONG_TERM_BLOCK_WEIGHT : Z := 10.
Definition HF_VERSION_MIN_2_OUTPUTS : Z := 12.
Definition HF_VERSION_SAME_MIXIN : Z := 12.
Definition HF_VERSION_ENFORCE_MIN_AGE : Z := 12.
Definition HF_VERSION_MIN_V2_COINBASE_TX : Z := 12.
Definition HF_VERSION_REJECT_SIGS_IN_COINBASE : Z := 12.
Definition HF_VERSION_EFFECTIVE_SHORT_TERM_MEDIAN_IN_PENALTY : Z := 12.
Definition HF_VERSION_EXACT_COINBASE : Z := 13.
Definition HF_VERSION_CLSAG : Z := 13.
Definition HF_VERSION_BULLETPROOF_PLUS : Z := 15.
Definition HF_VERSION_DETERMINISTIC_UNLOCK_TIME : Z := 13.
Definition HF_VERSION_2021_SCALING : Z := 15.
Definition HF_VERSION_VIEW_TAGS : Z := 15.

Definition PER_KB_FEE_QUANTIZATION_DECIMALS : Z := 8.
Definition CRYPTONOTE_SCALING_2021_FEE_ROUNDING_PLACES : Z := 2.

Definition CRYPTONOTE_PRUNING_STRIPE_SIZE : Z := 4096.
Definition CRYPTONOTE_PRUNING_LOG_STRIPES : Z := 3.
Definition CRYPTONOTE_PRUNING_TIP_BLOCKS : Z := 5500.

(** ** Networks *)

Inductive network_type := MAINNET | TESTNET | STAGENET | FAKECHAIN | UNDEFINED.

#[global] Instance network_type_eq_dec : EqDecision network_type.
Proof. solve_decision. Defined.

(** The genesis transaction text is not used by the modelled code and left out. *)
Record config_t := mk_config {
  CRYPTONOTE_PUBLIC_ADDRESS_BASE58_PREFIX : Z;
  CRYPTONOTE_PUBLIC_INTEGRATED_ADDRESS_BASE58_PREFIX : Z;
  CRYPTONOTE_PUBLIC_SUBADDRESS_BASE58_PREFIX : Z;
  P2P_DEFAULT_PORT : Z;
  RPC_DEFAULT_PORT : Z;
  ZMQ_RPC_DEFAULT_PORT : Z;
  NETWORK_ID : list Z;
  GENESIS_NONCE : Z;
}.

Definition network_id_prefix : list Z :=
  [0x12; 0x30; 0xF1; 0x71; 0x61; 0x04; 0x41; 0x61; 0x17; 0x31; 0x00; 0x82; 0x16; 0xA1; 0xA1].

Definition mainnet : config_t :=
  mk_config 18 19 42 18080 18081 18082 (network_id_prefix ++ [0x10]) 10000.
Definition testnet : config_t :=
  mk_config 53 54 63 28080 28081 28082 (network_id_prefix ++ [0x11]) 10001.
Definition stagenet : config_t :=
  mk_config 24 25 36 38080 38081 38082 (network_id_prefix ++ [0x12]) 10002.

(** [None] is the exception thrown for an unknown network type. *)
Definition get_config (nettype : network_type) : option config_t :=
  match nettype with
  | MAINNET => Some mainnet
  | TESTNET => Some testnet
  | STAGENET => Some stagenet
  | FAKECHAIN => Some mainnet
  | UNDEFINED => None
  end.

(** The three address prefixes of a network are 64-bit and pairwise distinct. *)
Lemma get_config_prefixes nettype c :
  get_config nettype = Some c ->
  NoDup [CRYPTONOTE_PUBLIC_ADDRESS_BASE58_PREFIX c; CRYPTONOTE_PUBLIC_INTEGRATED_ADDRESS_BASE58_PREFIX c;
         CRYPTONOTE_PUBLIC_SUBADDRESS_BASE58_PREFIX c] /\
  Forall is_u64 [CRYPTONOTE_PUBLIC_ADDRESS_BASE58_PREFIX c; CRYPTONOTE_PUBLIC_INTEGRATED_ADDRESS_BASE58_PREFIX c;
         CRYPTONOTE_PUBLIC_SUBADDRESS_BASE58_PREFIX c].
Proof.
  intros E. destruct nettype; simplify_eq/=; (split; [apply (bool_decide_unpack _); vm_compute; exact I|]);
    repeat constructor; vm_compute; done || discriminate.
Qed.
