(* ===== verification/Reward.v ===== *)
(** * Reward: block subsidy, weight penalty and emission

    Models [get_min_block_weight], [get_max_tx_size] and [get_block_reward] of
    src/cryptonote_basic/cryptonote_basic_impl.cpp, and the cap on generated
    coins of src/cryptonote_core/blockchain.cpp. *)
From S2P Require Import Prelude IntUtil Config.
#[local] Open Scope mach_scope.

Definition get_min_block_weight (version : Z) : Z :=
  if version <? 2 then CRYPTONOTE_BLOCK_GRANTED_FULL_REWARD_ZONE_V1
  else if version <? 5 then CRYPTONOTE_BLOCK_GRANTED_FULL_REWARD_ZONE_V2
  else CRYPTONOTE_BLOCK_GRANTED_FULL_REWARD_ZONE_V5.

Definition get_max_tx_size : Z := CRYPTONOTE_MAX_TX_SIZE.

(** A failed [assert] is its own outcome; [reward_too_big] is the [false]
    return on a block above twice the median. *)
Inductive reward_result :=
  | reward_ok (reward : Z)
  | reward_too_big
  | reward_assert_failed.

Definition get_base_reward (already_generated_coins version : Z) : Z :=
  let target := if version <? 2 then DIFFICULTY_TARGET_V1 else DIFFICULTY_TARGET_V2 in
  let target_minutes := target / 60 in
  let emission_speed_factor := EMISSION_SPEED_FACTOR_PER_MINUTE - (target_minutes - 1) in
  let base_reward := Z.shiftr (MONEY_SUPPLY ⊟ already_generated_coins) emission_speed_factor in
  if base_reward <? FINAL_SUBSIDY_PER_MINUTE ⊠ target_minutes
  then FINAL_SUBSIDY_PER_MINUTE ⊠ target_minutes
  else base_reward.

Definition get_block_reward (median_weight current_block_weight already_generated_coins version : Z) : reward_result :=
  let base_reward := get_base_reward already_generated_coins version in
  let full_reward_zone := get_min_block_weight version in
  let median_weight := if median_weight <? full_reward_zone then full_reward_zone else median_weight in
  if current_block_weight <=? median_weight then reward_ok base_reward
  else if 2 ⊠ median_weight <? current_block_weight then reward_too_big
  else
    let multiplicand := 2 ⊠ median_weight ⊟ current_block_weight in
    let multiplicand := multiplicand ⊠ current_block_weight in
    let '(product_lo, product_hi) := mul128 base_reward multiplicand in
    let '(reward_hi, reward_lo, _, _) := div128_64 product_hi product_lo median_weight in
    let '(reward_hi, reward_lo, _, _) := div128_64 reward_hi reward_lo median_weight in
    if negb (reward_hi =? 0) then reward_assert_failed
    else if negb (reward_lo <? base_reward) then reward_assert_failed
    else reward_ok reward_lo.

(** The running total kept with each block, capped at [MONEY_SUPPLY]. *)
Definition cap_generated_coins (already_generated_coins base_reward : Z) : Z :=
  if base_reward <? MONEY_SUPPLY ⊟ already_generated_coins
  then already_generated_coins ⊞ base_reward
  else MONEY_SUPPLY.

(** ** Lemmas *)

Definition tail_subsidy (version : Z) : Z := if version <? 2 then FINAL_SUBSIDY_PER_MINUTE else 2 * FINAL_SUBSIDY_PER_MINUTE.
Definition emission_factor (version : Z) : Z := if version <? 2 then 20 else 19.

Lemma get_base_reward_spec coins version :
  is_u64 coins ->
  get_base_reward coins version =
    Z.max (tail_subsidy version) ((MONEY_SUPPLY - coins) / 2 ^ emission_factor version).
Proof.
  unfold is_uint. intros Hc. unfold get_base_reward, tail_subsidy, emission_factor.
  rewrite (wrap_small 64 (MONEY_SUPPLY - coins)) by (unfold is_uint, MONEY_SUPPLY; lia).
  destruct (version <? 2).
  - change (DIFFICULTY_TARGET_V1 / 60) with 1. change (EMISSION_SPEED_FACTOR_PER_MINUTE - (1 - 1)) with 20.
    change (FINAL_SUBSIDY_PER_MINUTE ⊠ 1) with FINAL_SUBSIDY_PER_MINUTE. rewrite shiftr_div by lia. bcase; lia.
  - change (DIFFICULTY_TARGET_V2 / 60) with 2. change (EMISSION_SPEED_FACTOR_PER_MINUTE - (2 - 1)) with 19.
    change (FINAL_SUBSIDY_PER_MINUTE ⊠ 2) with (2 * FINAL_SUBSIDY_PER_MINUTE). rewrite shiftr_div by lia. bcase; lia.
Qed.

Lemma get_base_reward_range coins version : is_u64 coins -> 0 < get_base_reward coins version < 2 ^ 45.
Proof.
  intros Hc. rewrite get_base_reward_spec by done. unfold is_uint, tail_subsidy, emission_factor, MONEY_SUPPLY, FINAL_SUBSIDY_PER_MINUTE in *.
  destruct (version <? 2); zlia.
Qed.

Lemma min_block_weight_pos version : 20000 <= get_min_block_weight version <= 300000.
Proof. unfold get_min_block_weight. bcase; vm_compute; split; discriminate. Qed.

(** The effective median: never below the full reward zone. *)
Definition effective_median (median_weight version : Z) : Z := Z.max median_weight (get_min_block_weight version).

Lemma effective_median_if median version :
  (if median <? get_min_block_weight version then get_min_block_weight version else median) = effective_median median version.
Proof. unfold effective_median. bcase; lia. Qed.

Lemma block_reward_penalised median weight coins version :
  let m := effective_median median version in
  is_u64 coins -> m < 2 ^ 32 -> m < weight <= 2 * m ->
  get_block_reward median weight coins version =
    reward_ok (get_base_reward coins version * ((2 * m - weight) * weight) / (m * m)).
Proof.
  cbv zeta. intros Hc Hm Hw. unfold get_block_reward.
  rewrite effective_median_if.
  pose proof (min_block_weight_pos version). assert (20000 <= effective_median median version) by (unfold effective_median; lia).
  set (m := effective_median median version) in *. pose proof (get_base_reward_range coins version Hc).
  set (base := get_base_reward coins version) in *. clearbody m base. cbv zeta.
  bfalse (weight <=? m). rewrite (wrap_small 64 (2 * m)) by (unfold is_uint; lia). bfalse (2 * m <? weight).
  rewrite (wrap_small 64 (2 * m - weight)) by (unfold is_uint; lia).
  assert (Hk : 0 <= (2 * m - weight) * weight < m * m) by nia.
  assert (Hmm : m * m < 2 ^ 64) by nia. set (k := (2 * m - weight) * weight) in *.
  rewrite (wrap_small 64 k) by (unfold is_uint; lia).
  destruct (mul128 base k) as [plo phi] eqn:Em.
  apply mul128_correct in Em as (Ep & Hplo & Hphi); [|unfold is_uint; lia..].
  assert (Hmu : is_u64 m) by (unfold is_uint; lia).
  destruct (div128_64_correct phi plo m Hphi Hplo Hmu ltac:(lia)) as (q1 & q0 & r & -> & E1 & Hr1 & Hq1 & Hq0).
  destruct (div128_64_correct q1 q0 m Hq1 Hq0 Hmu ltac:(lia)) as (s1 & s0 & t & -> & E2 & Ht1 & Hs1 & Hs0).
  assert (Eq : s1 * 2 ^ 64 + s0 = base * k / (m * m)).
  { apply (Z.div_unique _ _ _ (t * m + r)); [left; nia|]. replace (base * k) with (phi * 2 ^ 64 + plo) by lia.
    rewrite E1, E2. ring. }
  assert (Hlt : base * k / (m * m) < base) by (apply Z.div_lt_upper_bound; nia).
  unfold is_uint in *. assert (s1 = 0) as -> by lia. rewrite Z.eqb_refl. cbn [negb].
  btrue (s0 <? base). cbn [negb]. f_equal. lia.
Qed.

(** ** Properties *)

Lemma block_reward_range median weight coins version :
  let m := effective_median median version in
  is_u64 coins -> m < 2 ^ 32 -> m < weight <= 2 * m ->
  exists reward, get_block_reward median weight coins version = reward_ok reward /\
    reward = get_base_reward coins version * (m * m - (weight - m) * (weight - m)) / (m * m) /\ 0 <= reward < get_base_reward coins version.
Proof.
  cbv zeta. intros Hc Hm Hw. rewrite block_reward_penalised by done. eexists. split; [done|].
  pose proof (get_base_reward_range coins version Hc). pose proof (min_block_weight_pos version).
  assert (20000 <= effective_median median version) by (unfold effective_median; lia).
  set (m := effective_median median version) in *. set (base := get_base_reward coins version) in *.
  split; [f_equal; f_equal; ring|]. clearbody m base.
  assert (0 <= (2 * m - weight) * weight < m * m) by nia. set (k := (2 * m - weight) * weight) in *. clearbody k.
  split; [apply Z.div_pos; nia|]. apply Z.div_lt_upper_bound; nia.
Qed.

Lemma block_reward_full median w coins version : w <= effective_median median version -> get_block_reward median w coins version = reward_ok (get_base_reward coins version).
Proof. intros Hle. unfold get_block_reward. rewrite effective_median_if. cbv zeta. btrue (w <=? effective_median median version). done. Qed.

Lemma block_reward_limit median w coins version r : effective_median median version < 2 ^ 32 -> get_block_reward median w coins version = reward_ok r -> w <= 2 * effective_median median version.
Proof.
  intros Hm. pose proof (min_block_weight_pos version). assert (20000 <= effective_median median version) by (unfold effective_median; lia).
  unfold get_block_reward. rewrite effective_median_if. cbv zeta. rewrite (wrap_small 64 (2 * _)) by (unfold is_uint; lia). bcase; try done; lia.
Qed.

Lemma block_reward_bounds median w coins version r : is_u64 coins -> effective_median median version < 2 ^ 32 -> get_block_reward median w coins version = reward_ok r ->
  0 <= r < 2 ^ 45.
Proof.
  intros Hc Hm E. pose proof (block_reward_limit _ _ _ _ _ Hm E). pose proof (get_base_reward_range coins version Hc). destruct (Z.le_gt_cases w (effective_median median version)).
  - rewrite block_reward_full in E by done. simplify_eq. lia.
  - destruct (block_reward_range median w coins version) as (r' & E' & _ & Hr); [done..|lia|]. rewrite E' in E. simplify_eq. lia.
Qed.

(** C32: The subsidy of a block above the effective median (below 2^32) is the base
    reward less the quadratic penalty: base * (1 - (w/m - 1)^2), rounded down.
    The 128-bit computation neither wraps nor trips its assertions, and the
    result is strictly below the base reward. *)
Theorem block_reward_penalty median weight coins version :
  let m := effective_median median version in
  let base := get_base_reward coins version in
  is_u64 coins -> m < 2 ^ 32 -> m < weight <= 2 * m ->
  exists reward, get_block_reward median weight coins version = reward_ok reward /\
    reward = base * (m * m - (weight - m) * (weight - m)) / (m * m) /\ 0 <= reward < base.
Proof. cbv zeta. apply block_reward_range. Qed.

Lemma block_reward_penalty_witness :
  exists reward, get_block_reward 300000 450000 (2 ^ 63) 16 = reward_ok reward /\
    reward = get_base_reward (2 ^ 63) 16 * (300000 * 300000 - (450000 - 300000) * (450000 - 300000)) / (300000 * 300000) /\
    0 <= reward < get_base_reward (2 ^ 63) 16.
Proof.
  apply (block_reward_penalty 300000 450000 (2 ^ 63) 16).
  - by apply is_uintb_spec.
  - vm_compute. done.
  - vm_compute. split; [done|discriminate].
Defined.

(** A heavier block never earns more: at fixed median, coins and version, the
    subsidy is non-increasing in the block weight, and a block above twice the
    effective median earns none. *)
Theorem block_reward_antitone median w1 w2 coins version r1 r2 :
  is_u64 coins -> effective_median median version < 2 ^ 32 -> 0 <= w1 <= w2 ->
  get_block_reward median w1 coins version = reward_ok r1 ->
  get_block_reward median w2 coins version = reward_ok r2 -> r2 <= r1.
Proof.
  intros Hc Hm Hw E1 E2. pose proof (min_block_weight_pos version).
  assert (20000 <= effective_median median version) by (unfold effective_median; lia).
  pose proof (get_base_reward_range coins version Hc) as Hbase.
  pose proof (fun w => block_reward_full median w coins version) as Hfull. pose proof (fun w r => block_reward_limit median w coins version r Hm) as Hbig.
  specialize (Hbig w2 r2 E2). set (m := effective_median median version) in *.
  destruct (Z.le_gt_cases w2 m) as [|H2]. { rewrite Hfull in E1, E2 by lia. by simplify_eq. }
  rewrite (block_reward_penalised median w2) in E2 by (fold m; lia || done). simplify_eq. fold m.
  destruct (Z.le_gt_cases w1 m).
  - rewrite Hfull in E1 by lia. simplify_eq. assert ((2 * m - w2) * w2 <= m * m) by nia.
    apply Z.div_le_upper_bound; [nia|]. rewrite (Z.mul_comm (m * m)). apply Z.mul_le_mono_nonneg_l; lia.
  - rewrite (block_reward_penalised median w1) in E1 by (fold m; lia || done). simplify_eq. fold m.
    apply Z.div_le_mono; [nia|]. apply Z.mul_le_mono_nonneg_l; [lia|].
    assert (0 <= (w2 - w1) * (w1 + w2 - 2 * m)) by nia. lia.
Qed.

Lemma block_reward_antitone_witness :
  get_block_reward 300000 450000 0 16 = reward_ok 26388279066623 /\
  get_block_reward 300000 600000 0 16 = reward_ok 0 /\ 0 <= 26388279066623.
Proof.
  assert (E1 : get_block_reward 300000 450000 0 16 = reward_ok 26388279066623) by (vm_compute; reflexivity).
  assert (E2 : get_block_reward 300000 600000 0 16 = reward_ok 0) by (vm_compute; reflexivity).
  split; [exact E1|split; [exact E2|]].
  apply (block_reward_antitone 300000 450000 600000 0 16 26388279066623 0).
  - by apply is_uintb_spec.
  - vm_compute. done.
  - lia.
  - exact E1.
  - exact E2.
Defined.

(** The capped total saturates instead of wrapping. *)
Lemma cap_generated_coins_spec coins reward :
  is_u64 coins -> is_u64 reward -> cap_generated_coins coins reward = Z.min MONEY_SUPPLY (coins + reward).
Proof.
  unfold is_uint, cap_generated_coins, MONEY_SUPPLY. intros Hc Hr.
  rewrite (wrap_small 64 (_ - coins)) by (unfold is_uint; lia). bcase; [|lia].
  rewrite wrap_small by (unfold is_uint; lia). lia.
Qed.

Lemma get_base_reward_antitone c1 c2 version :
  is_u64 c1 -> is_u64 c2 -> c1 <= c2 -> get_base_reward c2 version <= get_base_reward c1 version.
Proof.
  intros H1 H2 H. rewrite !get_base_reward_spec by done. apply Z.max_le_compat_l.
  apply Z.div_le_mono; [|lia]. unfold emission_factor. destruct (version <? 2); lia.
Qed.
