(* ===== verification/TxFormat.v ===== *)
(** * TxFormat: the wire format of transactions and blocks

    Models the serializers of src/cryptonote_basic/cryptonote_basic.h: inputs,
    outputs, transaction prefixes and block headers.  Keys, hashes and key images
    are their 32 bytes. *)
From S2P Require Import Prelude Varint Archive Config.
#[local] Open Scope mach_scope.
#[local] Arguments put : simpl never.
#[local] Arguments get : simpl never.

(** ** Definitions *)

Definition key_image_size : Z := 32.
Definition public_key_size : Z := 32.

Definition COINBASE_VIN_COUNT : Z := 1.
Definition MAX_VIN_COUNT : Z := CRYPTONOTE_MAX_TX_SIZE / key_image_size.
Definition MAX_NON_COINBASE_VOUT_COUNT : Z := CRYPTONOTE_MAX_TX_SIZE / public_key_size.
Definition MAX_COINBASE_VOUT_COUNT : Z := 100000000 / public_key_size.
Definition MAX_TOTAL_KEY_OFFSETS : Z := CRYPTONOTE_MAX_TX_SIZE / public_key_size.

(** The structure [txout_to_script], and the two variants. *)
Record script_t := mk_script { script_keys : list (list Z); script_code : list Z }.

Inductive txout_target_v :=
  | txout_to_script (s : script_t)
  | txout_to_scripthash (hash : list Z)
  | txout_to_key (key : list Z)
  | txout_to_tagged_key (key : list Z) (view_tag : list Z).

Inductive txin_v :=
  | txin_gen (height : Z)
  | txin_to_script (prev : list Z) (prevout : Z) (sigset : list Z)
  | txin_to_scripthash (prev : list Z) (prevout : Z) (script : script_t) (sigset : list Z)
  | txin_to_key (amount : Z) (key_offsets : list Z) (k_image : list Z).

Record tx_out := mk_out { out_amount : Z; out_target : txout_target_v }.

Record transaction_prefix := mk_prefix {
  tx_version : Z;
  tx_unlock_time : Z;
  tx_vin : list txin_v;
  tx_vout : list tx_out;
  tx_extra : list Z;
}.

(** *** Outputs *)

Definition c_key : codec (list Z) := serialize_blob 32.
Definition c_bytes : codec (list Z) := c_list (serialize_uint 1).

Definition c_script : codec script_t :=
  c_map (fun '(k, s) => mk_script k s) (fun s => (script_keys s, script_code s)) (c_seq (c_list c_key) c_bytes).

Definition txout_tag (o : txout_target_v) : Z :=
  match o with txout_to_script _ => 0 | txout_to_scripthash _ => 1 | txout_to_key _ => 2 | txout_to_tagged_key _ _ => 3 end.

Definition c_txout_target : codec txout_target_v := c_variant txout_tag
  [(0, c_alt txout_to_script (fun o => match o with txout_to_script s => Some s | _ => None end) c_script);
   (1, c_alt txout_to_scripthash (fun o => match o with txout_to_scripthash h => Some h | _ => None end) c_key);
   (2, c_alt txout_to_key (fun o => match o with txout_to_key k => Some k | _ => None end) c_key);
   (3, c_alt (fun '(k, v) => txout_to_tagged_key k v) (fun o => match o with txout_to_tagged_key k v => Some (k, v) | _ => None end)
         (c_seq c_key (serialize_blob 1)))].

Definition c_tx_out : codec tx_out :=
  c_map (fun '(a, t) => mk_out a t) (fun o => (out_amount o, out_target o)) (c_seq (serialize_varint 64) c_txout_target).

(** *** Inputs *)

Definition txin_tag (i : txin_v) : Z :=
  match i with txin_gen _ => 0xff | txin_to_script _ _ _ => 0 | txin_to_scripthash _ _ _ _ => 1 | txin_to_key _ _ _ => 2 end.

Definition c_txin : codec txin_v := c_variant txin_tag
  [(0xff, c_alt txin_gen (fun i => match i with txin_gen h => Some h | _ => None end) (serialize_varint 64));
   (0, c_alt (fun '(p, (n, s)) => txin_to_script p n s) (fun i => match i with txin_to_script p n s => Some (p, (n, s)) | _ => None end)
         (c_seq c_key (c_seq (serialize_varint 64) c_bytes)));
   (1, c_alt (fun '(p, (n, (t, s))) => txin_to_scripthash p n t s)
         (fun i => match i with txin_to_scripthash p n t s => Some (p, (n, (t, s))) | _ => None end)
         (c_seq c_key (c_seq (serialize_varint 64) (c_seq c_script c_bytes))));
   (2, c_alt (fun '(a, (o, k)) => txin_to_key a o k) (fun i => match i with txin_to_key a o k => Some (a, (o, k)) | _ => None end)
         (c_seq (serialize_varint 64) (c_seq (do_serialize_container (serialize_varint 64) MAX_TOTAL_KEY_OFFSETS) c_key)))].

(** *** The transaction prefix *)

(** The loop of [deserialize_vin], [i] the index and [n] the number of inputs left. *)
Fixpoint deserialize_vin_loop (cnt i : Z) (n : nat) (total_key_offsets : Z) (input : list Z) : option (list txin_v * list Z) :=
  match n with
  | O => Some ([], input)
  | S n' =>
      '(in_, r) ← get c_txin input;
      match in_ with
      | txin_gen _ =>
          if i =? 0 then if COINBASE_VIN_COUNT <? cnt then None else Some ([in_], r) else None
      | txin_to_key _ key_offsets _ =>
          let next := total_key_offsets ⊞ length key_offsets in
          if next <? total_key_offsets then None
          else if MAX_TOTAL_KEY_OFFSETS <=? next then None
          else '(l, r) ← deserialize_vin_loop cnt (i + 1) n' next r; Some (in_ :: l, r)
      | _ => None
      end
  end.

Definition deserialize_vin (input : list Z) : option (list txin_v * list Z) :=
  '(cnt, r) ← get (serialize_varint 64) input;
  if length r <? cnt then None
  else if MAX_VIN_COUNT <? cnt then None
  else deserialize_vin_loop cnt 0 (Z.to_nat cnt) 0 r.

Definition c_vin : codec (list txin_v) := mk_codec (put (c_list c_txin)) deserialize_vin.

Definition is_coinbase_vin (vin : list txin_v) : bool := match vin with [txin_gen _] => true | _ => false end.
Definition is_coinbase (tx : transaction_prefix) : bool := is_coinbase_vin (tx_vin tx).

(** [MAX_VOUT_COUNT] bounds loading only. *)
Definition max_vout_count (vin : list txin_v) : Z :=
  if is_coinbase_vin vin || bool_decide (length vin = 0%nat) then MAX_COINBASE_VOUT_COUNT else MAX_NON_COINBASE_VOUT_COUNT.
Definition c_vout (vin : list txin_v) : codec (list tx_out) :=
  mk_codec (put (c_list c_tx_out)) (get (do_serialize_container c_tx_out (max_vout_count vin))).

Definition prefix_version_ok (version : Z) : bool := negb ((version =? 0) || (CURRENT_TRANSACTION_VERSION <? version)).

Definition c_transaction_prefix : codec transaction_prefix :=
  c_map (fun '(v, (u, (i, (o, e)))) => mk_prefix v u i o e)
        (fun p => (tx_version p, (tx_unlock_time p, (tx_vin p, (tx_vout p, tx_extra p)))))
    (c_seq (c_check prefix_version_ok (serialize_varint 64))
    (c_seq (serialize_varint 64)
    (c_dep c_vin (fun vin =>
    (c_seq (c_vout vin) c_bytes))))).

(** ** Well-formed values: what the C++ types can hold and the loader accepts *)

Definition key_ok : list Z -> Prop := is_blob 32.
Definition script_ok (s : script_t) : Prop :=
  (Forall key_ok (script_keys s) /\ is_u64 (length (script_keys s))) /\ string_ok (script_code s).

Definition txout_ok (o : txout_target_v) : Prop :=
  match o with
  | txout_to_script s => script_ok s
  | txout_to_scripthash h => key_ok h
  | txout_to_key k => key_ok k
  | txout_to_tagged_key k v => key_ok k /\ is_blob 1 v
  end.
Definition tx_out_ok (o : tx_out) : Prop := is_u64 (out_amount o) /\ txout_ok (out_target o).

Definition offsets_ok (l : list Z) : Prop := Forall is_u64 l /\ length l <= MAX_TOTAL_KEY_OFFSETS.
Definition txin_ok (i : txin_v) : Prop :=
  match i with
  | txin_gen h => is_u64 h
  | txin_to_script p n s => key_ok p /\ is_u64 n /\ string_ok s
  | txin_to_scripthash p n t s => key_ok p /\ is_u64 n /\ script_ok t /\ string_ok s
  | txin_to_key a o k => is_u64 a /\ offsets_ok o /\ key_ok k
  end.

Definition key_offsets_of (i : txin_v) : list Z := match i with txin_to_key _ o _ => o | _ => [] end.
Definition is_to_key (i : txin_v) : Prop := match i with txin_to_key _ _ _ => True | _ => False end.
Fixpoint total_offsets (vin : list txin_v) : Z :=
  match vin with [] => 0 | i :: vin => length (key_offsets_of i) + total_offsets vin end.

(** One coinbase input, or inputs that spend outputs, within the limits on both. *)
Definition vin_ok (vin : list txin_v) : Prop :=
  Forall txin_ok vin /\
  (is_coinbase_vin vin = true \/
   (Forall is_to_key vin /\ total_offsets vin < MAX_TOTAL_KEY_OFFSETS /\ length vin <= MAX_VIN_COUNT)).

Definition vout_ok (vin : list txin_v) (vout : list tx_out) : Prop :=
  Forall tx_out_ok vout /\ length vout <= max_vout_count vin.

Definition prefix_ok (p : transaction_prefix) : Prop :=
  1 <= tx_version p <= 2 /\ is_u64 (tx_unlock_time p) /\ vin_ok (tx_vin p) /\ vout_ok (tx_vin p) (tx_vout p) /\ string_ok (tx_extra p).

(** ** Lemmas *)

Lemma list_ok_size_t {A} (P : A -> Prop) l : list_ok P size_t_max l <-> Forall P l /\ is_u64 (length l).
Proof. unfold list_ok, size_t_max, is_uint. intuition lia. Qed.

#[global] Instance lawful_key : Lawful key_ok 32 (fun _ => True) c_key := lawful_blob 32.

#[global] Instance lawful_c_list {A} (ok : A -> Prop) (m : nat) (t : A -> Prop) c :
  Lawful ok (S m) t c -> Lawful (fun l => Forall ok l /\ is_u64 (length l)) 1 (fun l => l <> [] /\ Forall t l) (c_list c).
Proof.
  intros L. eapply lawful_mono; [by apply (lawful_container ok (S m) t c size_t_max); lia| |done|done].
  intros l. symmetry. apply list_ok_size_t.
Qed.

#[global] Instance lawful_bytes : Lawful string_ok 1 (fun l => l <> []) c_bytes.
Proof. eapply lawful_mono; [apply (lawful_c_list is_u8 0 (fun _ => True)); apply _|done|done|]. intros l _ H. split; [done|]. by apply Forall_true. Qed.

#[global] Instance lawful_script : Lawful script_ok 2 (fun s => script_code s <> []) c_script.
Proof. eapply lawful_struct; [apply _|by intros []|intros []; split; [by split|by intros []]|done|]. intros s _ H. cbn. split; [done|]. right. lia. Qed.

(** Close the side conditions of one alternative of a variant. *)
Ltac alt_case :=
  split; [by vm_compute|]; eapply lawful_alt;
  [apply _
  |by intros; repeat match goal with p : _ * _ |- _ => destruct p end
  |intros; repeat match goal with p : _ * _ |- _ => destruct p end; done
  |intros [] [? E]; cbn in E; try discriminate; eexists; split; [reflexivity|]; done
  |lia
  |cbn; intros; repeat match goal with p : _ * _ |- _ => destruct p end; intuition (done || lia)].

#[global] Instance lawful_txout_target : Lawful txout_ok 3 (fun o => match o with txout_to_script _ => False | _ => True end) c_txout_target.
Proof.
  apply lawful_variant; [|by intros []].
  repeat (apply Forall_cons; split); [alt_case..|apply Forall_nil_2].
Qed.

#[global] Instance lawful_tx_out : Lawful tx_out_ok 4 (fun o => match out_target o with txout_to_script _ => False | _ => True end) c_tx_out.
Proof. eapply lawful_struct; [apply _|by intros []|intros []; split; [by split|by intros []]|done|]. intros s _ H. cbn. split; [done|]. right. lia. Qed.

#[global] Instance lawful_offsets : Lawful offsets_ok 1 (fun _ => False) (do_serialize_container (serialize_varint 64) MAX_TOTAL_KEY_OFFSETS).
Proof.
  eapply lawful_mono; [apply (lawful_container is_u64 1 (fun _ => False)); apply _ || lia| |done|done].
  intros l. unfold offsets_ok, list_ok, is_uint. change MAX_TOTAL_KEY_OFFSETS with 31250. intuition lia.
Qed.

#[global] Instance lawful_txin : Lawful txin_ok 2 is_to_key c_txin.
Proof.
  apply lawful_variant; [|by intros []].
  repeat (apply Forall_cons; split); [alt_case..|apply Forall_nil_2].
Qed.

(** *** [deserialize_vin] *)

Lemma total_offsets_nonneg vin : 0 <= total_offsets vin.
Proof. induction vin; cbn; lia. Qed.

Lemma vin_loop_put vin : forall bs rest cnt i total,
  Forall txin_ok vin -> Forall is_to_key vin -> 0 <= total -> total + total_offsets vin < MAX_TOTAL_KEY_OFFSETS ->
  put_all c_txin vin = Some bs ->
  deserialize_vin_loop cnt i (length vin) total (bs ++ rest) = Some (vin, rest).
Proof.
  induction vin as [|x vin IH]; intros bs rest cnt i total Hok Hk Ht Hmax E; cbn in E; [by simplify_eq|].
  apply Forall_cons in Hok as [Hx Hok]. apply Forall_cons in Hk as [Hkx Hk].
  destruct (put c_txin x) as [b|] eqn:Eb; [|done]. cbn in E. destruct (put_all c_txin vin) as [bs'|] eqn:Ebs; [|done]. cbn in E. simplify_eq.
  cbn [length deserialize_vin_loop]. rewrite <- app_assoc, (law_get_put x b _ Hx Eb). cbn [mbind option_bind].
  destruct x as [| | |a o k]; try done. cbn in Hmax. pose proof (total_offsets_nonneg vin). change MAX_TOTAL_KEY_OFFSETS with 31250 in *.
  rewrite wrap_small by (unfold is_uint; lia). bfalse (total + length o <? total). bfalse (31250 <=? total + length o).
  by rewrite (IH bs' rest cnt (i + 1) (total + length o) Hok Hk ltac:(lia) ltac:(lia) eq_refl).
Qed.

Lemma add64_no_wrap a b : is_u64 a -> 0 <= b < 2 ^ 64 -> a <= a ⊞ b -> a ⊞ b = a + b.
Proof. unfold is_uint, wrap. change (2 ^ 64) with 18446744073709551616. zlia. Qed.

Lemma vin_loop_inv n : forall cnt i total input vin rest,
  0 <= i -> is_u64 total -> bytes input -> deserialize_vin_loop cnt i n total input = Some (vin, rest) ->
  Forall txin_ok vin /\ (exists used, input = used ++ rest /\ (rest <> [] -> put_all c_txin vin = Some used)) /\
  ((exists h, vin = [txin_gen h] /\ i = 0 /\ cnt <= 1 /\ (0 < n)%nat) \/
   (Forall is_to_key vin /\ length vin = n /\ (vin <> [] -> total + total_offsets vin < MAX_TOTAL_KEY_OFFSETS))).
Proof.
  induction n as [|n IH]; intros cnt i total input vin rest Hi Htot Hb E; cbn [deserialize_vin_loop] in E.
  { simplify_eq. split; [constructor|]. split; [by exists []|]. right. split_and!; [constructor|done..]. }
  destruct (get c_txin input) as [[x r]|] eqn:E1; [|done]. cbn [mbind option_bind] in E.
  destruct (law_get _ _ _ Hb E1) as (Hx & u1 & -> & H1). apply bytes_app in Hb as [_ Hr].
  destruct x as [h| | |a o k]; try done.
  - destruct (i =? 0) eqn:Ei; [|done]. destruct (_ <? cnt) eqn:Ec; [done|]. simplify_eq. bcase_hyps. unfold COINBASE_VIN_COUNT in *.
    split; [by constructor|]. split; [exists u1; split; [done|]; intros Hn; cbn [put_all]; rewrite H1 by (by right); cbn; by rewrite app_nil_r|].
    left. exists h. split_and!; [done|lia..].
  - destruct (_ <? total) eqn:E2; [done|]. destruct (MAX_TOTAL_KEY_OFFSETS <=? _) eqn:E3; [done|].
    destruct (deserialize_vin_loop _ _ _ _ r) as [[l r']|] eqn:E4; [|done]. cbn [mbind option_bind] in E. simplify_eq. bcase_hyps.
    apply IH in E4 as (Hl & (u2 & -> & H2) & H); [|lia|by apply wrap_range|done].
    split; [by constructor|]. split.
    { exists (u1 ++ u2). rewrite app_assoc. split; [done|]. intros Hn. cbn [put_all]. rewrite H1 by (by left). cbn. by rewrite H2. }
    destruct H as [(h & _ & ? & _)|(Hk & Hlen & Hmax)]; [lia|]. right. split_and!; [by constructor|by f_equal/=|]. intros _.
    destruct Hx as (_ & (_ & Ho) & _). change MAX_TOTAL_KEY_OFFSETS with 31250 in *. 
    rewrite (add64_no_wrap total (length o)) in * by (done || lia). cbn. destruct l as [|y l]; [cbn; lia|]. specialize (Hmax ltac:(done)). cbn in *. lia.
Qed.

Lemma vin_ok_length vin : vin_ok vin -> length vin <= MAX_VIN_COUNT.
Proof. intros [_ [H|(_ & _ & H)]]; [|done]. by destruct vin as [|[] [|]]. Qed.

Lemma is_coinbase_vin_inv vin : is_coinbase_vin vin = true -> exists h, vin = [txin_gen h].
Proof. destruct vin as [|[] [|]]; try done. by eexists. Qed.

Lemma put_c_list {A} (c : codec A) l : is_u64 (length l) -> put (c_list c) l = b ← put_all c l; Some (write_varint (length l) ++ b).
Proof. intros [_ H]. unfold put at 1. cbn [c_list do_serialize_container]. unfold size_t_max. bfalse (2 ^ 64 - 1 <? length l). done. Qed.

#[global] Instance lawful_vin : Lawful vin_ok 1 (fun _ => False) c_vin.
Proof.
  pose proof (lawful_c_list txin_ok 1 is_to_key c_txin _) as LL.
  assert (Hu : forall vin, vin_ok vin -> Forall txin_ok vin /\ is_u64 (length vin)).
  { intros vin H. pose proof (vin_ok_length vin H) as Hl. change MAX_VIN_COUNT with 31250 in Hl. destruct H. split; [done|]. unfold is_uint. lia. }
  split.
  - intros vin H%Hu. exact (law_put (c := c_list c_txin) vin H).
  - intros vin bs rest Hv E. change (put c_vin) with (put (c_list c_txin)) in E. change (get c_vin) with deserialize_vin.
    pose proof (vin_ok_length vin Hv) as Hlen. pose proof (proj2 (Hu vin Hv)) as Hlu. rewrite put_c_list in E by done.
    destruct (put_all_ok txin_ok 2 is_to_key c_txin vin (proj1 Hv)) as (b & Eb & _ & Hb'). rewrite Eb in E. apply (inj Some) in E. subst bs.
    unfold deserialize_vin. rewrite <- app_assoc, (law_get_put (c := serialize_varint 64) (length vin) _ _ Hlu eq_refl). cbn [mbind option_bind].
    rewrite length_app. bfalse ((length b + length rest)%nat <? length vin). bfalse (MAX_VIN_COUNT <? length vin). rewrite Nat2Z.id.
    destruct Hv as (Hok & [[h ->]%is_coinbase_vin_inv|(Hk & Ht & _)]); [|by apply vin_loop_put; try lia].
    cbn [length deserialize_vin_loop]. cbn in Eb. apply Forall_cons in Hok as [Hh _].
    destruct (put c_txin (txin_gen h)) as [x|] eqn:Ex; [|done]. cbn in Eb. simplify_eq. rewrite app_nil_r.
    by rewrite (law_get_put _ x _ Hh Ex).
  - intros input vin rest Hi E. change (put c_vin) with (put (c_list c_txin)). change (get c_vin) with deserialize_vin in E.
    unfold deserialize_vin in E. destruct (get (serialize_varint 64) input) as [[cnt r]|] eqn:E1; [|done]. cbn [mbind option_bind] in E.
    destruct (length r <? cnt) eqn:Er; [done|]. destruct (MAX_VIN_COUNT <? cnt) eqn:Em; [done|]. bcase_hyps. change MAX_VIN_COUNT with 31250 in *.
    destruct (law_get _ _ _ Hi E1) as (Hc & u1 & -> & H1). apply bytes_app in Hi as [_ Hr]. unfold is_uint in Hc.
    apply vin_loop_inv in E as (Hok & (u2 & -> & H2) & H); [|lia|by vm_compute|done].
    assert (cnt = length vin /\ vin_ok vin) as [-> Hv].
    { destruct H as [(h & -> & _ & ? & ?)|(Hk & Hl & Ht)]; cbn [length]; (split; [lia|split; [done|]]); [by left|right].
      split_and!; [done| |change MAX_VIN_COUNT with 31250; lia]. destruct vin; [by vm_compute|by apply Ht]. }
    split; [done|]. exists (u1 ++ u2). rewrite app_assoc. split; [done|]. intros [?|Hn]; [done|]. rewrite put_c_list by (by apply Hu).
    assert (u2 ++ rest <> []) as Hn2 by (by destruct u2). specialize (H1 (or_intror Hn2)). apply (inj Some) in H1. rewrite (H2 Hn). cbn. by rewrite <- H1.
  - done.
Qed.

#[global] Instance lawful_vout vin : Lawful (vout_ok vin) 1 (fun _ => False) (c_vout vin).
Proof.
  assert (Hmax : max_vout_count vin <= 3125000) by (unfold max_vout_count; by destruct (_ || _)).
  assert (Hu : forall l, vout_ok vin l -> Forall tx_out_ok l /\ is_u64 (length l)).
  { intros l [? ?]. split; [done|]. unfold is_uint. lia. }
  pose proof (lawful_c_list tx_out_ok 3 _ c_tx_out _) as LL.
  pose proof (lawful_container tx_out_ok 4 _ c_tx_out (max_vout_count vin) ltac:(lia)) as LC.
  assert (Hp : forall l, vout_ok vin l -> put (do_serialize_container c_tx_out (max_vout_count vin)) l = put (c_list c_tx_out) l).
  { intros l [Hl Hlen]. unfold put, c_list, do_serialize_container, size_t_max. bfalse (max_vout_count vin <? length l). by bfalse (2 ^ 64 - 1 <? length l). }
  split.
  - intros l H%Hu. exact (law_put (c := c_list c_tx_out) l H).
  - intros l bs rest Hl E. change (put (c_vout vin)) with (put (c_list c_tx_out)) in E. rewrite <- Hp in E by done.
    apply (law_get_put (c := do_serialize_container c_tx_out (max_vout_count vin))); [|done]. destruct (Hu l Hl), Hl. done.
  - intros input l rest Hi E. change (get (c_vout vin)) with (get (do_serialize_container c_tx_out (max_vout_count vin))) in E.
    destruct (law_get _ _ _ Hi E) as ((Hl & Hlen & _) & u & -> & H). split; [done|]. exists u. split; [done|]. intros [?|?]; [done|].
    change (put (c_vout vin)) with (put (c_list c_tx_out)). rewrite <- Hp by done. apply H. by right.
  - done.
Qed.

Lemma prefix_version_ok_spec v : is_u64 v /\ prefix_version_ok v = true <-> 1 <= v <= 2.
Proof.
  unfold prefix_version_ok, is_uint, CURRENT_TRANSACTION_VERSION. rewrite negb_true_iff, orb_false_iff, Z.eqb_neq, Z.ltb_ge. lia.
Qed.

#[global] Instance lawful_prefix : Lawful prefix_ok 5 (fun p => tx_extra p <> []) c_transaction_prefix.
Proof.
  eapply lawful_struct; [|by intros [? [? [? []]]]|..].
  - apply lawful_seq; [apply lawful_check; apply _|]. apply lawful_seq; [apply _|].
    eapply (lawful_dep vin_ok 1 _ c_vin (fun vin p => vout_ok vin p.1 /\ string_ok p.2) (fun _ => 2%nat) 3); [|lia].
    intros vin _. exact (lawful_seq _ _ _ (c_vout vin) _ _ _ c_bytes _ _).
  - intros []. unfold prefix_ok. cbn. rewrite <- prefix_version_ok_spec. intuition.
  - lia.
  - intros [] _ H. cbn in *. intuition lia.
Qed.
