(* ===== verification/RctFormat.v ===== *)
(** * RctFormat: the wire format of RingCT signatures

    Models the types and serializers of src/ringct/rctTypes.h and the size helpers
    of src/ringct/rctTypes.cpp.  The message, the rings and the key images of MLSAG
    signatures are not saved and left out of the records; the key image [I] of a
    CLSAG and the commitments [V] of a range proof are not saved either and have
    the value of a fresh structure. *)
From S2P Require Import Prelude Varint Archive Config TxFormat.
#[local] Arguments put : simpl never.
#[local] Arguments get : simpl never.

(** ** Definitions *)

Definition RCTTypeNull : Z := 0.
Definition RCTTypeFull : Z := 1.
Definition RCTTypeSimple : Z := 2.
Definition RCTTypeBulletproof : Z := 3.
Definition RCTTypeBulletproof2 : Z := 4.
Definition RCTTypeCLSAG : Z := 5.
Definition RCTTypeBulletproofPlus : Z := 6.

Definition zero_key : list Z := replicate 32 0.

Record ctkey := mk_ctkey { ct_dest : list Z; ct_mask : list Z }.
Record ecdhTuple := mk_ecdh { ecdh_mask : list Z; ecdh_amount : list Z }.
Record mgSig := mk_mg { mg_ss : list (list (list Z)); mg_cc : list Z }.
Record clsag := mk_clsag { cl_s : list (list Z); cl_c1 : list Z; cl_I : list Z; cl_D : list Z }.
Record rangeSig := mk_range { rs_asig : list Z; rs_Ci : list Z }.

Record Bulletproof := mk_bp {
  bp_V : list (list Z);
  bp_A : list Z; bp_S : list Z; bp_T1 : list Z; bp_T2 : list Z; bp_taux : list Z; bp_mu : list Z;
  bp_L : list (list Z); bp_R : list (list Z);
  bp_a : list Z; bp_b : list Z; bp_t : list Z;
}.
Record BulletproofPlus := mk_bpp {
  bpp_V : list (list Z);
  bpp_A : list Z; bpp_A1 : list Z; bpp_B : list Z; bpp_r1 : list Z; bpp_s1 : list Z; bpp_d1 : list Z;
  bpp_L : list (list Z); bpp_R : list (list Z);
}.

Record rctSigBase := mk_base {
  rct_type : Z;
  rct_txnFee : Z;
  rct_pseudoOuts : list (list Z);
  rct_ecdhInfo : list ecdhTuple;
  rct_outPk : list ctkey;
}.

Record rctSigPrunable := mk_prunable {
  p_rangeSigs : list rangeSig;
  p_bulletproofs : list Bulletproof;
  p_bulletproofs_plus : list BulletproofPlus;
  p_MGs : list mgSig;
  p_CLSAGs : list clsag;
  p_pseudoOuts : list (list Z);
}.

Definition null_base : rctSigBase := mk_base RCTTypeNull 0 [] [] [].
Definition null_prunable : rctSigPrunable := mk_prunable [] [] [] [] [] [].

Definition is_rct_simple (type : Z) : bool :=
  (type =? RCTTypeSimple) || (type =? RCTTypeBulletproof) || (type =? RCTTypeBulletproof2) || (type =? RCTTypeCLSAG) || (type =? RCTTypeBulletproofPlus).
Definition is_rct_bulletproof (type : Z) : bool :=
  (type =? RCTTypeBulletproof) || (type =? RCTTypeBulletproof2) || (type =? RCTTypeCLSAG).
Definition is_rct_bulletproof_plus (type : Z) : bool := type =? RCTTypeBulletproofPlus.
Definition is_rct_borromean (type : Z) : bool := (type =? RCTTypeSimple) || (type =? RCTTypeFull).
Definition is_rct_clsag (type : Z) : bool := (type =? RCTTypeCLSAG) || (type =? RCTTypeBulletproofPlus).

(** The test of both serializers. *)
Definition rct_type_known (type : Z) : bool :=
  (type =? RCTTypeFull) || (type =? RCTTypeSimple) || (type =? RCTTypeBulletproof) || (type =? RCTTypeBulletproof2) ||
  (type =? RCTTypeCLSAG) || (type =? RCTTypeBulletproofPlus).

(** *** How many amounts range proofs can cover *)

Definition n_bulletproof_max_amounts_base (L_size R_size max_outputs : Z) : Z :=
  if negb (6 <=? L_size) then 0
  else if negb (L_size =? R_size) then 0
  else if negb (Z.shiftl 1 4 =? max_outputs) then 0
  else if negb (L_size <=? 6 + 4) then 0
  else Z.shiftl 1 (L_size - 6).

(** The loop over proofs, [n] the running total. *)
Fixpoint sum_max_amounts (l : list Z) (n : Z) : Z :=
  match l with
  | [] => n
  | n2 :: l => if negb (n2 <? 2 ^ 32 - 1 - n) then 0 else if n2 =? 0 then 0 else sum_max_amounts l (n + n2)
  end.

Definition bp_max_amounts (p : Bulletproof) : Z := n_bulletproof_max_amounts_base (length (bp_L p)) (length (bp_R p)) BULLETPROOF_MAX_OUTPUTS.
Definition bpp_max_amounts (p : BulletproofPlus) : Z := n_bulletproof_max_amounts_base (length (bpp_L p)) (length (bpp_R p)) BULLETPROOF_PLUS_MAX_OUTPUTS.
Definition n_bulletproof_max_amounts (proofs : list Bulletproof) : Z := sum_max_amounts (map bp_max_amounts proofs) 0.
Definition n_bulletproof_plus_max_amounts (proofs : list BulletproofPlus) : Z := sum_max_amounts (map bpp_max_amounts proofs) 0.

(** *** The part that is never pruned *)

Definition compressed_ecdh (type : Z) : bool :=
  (type =? RCTTypeBulletproof2) || (type =? RCTTypeCLSAG) || (type =? RCTTypeBulletproofPlus).

(** The first 8 bytes of the amount only, from [RCTTypeBulletproof2] on. *)
Definition c_ecdh (type : Z) : codec ecdhTuple :=
  if compressed_ecdh type
  then c_map (fun trunc_amount => mk_ecdh zero_key (trunc_amount ++ replicate 24 0)) (fun e => take 8 (ecdh_amount e)) (serialize_blob 8)
  else c_map (fun '(m, a) => mk_ecdh m a) (fun e => (ecdh_mask e, ecdh_amount e)) (c_seq c_key c_key).

Definition c_outPk : codec ctkey := c_map (mk_ctkey zero_key) ct_mask c_key.

Definition rctsig_base_fields (inputs outputs : nat) (type : Z) : codec (Z * (list (list Z) * (list ecdhTuple * list ctkey))) :=
  if type =? RCTTypeNull then c_pure (0, ([], ([], [])))
  else if negb (rct_type_known type) then c_fail
  else
    c_seq (serialize_varint 64)
    (c_seq (if type =? RCTTypeSimple then c_vec inputs 32 c_key else c_pure [])
    (c_seq (c_vec outputs (if compressed_ecdh type then 8 else 64) (c_ecdh type))
           (c_vec outputs 32 c_outPk))).

Definition serialize_rctsig_base (inputs outputs : nat) : codec rctSigBase :=
  c_map (fun '(t, (f, (p, (e, o)))) => mk_base t f p e o)
        (fun b => (rct_type b, (rct_txnFee b, (rct_pseudoOuts b, (rct_ecdhInfo b, rct_outPk b)))))
    (c_dep (serialize_uint 1) (rctsig_base_fields inputs outputs)).

(** *** The prunable part *)

Definition c_keyV : codec (list (list Z)) := c_list c_key.

Definition lr_ok (l r : list (list Z)) : bool := negb (bool_decide (l = []) || negb (length l =? length r)%nat).

Definition c_bulletproof : codec Bulletproof :=
  c_check (fun p => lr_ok (bp_L p) (bp_R p))
    (c_map (fun '(A, (S', (T1, (T2, (taux, (mu, (L, (R, (a, (b, t)))))))))) => mk_bp [] A S' T1 T2 taux mu L R a b t)
           (fun p => (bp_A p, (bp_S p, (bp_T1 p, (bp_T2 p, (bp_taux p, (bp_mu p, (bp_L p, (bp_R p, (bp_a p, (bp_b p, bp_t p)))))))))))
      (c_seq c_key (c_seq c_key (c_seq c_key (c_seq c_key (c_seq c_key (c_seq c_key
      (c_seq c_keyV (c_seq c_keyV (c_seq c_key (c_seq c_key c_key))))))))))).

Definition c_bulletproof_plus : codec BulletproofPlus :=
  c_check (fun p => lr_ok (bpp_L p) (bpp_R p))
    (c_map (fun '(A, (A1, (B, (r1, (s1, (d1, (L, R))))))) => mk_bpp [] A A1 B r1 s1 d1 L R)
           (fun p => (bpp_A p, (bpp_A1 p, (bpp_B p, (bpp_r1 p, (bpp_s1 p, (bpp_d1 p, (bpp_L p, bpp_R p))))))))
      (c_seq c_key (c_seq c_key (c_seq c_key (c_seq c_key (c_seq c_key (c_seq c_key
      (c_seq c_keyV c_keyV)))))))).

Definition c_rangeSig : codec rangeSig :=
  c_map (fun '(a, c) => mk_range a c) (fun r => (rs_asig r, rs_Ci r)) (c_seq (serialize_blob (32 * 129)) (serialize_blob (32 * 64))).

(** A vector of proofs with its 32-bit count in front, at most [outputs] of them. *)
Definition c_proofs {A} (c_nbp : codec Z) (outputs : nat) (min_size : Z) (c : codec A) : codec (list A) := mk_codec
  (fun l => let nbp := u32 (length l) in
            n ← put c_nbp nbp; if outputs <? nbp then None else b ← put_all c (take (Z.to_nat nbp) l); Some (n ++ b))
  (fun input => '(nbp, r) ← get c_nbp input;
                if outputs <? nbp then None
                else if negb (prepare_custom_vector_serialization nbp min_size r) then None
                else get_n c (Z.to_nat nbp) r).

Definition range_proofs (type : Z) (outputs : nat) : codec (list rangeSig * (list Bulletproof * list BulletproofPlus)) :=
  if type =? RCTTypeBulletproofPlus then
    c_map (fun l => ([], ([], l))) (fun p => p.2.2)
      (c_check (fun l => negb (n_bulletproof_plus_max_amounts l <? outputs)) (c_proofs (serialize_varint 32) outputs (32 * 6) c_bulletproof_plus))
  else if (type =? RCTTypeBulletproof) || (type =? RCTTypeBulletproof2) || (type =? RCTTypeCLSAG) then
    c_map (fun l => ([], (l, []))) (fun p => p.2.1)
      (c_check (fun l => negb (n_bulletproof_max_amounts l <? outputs))
        (c_proofs (if (type =? RCTTypeBulletproof2) || (type =? RCTTypeCLSAG) then serialize_varint 32 else serialize_uint 4) outputs (32 * 9) c_bulletproof))
  else c_map (fun l => (l, ([], []))) (fun p => p.1) (c_vec outputs (32 * 193) c_rangeSig).

Definition c_clsag (mixin : nat) : codec clsag :=
  c_map (fun '(s, (c1, D)) => mk_clsag s c1 zero_key D) (fun g => (cl_s g, (cl_c1 g, cl_D g)))
    (c_seq (c_vec (mixin + 1) 32 c_key) (c_seq c_key c_key)).

Definition mg_simple (type : Z) : bool := (type =? RCTTypeSimple) || (type =? RCTTypeBulletproof) || (type =? RCTTypeBulletproof2).

Definition c_mgSig (type : Z) (inputs mixin : nat) : codec mgSig :=
  c_map (fun '(ss, cc) => mk_mg ss cc) (fun g => (mg_ss g, mg_cc g))
    (c_seq (c_vec (mixin + 1) 32 (c_vec ((if mg_simple type then 1 else inputs) + 1) 32 c_key)) c_key).

Definition ring_sigs (type : Z) (inputs mixin : nat) : codec (list mgSig * list clsag) :=
  if (type =? RCTTypeCLSAG) || (type =? RCTTypeBulletproofPlus)
  then c_map (fun l => ([], l)) snd (c_vec inputs (32 * 3) (c_clsag mixin))
  else c_map (fun l => (l, [])) fst (c_vec (if mg_simple type then inputs else 1) (32 * 2) (c_mgSig type inputs mixin)).

Definition has_prunable_pseudo_outs (type : Z) : bool :=
  (type =? RCTTypeBulletproof) || (type =? RCTTypeBulletproof2) || (type =? RCTTypeCLSAG) || (type =? RCTTypeBulletproofPlus).

Definition serialize_rctsig_prunable (type : Z) (inputs outputs : nat) (mixin : Z) : codec rctSigPrunable :=
  if 0xffffffff <=? inputs then c_fail
  else if 0xffffffff <=? outputs then c_fail
  else if 0xffffffff <=? mixin then c_fail
  else if type =? RCTTypeNull then c_pure null_prunable
  else if negb (rct_type_known type) then c_fail
  else
    c_map (fun '((r, (b, bp)), ((m, cl), ps)) => mk_prunable r b bp m cl ps)
          (fun p => ((p_rangeSigs p, (p_bulletproofs p, p_bulletproofs_plus p)), ((p_MGs p, p_CLSAGs p), p_pseudoOuts p)))
      (c_seq (range_proofs type outputs)
      (c_seq (ring_sigs type inputs (Z.to_nat mixin))
             (if has_prunable_pseudo_outs type then c_vec inputs 32 c_key else c_pure []))).

(** ** Well-formed values *)

Definition keyV_ok (l : list (list Z)) : Prop := Forall key_ok l /\ is_u64 (length l).
Definition keys_ok (n : nat) (l : list (list Z)) : Prop := length l = n /\ Forall key_ok l.

Definition ecdh_ok (type : Z) (e : ecdhTuple) : Prop :=
  if compressed_ecdh type
  then ecdh_mask e = zero_key /\ is_blob 8 (take 8 (ecdh_amount e)) /\ drop 8 (ecdh_amount e) = replicate 24 0
  else key_ok (ecdh_mask e) /\ key_ok (ecdh_amount e).
Definition outPk_ok (k : ctkey) : Prop := ct_dest k = zero_key /\ key_ok (ct_mask k).

(** What [serialize_rctsig_base] can load for a transaction of [inputs] inputs and [outputs] outputs. *)
Definition base_ok (inputs outputs : nat) (b : rctSigBase) : Prop :=
  b = null_base \/
  (rct_type_known (rct_type b) = true /\ is_u64 (rct_txnFee b) /\
   keys_ok (if rct_type b =? RCTTypeSimple then inputs else 0) (rct_pseudoOuts b) /\
   (length (rct_ecdhInfo b) = outputs /\ Forall (ecdh_ok (rct_type b)) (rct_ecdhInfo b)) /\
   (length (rct_outPk b) = outputs /\ Forall outPk_ok (rct_outPk b))).

Definition bp_ok (p : Bulletproof) : Prop :=
  bp_V p = [] /\ Forall key_ok [bp_A p; bp_S p; bp_T1 p; bp_T2 p; bp_taux p; bp_mu p; bp_a p; bp_b p; bp_t p] /\
  keyV_ok (bp_L p) /\ keyV_ok (bp_R p) /\ lr_ok (bp_L p) (bp_R p) = true.
Definition bpp_ok (p : BulletproofPlus) : Prop :=
  bpp_V p = [] /\ Forall key_ok [bpp_A p; bpp_A1 p; bpp_B p; bpp_r1 p; bpp_s1 p; bpp_d1 p] /\
  keyV_ok (bpp_L p) /\ keyV_ok (bpp_R p) /\ lr_ok (bpp_L p) (bpp_R p) = true.
Definition rangeSig_ok (r : rangeSig) : Prop := is_blob (32 * 129) (rs_asig r) /\ is_blob (32 * 64) (rs_Ci r).
Definition clsag_ok (mixin : nat) (g : clsag) : Prop := keys_ok (mixin + 1) (cl_s g) /\ key_ok (cl_c1 g) /\ cl_I g = zero_key /\ key_ok (cl_D g).
Definition mg_ok (columns mixin : nat) (g : mgSig) : Prop :=
  (length (mg_ss g) = (mixin + 1)%nat /\ Forall (keys_ok columns) (mg_ss g)) /\ key_ok (mg_cc g).

Definition range_proofs_ok (type : Z) (outputs : nat) (p : rctSigPrunable) : Prop :=
  if type =? RCTTypeBulletproofPlus then
    p_rangeSigs p = [] /\ p_bulletproofs p = [] /\ Forall bpp_ok (p_bulletproofs_plus p) /\
    length (p_bulletproofs_plus p) <= outputs <= n_bulletproof_plus_max_amounts (p_bulletproofs_plus p)
  else if (type =? RCTTypeBulletproof) || (type =? RCTTypeBulletproof2) || (type =? RCTTypeCLSAG) then
    p_rangeSigs p = [] /\ p_bulletproofs_plus p = [] /\ Forall bp_ok (p_bulletproofs p) /\
    length (p_bulletproofs p) <= outputs <= n_bulletproof_max_amounts (p_bulletproofs p)
  else p_bulletproofs p = [] /\ p_bulletproofs_plus p = [] /\ length (p_rangeSigs p) = outputs /\ Forall rangeSig_ok (p_rangeSigs p).

Definition ring_sigs_ok (type : Z) (inputs mixin : nat) (p : rctSigPrunable) : Prop :=
  if (type =? RCTTypeCLSAG) || (type =? RCTTypeBulletproofPlus) then
    p_MGs p = [] /\ length (p_CLSAGs p) = inputs /\ Forall (clsag_ok mixin) (p_CLSAGs p)
  else
    p_CLSAGs p = [] /\ length (p_MGs p) = (if mg_simple type then inputs else 1)%nat /\
    Forall (mg_ok ((if mg_simple type then 1 else inputs) + 1) mixin) (p_MGs p).

(** What [serialize_rctsig_prunable] can load. *)
Definition prunable_ok (type : Z) (inputs outputs : nat) (mixin : Z) (p : rctSigPrunable) : Prop :=
  Z.max inputs (Z.max outputs mixin) < 0xffffffff /\
  ((type = RCTTypeNull /\ p = null_prunable) \/
   (rct_type_known type = true /\ range_proofs_ok type outputs p /\ ring_sigs_ok type inputs (Z.to_nat mixin) p /\
    keys_ok (if has_prunable_pseudo_outs type then inputs else 0) (p_pseudoOuts p))).

(** ** Lemmas *)

#[global] Instance lawful_keys n : Lawful (keys_ok n) (n * 32) (fun _ => True) (c_vec n 32 c_key).
Proof.
  eapply lawful_mono; [by apply (lawful_vec key_ok 32 (fun _ => True) c_key n 32)|done|done|]. intros l _ _. by apply Forall_true.
Qed.

#[global] Instance lawful_keyV : Lawful keyV_ok 1 (fun l => l <> []) c_keyV.
Proof. eapply lawful_mono; [apply (lawful_c_list key_ok 31 (fun _ => True) c_key _)|done|done|]. intros l _ Hl. split; [done|]. by apply Forall_true. Qed.

#[global] Instance lawful_ecdh type : Lawful (ecdh_ok type) (if compressed_ecdh type then 8 else 64) (fun _ => True) (c_ecdh type).
Proof.
  unfold c_ecdh, ecdh_ok. destruct (compressed_ecdh type).
  - eapply lawful_struct; [apply (lawful_blob 8)| | |done|done].
    + intros a [_ Ha]. cbn. by rewrite take_app_length'.
    + intros [m a]. cbn. split; [intros (-> & H & <-); by rewrite take_drop|]. intros [H [= <- E]]. split_and!; [done..|].
      apply (f_equal (drop 8)) in E. by rewrite drop_app_length' in E by (by destruct H).
  - eapply lawful_struct; [apply _|by intros []|intros []; split; [by split|by intros []]|done|]. intros s _ _. cbn. split; [done|by left].
Qed.

#[global] Instance lawful_outPk : Lawful outPk_ok 32 (fun _ => True) c_outPk.
Proof. eapply lawful_struct; [apply lawful_key|done| |done|done]. intros [d m]. unfold outPk_ok. cbn. split; [by intros [-> ?]|by intros [? [= <-]]]. Qed.

Lemma keys_ok_if (b : bool) n l : keys_ok (if b then n else 0%nat) l <-> if b then keys_ok n l else l = [].
Proof. destruct b; [done|]. unfold keys_ok. rewrite length_zero_iff_nil. split; [by intros []|by intros ->]. Qed.

Definition base_fields_ok (inputs outputs : nat) (type : Z) (x : Z * (list (list Z) * (list ecdhTuple * list ctkey))) : Prop :=
  let '(f, (p, (e, o))) := x in base_ok inputs outputs (mk_base type f p e o).

#[global] Instance lawful_base_fields inputs outputs type :
  is_u8 type -> Lawful (base_fields_ok inputs outputs type) 0 (fun _ => type = RCTTypeNull \/ (0 < outputs)%nat) (rctsig_base_fields inputs outputs type).
Proof.
  intros Hu. unfold rctsig_base_fields, base_fields_ok. destruct (Z.eqb_spec type RCTTypeNull) as [->|Hn].
  { eapply lawful_mono; [apply lawful_pure| |done|done]. intros [f [p [e o]]]. unfold base_ok. cbn.
    split; [intros [[= -> -> -> ->]|[? _]]; done|intros [= -> -> -> ->]; by left]. }
  destruct (rct_type_known type) eqn:Ek; cbn [negb].
  2: { eapply lawful_mono; [apply (lawful_fail 0 (fun _ => True))| |done|done]. intros [f [p [e o]]]. unfold base_ok. cbn. rewrite Ek. split; [|done]. by intros [[= ]|[? _]]. }
  eapply lawful_mono.
  - apply lawful_seq; [apply _|]. apply lawful_seq; [eapply lawful_if; [apply lawful_keys|apply lawful_pure]|].
    apply lawful_seq; [|apply (lawful_vec outPk_ok 32 (fun _ => True) c_outPk); lia].
    apply (lawful_vec _ _ _ _ (L := lawful_ecdh type)). by destruct (compressed_ecdh type).
  - intros [f [p [e o]]]. unfold base_ok. cbn. rewrite keys_ok_if. split.
    + by intros [[= ]|(_ & Hf & Hp & He & Ho)].
    + intros (Hf & Hp & He & Ho). by right.
  - lia.
  - intros [f [p [e o]]] _ [?|Ho]; [done|]. cbn. split; [|right; case_match; cbn; lia].
    split; [|right; lia]. split; [by apply Forall_true|]. left. by apply Forall_true.
Qed.

#[global] Instance lawful_base inputs outputs :
  Lawful (base_ok inputs outputs) 1 (fun b => rct_type b = RCTTypeNull \/ (0 < outputs)%nat) (serialize_rctsig_base inputs outputs).
Proof.
  eapply lawful_struct; [|by intros [? [? [? []]]]|..].
  - eapply (lawful_dep is_u8 1 (fun _ => True) (serialize_uint 1) (base_fields_ok inputs outputs) (fun _ => 0%nat) 1); [|lia].
    intros type Hu. by apply lawful_base_fields.
  - intros [t f p e o]. cbn. split; [|by intros [[? ?] ?]]. intros H. split; [|done]. split; [|done].
    destruct H as [[= -> _ _ _ _]|(H & _)]; [by vm_compute|]. unfold rct_type_known in H. cbn in H. unfold is_uint. change (2 ^ 8) with 256.
    repeat (apply orb_true_iff in H as [H|H]); bcase_hyps; subst t; vm_compute; split; congruence.
  - lia.
  - intros [t f p e o] _ H. cbn in *. split; [done|by left].
Qed.

(** *** Range proofs *)

#[global] Instance lawful_bulletproof : Lawful bp_ok 290 (fun _ => True) c_bulletproof.
Proof.
  eapply lawful_mono; [eapply lawful_check, lawful_map; [apply _|by intros [? [? [? [? [? [? [? [? [? []]]]]]]]]]]| |cbn; lia|].
  - intros []. unfold bp_ok. cbn. rewrite !Forall_cons, Forall_nil. intuition congruence.
  - intros b _ _. cbn. intuition lia.
Qed.

#[global] Instance lawful_bulletproof_plus : Lawful bpp_ok 194 (fun _ => True) c_bulletproof_plus.
Proof.
  eapply lawful_mono; [eapply lawful_check, lawful_map; [apply _|by intros [? [? [? [? [? [? []]]]]]]]| |cbn; lia|].
  - intros []. unfold bpp_ok. cbn. rewrite !Forall_cons, Forall_nil. intuition congruence.
  - intros b [_ Hc] _. cbn. split; [|intuition lia]. revert Hc. unfold lr_ok. destruct (bpp_L b), (bpp_R b); cbn; try done. intros _. intuition (done || lia).
Qed.

#[global] Instance lawful_rangeSig : Lawful rangeSig_ok (32 * 193) (fun _ => True) c_rangeSig.
Proof.
  eapply lawful_struct; [apply _|by intros []|intros []; split; [by split|by intros []]|done|]. intros s _ _. cbn. split; [done|by left].
Qed.

Lemma lawful_proofs {A} (ok : A -> Prop) (m : nat) (t : A -> Prop) (c : codec A) (c_nbp : codec Z) (tn : Z -> Prop) (outputs : nat) (min_size : Z) :
  Lawful ok m t c -> Lawful is_u32 1 tn c_nbp -> min_size <= m -> outputs < 2 ^ 32 ->
  Lawful (fun l => Forall ok l /\ length l <= outputs) 1 (fun _ => False) (c_proofs c_nbp outputs min_size c).
Proof.
  intros L LN Hmin Hout.
  assert (Hu : forall l : list A, length l <= outputs -> is_u32 (length l)) by (intros; unfold is_uint; lia).
  split.
  - intros l [Hl Hlen]. destruct (put_all_ok ok m t c l Hl) as (bs & E & Hb & _). destruct (law_put (c := c_nbp) (length l) (Hu l Hlen)) as (n & En & Hn & Hln).
    exists (n ++ bs). unfold put at 1. cbn [c_proofs]. rewrite wrap_small by (by apply Hu). rewrite En. cbn [mbind option_bind]. bfalse (outputs <? length l).
    rewrite Nat2Z.id, firstn_all, E. split; [done|]. rewrite bytes_app, length_app. split; [done|lia].
  - intros l bs rest [Hl Hlen] E. unfold put at 1 in E. cbn [c_proofs] in E. rewrite wrap_small in E by (by apply Hu).
    destruct (put c_nbp (length l)) as [n|] eqn:En; [|done]. cbn [mbind option_bind] in E.
    replace (outputs <? length l) with false in E by (symmetry; apply Z.ltb_ge; lia). rewrite Nat2Z.id, firstn_all in E.
    destruct (put_all_ok ok m t c l Hl) as (b & Eb & _ & Hlb). rewrite Eb in E. cbn in E. apply (inj Some) in E. subst bs. rewrite <- app_assoc.
    unfold get at 1. cbn [c_proofs]. rewrite (law_get_put (c := c_nbp) _ n _ (Hu l Hlen) En). cbn [mbind option_bind]. bfalse (outputs <? length l).
    replace (prepare_custom_vector_serialization _ _ _) with true; [rewrite Nat2Z.id; by eapply get_n_put|].
    symmetry. eapply prepare_ok; [done|]. rewrite length_app. lia.
  - intros input l rest Hi E. unfold get at 1 in E. cbn [c_proofs] in E. destruct (get c_nbp input) as [[nbp r]|] eqn:E1; [|done]. cbn [mbind option_bind] in E.
    destruct (_ <? nbp) eqn:En; [done|]. destruct (negb _); [done|]. bcase_hyps. destruct (law_get _ _ _ Hi E1) as (Hn & u1 & -> & H1). apply bytes_app in Hi as [_ Hr].
    destruct (get_n_inv ok m t c _ _ _ _ Hr E) as (Hlen & Hl & u2 & -> & H2). unfold is_uint in Hn. assert (Enb : nbp = length l) by lia. split; [split; [done|lia]|].
    exists (u1 ++ u2). rewrite app_assoc. split; [done|]. intros [?|Hne]; [done|]. unfold put at 1. cbn [c_proofs]. rewrite wrap_small by (apply Hu; lia).
    rewrite <- Enb, H1 by (right; by destruct u2). cbn [mbind option_bind]. bfalse (outputs <? nbp). rewrite <- Hlen, firstn_all, H2 by (by right). done.
  - intros _. unfold get at 1. cbn [c_proofs]. by rewrite (law_empty (c := c_nbp)) by lia.
Qed.

Definition proofs_part_ok (type : Z) (outputs : nat) (x : list rangeSig * (list Bulletproof * list BulletproofPlus)) : Prop :=
  range_proofs_ok type outputs (mk_prunable x.1 x.2.1 x.2.2 [] [] []).

Lemma lawful_varint32 : Lawful is_u32 1 (fun _ => False) (serialize_varint 32).
Proof. by apply lawful_varint. Qed.

Lemma lawful_range_proofs type (outputs : nat) :
  outputs < 0xffffffff -> Lawful (proofs_part_ok type outputs) 0 (fun _ => False) (range_proofs type outputs).
Proof.
  intros Ho. unfold range_proofs, proofs_part_ok, range_proofs_ok. cbn. destruct (type =? RCTTypeBulletproofPlus).
  { eapply lawful_struct; [apply lawful_check, (lawful_proofs _ _ _ _ _ _ _ _ lawful_bulletproof_plus lawful_varint32); lia|done| |lia|done].
    intros [r [b p]]. cbn. rewrite negb_true_iff, Z.ltb_ge. split; [intros (-> & -> & ? & ? & ?); done|intros [[[? ?] ?] [= <- <-]]; done]. }
  destruct (_ || _ || _).
  - eapply lawful_struct; [apply lawful_check, (lawful_proofs _ _ _ _ _ (fun _ => False) _ _ lawful_bulletproof); [|lia..]|done| |lia|done].
    + case_match; [apply lawful_varint32|]. by eapply lawful_mono; [apply lawful_u32|done|lia|].
    + intros [r [b p]]. cbn. rewrite negb_true_iff, Z.ltb_ge. split; [intros (-> & -> & ? & ? & ?); done|intros [[[? ?] ?] [= <- <-]]; done].
  - eapply lawful_struct; [apply (lawful_vec rangeSig_ok (32 * 193) (fun _ => True) c_rangeSig); lia|done| |lia|done].
    intros [r [b p]]. cbn. split; [by intros (-> & -> & ? & ?)|by intros [[? ?] [= <- <-]]].
Qed.

Lemma lawful_clsag mixin : Lawful (clsag_ok mixin) (32 * 3) (fun _ => True) (c_clsag mixin).
Proof.
  eapply lawful_struct; [apply _|by intros [? []]| |lia|].
  - intros [s c1 i d]. unfold clsag_ok. cbn. split; [by intros (? & ? & -> & ?)|by intros [(? & ? & ?) [= <-]]].
  - intros g _ _. cbn. intuition lia.
Qed.

Lemma lawful_mg type inputs mixin :
  Lawful (mg_ok ((if mg_simple type then 1 else inputs) + 1) mixin) (32 * 2) (fun _ => True) (c_mgSig type inputs mixin).
Proof.
  unfold c_mgSig. generalize (if mg_simple type then 1%nat else inputs). intros n.
  eapply lawful_struct; [apply lawful_seq; [apply (lawful_vec _ _ _ _ (L := lawful_keys (n + 1))); lia|apply _]|by intros []| |nia|].
  - intros [ss cc]. split; [by split|by intros []].
  - intros g _ _. cbn. split; [done|right; lia].
Qed.

Definition ring_part_ok (type : Z) (inputs mixin : nat) (x : list mgSig * list clsag) : Prop :=
  ring_sigs_ok type inputs mixin (mk_prunable [] [] [] x.1 x.2 []).

Lemma lawful_ring_sigs type inputs mixin :
  Lawful (ring_part_ok type inputs mixin) (Nat.min 1 inputs) (fun _ => True) (ring_sigs type inputs mixin).
Proof.
  unfold ring_sigs, ring_part_ok, ring_sigs_ok. cbn [p_MGs p_CLSAGs]. destruct (_ || _).
  - eapply lawful_struct; [apply (lawful_vec _ _ _ _ (L := lawful_clsag mixin)); lia|done| |lia|].
    + intros [m c]. cbn. split; [by intros (-> & ? & ?)|by intros [[? ?] [= <-]]].
    + intros x _ _. by apply Forall_true.
  - eapply lawful_struct; [apply (lawful_vec _ _ _ _ (L := lawful_mg type inputs mixin)); lia|done| |destruct (mg_simple type); lia|].
    + intros [m c]. cbn. split; [by intros (-> & ? & ?)|by intros [[? ?] [= <-]]].
    + intros x _ _. by apply Forall_true.
Qed.

(** The prunable bytes, at least. *)
Definition prunable_bytes (type : Z) (inputs : nat) : nat := if type =? RCTTypeNull then 0 else Nat.min 1 inputs.

#[global] Instance lawful_prunable type inputs outputs mixin :
  Lawful (prunable_ok type inputs outputs mixin) (prunable_bytes type inputs) (fun _ => type = RCTTypeNull \/ (0 < inputs)%nat) (serialize_rctsig_prunable type inputs outputs mixin).
Proof.
  assert (Hfail : forall b : bool, (b = true -> forall p, ~ prunable_ok type inputs outputs mixin p) -> b = true ->
    Lawful (prunable_ok type inputs outputs mixin) (prunable_bytes type inputs) (fun _ => type = RCTTypeNull \/ (0 < inputs)%nat) c_fail).
  { intros b Hb E. eapply lawful_mono; [apply (lawful_fail (prunable_bytes type inputs) (fun _ => True))| |done|done]. intros p. split; [|done]. by apply Hb. }
  unfold serialize_rctsig_prunable.
  destruct (0xffffffff <=? inputs) eqn:E1; [eapply Hfail; [|exact E1]; intros ? p [? _]; bcase_hyps; lia|].
  destruct (0xffffffff <=? outputs) eqn:E2; [eapply Hfail; [|exact E2]; intros ? p [? _]; bcase_hyps; lia|].
  destruct (0xffffffff <=? mixin) eqn:E3; [eapply Hfail; [|exact E3]; intros ? p [? _]; bcase_hyps; lia|].
  bcase_hyps. destruct (Z.eqb_spec type RCTTypeNull) as [->|Hn].
  { eapply lawful_mono; [apply lawful_pure| |done|done]. intros p. unfold prunable_ok. cbn. split; [intros [_ [[_ ->]|[? _]]]; done|intros ->].
    split; [lia|by left]. }
  destruct (rct_type_known type) eqn:Ek; cbn [negb].
  2: { eapply (Hfail (negb (rct_type_known type))); [|by rewrite Ek]. intros _ p [_ [[? _]|[? _]]]; congruence. }
  eapply lawful_struct.
  - apply lawful_seq; [by apply lawful_range_proofs|]. apply lawful_seq; [apply lawful_ring_sigs|].
    eapply lawful_if; [apply lawful_keys|apply lawful_pure].
  - by intros [[? []] [[] ?]].
  - intros [r b bp m cl ps]. unfold prunable_ok. cbn. rewrite keys_ok_if. unfold proofs_part_ok, ring_part_ok. cbn.
    unfold range_proofs_ok, ring_sigs_ok. cbn. split; [intros [_ [[? _]|(_ & ? & ? & ?)]]; [done|]; done|]. intros [(? & ? & ?) _]. split; [lia|]. by right.
  - unfold prunable_bytes. rewrite (proj2 (Z.eqb_neq _ _)) by done. lia.
  - intros p _ [?|Hi]; [done|]. destruct inputs as [|n]; [lia|]. cbn [fst snd]. split; [|right; cbn; lia]. split; [by case_match|by left].
Qed.
