(* ===== verification/Transaction.v ===== *)
(** * Transaction: transactions and blocks as binary blobs

    Models the classes [transaction], [block_header] and [block] of
    src/cryptonote_basic/cryptonote_basic.h, their serializers and the signature
    vectors of src/serialization/crypto.h.  Transactions are loaded into a fresh
    object; the cached hashes and sizes are not part of the value. *)
From S2P Require Import Prelude Varint Archive Config TxFormat RctFormat.
#[local] Arguments put : simpl never.
#[local] Arguments get : simpl never.

(** ** Definitions *)

Record transaction := mk_tx {
  tx_prefix :> transaction_prefix;
  tx_signatures : list (list (list Z));
  tx_rct : rctSigBase;
  tx_rct_p : rctSigPrunable;
  tx_pruned : bool;
}.

(** *** Ring signatures of version 1 *)

Definition get_signature_size (i : txin_v) : nat := length (key_offsets_of i).

Definition signature_size : nat := 64.
Definition do_serialize_signatures (cnt : nat) : codec (list (list Z)) := mk_codec
  (fun v => put_all (serialize_blob signature_size) v)
  (fun input => if length input / signature_size <? cnt then None else get_n (serialize_blob signature_size) cnt input).

(** The body of the loop over inputs, for one input. *)
Definition c_signature_row (size : nat) : codec (list (list Z)) := mk_codec
  (fun v => if negb (size =? length v)%nat then None else put (do_serialize_signatures size) v)
  (fun input => if negb (prepare_custom_vector_serialization size signature_size input) then None else get (do_serialize_signatures size) input).

Fixpoint c_signature_rows (vin : list txin_v) : codec (list (list (list Z))) :=
  match vin with
  | [] => c_pure []
  | i :: vin => c_map (fun '(r, l) => r :: l) (fun l => (hd [] l, tl l)) (c_seq (c_signature_row (get_signature_size i)) (c_signature_rows vin))
  end.

(** Loading sizes [signatures] to [vin]; saving accepts no signatures at all when none is expected. *)
Definition c_signatures (pruned : bool) (vin : list txin_v) : codec (list (list (list Z))) := mk_codec
  (fun s =>
     match s with
     | [] => if pruned || forallb (fun i => get_signature_size i =? 0)%nat vin then Some [] else None
     | _ => if negb (length vin =? length s)%nat then None else if pruned then Some [] else put (c_signature_rows vin) s
     end)
  (fun input => if pruned then Some (replicate (length vin) [], input) else get (c_signature_rows vin) input).

(** *** Transactions *)

(** The [mixin] argument: the ring size of the first input less one. *)
Definition first_mixin (vin : list txin_v) : Z :=
  match vin with txin_to_key _ key_offsets _ :: _ => u64 (length key_offsets - 1) | _ => 0 end.

Definition rct_fields (pruned : bool) (p : transaction_prefix) : codec (rctSigBase * rctSigPrunable) :=
  let inputs := length (tx_vin p) in
  let outputs := length (tx_vout p) in
  c_dep (serialize_rctsig_base inputs outputs) (fun b =>
    if negb pruned && negb (rct_type b =? RCTTypeNull)
    then serialize_rctsig_prunable (rct_type b) inputs outputs (first_mixin (tx_vin p))
    else c_pure null_prunable).

Definition signature_fields (pruned : bool) (p : transaction_prefix) : codec (list (list (list Z)) * (rctSigBase * rctSigPrunable)) :=
  if tx_version p =? 1 then c_map (fun s => (s, (null_base, null_prunable))) fst (c_signatures pruned (tx_vin p))
  else if bool_decide (length (tx_vin p) = 0%nat) then c_pure ([], (null_base, null_prunable))
  else c_map (fun r => ([], r)) snd (rct_fields pruned p).

Definition c_transaction_fields (pruned : bool) : codec (transaction_prefix * (list (list (list Z)) * (rctSigBase * rctSigPrunable))) :=
  c_dep c_transaction_prefix (signature_fields pruned).

Definition tx_fields (tx : transaction) : transaction_prefix * (list (list (list Z)) * (rctSigBase * rctSigPrunable)) :=
  (tx_prefix tx, (tx_signatures tx, (tx_rct tx, tx_rct_p tx))).
Definition tx_of_fields (pruned : bool) (f : transaction_prefix * (list (list (list Z)) * (rctSigBase * rctSigPrunable))) : transaction :=
  let '(p, (s, (b, r))) := f in mk_tx p s b r pruned.

Definition c_transaction : codec transaction := mk_codec
  (fun tx => put (c_transaction_fields (tx_pruned tx)) (tx_fields tx))
  (fun input => '(f, r) ← get (c_transaction_fields false) input; Some (tx_of_fields false f, r)).

(** [serialize_base]: the prefix and the unprunable part. *)
Definition serialize_base : codec transaction := c_map
  (fun '(p, b) => mk_tx p [] b null_prunable true) (fun tx => (tx_prefix tx, tx_rct tx))
  (c_dep c_transaction_prefix (fun p =>
     if tx_version p =? 1 then c_pure null_base
     else if bool_decide (length (tx_vin p) = 0%nat) then c_pure null_base
     else serialize_rctsig_base (length (tx_vin p)) (length (tx_vout p)))).

(** *** Blocks *)

Record block_header := mk_header {
  major_version : Z;
  minor_version : Z;
  timestamp : Z;
  prev_id : list Z;
  nonce : Z;
}.

Definition c_block_header : codec block_header :=
  c_map (fun '(a, (i, (t, (p, n)))) => mk_header a i t p n)
        (fun h => (major_version h, (minor_version h, (timestamp h, (prev_id h, nonce h)))))
    (c_seq (serialize_varint 8) (c_seq (serialize_varint 8) (c_seq (serialize_varint 64) (c_seq c_key (serialize_uint 4))))).

Record block := mk_block {
  b_header :> block_header;
  miner_tx : transaction;
  tx_hashes : list (list Z);
}.

Definition c_block : codec block :=
  c_map (fun '(h, (m, t)) => mk_block h m t) (fun b => (b_header b, (miner_tx b, tx_hashes b)))
    (c_seq c_block_header (c_seq c_transaction
      (c_check (fun t => negb (CRYPTONOTE_MAX_TX_PER_BLOCK <? length t)) (c_list c_key)))).

Definition tx_to_blob (tx : transaction) : option (list Z) := dump_binary c_transaction tx.
Definition block_to_blob (b : block) : option (list Z) := dump_binary c_block b.

(** ** Well-formed transactions and blocks *)

Definition signature_row_ok (n : nat) (v : list (list Z)) : Prop := length v = n /\ Forall (is_blob signature_size) v.
Definition signatures_ok (vin : list txin_v) (s : list (list (list Z))) : Prop :=
  Forall2 (fun i v => signature_row_ok (get_signature_size i) v) vin s.

Definition rct_ok (p : transaction_prefix) (b : rctSigBase) (r : rctSigPrunable) : Prop :=
  base_ok (length (tx_vin p)) (length (tx_vout p)) b /\
  if rct_type b =? RCTTypeNull then r = null_prunable
  else prunable_ok (rct_type b) (length (tx_vin p)) (length (tx_vout p)) (first_mixin (tx_vin p)) r.

(** What a transaction loaded from a blob looks like. *)
Definition tx_ok (tx : transaction) : Prop :=
  prefix_ok tx /\ tx_pruned tx = false /\
  if tx_version tx =? 1 then signatures_ok (tx_vin tx) (tx_signatures tx) /\ tx_rct tx = null_base /\ tx_rct_p tx = null_prunable
  else tx_signatures tx = [] /\
       if bool_decide (length (tx_vin tx) = 0%nat) then tx_rct tx = null_base /\ tx_rct_p tx = null_prunable
       else rct_ok tx (tx_rct tx) (tx_rct_p tx).

(** The bytes after the prefix, at least. *)
Fixpoint signature_bytes (vin : list txin_v) : nat :=
  match vin with [] => 0 | i :: vin => get_signature_size i * 64 + signature_bytes vin end.
Definition tail_bytes (p : transaction_prefix) : nat :=
  if tx_version p =? 1 then signature_bytes (tx_vin p) else if bool_decide (length (tx_vin p) = 0%nat) then 0 else 1.

Definition header_ok (h : block_header) : Prop :=
  is_u8 (major_version h) /\ is_u8 (minor_version h) /\ is_u64 (timestamp h) /\ key_ok (prev_id h) /\ is_u32 (nonce h).

Definition block_ok (b : block) : Prop :=
  header_ok b /\ tx_ok (miner_tx b) /\ Forall key_ok (tx_hashes b) /\ length (tx_hashes b) <= CRYPTONOTE_MAX_TX_PER_BLOCK.

(** ** Lemmas *)

Lemma get_signatures cnt input :
  get (do_serialize_signatures cnt) input = if length input / signature_size <? cnt then None else get_n (serialize_blob signature_size) cnt input.
Proof. done. Qed.

Lemma lawful_signature_row n : Lawful (signature_row_ok n) (n * 64) (fun _ => True) (c_signature_row n).
Proof.
  pose proof (lawful_vec (is_blob 64) 64 (fun _ => True) (serialize_blob 64) n 64 ltac:(lia)) as LV.
  split.
  - intros v [<- Hv]. destruct (law_put (c := c_vec (length v) 64 (serialize_blob 64)) v (conj eq_refl Hv)) as (bs & E & Hb & Hlen).
    exists bs. split; [|done]. revert E. unfold put. cbn. by rewrite !Nat.eqb_refl.
  - intros v bs rest [<- Hv] E. unfold put in E. cbn in E. rewrite Nat.eqb_refl in E. cbn in E.
    change (put_all (serialize_blob 64) v = Some bs) in E.
    destruct (put_all_ok (is_blob 64) 64 (fun _ => True) (serialize_blob 64) v Hv) as (bs' & E' & _ & Hlen).
    rewrite E in E'. apply (inj Some) in E'. subst bs'. unfold get. cbn [c_signature_row do_serialize_signatures].
    rewrite (prepare_ok 64 (length v) signature_size) by (rewrite ?length_app; unfold signature_size; lia). cbn [negb].
    assert (length v <= length (bs ++ rest) / signature_size) by (rewrite length_app; apply Z.div_le_lower_bound; unfold signature_size; lia).
    rewrite get_signatures. rewrite (proj2 (Z.ltb_ge _ _)) by done.
    exact (get_n_put (is_blob 64) 64 (fun _ => True) _ v bs rest Hv E).
  - intros input v rest Hi E. unfold get in E. cbn [c_signature_row do_serialize_signatures] in E. destruct (negb _); [done|]. rewrite get_signatures in E. destruct (_ <? _); [done|].
    destruct (get_n_inv (is_blob 64) 64 (fun _ => True) (serialize_blob 64) _ _ _ _ Hi E) as (<- & Hv & u & -> & H).
    split; [done|]. exists u. split; [done|]. intros _. unfold put. cbn. rewrite Nat.eqb_refl. cbn. apply H. left. by apply Forall_true.
  - intros Hn. unfold get. cbn [c_signature_row]. 
    destruct n as [|n]; [lia|]. unfold prepare_custom_vector_serialization. cbn [length]. rewrite Zdiv_0_l.
    by destruct (Z.eqb_spec (S n) 0); [lia|].
Qed.

Lemma lawful_signature_rows vin : Lawful (signatures_ok vin) (signature_bytes vin) (fun _ => True) (c_signature_rows vin).
Proof.
  unfold signatures_ok. induction vin as [|i vin IH]; cbn [c_signature_rows signature_bytes].
  - eapply lawful_mono; [apply lawful_pure| |done|done]. intros s. split; [by intros ->%Forall2_nil_inv_l|by intros ->].
  - eapply lawful_struct; [apply (lawful_seq _ _ _ _ _ _ _ _ (lawful_signature_row _) IH)|by intros []| |done|].
    + intros [|v s]; cbn; [|rewrite Forall2_cons; intuition]. split; [by intros ?%Forall2_nil_inv_r|by intros [_ ?]].
    + intros s _ _. cbn. split; [done|by left].
Qed.

Lemma lawful_signatures vin : Lawful (signatures_ok vin) (signature_bytes vin) (fun _ => True) (c_signatures false vin).
Proof.
  pose proof (lawful_signature_rows vin) as LR.
  assert (Hp : forall s, signatures_ok vin s -> put (c_signatures false vin) s = put (c_signature_rows vin) s).
  { intros s Hs. unfold put at 1. cbn [c_signatures]. destruct s as [|v s]; [by apply Forall2_nil_inv_r in Hs as ->|].
    rewrite (Forall2_length _ _ _ Hs), Nat.eqb_refl. done. }
  split.
  - intros s Hs. rewrite Hp by done. by apply law_put.
  - intros s bs rest Hs E. rewrite Hp in E by done. exact (law_get_put (c := c_signature_rows vin) s bs rest Hs E).
  - intros input s rest Hi E. destruct (law_get (c := c_signature_rows vin) _ _ _ Hi E) as (Hs & u & -> & H). split; [done|]. exists u. by rewrite Hp.
  - intros Hm. exact (law_empty (c := c_signature_rows vin) Hm).
Qed.

Lemma lawful_rct_fields p :
  tx_vin p <> [] ->
  Lawful (fun x => rct_ok p x.1 x.2) 1 (fun _ => True) (rct_fields false p).
Proof.
  intros Hne. assert (Hin : (0 < length (tx_vin p))%nat) by (destruct (tx_vin p); cbn; [done|lia]).
  eapply lawful_mono.
  - apply (lawful_dep _ _ _ _ (L1 := lawful_base _ _)
      (fun b r => if rct_type b =? RCTTypeNull then r = null_prunable
                  else prunable_ok (rct_type b) (length (tx_vin p)) (length (tx_vout p)) (first_mixin (tx_vin p)) r)
      (fun b => prunable_bytes (rct_type b) (length (tx_vin p))) 1 (fun _ _ => True)).
    + intros b _. cbn [andb negb]. unfold prunable_bytes. destruct (rct_type b =? RCTTypeNull) eqn:Et; [apply lawful_pure|]. cbn [negb].
      eapply lawful_mono; [apply lawful_prunable|done|unfold prunable_bytes; by rewrite Et|]. intros r _ _. by right.
    + lia.
  - done.
  - done.
  - intros [b r] _ _. cbn. split; [done|]. unfold prunable_bytes. destruct (Z.eqb_spec (rct_type b) RCTTypeNull); [by left; left|right; lia].
Qed.

Lemma lawful_signature_fields p :
  prefix_ok p -> Lawful (fun f => tx_ok (tx_of_fields false (p, f))) (tail_bytes p) (fun _ => True) (signature_fields false p).
Proof.
  intros Hp. unfold signature_fields, tail_bytes, tx_ok. cbn [tx_of_fields].
  destruct (tx_version p =? 1) eqn:Ev.
  + eapply lawful_struct; [apply lawful_signatures|done| |done|done]. intros [s [b r]]. cbn. rewrite Ev.
    split; [by intros (_ & _ & ? & -> & ->)|by intros [? [= <- <-]]].
  + case_bool_decide as He.
    * eapply lawful_mono; [apply lawful_pure| |done|done]. intros [s [b r]]. cbn. rewrite Ev.
      split; [intros (_ & _ & -> & H); case_bool_decide; [by destruct H as [-> ->]|done]|]. intros [= -> -> ->]. by rewrite bool_decide_true.
    * eapply lawful_struct; [apply lawful_rct_fields; by intros E; rewrite E in He|done| |done|done].
      intros [s [b r]]. cbn. rewrite Ev. rewrite bool_decide_false by done. split; [by intros (_ & _ & -> & ?)|by intros [? [= <-]]].
Qed.

#[global] Instance lawful_transaction : Lawful tx_ok 5 (fun tx => tx_extra tx <> [] \/ (0 < tail_bytes tx)%nat) c_transaction.
Proof.
  assert (LF : Lawful (fun f => tx_ok (tx_of_fields false f)) 5 (fun f => tx_extra f.1 <> [] \/ (0 < tail_bytes f.1)%nat) (c_transaction_fields false)).
  { eapply lawful_mono.
    - eapply (lawful_dep prefix_ok 5 _ c_transaction_prefix
        (fun p f => tx_ok (tx_of_fields false (p, f))) tail_bytes 5 (fun _ _ => True)); [|lia].
      exact lawful_signature_fields.
    - intros [p [s [b r]]]. cbn. split; [intros H; split; [by destruct H|done]|by intros [_ ?]].
    - done.
    - intros f _ H. cbn. split; [done|]. exact H. }
  split.
  - intros [p s b r pr] Hok. pose proof Hok as (_ & Hpr & _). cbn in Hpr. subst pr.
    exact (law_put (c := c_transaction_fields false) (p, (s, (b, r))) Hok).
  - intros [p s b r pr] bs rest Hok E. pose proof Hok as (_ & Hpr & _). cbn in Hpr. subst pr.
    pose proof (law_get_put (c := c_transaction_fields false) (p, (s, (b, r))) bs rest Hok E) as E'.
    unfold get. cbn [c_transaction]. by rewrite E'.
  - intros input tx rest Hi E. unfold get in E. cbn [c_transaction] in E.
    destruct (get (c_transaction_fields false) input) as [[[p [s [b r]]] q]|] eqn:E1; [|done]. cbn in E. simplify_eq.
    exact (law_get (c := c_transaction_fields false) _ _ _ Hi E1).
  - intros _. unfold get. cbn [c_transaction]. by rewrite (law_empty (c := c_transaction_fields false)) by lia.
Qed.

#[global] Instance lawful_header : Lawful header_ok 39 (fun _ => True) c_block_header.
Proof.
  pose proof (lawful_varint 8 ltac:(lia)) as L8.
  eapply lawful_struct; [apply _|by intros [? [? [? []]]]|intros []; split; [by split|by intros []]|cbn; lia|].
  intros h _ _. cbn. intuition lia.
Qed.

Definition hashes_ok (t : list (list Z)) : Prop := Forall key_ok t /\ length t <= CRYPTONOTE_MAX_TX_PER_BLOCK.
Abbreviation c_tx_hashes := (c_check (fun t => negb (CRYPTONOTE_MAX_TX_PER_BLOCK <? length t)) (c_list c_key)).

#[global] Instance lawful_hashes : Lawful hashes_ok 1 (fun t => t <> []) c_tx_hashes.
Proof.
  eapply lawful_mono; [apply lawful_check, (lawful_c_list key_ok 31 (fun _ => True) c_key _)| |done|].
  - intros t. unfold hashes_ok, is_uint, CRYPTONOTE_MAX_TX_PER_BLOCK. rewrite negb_true_iff, Z.ltb_ge. intuition lia.
  - intros t _ Ht. split; [done|]. by apply Forall_true.
Qed.

#[global] Instance lawful_block : Lawful block_ok 45 (fun b => tx_hashes b <> []) c_block.
Proof.
  eapply lawful_struct; [apply _|by intros [? []]| |cbn; lia|].
  - intros []. unfold block_ok. cbn. split; [intros (? & ? & ? & ?); by split_and!|intros [(? & ? & ? & ?) _]; by split_and!].
  - intros b _ Hb. cbn. intuition lia.
Qed.

(** *** The end of a blob *)

(** When the last field cannot be empty, everything before it was read from its only encoding. *)
Lemma dep_at_end {A B} (ok1 : A -> Prop) m1 t1 c1 (ok2 : A -> B -> Prop) (m2 : A -> nat) t2 (c2 : A -> codec B) input a b :
  Lawful ok1 m1 t1 c1 -> (forall a, ok1 a -> Lawful (ok2 a) (m2 a) (t2 a) (c2 a)) -> bytes input ->
  get (c_dep c1 c2) input = Some (a, b, []) -> (0 < m2 a)%nat ->
  exists u1 u2, input = u1 ++ u2 /\ ok1 a /\ put c1 a = Some u1 /\ bytes u2 /\ get (c2 a) u2 = Some (b, []).
Proof.
  intros L1 L2 Hi E Hm. unfold get in E at 1. cbn [c_dep] in E. destruct (get c1 input) as [[a' r]|] eqn:E1; [|done]. cbn [mbind option_bind] in E.
  destruct (get (c2 a') r) as [[b' r']|] eqn:E2; [|done]. cbn [mbind option_bind] in E. simplify_eq.
  destruct (law_get _ _ _ Hi E1) as (Ha & u1 & -> & H1). apply bytes_app in Hi as [_ Hr]. specialize (L2 a Ha).
  exists u1, r. split_and!; try done. apply H1. right. intros ->. by rewrite law_empty in E2.
Qed.

Lemma put_dep {A B} (c1 : codec A) (c2 : A -> codec B) a b u1 u2 :
  put c1 a = Some u1 -> put (c2 a) b = Some u2 -> put (c_dep c1 c2) (a, b) = Some (u1 ++ u2).
Proof. intros E1 E2. unfold put at 1. cbn [c_dep]. by rewrite E1, E2. Qed.

(** What [dump] would have written, were the final count zero not cut short. *)
Definition cut_zero (saved input : list Z) : Prop :=
  exists pre (k : nat), 1 <= k <= 9 /\ saved = pre ++ [0] /\ input = pre ++ replicate k 128.

Lemma cut_zero_app u saved input : cut_zero saved input -> cut_zero (u ++ saved) (u ++ input).
Proof. intros (pre & k & Hk & -> & ->). exists (u ++ pre), k. by rewrite !app_assoc. Qed.

Lemma hashes_at_end input t :
  bytes input -> get c_tx_hashes input = Some (t, []) ->
  exists saved, put c_tx_hashes t = Some saved /\ (saved = input \/ (t = [] /\ cut_zero saved input)).
Proof.
  intros Hi E. destruct (law_get _ _ _ Hi E) as (Ht & _). destruct (law_put t Ht) as (saved & Es & _). exists saved. split; [done|].
  unfold get in E. cbn [c_check] in E. destruct (get (c_list c_key) input) as [[t' r]|] eqn:E1; [|done]. cbn in E. destruct (negb _); simplify_eq.
  destruct (container_at_end key_ok 32 (fun _ => True) c_key size_t_max input t ltac:(lia) Hi ltac:(done) E1) as [Ep|(-> & k & Hk & ->)].
  - left. unfold put in Es. cbn [c_check] in Es. destruct (negb _) in Es; [|done]. change (put (c_list c_key) t = Some input) in Ep. congruence.
  - right. split; [done|]. exists [], k. split_and!; [lia..| |done]. vm_compute in Es. by simplify_eq.
Qed.

Lemma block_at_end input b :
  bytes input -> get c_block input = Some (b, []) ->
  exists saved, put c_block b = Some saved /\ (saved = input \/ (tx_hashes b = [] /\ cut_zero saved input)).
Proof.
  intros Hi E. unfold get in E. cbn [c_block c_map] in E. destruct (get _ input) as [[[h [m t]] r]|] eqn:E1; [|done]. cbn in E. simplify_eq. cbn [tx_hashes].
  eapply (dep_at_end _ _ _ _ _ (fun _ => 6%nat)) in E1 as (u1 & u2 & -> & Hh & Ep1 & Hu2 & E2);
    [|apply lawful_header|intros ? _; exact (lawful_seq _ _ _ c_transaction _ _ _ c_tx_hashes _ _)|done|lia].
  eapply (dep_at_end _ _ _ _ _ (fun _ => 1%nat)) in E2 as (u3 & u4 & -> & Hm & Ep2 & Hu4 & E3); [|apply lawful_transaction|intros ? _; apply lawful_hashes|done|lia].
  destruct (hashes_at_end u4 t Hu4 E3) as (saved & Es & Hc). exists (u1 ++ u3 ++ saved). split.
  - change (put (c_seq c_block_header (c_seq c_transaction c_tx_hashes)) (h, (m, t)) = Some (u1 ++ u3 ++ saved)). by apply put_dep, put_dep.
  - destruct Hc as [->|[-> Hc]]; [by left|]. right. split; [done|]. by apply cut_zero_app, cut_zero_app.
Qed.

Lemma prefix_at_end input p :
  bytes input -> get c_transaction_prefix input = Some (p, []) ->
  exists saved, put c_transaction_prefix p = Some saved /\ (saved = input \/ (tx_extra p = [] /\ cut_zero saved input)).
Proof.
  intros Hi E. unfold get in E. cbn [c_transaction_prefix c_map] in E. destruct (get _ input) as [[[v [u [i [o e]]]] r]|] eqn:E1; [|done]. cbn in E. simplify_eq. cbn [tx_extra].
  assert (Lvo : forall vin, Lawful (fun x : list tx_out * list Z => vout_ok vin x.1 /\ string_ok x.2) 2 _ (c_seq (c_vout vin) c_bytes))
    by (intros; exact (lawful_seq _ _ _ (c_vout vin) _ _ _ c_bytes _ _)).
  assert (Lvi : Lawful (fun x : list txin_v * (list tx_out * list Z) => vin_ok x.1 /\ vout_ok x.1 x.2.1 /\ string_ok x.2.2) 3 (fun _ => False)
    (c_dep c_vin (fun vin => c_seq (c_vout vin) c_bytes))).
  { eapply lawful_mono; [apply (lawful_dep vin_ok 1 _ c_vin (fun vin x => vout_ok vin x.1 /\ string_ok x.2) (fun _ => 2%nat) 3 _ _ (fun vin _ => Lvo vin)); lia|done|done|done]. }
  eapply (dep_at_end _ _ _ _ _ (fun _ => 4%nat)) in E1 as (u1 & u2 & -> & _ & Ep1 & Hu2 & E2); [|apply lawful_check, lawful_varint64|intros ? _; exact (lawful_seq _ _ _ (serialize_varint 64) _ _ _ _ _ Lvi)|done|lia].
  eapply (dep_at_end _ _ _ _ _ (fun _ => 3%nat)) in E2 as (u3 & u4 & -> & _ & Ep2 & Hu4 & E3); [|apply lawful_varint64|intros ? _; exact Lvi|done|lia].
  eapply (dep_at_end _ _ _ _ _ (fun _ => 2%nat)) in E3 as (u5 & u6 & -> & _ & Ep3 & Hu6 & E4); [|apply lawful_vin|intros ? _; apply Lvo|done|lia].
  eapply (dep_at_end _ _ _ _ _ (fun _ => 1%nat)) in E4 as (u7 & u8 & -> & _ & Ep4 & Hu8 & E5); [|apply lawful_vout|intros ? _; apply lawful_bytes|done|lia].
  assert (Hput : forall saved, put c_bytes e = Some saved -> put c_transaction_prefix (mk_prefix v u i o e) = Some (u1 ++ u3 ++ u5 ++ u7 ++ saved)).
  { intros saved Es. by apply (put_dep _ _ v (u, (i, (o, e)))), put_dep, put_dep, put_dep. }
  destruct (container_at_end is_u8 1 (fun _ => True) (serialize_uint 1) size_t_max u8 e ltac:(lia) Hu8 ltac:(done) E5) as [Ep|(-> & k & Hk & ->)].
  - eexists. split; [by apply Hput|by left].
  - exists (u1 ++ u3 ++ u5 ++ u7 ++ [0]). split; [apply Hput; by vm_compute|]. right. split; [done|]. do 4 apply cut_zero_app. exists [], k. split_and!; [lia..|done|done].
Qed.

Lemma put_signature_rows_empty vin s : signature_bytes vin = 0%nat -> signatures_ok vin s -> put (c_signature_rows vin) s = Some [].
Proof.
  intros Hz Hs. unfold signatures_ok in Hs. induction Hs as [|i v vin s [Hl Hv] Hs IH]; [done|]. cbn [signature_bytes] in Hz.
  cbn [c_signature_rows]. unfold put. cbn [c_map hd tl]. apply (put_dep _ _ _ _ [] []); [|apply IH; lia].
  assert (get_signature_size i = 0%nat) as E by lia. rewrite E in *. apply length_zero_iff_nil in Hl as ->. done.
Qed.

(** A transaction without extra and without signatures ends with its prefix. *)
Lemma tx_at_end input tx :
  bytes input -> get c_transaction input = Some (tx, []) ->
  exists saved, put c_transaction tx = Some saved /\
    (saved = input \/ (tx_extra tx = [] /\ tail_bytes tx = 0%nat /\ cut_zero saved input)).
Proof.
  intros Hi E. destruct (law_get _ _ _ Hi E) as (Hok & u & Eu & H). rewrite app_nil_r in Eu. subst u.
  destruct (decide (tx_extra tx <> [] \/ (0 < tail_bytes tx)%nat)) as [Ht|Hn]; [exists input; split; [apply H; by left|by left]|].
  assert (tx_extra tx = [] /\ tail_bytes tx = 0%nat) as [Hx Htb] by (split; [destruct (decide (tx_extra tx = [])); tauto|lia]).
  destruct tx as [p s b r pr]. pose proof Hok as (Hp & Hpr & Hrest). cbn in Hpr, Hrest, Hx, Htb. subst pr.
  assert (Es : put (signature_fields false p) (s, (b, r)) = Some []).
  { unfold signature_fields, tail_bytes in *. destruct (tx_version p =? 1).
    - destruct Hrest as (Hs & -> & ->). transitivity (put (c_signatures false (tx_vin p)) s); [done|].
      transitivity (put (c_signature_rows (tx_vin p)) s); [|by apply put_signature_rows_empty].
      unfold put at 1. cbn [c_signatures]. destruct s as [|v s]; [by apply Forall2_nil_inv_r in Hs as ->|].
      rewrite (Forall2_length _ _ _ Hs), Nat.eqb_refl. done.
    - case_bool_decide; [done|lia]. }
  unfold get in E. cbn [c_transaction] in E. destruct (get (c_transaction_fields false) input) as [[[p' [s' [b' r']]] q]|] eqn:E1; [|done]. cbn in E. simplify_eq.
  unfold get in E1. cbn [c_transaction_fields c_dep] in E1. destruct (get c_transaction_prefix input) as [[p' q]|] eqn:E2; [|done]. cbn [mbind option_bind] in E1.
  destruct (get (signature_fields false p') q) as [[f q']|] eqn:E3; [|done]. cbn [mbind option_bind] in E1. simplify_eq.
  destruct (law_get _ _ _ Hi E2) as (_ & u1 & -> & H1). apply bytes_app in Hi as [Hu1 Hq].
  pose proof (lawful_signature_fields p Hp) as LS. destruct (law_get _ _ _ Hq E3) as (_ & u3 & -> & H3).
  rewrite Es in H3. specialize (H3 (or_introl I)). apply (inj Some) in H3. subst u3. rewrite !app_nil_r in *.
  destruct (prefix_at_end _ _ Hu1 E2) as (saved & Ep & Hc). exists saved. split.
  - rewrite <- (app_nil_r saved). by apply (put_dep _ _ p (s, (b, r))).
  - destruct Hc as [->|[_ ?]]; [by left|]. by right.
Qed.

(** ** Properties *)

(** C18: a well-formed block survives saving and loading: [block_to_blob] succeeds on it
    and parsing the blob gives the block back, all of its miner transaction and
    transaction hashes included. *)
Theorem block_blob_roundtrip b :
  block_ok b -> exists blob, block_to_blob b = Some blob /\ bytes blob /\ parse_binary c_block blob = Some b.
Proof. apply (parse_dump block_ok 45 _ c_block). Qed.

(** what the block parser accepts is a well-formed block, and its blob is the one
    [block_to_blob] writes, but for one case: when the block has no transaction
    besides the miner's, the final count 0 may be replaced by one to nine bytes
    0x80, since a count that ends in the middle of its varint is accepted. *)
Theorem block_blob_canonical blob b :
  bytes blob -> parse_binary c_block blob = Some b ->
  block_ok b /\ exists saved, block_to_blob b = Some saved /\ (saved = blob \/ (tx_hashes b = [] /\ cut_zero saved blob)).
Proof.
  intros Hb E. split; [by eapply (parse_binary_inv block_ok 45 _ c_block)|].
  unfold parse_binary in E. destruct (get c_block blob) as [[b' [|]]|] eqn:E1; [|done..]. cbn in E. simplify_eq. by apply block_at_end.
Qed.

(** a well-formed transaction survives saving and loading. *)
Theorem tx_blob_roundtrip tx :
  tx_ok tx -> exists blob, tx_to_blob tx = Some blob /\ bytes blob /\ parse_binary c_transaction blob = Some tx.
Proof. apply (parse_dump tx_ok 5 _ c_transaction). Qed.

(** an accepted transaction blob is the one [tx_to_blob] writes for the transaction
    loaded from it, unless the transaction has no extra and no signature bytes;
    then the empty extra's count may be cut short. *)
Theorem tx_blob_canonical blob tx :
  bytes blob -> parse_binary c_transaction blob = Some tx ->
  exists saved, tx_to_blob tx = Some saved /\ (saved = blob \/ (tx_extra tx = [] /\ tail_bytes tx = 0%nat /\ cut_zero saved blob)).
Proof.
  intros Hb E. unfold parse_binary in E. destruct (get c_transaction blob) as [[tx' [|]]|] eqn:E1; [|done..]. cbn in E. simplify_eq. by apply tx_at_end.
Qed.

(** C20: whatever bytes are offered, a transaction that loads is well formed: version 1
    or 2; one coinbase input or only inputs spending outputs, with their limits; a
    row of ring signatures per input, as long as its ring; a known RingCT type with
    as many amounts and commitments as outputs, range proofs that cover them and
    ring signatures of the size of the rings. *)
Theorem tx_parse_well_formed blob tx : bytes blob -> parse_binary c_transaction blob = Some tx -> tx_ok tx.
Proof. intros Hb E. by eapply (parse_binary_inv tx_ok 5 _ c_transaction). Qed.

(** *** Instances *)

Definition sample_prefix : transaction_prefix :=
  mk_prefix 2 160 [txin_gen 100] [mk_out 600000000000 (txout_to_tagged_key (replicate 32 7) [9])] [].
Definition sample_tx : transaction := mk_tx sample_prefix [] null_base null_prunable false.
Definition sample_header : block_header := mk_header 16 16 1700000000 (replicate 32 3) 77.
Definition sample_block : block := mk_block sample_header sample_tx [].
Definition sample_block_blob : list Z := default [] (block_to_blob sample_block).
(** The same block with its final count cut short. *)
Definition sample_block_cut : list Z := removelast sample_block_blob ++ [128; 128].

Lemma sample_cut_bytes : bytes sample_block_cut.
Proof. by apply (bool_decide_unpack (Forall is_u8 sample_block_cut)); vm_compute. Qed.

Lemma sample_cut_parses : parse_binary c_block sample_block_cut = Some sample_block.
Proof. by vm_compute. Qed.

Lemma sample_block_ok : block_ok sample_block.
Proof. exact (proj1 (parse_binary_inv block_ok 45 _ c_block _ _ sample_cut_bytes sample_cut_parses)). Qed.

Lemma block_blob_roundtrip_witness :
  block_ok sample_block /\
  exists blob, block_to_blob sample_block = Some blob /\ bytes blob /\ parse_binary c_block blob = Some sample_block.
Proof. split; [exact sample_block_ok|]. exact (block_blob_roundtrip sample_block sample_block_ok). Defined.

Lemma block_blob_canonical_witness :
  (bytes sample_block_cut /\ parse_binary c_block sample_block_cut = Some sample_block) /\
  (block_ok sample_block /\
   exists saved, block_to_blob sample_block = Some saved /\ (saved = sample_block_cut \/ (tx_hashes sample_block = [] /\ cut_zero saved sample_block_cut))).
Proof.
  split; [exact (conj sample_cut_bytes sample_cut_parses)|].
  exact (block_blob_canonical sample_block_cut sample_block sample_cut_bytes sample_cut_parses).
Defined.

(** A version 1 transaction with one input, a ring of two and one output. *)
Definition sample_v1 : transaction :=
  mk_tx (mk_prefix 1 0 [txin_to_key 5 [3; 9] (replicate 32 1)] [mk_out 4 (txout_to_key (replicate 32 2))] [1; 2])
    [[replicate 64 5; replicate 64 6]] null_base null_prunable false.
Definition sample_v1_blob : list Z := default [] (tx_to_blob sample_v1).

Lemma sample_v1_bytes : bytes sample_v1_blob.
Proof. by apply (bool_decide_unpack (Forall is_u8 sample_v1_blob)); vm_compute. Qed.

Lemma sample_v1_parses : parse_binary c_transaction sample_v1_blob = Some sample_v1.
Proof. by vm_compute. Qed.

Lemma sample_v1_ok : tx_ok sample_v1.
Proof. exact (proj1 (parse_binary_inv tx_ok 5 _ c_transaction _ _ sample_v1_bytes sample_v1_parses)). Qed.

(** A RingCT transaction with Bulletproofs+ and CLSAG: one input, a ring of two, one output. *)
Definition sample_k (i : Z) : list Z := replicate 32 i.
Definition sample_v2 : transaction :=
  mk_tx (mk_prefix 2 0 [txin_to_key 0 [3; 300] (sample_k 1)] [mk_out 0 (txout_to_tagged_key (sample_k 2) [4])] [1; 2; 3])
    []
    (mk_base RCTTypeBulletproofPlus 30720000 [] [mk_ecdh zero_key (replicate 8 5 ++ replicate 24 0)] [mk_ctkey zero_key (sample_k 6)])
    (mk_prunable [] [] [mk_bpp [] (sample_k 7) (sample_k 8) (sample_k 9) (sample_k 10) (sample_k 11) (sample_k 12) (replicate 6 (sample_k 13)) (replicate 6 (sample_k 14))]
       [] [mk_clsag [sample_k 15; sample_k 16] (sample_k 17) zero_key (sample_k 18)] [sample_k 19])
    false.
Definition sample_v2_blob : list Z := default [] (tx_to_blob sample_v2).

Lemma sample_v2_bytes : bytes sample_v2_blob.
Proof. by apply (bool_decide_unpack (Forall is_u8 sample_v2_blob)); vm_compute. Qed.

Lemma sample_v2_parses : parse_binary c_transaction sample_v2_blob = Some sample_v2.
Proof. by vm_compute. Qed.

Lemma tx_blob_roundtrip_witness :
  tx_ok sample_v1 /\ exists blob, tx_to_blob sample_v1 = Some blob /\ bytes blob /\ parse_binary c_transaction blob = Some sample_v1.
Proof. split; [exact sample_v1_ok|]. exact (tx_blob_roundtrip sample_v1 sample_v1_ok). Defined.

Lemma tx_blob_canonical_witness :
  (bytes sample_v1_blob /\ parse_binary c_transaction sample_v1_blob = Some sample_v1) /\
  exists saved, tx_to_blob sample_v1 = Some saved /\
    (saved = sample_v1_blob \/ (tx_extra sample_v1 = [] /\ tail_bytes sample_v1 = 0%nat /\ cut_zero saved sample_v1_blob)).
Proof.
  split; [exact (conj sample_v1_bytes sample_v1_parses)|].
  exact (tx_blob_canonical sample_v1_blob sample_v1 sample_v1_bytes sample_v1_parses).
Defined.

Lemma tx_parse_well_formed_witness :
  (bytes sample_v2_blob /\ parse_binary c_transaction sample_v2_blob = Some sample_v2) /\ tx_ok sample_v2.
Proof.
  split; [exact (conj sample_v2_bytes sample_v2_parses)|].
  exact (tx_parse_well_formed sample_v2_blob sample_v2 sample_v2_bytes sample_v2_parses).
Defined.
