(* ===== verification/TxParse.v ===== *)
(** * TxParse: transactions and blocks from blobs

    Models the parsing functions of src/cryptonote_basic/cryptonote_format_utils.cpp:
    [parse_and_validate_*_from_blob], [expand_transaction_1], the parser-free
    [get_transaction_unprunable_summary] with [get_tx_version] and [is_v1_tx], and
    [prune_transaction_blob]. *)
From S2P Require Import Prelude Varint Archive Config Reward TxFormat RctFormat Transaction.
#[local] Arguments put : simpl never.
#[local] Arguments get : simpl never.

(** ** Definitions *)

Definition passes_max_size_check (max_size_check : bool) (tx_blob : list Z) : bool :=
  if negb max_size_check then true else length tx_blob <=? get_max_tx_size.

Definition get_output_public_key (out : tx_out) : option (list Z) :=
  match out_target out with
  | txout_to_key key => Some key
  | txout_to_tagged_key key _ => Some key
  | _ => None
  end.

Definition get_output_view_tag (out : tx_out) : option (list Z) :=
  match out_target out with txout_to_tagged_key _ view_tag => Some view_tag | _ => None end.

Definition set_tx_out (amount : Z) (output_public_key : list Z) (use_view_tags : bool) (view_tag : list Z) : tx_out :=
  mk_out amount (if use_view_tags then txout_to_tagged_key output_public_key view_tag else txout_to_key output_public_key).

(** *** Expansion of a loaded transaction *)

Definition set_dest (k : ctkey) (dest : list Z) : ctkey := mk_ctkey dest (ct_mask k).

(** The destination keys of [outPk] are those of the outputs. *)
Fixpoint fill_dests (vout : list tx_out) (outPk : list ctkey) : option (list ctkey) :=
  match vout, outPk with
  | o :: vout, k :: outPk => dest ← get_output_public_key o; l ← fill_dests vout outPk; Some (set_dest k dest :: l)
  | _, [] => Some []
  | [], _ :: _ => None
  end.

Definition set_bpp_V (V : list (list Z)) (p : BulletproofPlus) : BulletproofPlus :=
  mk_bpp V (bpp_A p) (bpp_A1 p) (bpp_B p) (bpp_r1 p) (bpp_s1 p) (bpp_d1 p) (bpp_L p) (bpp_R p).
Definition set_bp_V (V : list (list Z)) (p : Bulletproof) : Bulletproof :=
  mk_bp V (bp_A p) (bp_S p) (bp_T1 p) (bp_T2 p) (bp_taux p) (bp_mu p) (bp_L p) (bp_R p) (bp_a p) (bp_b p) (bp_t p).

Definition set_outPk (b : rctSigBase) (o : list ctkey) : rctSigBase := mk_base (rct_type b) (rct_txnFee b) (rct_pseudoOuts b) (rct_ecdhInfo b) o.
Definition set_bpps (p : rctSigPrunable) (l : list BulletproofPlus) : rctSigPrunable :=
  mk_prunable (p_rangeSigs p) (p_bulletproofs p) l (p_MGs p) (p_CLSAGs p) (p_pseudoOuts p).
Definition set_bps (p : rctSigPrunable) (l : list Bulletproof) : rctSigPrunable :=
  mk_prunable (p_rangeSigs p) l (p_bulletproofs_plus p) (p_MGs p) (p_CLSAGs p) (p_pseudoOuts p).

Section parsing.
(** [rct::scalarmultKey(_, INV_EIGHT)], of which nothing is assumed. *)
Context (mul_inv_eight : list Z -> list Z).

(** The commitments of the single range proof, once its shape is checked. *)
Definition expand_proofs (type : Z) (n_amounts : Z) (outPk : list ctkey) (p : rctSigPrunable) : option rctSigPrunable :=
  let V := map (fun k => mul_inv_eight (ct_mask k)) outPk in
  if is_rct_bulletproof_plus type then
    match p_bulletproofs_plus p with
    | [proof] =>
        if length (bpp_L proof) <? 6 then None
        else if bpp_max_amounts proof <? n_amounts then None
        else if negb (n_amounts =? length outPk) then None
        else Some (set_bpps p [set_bpp_V V proof])
    | _ => None
    end
  else if is_rct_bulletproof type then
    match p_bulletproofs p with
    | [proof] =>
        if length (bp_L proof) <? 6 then None
        else if Z.shiftl 1 (length (bp_L proof) - 6) <? n_amounts then None
        else if negb (n_amounts =? length outPk) then None
        else Some (set_bps p [set_bp_V V proof])
    | _ => None
    end
  else Some p.

Definition expand_transaction_1 (tx : transaction) (base_only : bool) : option transaction :=
  if (2 <=? tx_version tx) && negb (is_coinbase tx) then
    if rct_type (tx_rct tx) =? RCTTypeNull then Some tx
    else if negb (length (rct_outPk (tx_rct tx)) =? length (tx_vout tx))%nat then None
    else
      outPk ← fill_dests (tx_vout tx) (rct_outPk (tx_rct tx));
      p ← (if base_only then Some (tx_rct_p tx) else expand_proofs (rct_type (tx_rct tx)) (length (tx_vout tx)) outPk (tx_rct_p tx));
      Some (mk_tx (tx_prefix tx) (tx_signatures tx) (set_outPk (tx_rct tx) outPk) p (tx_pruned tx))
  else Some tx.

Definition parse_and_validate_tx_from_blob (tx_blob : list Z) (max_size_check : bool) : option transaction :=
  if negb (passes_max_size_check max_size_check tx_blob) then None
  else tx ← parse_binary c_transaction tx_blob; expand_transaction_1 tx false.

Definition parse_and_validate_tx_base_from_blob (tx_blob : list Z) (max_size_check require_eof : bool) : option transaction :=
  if negb (passes_max_size_check max_size_check tx_blob) then None
  else tx ← (if require_eof then parse_binary serialize_base tx_blob else serialize_noeof serialize_base tx_blob); expand_transaction_1 tx true.

End parsing.

Definition parse_and_validate_tx_prefix_from_blob (tx_blob : list Z) (max_size_check : bool) : option transaction_prefix :=
  if negb (passes_max_size_check max_size_check tx_blob) then None else serialize_noeof c_transaction_prefix tx_blob.

Definition parse_and_validate_block_from_blob (b_blob : list Z) : option block := parse_binary c_block b_blob.

(** *** The unprunable summary *)

Record unprunable_summary_t := mk_summary {
  us_version : Z;
  us_n_inputs : Z;
  us_n_outputs : Z;
  us_extra_len : Z;
  us_is_coinbase : bool;
  us_prefix_size : Z;
  us_unprunable_size : Z;
}.

(** The reading macros; the counts read are bounded by the bytes they are followed
    by, so the lengths skipped do not overflow. *)
Definition READ_VARINT (p : list Z) : option (Z * list Z) := let '(read, v, p) := read_varint 64 p in if read <=? 0 then None else Some (v, p).
Definition READ_BYTE (p : list Z) : option (Z * list Z) := match p with [] => None | v :: p => Some (v, p) end.
Definition SKIP (n : Z) (p : list Z) : option (list Z) := if length p <? n then None else Some (drop (Z.to_nat n) p).

Fixpoint skip_varints (n : nat) (p : list Z) : option (list Z) :=
  match n with O => Some p | S n' => '(_, p) ← READ_VARINT p; skip_varints n' p end.

(** One input: whether it is a coinbase input, and what follows it. *)
Definition skip_input (p : list Z) : option (bool * list Z) :=
  '(input_tag, p) ← READ_BYTE p;
  if input_tag =? 0xff then '(_, p) ← READ_VARINT p; Some (true, p)
  else if input_tag =? 0x02 then
    '(_, p) ← READ_VARINT p; '(n, p) ← READ_VARINT p; p ← skip_varints (Z.to_nat n) p; p ← SKIP 32 p; Some (false, p)
  else None.

Fixpoint skip_inputs (n : nat) (is_coinbase : bool) (p : list Z) : option (bool * list Z) :=
  match n with O => Some (is_coinbase, p) | S n' => '(gen, p) ← skip_input p; skip_inputs n' (is_coinbase || gen) p end.

Definition skip_output (p : list Z) : option (list Z) :=
  '(_, p) ← READ_VARINT p;
  '(output_tag, p) ← READ_BYTE p;
  if output_tag =? 0x02 then SKIP 32 p else if output_tag =? 0x03 then SKIP (32 + 1) p else None.

Fixpoint skip_outputs (n : nat) (p : list Z) : option (list Z) :=
  match n with O => Some p | S n' => p ← skip_output p; skip_outputs n' p end.

(** The RingCT fields that are not pruned. *)
Definition skip_rct_base (n_inputs n_outputs : Z) (p : list Z) : option (list Z) :=
  '(rct_type, p) ← READ_BYTE p;
  if RCTTypeBulletproofPlus <? rct_type then None
  else if rct_type =? RCTTypeNull then Some p
  else
    '(_, p) ← READ_VARINT p;
    p ← (if rct_type =? RCTTypeSimple then SKIP (32 * n_inputs) p else Some p);
    let ecdh_tuple_len := if RCTTypeBulletproof2 <=? rct_type then 8 else 64 in
    SKIP (n_outputs * (ecdh_tuple_len + 32)) p.

Definition get_transaction_unprunable_summary (tx_blob : list Z) : option unprunable_summary_t :=
  '(version, p) ← READ_VARINT tx_blob;
  if (version <? 1) || (2 <? version) then None
  else
    '(_, p) ← READ_VARINT p;
    '(n_inputs, p) ← READ_VARINT p;
    '(is_coinbase, p) ← skip_inputs (Z.to_nat n_inputs) false p;
    '(n_outputs, p) ← READ_VARINT p;
    p ← skip_outputs (Z.to_nat n_outputs) p;
    '(extra_len, p) ← READ_VARINT p;
    if CRYPTONOTE_MAX_TX_SIZE <? extra_len then None
    else
      p ← SKIP extra_len p;
      let prefix_size := length tx_blob - length p in
      p ← (if version =? 2 then skip_rct_base n_inputs n_outputs p else Some p);
      Some (mk_summary version n_inputs n_outputs extra_len is_coinbase prefix_size (length tx_blob - length p)).

Definition prune_transaction_blob (tx_blob : list Z) : option (list Z) :=
  desc ← get_transaction_unprunable_summary tx_blob;
  if negb (us_unprunable_size desc <=? length tx_blob) then None else Some (take (Z.to_nat (us_unprunable_size desc)) tx_blob).

(** Throws are [None]. *)
Definition get_tx_version (tx_blob : list Z) : option Z :=
  let '(read, version, _) := read_varint 64 tx_blob in if read <=? 0 then None else Some version.
Definition is_v1_tx (tx_blob : list Z) : option bool :=
  let '(read, version, _) := read_varint 64 tx_blob in if read <=? 0 then None else Some (version <=? 1).

(** ** Lemmas *)

(** *** The macros follow the archive *)

Lemma READ_VARINT_get p v r : get (serialize_varint 64) p = Some (v, r) -> READ_VARINT p = Some (v, r).
Proof.
  unfold get, READ_VARINT. cbn [serialize_varint]. destruct (read_varint 64 p) as [[n v'] r']. destruct (1 <=? n) eqn:E; [|done].
  bcase_hyps. intros [= -> ->]. by bfalse (n <=? 0).
Qed.

Lemma READ_BYTE_get p v r : bytes p -> get (serialize_uint 1) p = Some (v, r) -> READ_BYTE p = Some (v, r).
Proof. unfold get. cbn [serialize_uint]. destruct p as [|b p]; [done|]. intros _. cbn. rewrite take_0, drop_0. intros [= <- <-]. cbn. by rewrite Z.add_0_r. Qed.

(** A codec whose values all take [k] bytes. *)
Definition fixed {A} (k : nat) (c : codec A) : Prop := forall p a r, get c p = Some (a, r) -> (k <= length p)%nat /\ r = drop k p.

Lemma fixed_blob n : fixed n (serialize_blob n).
Proof. intros p a r. unfold get. cbn. destruct (Nat.leb_spec n (length p)); [|done]. by intros [= <- <-]. Qed.

Lemma fixed_uint n : fixed n (serialize_uint n).
Proof. intros p a r. unfold get. cbn. destruct (Nat.leb_spec n (length p)); [|done]. by intros [= <- <-]. Qed.

Lemma fixed_seq {A B} k1 k2 (c1 : codec A) (c2 : codec B) : fixed k1 c1 -> fixed k2 c2 -> fixed (k1 + k2) (c_seq c1 c2).
Proof.
  intros F1 F2 p [a b] r. unfold get at 1. cbn [c_dep]. destruct (get c1 p) as [[a' p']|] eqn:E1; [|done]. cbn [mbind option_bind].
  destruct (get c2 p') as [[b' p'']|] eqn:E2; [|done]. cbn [mbind option_bind]. intros [= <- <- <-].
  apply F1 in E1 as [H1 ->]. apply F2 in E2 as [H2 ->]. rewrite length_drop in H2. rewrite drop_drop. split; [lia|done].
Qed.

Lemma fixed_map {A B} k (c : codec A) (f : A -> B) g : fixed k c -> fixed k (c_map f g c).
Proof. intros F p b r. unfold get. cbn [c_map]. destruct (get c p) as [[a p']|] eqn:E; [|done]. cbn. intros [= <- <-]. by apply F in E. Qed.

Lemma get_n_fixed {A} k (c : codec A) n : fixed k c -> forall p l r, get_n c n p = Some (l, r) -> (n * k <= length p)%nat /\ r = drop (n * k) p.
Proof.
  intros F. induction n as [|n IH]; intros p l r E; cbn in E; [simplify_eq; split; [lia|done]|].
  destruct (get c p) as [[a p']|] eqn:E1; [|done]. cbn in E. destruct (get_n c n p') as [[l' p'']|] eqn:E2; [|done]. cbn in E. simplify_eq.
  apply F in E1 as [H1 ->]. apply IH in E2 as [H2 ->]. rewrite length_drop in H2. rewrite drop_drop. split; [lia|done].
Qed.

Lemma fixed_vec {A} k (c : codec A) n min : fixed k c -> fixed (n * k) (c_vec n min c).
Proof. intros F p l r. unfold get. cbn [c_vec]. destruct (negb _); [done|]. by apply get_n_fixed. Qed.

Lemma SKIP_fixed {A} (k : nat) (n : Z) (c : codec A) p a r : fixed k c -> n = k -> get c p = Some (a, r) -> SKIP n p = Some r.
Proof. intros F -> E. apply F in E as [H ->]. unfold SKIP. bfalse (length p <? k). by rewrite Nat2Z.id. Qed.

Lemma skip_varints_get n : forall p l r, get_n (serialize_varint 64) n p = Some (l, r) -> skip_varints n p = Some r.
Proof.
  induction n as [|n IH]; intros p l r E; cbn in E; [by simplify_eq|].
  destruct (get (serialize_varint 64) p) as [[a p']|] eqn:E1; [|done]. cbn in E. destruct (get_n _ n p') as [[l' p'']|] eqn:E2; [|done]. cbn in E. simplify_eq.
  cbn. rewrite (READ_VARINT_get _ _ _ E1). cbn. by eapply IH.
Qed.

(** Undo one bind of a successful run. *)
Ltac run H x r E :=
  match type of H with
  | mbind _ ?m = Some _ => destruct m as [[x r]|] eqn:E; [cbn [mbind option_bind] in H|discriminate H]
  end.

Lemma get_dep {A B} (c1 : codec A) (c2 : A -> codec B) p x r :
  get (c_dep c1 c2) p = Some (x, r) -> exists q, get c1 p = Some (x.1, q) /\ get (c2 x.1) q = Some (x.2, r).
Proof. unfold get at 1. cbn [c_dep]. intros E. run E a q E1. run E b q' E2. simplify_eq. by exists q. Qed.

Lemma get_dep_intro {A B} (c1 : codec A) (c2 : A -> codec B) p a b q r :
  get c1 p = Some (a, q) -> get (c2 a) q = Some (b, r) -> get (c_dep c1 c2) p = Some (a, b, r).
Proof. intros E1 E2. unfold get at 1. cbn [c_dep]. by rewrite E1; cbn; rewrite E2. Qed.

Lemma get_map_intro {A B} (f : A -> B) g (c : codec A) p a r : get c p = Some (a, r) -> get (c_map f g c) p = Some (f a, r).
Proof. intros E. unfold get at 1. cbn [c_map]. by rewrite E. Qed.

Lemma get_map {A B} (f : A -> B) g (c : codec A) p b r : get (c_map f g c) p = Some (b, r) -> exists a, get c p = Some (a, r) /\ b = f a.
Proof. unfold get at 1. cbn [c_map]. intros E. run E a q E1. simplify_eq. by exists a. Qed.

Lemma get_alt {A B} (f : A -> B) g (c : codec A) p b r : get (c_alt f g c) p = Some (b, r) -> exists a, get c p = Some (a, r) /\ b = f a.
Proof. unfold get at 1. cbn [c_alt]. intros E. run E a q E1. simplify_eq. by exists a. Qed.

Lemma get_variant {A} (tag_of : A -> Z) alts p a r :
  get (c_variant tag_of alts) p = Some (a, r) ->
  exists t q c, get (serialize_uint 1) p = Some (t, q) /\ variant_find alts t = Some c /\ get c q = Some (a, r).
Proof.
  unfold get at 1. cbn [c_variant]. intros E. run E t q E1. destruct (variant_find alts t) as [c|] eqn:E2; [|done]. by exists t, q, c.
Qed.

Lemma get_container {A} (c : codec A) max p l r :
  get (do_serialize_container c max) p = Some (l, r) ->
  exists cnt q, get (serialize_varint 64) p = Some (cnt, q) /\ get_n c (Z.to_nat cnt) q = Some (l, r).
Proof. unfold get at 1. cbn [do_serialize_container]. intros E. run E cnt q E1. destruct (_ || _); [done|]. by exists cnt, q. Qed.

Lemma get_n_length {A} (c : codec A) n : forall p l r, get_n c n p = Some (l, r) -> length l = n.
Proof.
  induction n as [|n IH]; intros p l r E; cbn in E; [by simplify_eq|]. run E a q E1. run E l' q' E2. simplify_eq. cbn. f_equal. by eapply IH.
Qed.

Lemma bytes_rest {A} (ok : A -> Prop) m t (c : codec A) `{!Lawful ok m t c} p a r : bytes p -> get c p = Some (a, r) -> bytes r.
Proof. intros Hp E. destruct (get_suffix ok m t c p a r Hp E) as [u ->]. by apply bytes_app in Hp as [_ ?]. Qed.

(** *** The parts of the prefix *)

Definition is_gen (i : txin_v) : bool := match i with txin_gen _ => true | _ => false end.

Lemma skip_input_get p i r : bytes p -> get c_txin p = Some (i, r) -> is_gen i = true \/ is_to_key i -> skip_input p = Some (is_gen i, r).
Proof.
  intros Hp E Hi. apply get_variant in E as (t & q & c & E1 & E2 & E3). unfold skip_input. rewrite (READ_BYTE_get _ _ _ Hp E1). cbn [mbind option_bind].
  cbn [variant_find] in E2. rewrite Z.eqb_sym. destruct (0xff =? t) eqn:T1.
  { simplify_eq. apply get_alt in E3 as (h & E3 & ->). by rewrite (READ_VARINT_get _ _ _ E3). }
  destruct (0 =? t); [simplify_eq; apply get_alt in E3 as ((? & ? & ?) & E3 & ->); by destruct Hi|].
  destruct (1 =? t); [simplify_eq; apply get_alt in E3 as ((? & ? & ? & ?) & E3 & ->); by destruct Hi|].
  rewrite Z.eqb_sym. destruct (2 =? t); [|done]. simplify_eq. apply get_alt in E3 as ((a & o & k) & E3 & ->).
  apply get_dep in E3 as (q1 & E3 & E4). apply get_dep in E4 as (q2 & E4 & E5). cbn in *. apply get_container in E4 as (n & q3 & E4 & E6).
  rewrite (READ_VARINT_get _ _ _ E3). cbn [mbind option_bind]. rewrite (READ_VARINT_get _ _ _ E4). cbn [mbind option_bind].
  rewrite (skip_varints_get _ _ _ _ E6). cbn [mbind option_bind]. by rewrite (SKIP_fixed 32 32 _ _ _ _ (fixed_blob 32) eq_refl E5).
Qed.

Lemma skip_inputs_get n : forall cnt i total p vin r acc,
  0 <= i -> bytes p -> deserialize_vin_loop cnt i n total p = Some (vin, r) -> (n <= Z.to_nat cnt)%nat ->
  length vin = n /\ skip_inputs n acc p = Some (acc || ((i =? 0) && is_coinbase_vin vin), r).
Proof.
  induction n as [|n IH]; intros cnt i total p vin r acc Hi Hp E Hn; cbn [deserialize_vin_loop] in E; [simplify_eq; by rewrite andb_false_r, orb_false_r|].
  run E x q E1. pose proof (bytes_rest txin_ok 2 is_to_key c_txin p x q Hp E1) as Hq. destruct x as [h| | |a o k]; try done.
  - destruct (i =? 0); [|done]. destruct (_ <? cnt) eqn:Ec; [done|]. simplify_eq. bcase_hyps. unfold COINBASE_VIN_COUNT in Ec.
    assert (n = 0%nat) as -> by lia. split; [done|]. cbn. rewrite (skip_input_get _ _ _ Hp E1) by (by left). done.
  - destruct (_ <? total); [done|]. destruct (_ <=? _); [done|]. run E l q' E2. simplify_eq.
    apply (IH _ _ _ _ _ _ (acc || false)) in E2 as [<- E2]; [|lia|done|lia]. split; [done|]. cbn [skip_inputs]. rewrite (skip_input_get _ _ _ Hp E1) by (by right).
    cbn [mbind option_bind is_gen]. rewrite E2. bfalse (i + 1 =? 0). cbn. by rewrite andb_false_r, !orb_false_r.
Qed.

Lemma vin_get p vin r :
  bytes p -> get c_vin p = Some (vin, r) ->
  exists q, READ_VARINT p = Some (Z.of_nat (length vin), q) /\ skip_inputs (length vin) false q = Some (is_coinbase_vin vin, r).
Proof.
  intros Hp E. change (get c_vin p) with (deserialize_vin p) in E. unfold deserialize_vin in E. run E cnt q E1.
  pose proof (bytes_rest is_u64 1 _ (serialize_varint 64) p cnt q Hp E1) as Hq.
  destruct (law_get _ _ _ Hp E1) as ([Hc _] & _). destruct (_ <? cnt); [done|]. destruct (_ <? cnt); [done|].
  apply (skip_inputs_get _ _ _ _ _ _ _ false) in E as [Hl E]; [|done..]. exists q. rewrite (READ_VARINT_get _ _ _ E1). rewrite Hl. split; [by rewrite Z2Nat.id|done].
Qed.

Definition keyed (o : tx_out) : Prop := get_output_public_key o <> None.

Lemma skip_output_get p o r : bytes p -> get c_tx_out p = Some (o, r) -> keyed o -> skip_output p = Some r.
Proof.
  intros Hp E Hk. apply get_map in E as ((a & t) & E & ->). apply get_dep in E as (q & E1 & E2). cbn in E1, E2.
  pose proof (bytes_rest is_u64 1 _ (serialize_varint 64) p _ q Hp E1) as Hq. unfold skip_output. rewrite (READ_VARINT_get _ _ _ E1). cbn [mbind option_bind].
  apply get_variant in E2 as (g & q' & c & E3 & E4 & E5). rewrite (READ_BYTE_get _ _ _ Hq E3). cbn [mbind option_bind]. cbn [variant_find] in E4.
  destruct (0 =? g); [simplify_eq; apply get_alt in E5 as (? & _ & ->); done|]. destruct (1 =? g); [simplify_eq; apply get_alt in E5 as (? & _ & ->); done|].
  rewrite (Z.eqb_sym g 2), (Z.eqb_sym g 3). destruct (2 =? g).
  - simplify_eq. apply get_alt in E5 as (? & E5 & _). exact (SKIP_fixed 32 _ _ _ _ _ (fixed_blob 32) eq_refl E5).
  - destruct (3 =? g); [|done]. simplify_eq. apply get_alt in E5 as (? & E5 & _).
    exact (SKIP_fixed 33 _ _ _ _ _ (fixed_seq 32 1 _ _ (fixed_blob 32) (fixed_blob 1)) eq_refl E5).
Qed.

Lemma vout_get vin p vout r :
  bytes p -> get (c_vout vin) p = Some (vout, r) -> Forall keyed vout ->
  exists q, READ_VARINT p = Some (Z.of_nat (length vout), q) /\ skip_outputs (length vout) q = Some r.
Proof.
  intros Hp E Hk. change (get (c_vout vin) p) with (get (do_serialize_container c_tx_out (max_vout_count vin)) p) in E.
  apply get_container in E as (cnt & q & E1 & E2). destruct (law_get _ _ _ Hp E1) as ([Hc _] & _).
  pose proof (bytes_rest is_u64 1 _ (serialize_varint 64) p _ q Hp E1) as Hq. exists q. rewrite (READ_VARINT_get _ _ _ E1).
  rewrite (get_n_length _ _ _ _ _ E2), Z2Nat.id by done. split; [done|]. clear E1 Hp. revert q vout E2 Hk Hq.
  induction (Z.to_nat cnt) as [|n IH]; intros q vout E2 Hk Hq; cbn in E2; [by simplify_eq|]. run E2 o q' E3. run E2 l q'' E4. simplify_eq.
  apply Forall_cons in Hk as [Ho Hk]. cbn. rewrite (skip_output_get _ _ _ Hq E3 Ho). cbn. eapply IH; [done..|]. exact (bytes_rest _ _ _ c_tx_out q o q' Hq E3).
Qed.

Lemma extra_get p e r :
  bytes p -> get c_bytes p = Some (e, r) ->
  exists q, READ_VARINT p = Some (Z.of_nat (length e), q) /\ SKIP (length e) q = Some r.
Proof.
  intros Hp E. apply get_container in E as (cnt & q & E1 & E2). destruct (law_get _ _ _ Hp E1) as ([Hc _] & _). exists q. rewrite (READ_VARINT_get _ _ _ E1).
  pose proof (get_n_length _ _ _ _ _ E2) as Hl. rewrite Hl, Z2Nat.id by done. split; [done|].
  apply (get_n_fixed 1) in E2 as [H ->]; [|apply fixed_uint]. unfold SKIP. bfalse (length q <? cnt). by rewrite Nat.mul_1_r.
Qed.

Lemma rct_base_get inputs outputs p b r :
  bytes p -> get (serialize_rctsig_base inputs outputs) p = Some (b, r) -> skip_rct_base inputs outputs p = Some r.
Proof.
  intros Hp E. apply get_map in E as ((t & x) & E & _). apply get_dep in E as (q & E1 & E2). cbn in E1, E2.
  destruct (law_get _ _ _ Hp E1) as ([Ht _] & _). unfold skip_rct_base. rewrite (READ_BYTE_get _ _ _ Hp E1). cbn [mbind option_bind].
  unfold rctsig_base_fields in E2. destruct (t =? RCTTypeNull) eqn:T0.
  { bcase_hyps. subst t. unfold get in E2. cbn in E2. by simplify_eq. }
  destruct (rct_type_known t) eqn:Hk; [|done]. cbn [negb] in E2.
  assert (Hle : t <= 6) by (unfold rct_type_known in Hk; repeat (apply orb_true_iff in Hk as [Hk|Hk]); bcase_hyps; subst t; by vm_compute).
  change RCTTypeBulletproofPlus with 6. bfalse (6 <? t). apply get_dep in E2 as (q1 & E2 & E3). apply get_dep in E3 as (q2 & E3 & E4).
  apply get_dep in E4 as (q3 & E4 & E5). cbn [fst snd] in *. rewrite (READ_VARINT_get _ _ _ E2). cbn [mbind option_bind].
  assert (Hc : compressed_ecdh t = (RCTTypeBulletproof2 <=? t)).
  { unfold RCTTypeNull in T0. bcase_hyps. unfold compressed_ecdh. zcases t 7; try done. }
  assert (Hsk : (if t =? RCTTypeSimple then SKIP (32 * inputs) q1 else Some q1) = Some q2).
  { destruct (t =? RCTTypeSimple); [|by unfold get in E3; cbn in E3; simplify_eq].
    eapply (SKIP_fixed (inputs * 32) _ _ _ _ _ (fixed_vec 32 c_key inputs 32 (fixed_blob 32))); [lia|exact E3]. }
  rewrite Hsk. cbn [mbind option_bind]. rewrite <- Hc.
  assert (Fe : fixed (if compressed_ecdh t then 8 else 64) (c_ecdh t)).
  { unfold c_ecdh. destruct (compressed_ecdh t); apply fixed_map; [apply fixed_blob|]. apply (fixed_seq 32 32); apply fixed_blob. }
  destruct (fixed_vec _ _ outputs _ Fe _ _ _ E4) as [H4 E4']. subst q3.
  destruct (fixed_vec 32 c_outPk outputs _ (fixed_map _ _ _ _ (fixed_blob 32)) _ _ _ E5) as [H5 E5']. subst r.
  rewrite length_drop in H5. unfold SKIP.
  replace (length q2 <? _) with false by (symmetry; apply Z.ltb_ge; destruct (compressed_ecdh t); lia).
  rewrite drop_drop. do 2 f_equal. destruct (compressed_ecdh t); lia.
Qed.

(** What [serialize_base] loads from the blob of a transaction. *)
Definition base_of (tx : transaction) : transaction := mk_tx (tx_prefix tx) [] (tx_rct tx) null_prunable true.

(** The three stages of a transaction blob. *)
Lemma tx_get_stages blob tx rest :
  get c_transaction blob = Some (tx, rest) -> (tx_version tx <> 1 -> tx_vin tx <> []) ->
  exists q q', get c_transaction_prefix blob = Some (tx_prefix tx, q) /\ get serialize_base blob = Some (base_of tx, q') /\
    (if tx_version tx =? 1 then q' = q else get (serialize_rctsig_base (length (tx_vin tx)) (length (tx_vout tx))) q = Some (tx_rct tx, q')).
Proof.
  intros E Hv. unfold get in E. cbn [c_transaction] in E. run E f r E1. apply get_dep in E1 as (q & E1 & E2). destruct f as [p [s [b pr]]]. cbn [fst snd tx_of_fields] in *.
  simplify_eq. cbn [tx_version tx_vin tx_vout tx_prefix tx_rct] in *. unfold signature_fields in E2.
  assert (Hb : forall q', get (if tx_version p =? 1 then c_pure null_base else if bool_decide (length (tx_vin p) = 0%nat) then c_pure null_base
      else serialize_rctsig_base (length (tx_vin p)) (length (tx_vout p))) q = Some (b, q') -> get serialize_base blob = Some (mk_tx p [] b null_prunable true, q')).
  { intros q' Eb. refine (get_map_intro (fun '(p, b) => mk_tx p [] b null_prunable true) _ _ _ (p, b) q' _). by apply (get_dep_intro _ _ _ _ _ q). }
  destruct (tx_version p =? 1) eqn:V1.
  - apply get_map in E2 as (s' & _ & [= -> -> ->]). exists q, q. split_and!; [done|by apply Hb|done].
  - case_bool_decide as Hz.
    { bcase_hyps. destruct (Hv ltac:(done)). by apply length_zero_iff_nil. }
    apply get_map in E2 as ([b' pr'] & E2 & [= -> -> ->]). apply get_dep in E2 as (q' & E2 & _). exists q, q'. split_and!; [done| |done]. by apply Hb.
Qed.

Lemma summary_get blob tx rest :
  bytes blob -> get c_transaction blob = Some (tx, rest) -> (tx_version tx <> 1 -> tx_vin tx <> []) ->
  Forall keyed (tx_vout tx) -> length (tx_extra tx) <= CRYPTONOTE_MAX_TX_SIZE ->
  exists q q', get c_transaction_prefix blob = Some (tx_prefix tx, q) /\ get serialize_base blob = Some (base_of tx, q') /\
    (exists u u', blob = u ++ q /\ q = u' ++ q') /\
    get_transaction_unprunable_summary blob =
      Some (mk_summary (tx_version tx) (length (tx_vin tx)) (length (tx_vout tx)) (length (tx_extra tx)) (is_coinbase tx)
              (length blob - length q) (length blob - length q')).
Proof.
  intros Hb E Hv Hk He. destruct (law_get _ _ _ Hb E) as ((Hp & _) & _). destruct Hp as (Hver & _).
  destruct (tx_get_stages _ _ _ E Hv) as (q & q' & E1 & E2 & E3). exists q, q'. split; [done|]. split; [done|].
  pose proof (bytes_rest _ _ _ c_transaction_prefix blob _ q Hb E1) as Hq.
  destruct (get_suffix _ _ _ c_transaction_prefix blob _ q Hb E1) as [u Eu]. split.
  { exists u. destruct (tx_version tx =? 1); [subst q'; by exists []|]. destruct (get_suffix _ _ _ _ q _ q' Hq E3) as [u' Eu']. by exists u'. }
  apply get_map in E1 as ([v [ut [vin [vout e]]]] & E1 & Ep). rewrite Ep in *. cbn [tx_version tx_vin tx_vout tx_extra is_coinbase] in *.
  apply get_dep in E1 as (q1 & E1 & E4). cbn [fst snd] in *. unfold get in E1 at 1. cbn [c_check] in E1. run E1 v' q1' E5.
  destruct (prefix_version_ok v'); [|done]. injection E1 as Ev Eq. subst v' q1'.
  pose proof (bytes_rest _ _ _ (serialize_varint 64) blob _ q1 Hb E5) as Hq1.
  apply get_dep in E4 as (q2 & E4 & E6). cbn [fst snd] in *. pose proof (bytes_rest _ _ _ (serialize_varint 64) q1 _ q2 Hq1 E4) as Hq2.
  apply get_dep in E6 as (q3 & E6 & E7). cbn [fst snd] in *. pose proof (bytes_rest _ _ _ c_vin q2 _ q3 Hq2 E6) as Hq3.
  apply get_dep in E7 as (q4 & E7 & E8). cbn [fst snd] in *. pose proof (bytes_rest _ _ _ (c_vout vin) q3 _ q4 Hq3 E7) as Hq4.
  destruct (vin_get _ _ _ Hq2 E6) as (r1 & R1 & R2). destruct (vout_get _ _ _ _ Hq3 E7 Hk) as (r2 & R3 & R4). destruct (extra_get _ _ _ Hq4 E8) as (r3 & R5 & R6).
  unfold get_transaction_unprunable_summary. rewrite (READ_VARINT_get _ _ _ E5). cbn [mbind option_bind]. bfalse (v <? 1). bfalse (2 <? v). cbn [orb].
  rewrite (READ_VARINT_get _ _ _ E4). cbn [mbind option_bind]. rewrite R1. cbn [mbind option_bind]. rewrite Nat2Z.id, R2. cbn [mbind option_bind].
  rewrite R3. cbn [mbind option_bind]. rewrite Nat2Z.id, R4. cbn [mbind option_bind]. rewrite R5. cbn [mbind option_bind].
  bfalse (CRYPTONOTE_MAX_TX_SIZE <? length e). rewrite R6. cbn [mbind option_bind].
  assert (Hsk : (if v =? 2 then skip_rct_base (length vin) (length vout) q else Some q) = Some q').
  { destruct (Z.eqb_spec v 1) as [->|Hn]; [by subst q'|]. assert (v = 2) as -> by lia. cbn [Z.eqb]. by eapply rct_base_get. }
  rewrite Hsk. done.
Qed.

(** The values [serialize_base] loads. *)
Definition base_tx_ok (tx : transaction) : Prop :=
  prefix_ok tx /\ tx_signatures tx = [] /\ tx_rct_p tx = null_prunable /\ tx_pruned tx = true /\
  if (tx_version tx =? 1) || bool_decide (length (tx_vin tx) = 0%nat) then tx_rct tx = null_base
  else base_ok (length (tx_vin tx)) (length (tx_vout tx)) (tx_rct tx).

#[global] Instance lawful_serialize_base : Lawful base_tx_ok 5 (fun _ => False) serialize_base.
Proof.
  eapply lawful_struct.
  - eapply (lawful_dep prefix_ok 5 _ c_transaction_prefix
      (fun p b => if (tx_version p =? 1) || bool_decide (length (tx_vin p) = 0%nat) then b = null_base else base_ok (length (tx_vin p)) (length (tx_vout p)) b)
      (fun _ => 0%nat) 5 (fun _ _ => False)); [|lia].
    intros p Hp. destruct (tx_version p =? 1); [|case_bool_decide]; cbn [orb].
    + by eapply lawful_mono; [apply lawful_pure|done|done|].
    + by eapply lawful_mono; [apply lawful_pure|done|done|].
    + eapply lawful_mono; [apply lawful_base|done|lia|done].
  - by intros [].
  - intros [p s b r pr]. unfold base_tx_ok. cbn. split; [intros (? & -> & -> & -> & ?); by split_and!|intros [[? ?] [= <- <- <-]]; by split_and!].
  - lia.
  - done.
Qed.

Lemma prune_parse blob tx :
  bytes blob -> parse_binary c_transaction blob = Some tx -> (tx_version tx <> 1 -> tx_vin tx <> []) ->
  Forall keyed (tx_vout tx) -> length (tx_extra tx) <= CRYPTONOTE_MAX_TX_SIZE ->
  exists pruned, prune_transaction_blob blob = Some pruned /\ parse_binary serialize_base pruned = Some (base_of tx).
Proof.
  intros Hb E Hv Hk He. unfold parse_binary in E. destruct (get c_transaction blob) as [[tx' [|]]|] eqn:E1; [|done..]. cbn in E. simplify_eq.
  destruct (summary_get _ _ _ Hb E1 Hv Hk He) as (q & q' & _ & E3 & (u & u' & -> & ->) & Es). exists (u ++ u').
  unfold prune_transaction_blob. rewrite Es. cbn [mbind option_bind us_unprunable_size]. rewrite !length_app.
  split.
  - btrue (Z.of_nat (length u + (length u' + length q')) - length q' <=? Z.of_nat (length u + (length u' + length q'))). cbn [negb].
    rewrite app_assoc, take_app_length' by (rewrite length_app; lia). done.
  - unfold parse_binary. assert (E : get serialize_base (u ++ u') = Some (base_of tx, [])); [|by rewrite E].
    destruct (decide (q' = [])) as [->|Hn]; [by rewrite app_nil_r in E3|].
    destruct (law_get _ _ _ Hb E3) as (Hok & w & Ew & Hp). specialize (Hp (or_intror Hn)). rewrite app_assoc in Ew. apply app_inv_tail in Ew. subst w.
    rewrite <- (app_nil_r (u ++ u')). by apply law_get_put.
Qed.

(** ** Properties *)


(** pruning a transaction blob keeps exactly what a pruned node needs: the pruned
    blob loads, with nothing left over, as the prefix and the unprunable RingCT data
    of the transaction. *)
Theorem prune_blob_correct blob tx :
  bytes blob -> parse_binary c_transaction blob = Some tx -> (tx_version tx <> 1 -> tx_vin tx <> []) ->
  Forall keyed (tx_vout tx) -> length (tx_extra tx) <= CRYPTONOTE_MAX_TX_SIZE ->
  exists pruned, prune_transaction_blob blob = Some pruned /\ parse_binary serialize_base pruned = Some (base_of tx).
Proof. apply prune_parse. Qed.

Lemma summary_witness_hyps :
  bytes sample_v2_blob /\ parse_binary c_transaction sample_v2_blob = Some sample_v2 /\ (tx_version sample_v2 <> 1 -> tx_vin sample_v2 <> []) /\
  Forall keyed (tx_vout sample_v2) /\ length (tx_extra sample_v2) <= CRYPTONOTE_MAX_TX_SIZE.
Proof. split_and!; [exact sample_v2_bytes|exact sample_v2_parses|done|by repeat constructor|by vm_compute]. Qed.


Lemma prune_blob_correct_witness :
  exists pruned, prune_transaction_blob sample_v2_blob = Some pruned /\ parse_binary serialize_base pruned = Some (base_of sample_v2).
Proof. destruct summary_witness_hyps as (H1 & H2 & H3 & H4 & H5). exact (prune_blob_correct sample_v2_blob sample_v2 H1 H2 H3 H4 H5). Defined.
