(* ===== verification/TxExtra.v ===== *)
(** * TxExtra: the extra field of transactions

    Models src/cryptonote_basic/tx_extra.h and the functions of
    src/cryptonote_basic/cryptonote_format_utils.cpp that read, sort, extend and
    strip the extra field: [parse_tx_extra], [sort_tx_extra],
    [remove_field_from_tx_extra], the [add_*_to_tx_extra] and
    [get_*_from_extra] functions and the payment id helpers. *)
From stdpp Require Import sets.
From S2P Require Import Prelude Varint Archive TxFormat.
#[local] Arguments put : simpl never.
#[local] Arguments get : simpl never.

(** ** Definitions *)

Definition TX_EXTRA_PADDING_MAX_COUNT : Z := 255.
Definition TX_EXTRA_NONCE_MAX_COUNT : Z := 255.
Definition TX_EXTRA_TAG_PADDING : Z := 0x00.
Definition TX_EXTRA_TAG_PUBKEY : Z := 0x01.
Definition TX_EXTRA_NONCE : Z := 0x02.
Definition TX_EXTRA_MERGE_MINING_TAG : Z := 0x03.
Definition TX_EXTRA_TAG_ADDITIONAL_PUBKEYS : Z := 0x04.
Definition TX_EXTRA_MYSTERIOUS_MINERGATE_TAG : Z := 0xDE.
Definition TX_EXTRA_NONCE_PAYMENT_ID : Z := 0x00.
Definition TX_EXTRA_NONCE_ENCRYPTED_PAYMENT_ID : Z := 0x01.

Inductive tx_extra_field :=
  | tx_extra_padding (size : Z)
  | tx_extra_pub_key (pub_key : list Z)
  | tx_extra_nonce (nonce : list Z)
  | tx_extra_merge_mining_tag (depth : Z) (merkle_root : list Z)
  | tx_extra_additional_pub_keys (data : list (list Z))
  | tx_extra_mysterious_minergate (data : list Z).

#[global] Instance tx_extra_field_eq_dec : EqDecision tx_extra_field.
Proof. solve_decision. Defined.

(** *** Serialization *)

(** The loading loop, [n] the iterations left: zeros up to the end of the input. *)
Fixpoint load_padding (n : nat) (size : Z) (input : list Z) : option (Z * list Z) :=
  match n with
  | O => None
  | S n' =>
      match input with
      | [] => Some (size, [])
      | zero :: r => if zero =? 0 then load_padding n' (size + 1) r else None
      end
  end.

Definition c_padding : codec Z := mk_codec
  (fun size => if TX_EXTRA_PADDING_MAX_COUNT <? size then None else Some (replicate (Z.to_nat (size - 1)) 0))
  (load_padding (Z.to_nat TX_EXTRA_PADDING_MAX_COUNT) 1).

Definition c_nonce : codec (list Z) := c_check (fun nonce => negb (TX_EXTRA_NONCE_MAX_COUNT <? length nonce)) do_serialize_string.

(** Depth and root are serialized into a string of their own. *)
Definition c_mm_helper : codec (Z * list Z) := c_seq (serialize_varint 64) c_key.
Definition c_merge_mining_tag : codec (Z * list Z) := mk_codec
  (fun mm => field ← put c_mm_helper mm; put do_serialize_string field)
  (fun input => '(field, r) ← get do_serialize_string input; mm ← parse_binary c_mm_helper field; Some (mm, r)).

Definition extra_tag (f : tx_extra_field) : Z :=
  match f with
  | tx_extra_padding _ => TX_EXTRA_TAG_PADDING
  | tx_extra_pub_key _ => TX_EXTRA_TAG_PUBKEY
  | tx_extra_nonce _ => TX_EXTRA_NONCE
  | tx_extra_merge_mining_tag _ _ => TX_EXTRA_MERGE_MINING_TAG
  | tx_extra_additional_pub_keys _ => TX_EXTRA_TAG_ADDITIONAL_PUBKEYS
  | tx_extra_mysterious_minergate _ => TX_EXTRA_MYSTERIOUS_MINERGATE_TAG
  end.

(** The alternatives that say themselves where they end. *)
Definition closed_alts : list (Z * codec tx_extra_field) :=
  [(TX_EXTRA_TAG_PUBKEY, c_alt tx_extra_pub_key (fun f => match f with tx_extra_pub_key k => Some k | _ => None end) c_key);
   (TX_EXTRA_NONCE, c_alt tx_extra_nonce (fun f => match f with tx_extra_nonce n => Some n | _ => None end) c_nonce);
   (TX_EXTRA_MERGE_MINING_TAG, c_alt (fun '(d, r) => tx_extra_merge_mining_tag d r)
      (fun f => match f with tx_extra_merge_mining_tag d r => Some (d, r) | _ => None end) c_merge_mining_tag);
   (TX_EXTRA_TAG_ADDITIONAL_PUBKEYS, c_alt tx_extra_additional_pub_keys
      (fun f => match f with tx_extra_additional_pub_keys l => Some l | _ => None end) (c_list c_key));
   (TX_EXTRA_MYSTERIOUS_MINERGATE_TAG, c_alt tx_extra_mysterious_minergate
      (fun f => match f with tx_extra_mysterious_minergate d => Some d | _ => None end) do_serialize_string)].

Definition c_tx_extra_field : codec tx_extra_field := c_variant extra_tag
  ((TX_EXTRA_TAG_PADDING, c_alt tx_extra_padding (fun f => match f with tx_extra_padding s => Some s | _ => None end) c_padding) :: closed_alts).

(** *** Reading *)

(** The loop shared by the functions below: whether all was read, the fields read
    and what is left from the start of the first bad field.  Each field takes at
    least its tag, so the number of bytes bounds the number of rounds. *)
Fixpoint read_fields (fuel : nat) (input : list Z) : bool * list tx_extra_field * list Z :=
  match fuel with
  | O => (false, [], input)
  | S fuel' =>
      match get c_tx_extra_field input with
      | None => (false, [], input)
      | Some (f, []) => (true, [f], [])
      | Some (f, r) => let '(ok, fs, rest) := read_fields fuel' r in (ok, f :: fs, rest)
      end
  end.

(** The fields before a bad one are left in the output. *)
Definition parse_tx_extra (tx_extra : list Z) : bool * list tx_extra_field :=
  match tx_extra with
  | [] => (true, [])
  | _ => let '(ok, fs, _) := read_fields (length tx_extra) tx_extra in (ok, fs)
  end.

(** The [index]-th field that [select] accepts. *)
Definition find_tx_extra_field_by_type {T} (select : tx_extra_field -> option T) (fields : list tx_extra_field) (index : nat) : option T :=
  omap select fields !! index.

Definition as_pub_key (f : tx_extra_field) : option (list Z) := match f with tx_extra_pub_key k => Some k | _ => None end.
Definition as_nonce (f : tx_extra_field) : option (list Z) := match f with tx_extra_nonce n => Some n | _ => None end.
Definition as_additional (f : tx_extra_field) : option (list (list Z)) := match f with tx_extra_additional_pub_keys l => Some l | _ => None end.

Definition null_pkey : list Z := replicate 32 0.

Definition get_tx_pub_key_from_extra (tx_extra : list Z) (pk_index : nat) : list Z :=
  default null_pkey (find_tx_extra_field_by_type as_pub_key (parse_tx_extra tx_extra).2 pk_index).

Definition get_additional_tx_pub_keys_from_extra (tx_extra : list Z) : list (list Z) :=
  default [] (find_tx_extra_field_by_type as_additional (parse_tx_extra tx_extra).2 0).

(** *** Sorting *)

(** One type at a time: find, write, erase; [fuel] bounds the number of fields. *)
Fixpoint pick (fuel : nat) (tag : Z) (fields : list tx_extra_field) (out : list Z) : option (list tx_extra_field * list Z) :=
  match list_find (fun f => extra_tag f = tag) fields with
  | None => Some (fields, out)
  | Some (i, f) =>
      match fuel with
      | O => None
      | S fuel' => b ← put c_tx_extra_field f; pick fuel' tag (delete i fields) (out ++ b)
      end
  end.

Definition sort_order : list Z :=
  [TX_EXTRA_TAG_PUBKEY; TX_EXTRA_TAG_ADDITIONAL_PUBKEYS; TX_EXTRA_NONCE; TX_EXTRA_MERGE_MINING_TAG; TX_EXTRA_MYSTERIOUS_MINERGATE_TAG; TX_EXTRA_TAG_PADDING].

Fixpoint pick_all (order : list Z) (fields : list tx_extra_field) (out : list Z) : option (list tx_extra_field * list Z) :=
  match order with
  | [] => Some (fields, out)
  | tag :: order => '(fields, out) ← pick (length fields) tag fields out; pick_all order fields out
  end.

Definition sort_tx_extra (tx_extra : list Z) (allow_partial : bool) : option (list Z) :=
  match tx_extra with
  | [] => Some []
  | _ =>
      let '(ok, fields, rest) := read_fields (length tx_extra) tx_extra in
      if negb ok && negb allow_partial then None
      else
        '(fields, out) ← pick_all sort_order fields [];
        match fields with
        | [] => Some (if allow_partial then out ++ rest else out)
        | _ => None
        end
  end.

(** *** Changing *)

(** Fields of one type are left out; [None] is a [false] return. *)
Definition remove_field_from_tx_extra (tx_extra : list Z) (tag : Z) : option (list Z) :=
  match tx_extra with
  | [] => Some []
  | _ =>
      let '(ok, fields, _) := read_fields (length tx_extra) tx_extra in
      if negb ok then None
      else Some (concat (map (fun f => default [] (put c_tx_extra_field f)) (filter (fun f => extra_tag f <> tag) fields)))
  end.

(** [memcpy] and element assignment into a vector of bytes. *)
Definition overwrite (v : list Z) (pos : nat) (data : list Z) : list Z := take pos v ++ data ++ drop (pos + length data) v.
Definition resize (v : list Z) (n : nat) : list Z := take n v ++ replicate (n - length v) 0.

Definition add_tx_pub_key_to_extra (tx_extra tx_pub_key : list Z) : list Z :=
  let v := resize tx_extra (length tx_extra + 1 + 32) in
  let v := overwrite v (length v - 1 - 32) [TX_EXTRA_TAG_PUBKEY] in
  overwrite v (length v - 32) tx_pub_key.

Definition add_additional_tx_pub_keys_to_extra (tx_extra : list Z) (additional_pub_keys : list (list Z)) : option (list Z) :=
  tx_extra_str ← put c_tx_extra_field (tx_extra_additional_pub_keys additional_pub_keys);
  let pos := length tx_extra in
  Some (overwrite (resize tx_extra (length tx_extra + length tx_extra_str)) pos tx_extra_str).

Definition add_extra_nonce_to_tx_extra (tx_extra extra_nonce : list Z) : option (list Z) :=
  if negb (length extra_nonce <=? TX_EXTRA_NONCE_MAX_COUNT) then None
  else
    let start_pos := length tx_extra in
    let len_varint_bytes := Z.to_nat (get_varint_byte_size (length extra_nonce)) in
    let v := resize tx_extra (length tx_extra + 1 + len_varint_bytes + length extra_nonce) in
    let v := overwrite v start_pos [TX_EXTRA_NONCE] in
    let start_pos := (start_pos + 1)%nat in
    let v := overwrite v start_pos (write_varint (length extra_nonce)) in
    Some (overwrite v (start_pos + len_varint_bytes) extra_nonce).

Definition max_varint_size : nat := 16.

Definition add_mm_merkle_root_to_tx_extra (tx_extra mm_merkle_root : list Z) (mm_merkle_tree_depth : Z) : list Z :=
  let start_pos := length tx_extra in
  let v := resize tx_extra (length tx_extra + 2 + 32 + max_varint_size) in
  let v := overwrite v start_pos [TX_EXTRA_MERGE_MINING_TAG] in
  let len_bytes := (start_pos + 1)%nat in
  let v := overwrite v len_bytes [0] in
  let start_pos := (len_bytes + 1)%nat in
  let depth := write_varint mm_merkle_tree_depth in
  let v := overwrite v start_pos depth in
  let varint_size := length depth in
  let v := overwrite v (start_pos + varint_size) mm_merkle_root in
  let v := resize v (length v - (max_varint_size - varint_size)) in
  overwrite v len_bytes [u8 (32 + varint_size)].

(** *** Payment ids *)

Definition set_payment_id_to_tx_extra_nonce (payment_id : list Z) : list Z := TX_EXTRA_NONCE_PAYMENT_ID :: payment_id.
Definition set_encrypted_payment_id_to_tx_extra_nonce (payment_id : list Z) : list Z := TX_EXTRA_NONCE_ENCRYPTED_PAYMENT_ID :: payment_id.

Definition get_payment_id_from_tx_extra_nonce (extra_nonce : list Z) : option (list Z) :=
  match extra_nonce with
  | t :: payment_id => if negb (32 + 1 =? length extra_nonce) then None else if negb (TX_EXTRA_NONCE_PAYMENT_ID =? t) then None else Some payment_id
  | [] => None
  end.

Definition get_encrypted_payment_id_from_tx_extra_nonce (extra_nonce : list Z) : option (list Z) :=
  match extra_nonce with
  | t :: payment_id => if negb (8 + 1 =? length extra_nonce) then None else if negb (TX_EXTRA_NONCE_ENCRYPTED_PAYMENT_ID =? t) then None else Some payment_id
  | [] => None
  end.

(** ** Well-formed fields *)

Definition closed_ok (f : tx_extra_field) : Prop :=
  match f with
  | tx_extra_padding _ => False
  | tx_extra_pub_key k => key_ok k
  | tx_extra_nonce n => string_ok n /\ length n <= TX_EXTRA_NONCE_MAX_COUNT
  | tx_extra_merge_mining_tag d r => is_u64 d /\ key_ok r
  | tx_extra_additional_pub_keys l => Forall key_ok l /\ is_u64 (length l)
  | tx_extra_mysterious_minergate d => string_ok d
  end.

Definition field_ok (f : tx_extra_field) : Prop :=
  match f with tx_extra_padding size => 1 <= size <= TX_EXTRA_PADDING_MAX_COUNT | _ => closed_ok f end.

(** Fields that cannot be the last of an input cut short. *)
Definition field_tight (f : tx_extra_field) : Prop :=
  match f with
  | tx_extra_nonce n => n <> []
  | tx_extra_additional_pub_keys l => l <> []
  | tx_extra_mysterious_minergate d => d <> []
  | _ => True
  end.

(** What a vector of fields is written as. *)
Definition extra_blob (fs : list tx_extra_field) : list Z := default [] (put_all c_tx_extra_field fs).

(** Closed fields, then at most one padding. *)
Inductive fields_ok : list tx_extra_field -> Prop :=
  | fields_ok_nil : fields_ok []
  | fields_ok_padding size : 1 <= size <= TX_EXTRA_PADDING_MAX_COUNT -> fields_ok [tx_extra_padding size]
  | fields_ok_cons f fs : closed_ok f -> fields_ok fs -> fields_ok (f :: fs).

(** ** Lemmas *)

Definition c_closed : codec tx_extra_field := c_variant extra_tag closed_alts.

#[local] Instance lawful_nonce : Lawful (fun n => string_ok n /\ length n <= TX_EXTRA_NONCE_MAX_COUNT) 1 (fun n => n <> []) c_nonce.
Proof.
  eapply lawful_mono; [eapply lawful_check, lawful_string| |done|done]. intros n. cbn. rewrite negb_true_iff, Z.ltb_ge. done.
Qed.

#[local] Instance lawful_mm_helper : Lawful (fun p => is_u64 p.1 /\ key_ok p.2) 33 (fun _ => True) c_mm_helper.
Proof. eapply lawful_mono; [apply _|done|done|]. cbn. intros a _ _. split; [done|]. right. lia. Qed.

#[local] Instance lawful_mm : Lawful (fun p => is_u64 p.1 /\ key_ok p.2) 1 (fun _ => True) c_merge_mining_tag.
Proof.
  assert (Hstr : forall p bs, is_u64 p.1 /\ key_ok p.2 -> put c_mm_helper p = Some bs -> string_ok bs).
  { intros [d r] bs Hp E. destruct (law_put (d, r) Hp) as (bs' & E' & Hb & _). assert (bs' = bs) as -> by congruence. split; [done|].
    change (put c_mm_helper (d, r)) with (Some (write_varint d ++ r)) in E. apply (inj Some) in E. subst bs. destruct Hp as [Hd [_ Hr]]. cbn in Hd, Hr. rewrite length_app, Hr.
    pose proof (length_write_varint_max d Hd). unfold is_uint. lia. }
  split.
  - intros p Hp. destruct (law_put p Hp) as (bs & E & Hb & Hl). unfold put at 1. cbn [c_merge_mining_tag]. rewrite E. cbn [mbind option_bind].
    apply law_put. by eapply Hstr.
  - intros p bs rest Hp E. unfold put in E at 1. cbn [c_merge_mining_tag] in E. destruct (put c_mm_helper p) as [f|] eqn:Ef; [|done]. cbn [mbind option_bind] in E.
    unfold get at 1. cbn [c_merge_mining_tag]. rewrite (law_get_put f bs rest (Hstr _ _ Hp Ef) E). cbn [mbind option_bind].
    pose proof (law_get_put p f [] Hp Ef) as G. rewrite app_nil_r in G. unfold parse_binary. by rewrite G.
  - intros input p rest Hi E. unfold get in E at 1. cbn [c_merge_mining_tag] in E. destruct (get do_serialize_string input) as [[f r]|] eqn:E1; [|done]. cbn [mbind option_bind] in E.
    destruct (parse_binary c_mm_helper f) as [q|] eqn:E2; [|done]. cbn in E. simplify_eq.
    destruct (law_get _ _ _ Hi E1) as ([Hf Hu] & u & -> & H). destruct (parse_binary_inv _ _ _ c_mm_helper f p Hf E2) as [Hp Hd].
    split; [done|]. exists u. split; [done|]. intros _. unfold put at 1. cbn [c_merge_mining_tag]. specialize (Hd I). unfold dump_binary in Hd.
    rewrite Hd. cbn [mbind option_bind]. apply H. left. intros ->. unfold parse_binary in E2. by rewrite (law_empty (c := c_mm_helper)) in E2 by lia.
  - done.
Qed.

#[local] Instance lawful_keys_list : Lawful (fun l => Forall key_ok l /\ is_u64 (length l)) 1 (fun l => l <> []) (c_list c_key).
Proof. eapply lawful_mono; [apply (lawful_c_list key_ok 31 (fun _ => True) c_key _)|done|done|]. intros l _ H. split; [done|]. by apply Forall_true. Qed.

#[local] Instance lawful_closed : Lawful closed_ok 2 field_tight c_closed.
Proof.
  apply lawful_variant; [|by intros []].
  repeat (apply Forall_cons; split); [alt_case..|apply Forall_nil_2].
Qed.

Lemma put_closed f : closed_ok f -> put c_tx_extra_field f = put c_closed f.
Proof. by destruct f. Qed.

Lemma get_c_variant {A} (tag_of : A -> Z) alts t r : get (c_variant tag_of alts) (t :: r) = c ← variant_find alts t; get c r.
Proof. unfold get at 1. cbn [c_variant]. change (get (serialize_uint 1) (t :: r)) with (Some (t + 256 * 0, r)). by rewrite Z.mul_0_r, Z.add_0_r. Qed.

Lemma get_closed t r : t <> 0 -> get c_tx_extra_field (t :: r) = get c_closed (t :: r).
Proof.
  intros Ht. unfold c_tx_extra_field, c_closed. rewrite !get_c_variant. cbn [variant_find]. by rewrite (proj2 (Z.eqb_neq TX_EXTRA_TAG_PADDING t)).
Qed.

Lemma get_padding r : get c_tx_extra_field (0 :: r) = '(s, r') ← load_padding 255 1 r; Some (tx_extra_padding s, r').
Proof. done. Qed.

Lemma load_padding_replicate k : forall n size, (k < n)%nat -> load_padding n size (replicate k 0) = Some (size + k, []).
Proof.
  induction k as [|k IH]; intros [|n] size Hn; try lia; cbn [load_padding replicate]; [f_equal; f_equal; lia|].
  rewrite Z.eqb_refl, IH by lia. f_equal. f_equal. lia.
Qed.

Lemma load_padding_inv n : forall size input s r, load_padding n size input = Some (s, r) ->
  r = [] /\ exists k, (k < n)%nat /\ s = size + Z.of_nat k /\ input = replicate k 0.
Proof.
  induction n as [|n IH]; intros size [|z input] s r E; cbn in E; try done.
  - simplify_eq. split; [done|]. exists 0%nat. split_and!; [lia|lia|done].
  - destruct (Z.eqb_spec z 0) as [->|]; [|done]. apply IH in E as (-> & k & Hk & -> & ->). split; [done|]. exists (S k). split_and!; [lia|lia|done].
Qed.

(** A padding, alone in the rest of the input. *)
Lemma put_padding size : 1 <= size <= TX_EXTRA_PADDING_MAX_COUNT -> put c_tx_extra_field (tx_extra_padding size) = Some (replicate (Z.to_nat size) 0).
Proof.
  unfold TX_EXTRA_PADDING_MAX_COUNT. intros H. unfold put at 1. cbn [c_tx_extra_field c_variant extra_tag variant_find]. change (TX_EXTRA_TAG_PADDING =? TX_EXTRA_TAG_PADDING) with true.
  cbn [mbind option_bind]. change (put (serialize_uint 1) TX_EXTRA_TAG_PADDING) with (Some [0]). cbn [mbind option_bind]. unfold put at 1. cbn [c_alt mbind option_bind].
  unfold put at 1. cbn [c_padding]. unfold TX_EXTRA_PADDING_MAX_COUNT. bfalse (255 <? size). cbn [mbind option_bind app]. f_equal.
  replace (Z.to_nat size) with (S (Z.to_nat (size - 1))) by lia. done.
Qed.

Lemma get_put_padding size : 1 <= size <= TX_EXTRA_PADDING_MAX_COUNT -> get c_tx_extra_field (replicate (Z.to_nat size) 0) = Some (tx_extra_padding size, []).
Proof.
  unfold TX_EXTRA_PADDING_MAX_COUNT. intros H. replace (Z.to_nat size) with (S (Z.to_nat (size - 1))) by lia. cbn [replicate]. rewrite get_padding, load_padding_replicate by lia.
  cbn [mbind option_bind]. do 3 f_equal. lia.
Qed.

(** *** The reading loop *)

Lemma get_field_inv input f r :
  bytes input -> get c_tx_extra_field input = Some (f, r) ->
  (closed_ok f /\ exists u, input = u ++ r /\ u <> [] /\ (field_tight f \/ r <> [] -> put c_tx_extra_field f = Some u)) \/
  (exists size, f = tx_extra_padding size /\ 1 <= size <= TX_EXTRA_PADDING_MAX_COUNT /\ r = [] /\ input = replicate (Z.to_nat size) 0).
Proof.
  intros Hb E. destruct input as [|t input]; [done|]. destruct (Z.eq_dec t 0) as [->|Ht].
  - right. rewrite get_padding in E. destruct (load_padding 255 1 input) as [[s r']|] eqn:El; [|done]. cbn in E. simplify_eq.
    apply load_padding_inv in El as (-> & k & Hk & -> & ->). exists (1 + k). unfold TX_EXTRA_PADDING_MAX_COUNT. split_and!; [done|lia|lia|done|].
    by replace (Z.to_nat (1 + k)) with (S k) by lia.
  - left. rewrite get_closed in E by done. destruct (law_get _ _ _ Hb E) as (Hf & u & Eu & H). split; [done|]. exists u. split; [done|].
    rewrite put_closed by done. split; [|done]. intros ->. cbn in Eu. subst r. pose proof (law_put f Hf) as (b & Ep & _ & Hl).
    assert (E0 : put c_closed f = Some []) by (apply H; by right). rewrite Ep in E0. simplify_eq. cbn in Hl. lia.
Qed.

Lemma get_put_closed f b rest : closed_ok f -> put c_tx_extra_field f = Some b -> get c_tx_extra_field (b ++ rest) = Some (f, rest).
Proof.
  intros Hf. rewrite put_closed by done. intros E. pose proof (law_get_put f b rest Hf E) as G.
  destruct b as [|t b]; [destruct (law_put f Hf) as (b' & E' & _ & Hl); assert (b' = []) as -> by congruence; cbn in Hl; lia|].
  cbn [app] in *. rewrite get_closed; [done|]. intros ->. unfold c_closed in G. by rewrite get_c_variant in G.
Qed.

Lemma put_field_some f : field_ok f -> exists b, put c_tx_extra_field f = Some b /\ bytes b /\ b <> [].
Proof.
  intros Hf. destruct f as [size| | | | |]; [rewrite put_padding by done; eexists; split; [done|]|..].
  1: { split; [apply Forall_replicate; unfold is_uint; lia|]. cbn in Hf. replace (Z.to_nat size) with (S (Z.to_nat (size - 1))) by lia. done. }
  all: rewrite put_closed by done; destruct (law_put (ok := closed_ok) (c := c_closed) _ Hf) as (b & E & Hb & Hl); exists b; split_and!; [done..|]; intros ->; cbn in Hl; lia.
Qed.

Lemma read_fuel n : forall m input, bytes input -> (length input <= n)%nat -> (length input <= m)%nat -> read_fields n input = read_fields m input.
Proof.
  induction n as [|n IH]; intros m input Hb Hn Hm; [destruct input; [|cbn in Hn; lia]; by destruct m|].
  destruct m as [|m]; [destruct input; [|cbn in Hm; lia]; done|]. cbn [read_fields].
  destruct (get c_tx_extra_field input) as [[f r]|] eqn:E; [|done]. destruct r as [|z r]; [done|].
  destruct (get_field_inv _ _ _ Hb E) as [(_ & u & -> & Hu & _)|(? & _ & _ & ? & _)]; [|done].
  apply bytes_app in Hb as [_ Hr]. rewrite length_app in Hn, Hm. destruct u; [done|]. cbn [length] in Hn, Hm. rewrite (IH m); [done..|cbn [length]; lia|cbn [length]; lia].
Qed.

(** All that can be read from an input. *)
Definition read_all (input : list Z) : bool * list tx_extra_field * list Z := read_fields (length input) input.

Lemma read_all_step input f r : bytes input -> get c_tx_extra_field input = Some (f, r) -> r <> [] ->
  read_all input = let '(ok, fs, rest) := read_all r in (ok, f :: fs, rest).
Proof.
  intros Hb E Hr. unfold read_all. destruct (get_field_inv _ _ _ Hb E) as [(_ & u & -> & Hu & _)|(? & _ & _ & ? & _)]; [|done].
  destruct u as [|z u]; [done|]. cbn [app length read_fields]. cbn [app] in E. rewrite E. destruct r as [|y r]; [done|].
  apply bytes_app in Hb as [_ Hb]. rewrite (read_fuel (length (u ++ y :: r)) (length (y :: r))); [done|done|rewrite length_app; lia|done].
Qed.

Lemma read_all_last input f : input <> [] -> get c_tx_extra_field input = Some (f, []) -> read_all input = (true, [f], []).
Proof. intros Hi E. unfold read_all. destruct input; [done|]. cbn [length read_fields]. by rewrite E. Qed.

Lemma read_all_bad input : get c_tx_extra_field input = None -> read_all input = (false, [], input).
Proof. intros E. unfold read_all. destruct input; [done|]. cbn [length read_fields]. by rewrite E. Qed.

Lemma extra_blob_cons f fs b : put c_tx_extra_field f = Some b -> Forall field_ok fs -> extra_blob (f :: fs) = b ++ extra_blob fs.
Proof.
  intros E HF. unfold extra_blob. cbn [put_all]. rewrite E. cbn [mbind option_bind].
  assert (exists bs, put_all c_tx_extra_field fs = Some bs) as [bs ->]; [|done].
  clear E. induction HF as [|g gs Hg _ [bs IH]]; [by eexists|]. cbn [put_all]. destruct (put_field_some g Hg) as (b' & -> & _). cbn. rewrite IH. by eexists.
Qed.

Lemma closed_field f : closed_ok f -> field_ok f.
Proof. by destruct f. Qed.

Lemma fields_ok_field fs : fields_ok fs -> Forall field_ok fs.
Proof. induction 1; [constructor|by apply Forall_singleton|constructor; auto using closed_field]. Qed.

Lemma extra_blob_bytes fs : Forall field_ok fs -> bytes (extra_blob fs) /\ (fs <> [] -> extra_blob fs <> []).
Proof.
  induction 1 as [|f fs Hf HF [IH _]]; [split; [constructor|done]|]. destruct (put_field_some f Hf) as (b & E & Hb & Hne).
  rewrite (extra_blob_cons _ _ _ E HF). split; [by apply bytes_app|]. by destruct b.
Qed.

Lemma read_all_app fs rest : Forall closed_ok fs -> bytes rest -> rest <> [] ->
  read_all (extra_blob fs ++ rest) = let '(ok, gs, r) := read_all rest in (ok, fs ++ gs, r).
Proof.
  intros HF Hb Hne. induction HF as [|f fs Hf HF IH]; [change (extra_blob [] ++ rest) with rest; by destruct (read_all rest) as [[? ?] ?]|].
  assert (HF' : Forall field_ok fs) by (eapply Forall_impl; [exact HF|apply closed_field]).
  destruct (put_field_some f (closed_field _ Hf)) as (b & E & Hbb & _). rewrite (extra_blob_cons _ _ _ E HF'), <- app_assoc.
  pose proof (extra_blob_bytes fs HF') as [Hbf _].
  rewrite (read_all_step _ f (extra_blob fs ++ rest)); [|by rewrite !bytes_app|by apply get_put_closed|by intros [_ ?]%app_nil].
  rewrite IH. by destruct (read_all rest) as [[? ?] ?].
Qed.

Lemma extra_blob_app fs gs : Forall field_ok fs -> Forall field_ok gs -> extra_blob (fs ++ gs) = extra_blob fs ++ extra_blob gs.
Proof.
  intros HF HG. induction HF as [|f fs Hf HF IH]; [done|]. cbn [app]. destruct (put_field_some f Hf) as (b & E & _).
  rewrite (extra_blob_cons _ _ _ E (Forall_app_2 _ _ _ HF HG)), (extra_blob_cons _ _ _ E HF), IH. by rewrite app_assoc.
Qed.

Lemma fields_ok_split fs : fields_ok fs -> Forall closed_ok fs \/ exists gs size, fs = gs ++ [tx_extra_padding size] /\ Forall closed_ok gs /\ 1 <= size <= TX_EXTRA_PADDING_MAX_COUNT.
Proof.
  induction 1 as [|size Hs|f fs Hf _ [IH|(gs & size & -> & HG & Hs)]]; [by left|right; by exists [], size|left; by constructor|].
  right. exists (f :: gs), size. split_and!; [done|by constructor|lia..].
Qed.

Lemma fields_ok_closed fs : Forall closed_ok fs -> fields_ok fs.
Proof. induction 1; by constructor. Qed.

Lemma fields_ok_app fs gs : Forall closed_ok fs -> fields_ok gs -> fields_ok (fs ++ gs).
Proof. induction 1; intros; [done|]. cbn. constructor; auto. Qed.

Lemma closed_fields fs : Forall closed_ok fs -> Forall field_ok fs.
Proof. intros H. eapply Forall_impl; [exact H|apply closed_field]. Qed.
#[local] Hint Resolve closed_fields closed_field fields_ok_closed fields_ok_field : core.

Lemma read_blob fs : fields_ok fs -> fs <> [] -> read_all (extra_blob fs) = (true, fs, []).
Proof.
  intros Hok Hne. assert (exists gs f, fs = gs ++ [f] /\ Forall closed_ok gs /\ field_ok f) as (gs & f & -> & HG & Hf).
  { destruct (fields_ok_split fs Hok) as [HF|(gs & size & -> & HG & Hs)]; [|by exists gs, (tx_extra_padding size)].
    destruct fs as [|f fs _] using rev_ind; [done|]. apply Forall_app in HF as [HF [Hf _]%Forall_cons]. exists fs, f. auto. }
  rewrite extra_blob_app by (auto; by apply Forall_singleton). destruct (put_field_some f Hf) as (b & E & Hb & Hbne).
  rewrite (extra_blob_cons f [] b E) by constructor. change (extra_blob []) with (@nil Z). rewrite app_nil_r, read_all_app by done.
  rewrite (read_all_last b f); [done|done|]. destruct f as [size| | | | |]; [rewrite put_padding in E by done; simplify_eq; by apply get_put_padding|..].
  all: rewrite <- (app_nil_r b); by apply get_put_closed.
Qed.

Lemma parse_blob fs : fields_ok fs -> parse_tx_extra (extra_blob fs) = (true, fs).
Proof.
  intros Hok. destruct fs as [|f fs]; [done|]. unfold parse_tx_extra. pose proof (read_blob _ Hok ltac:(done)) as E. unfold read_all in E.
  destruct (extra_blob (f :: fs)) eqn:Eb; [|by rewrite E]. by apply extra_blob_bytes in Eb; auto.
Qed.

(** What reading an input leaves: all of it read, or the input from a bad field on. *)
Lemma read_all_inv input ok fs rest :
  bytes input -> input <> [] -> read_all input = (ok, fs, rest) ->
  fields_ok fs /\ if ok then rest = [] /\ fs <> [] else rest <> [] /\ bytes rest /\ get c_tx_extra_field rest = None /\ Forall closed_ok fs /\ input = extra_blob fs ++ rest.
Proof.
  remember (length input) as n eqn:En. revert input En ok fs rest. induction (lt_wf n) as [n _ IH]. intros input -> ok fs rest Hb Hne.
  destruct (get c_tx_extra_field input) as [[f r]|] eqn:E; [|rewrite read_all_bad by done; intros [= <- <- <-]; split; [constructor|by split_and!]].
  destruct (get_field_inv _ _ _ Hb E) as [(Hf & u & Eu & Hu & Hput)|(size & -> & Hs & -> & _)];
    [|rewrite (read_all_last _ _ Hne E); intros [= <- <- <-]; split; [by constructor|done]].
  destruct r as [|z r]; [rewrite (read_all_last _ _ Hne E); intros [= <- <- <-]; split; [by repeat constructor|done]|].
  rewrite (read_all_step _ _ _ Hb E ltac:(done)). destruct (read_all (z :: r)) as [[ok' fs'] rest'] eqn:Er. intros [= <- <- <-].
  rewrite Eu in Hb. apply bytes_app in Hb as [_ Hr]. apply (IH (length (z :: r))) in Er as [Hok Hcase]; [|rewrite Eu, length_app; destruct u; [done|cbn; lia]|done..].
  split; [by constructor|]. destruct ok'; [split; [apply Hcase|done]|]. destruct Hcase as (H1 & H2 & H3 & H4 & H5). split_and!; [done..|by constructor|].
  rewrite Eu, H5, (extra_blob_cons f fs' u), app_assoc; auto.
Qed.

(** *** Sorting *)

Abbreviation of_tag t := (fun f => extra_tag f = t).

Lemma Forall_filter_ok (Q P : tx_extra_field -> Prop) `{!forall x, Decision (P x)} l : Forall Q l -> Forall Q (filter P l).
Proof. rewrite !Forall_forall. intros HQ x [_ ?]%list_elem_of_filter. auto. Qed.

Lemma pick_spec fuel tag : forall fields out,
  Forall field_ok fields -> (length (filter (of_tag tag) fields) <= fuel)%nat ->
  pick fuel tag fields out = Some (filter (fun f => ~ extra_tag f = tag) fields, out ++ extra_blob (filter (of_tag tag) fields)).
Proof.
  induction fuel as [|fuel IH]; intros fields out HF Hl; cbn [pick]; destruct (list_find _ fields) as [[i f]|] eqn:Ef.
  2, 4: apply list_find_None in Ef; rewrite (filter_none (of_tag tag)), filter_every by done; change (extra_blob []) with (@nil Z); by rewrite app_nil_r.
  all: apply list_find_Some in Ef as (Hi & Ht & Hbefore); apply list_elem_of_split_length in Hi as (l1 & l2 & -> & ->).
  all: assert (H1 : Forall (fun g => ~ extra_tag g = tag) l1).
  1, 3: apply Forall_lookup; intros j g Hj; apply (Hbefore j g); [by apply lookup_app_l_Some|by apply lookup_lt_Some in Hj].
  all: assert (E1 : filter (of_tag tag) (l1 ++ f :: l2) = f :: filter (of_tag tag) l2)
    by (rewrite filter_app, (filter_none (of_tag tag) l1 H1); by apply filter_cons_True).
  all: rewrite E1 in Hl |- *; cbn [length] in Hl.
  1: lia.
  apply Forall_app in HF as [HF1 [Hf HF2]%Forall_cons]. destruct (put_field_some f Hf) as (b & E & _). rewrite E. cbn [mbind option_bind].
  assert (E2 : filter (of_tag tag) (l1 ++ l2) = filter (of_tag tag) l2) by (by rewrite filter_app, (filter_none (of_tag tag) l1 H1)).
  rewrite delete_middle, IH, E2 by (rewrite ?E2; lia || by apply Forall_app_2). do 2 f_equal.
  - rewrite !filter_app. f_equal. symmetry. apply filter_cons_False. by intros ?.
  - rewrite (extra_blob_cons f _ b E) by (by apply Forall_filter_ok). by rewrite app_assoc.
Qed.

Lemma pick_all_spec order : NoDup order -> forall fields out,
  Forall field_ok fields ->
  pick_all order fields out =
    Some (filter (fun f => extra_tag f ∉ order) fields, out ++ extra_blob (concat (map (fun t => filter (of_tag t) fields) order))).
Proof.
  induction 1 as [|t order Ht _ IH]; intros fields out HF; cbn [pick_all map concat].
  { rewrite filter_every; [change (extra_blob []) with (@nil Z); by rewrite app_nil_r|]. apply Forall_true. intros x. apply not_elem_of_nil. }
  rewrite pick_spec by (done || apply length_filter). cbn [mbind option_bind]. rewrite IH by (by apply Forall_filter_ok).
  assert (E : forall o, t ∉ o -> map (fun t' => filter (of_tag t') (filter (fun f => ~ extra_tag f = t) fields)) o = map (fun t' => filter (of_tag t') fields) o).
  { intros o Ho. apply map_ext_in. intros t' Ht'%list_elem_of_In. rewrite list_filter_filter. apply list_filter_iff. intros f. set_solver. }
  rewrite E by done. rewrite <- app_assoc, <- extra_blob_app.
  - rewrite list_filter_filter. do 2 f_equal. apply list_filter_iff. intros f. set_solver.
  - by apply Forall_filter_ok.
  - apply Forall_concat, Forall_map, Forall_true. intros. by apply Forall_filter_ok.
Qed.

(** The fields, type by type, each type in the order of the input. *)
Definition sort_fields (fs : list tx_extra_field) : list tx_extra_field := concat (map (fun t => filter (of_tag t) fs) sort_order).

Lemma pick_all_sort fs : Forall field_ok fs -> pick_all sort_order fs [] = Some ([], extra_blob (sort_fields fs)).
Proof.
  intros HF. rewrite pick_all_spec; [|apply (bool_decide_unpack (NoDup sort_order)); by vm_compute|done]. do 2 f_equal.
  apply filter_none, Forall_true. intros f H. apply H. destruct f; cbn; set_solver.
Qed.

Lemma sort_order_nodup : NoDup sort_order.
Proof. apply (bool_decide_unpack (NoDup sort_order)). by vm_compute. Qed.

Lemma tag_in_order f : extra_tag f ∈ sort_order.
Proof. destruct f; cbn; set_solver. Qed.

Lemma filter_by_tag fs order t : NoDup order ->
  filter (of_tag t) (concat (map (fun t' => filter (of_tag t') fs) order)) = if decide (t ∈ order) then filter (of_tag t) fs else [].
Proof.
  induction 1 as [|t' order Ht' _ IH]; [done|]. cbn [map concat]. rewrite filter_app, IH, list_filter_filter. destruct (decide (t = t')) as [->|Hn].
  - rewrite decide_False, decide_True, app_nil_r by set_solver. apply list_filter_iff. naive_solver.
  - rewrite filter_none by (apply Forall_true; naive_solver). cbn [app]. destruct (decide (t ∈ order)); [rewrite decide_True|rewrite decide_False]; set_solver.
Qed.

Lemma sort_fields_idem fs : sort_fields (sort_fields fs) = sort_fields fs.
Proof.
  unfold sort_fields at 1 3. f_equal. apply map_ext_in. intros t Ht%list_elem_of_In. unfold sort_fields.
  by rewrite filter_by_tag, decide_True by (done || apply sort_order_nodup).
Qed.

Lemma group_perm fs order : NoDup order -> concat (map (fun t => filter (of_tag t) fs) order) ++ filter (fun f => extra_tag f ∉ order) fs ≡ₚ fs.
Proof.
  induction 1 as [|t order Ht _ IH]; [rewrite filter_every; [done|]; apply Forall_true; set_solver|]. cbn [map concat].
  etransitivity; [|exact IH]. rewrite (Permutation_app_comm (filter (of_tag t) fs)), <- app_assoc. f_equiv.
  rewrite <- (filter_app_complement (of_tag t) (filter (fun f => extra_tag f ∉ order) fs)), !list_filter_filter. f_equiv; [|].
  - apply reflexive_eq, list_filter_iff. set_solver.
  - apply reflexive_eq, list_filter_iff. set_solver.
Qed.

Lemma sort_fields_perm fs : sort_fields fs ≡ₚ fs.
Proof.
  etransitivity; [|apply (group_perm fs sort_order sort_order_nodup)]. rewrite (filter_none (fun f => extra_tag f ∉ sort_order)), app_nil_r; [done|].
  apply Forall_true. intros f H. apply H, tag_in_order.
Qed.

(** Looking for fields of one type gives the same before and after sorting. *)
Lemma omap_group {T} (sel : tx_extra_field -> option T) t fs order :
  (forall f, extra_tag f <> t -> sel f = None) -> NoDup order -> t ∈ order -> omap sel (concat (map (fun t' => filter (of_tag t') fs) order)) = omap sel fs.
Proof.
  intros Hsel Hnd Ht. assert (Hf : forall l : list tx_extra_field, omap sel l = omap sel (filter (of_tag t) l)).
  { induction l as [|f l IH]; [done|]. destruct (decide (extra_tag f = t)) as [E|Hn]; [rewrite filter_cons_True by done|rewrite filter_cons_False by done].
    - cbn. by rewrite IH.
    - cbn. by rewrite (Hsel f Hn). }
  rewrite Hf, filter_by_tag, decide_True by done. by rewrite <- Hf.
Qed.

Lemma omap_sort {T} (sel : tx_extra_field -> option T) t fs :
  (forall f, extra_tag f <> t -> sel f = None) -> t ∈ sort_order -> omap sel (sort_fields fs) = omap sel fs.
Proof. intros. apply (omap_group sel t); [done|apply sort_order_nodup|done]. Qed.

Lemma closed_tag f : closed_ok f -> extra_tag f <> TX_EXTRA_TAG_PADDING.
Proof. by destruct f. Qed.

Lemma Forall_group (Q : tx_extra_field -> Prop) fs order : Forall Q fs -> Forall Q (concat (map (fun t => filter (of_tag t) fs) order)).
Proof. intros H. apply Forall_concat, Forall_map, Forall_true. intros. by apply Forall_filter_ok. Qed.

Lemma sort_fields_ok fs : fields_ok fs -> fields_ok (sort_fields fs).
Proof.
  intros [HF|(gs & size & -> & HG & Hs)]%fields_ok_split; [apply fields_ok_closed; by apply Forall_group|].
  assert (E : sort_fields (gs ++ [tx_extra_padding size]) = sort_fields gs ++ [tx_extra_padding size]).
  { unfold sort_fields, sort_order. cbn [map concat]. rewrite !filter_app. rewrite (filter_none (of_tag TX_EXTRA_TAG_PADDING) gs).
    - rewrite !app_nil_r. repeat (rewrite (filter_cons_False _ (tx_extra_padding size)) by done). rewrite (filter_cons_True _ (tx_extra_padding size)) by done. by rewrite <- !app_assoc.
    - eapply Forall_impl; [exact HG|apply closed_tag]. }
  rewrite E. apply fields_ok_app; [by apply Forall_group|]. by constructor.
Qed.

(** Sorting an input that was read as [fs] and [rest]. *)
Lemma sort_read input ok fs rest ap :
  bytes input -> input <> [] -> read_all input = (ok, fs, rest) -> ok || ap = true ->
  sort_tx_extra input ap = Some (extra_blob (sort_fields fs) ++ rest) /\ parse_tx_extra (extra_blob (sort_fields fs) ++ rest) = (ok, sort_fields fs) /\
  (ok = false -> read_all (extra_blob (sort_fields fs) ++ rest) = (false, sort_fields fs, rest)).
Proof.
  intros Hb Hne Er Hap. destruct (read_all_inv _ _ _ _ Hb Hne Er) as [Hok Hcase].
  assert (Es : sort_tx_extra input ap = Some (extra_blob (sort_fields fs) ++ rest)).
  { unfold sort_tx_extra. destruct input as [|z input]; [done|]. unfold read_all in Er. rewrite Er, pick_all_sort by auto.
    destruct ok; [destruct Hcase as [-> _]; rewrite app_nil_r; destruct ap; cbn [negb andb mbind option_bind]; by rewrite ?app_nil_r|]. destruct ap; [done|done]. }
  split; [done|]. destruct ok.
  - destruct Hcase as [-> _]. rewrite app_nil_r. split; [apply parse_blob, sort_fields_ok, Hok|done].
  - destruct Hcase as (Hr & Hbr & Eg & HF & _).
    assert (E : read_all (extra_blob (sort_fields fs) ++ rest) = (false, sort_fields fs, rest)).
    { rewrite read_all_app, (read_all_bad rest Eg), app_nil_r by (done || by apply Forall_group). done. }
    split; [|done]. unfold parse_tx_extra. unfold read_all in E. destruct (extra_blob (sort_fields fs) ++ rest) eqn:Eb; [by apply app_nil in Eb as [_ ?]|]. by rewrite E.
Qed.

Lemma parse_read input : input <> [] -> parse_tx_extra input = ((read_all input).1.1, (read_all input).1.2).
Proof. intros Hne. unfold parse_tx_extra, read_all. destruct input; [done|]. by destruct (read_fields _ _) as [[? ?] ?]. Qed.

Lemma sort_correct extra ok fs :
  bytes extra -> parse_tx_extra extra = (ok, fs) ->
  exists s, sort_tx_extra extra true = Some s /\ sort_tx_extra extra false = (if ok then Some s else None) /\
    parse_tx_extra s = (ok, sort_fields fs) /\ sort_tx_extra s true = Some s.
Proof.
  intros Hb Ep. destruct (decide (extra = [])) as [->|Hne]; [injection Ep as <- <-; by exists []|].
  rewrite parse_read in Ep by done. destruct (read_all extra) as [[ok' fs'] rest] eqn:Er. cbn in Ep. simplify_eq.
  destruct (sort_read _ _ _ _ true Hb Hne Er (orb_true_r ok)) as (Es & Ep & Hr). exists (extra_blob (sort_fields fs) ++ rest). split; [done|].
  destruct (read_all_inv _ _ _ _ Hb Hne Er) as [Hok Hcase]. split.
  { destruct ok; [by destruct (sort_read _ _ _ _ false Hb Hne Er eq_refl) as (-> & _)|]. unfold sort_tx_extra. destruct extra; [done|].
    unfold read_all in Er. by rewrite Er. }
  split; [done|]. assert (Hbs : bytes (extra_blob (sort_fields fs))) by (apply extra_blob_bytes; auto using sort_fields_ok). destruct ok.
  - destruct Hcase as [-> Hfs]. rewrite app_nil_r in *. destruct (decide (sort_fields fs = [])) as [E|Hn]; [by rewrite E|].
    assert (Hsn : extra_blob (sort_fields fs) <> []) by (apply extra_blob_bytes; auto using sort_fields_ok).
    destruct (sort_read _ _ _ _ true Hbs Hsn (read_blob _ (sort_fields_ok _ Hok) Hn) eq_refl) as (-> & _). by rewrite sort_fields_idem, app_nil_r.
  - destruct Hcase as (Hrn & Hbr & _). destruct (sort_read (extra_blob (sort_fields fs) ++ rest) false (sort_fields fs) rest true) as (-> & _);
      [by apply bytes_app|by intros [_ ?]%app_nil|by apply Hr|done|]. by rewrite sort_fields_idem.
Qed.

(** *** Removing a type of fields *)

Lemma extra_blob_concat fs : Forall field_ok fs -> concat (map (fun f => default [] (put c_tx_extra_field f)) fs) = extra_blob fs.
Proof.
  induction 1 as [|f fs Hf HF IH]; [done|]. destruct (put_field_some f Hf) as (b & E & _). cbn [map concat]. rewrite (extra_blob_cons f fs b E HF), IH, E. done.
Qed.

Lemma fields_ok_filter (P : tx_extra_field -> Prop) `{!forall x, Decision (P x)} fs : fields_ok fs -> fields_ok (filter P fs).
Proof.
  induction 1 as [|size Hs|f fs Hf _ IH]; [constructor|..].
  - destruct (decide (P (tx_extra_padding size))); [rewrite filter_cons_True by done|rewrite filter_cons_False by done]; by constructor.
  - destruct (decide (P f)); [rewrite filter_cons_True by done; by constructor|by rewrite filter_cons_False by done].
Qed.

Lemma remove_correct extra tag ok fs :
  bytes extra -> parse_tx_extra extra = (ok, fs) ->
  if ok then exists e, remove_field_from_tx_extra extra tag = Some e /\ parse_tx_extra e = (true, filter (fun f => extra_tag f <> tag) fs)
  else remove_field_from_tx_extra extra tag = None.
Proof.
  intros Hb Ep. destruct (decide (extra = [])) as [->|Hne]; [injection Ep as <- <-; by exists []|].
  rewrite parse_read in Ep by done. destruct (read_all extra) as [[ok' fs'] rest] eqn:Er. cbn in Ep. simplify_eq.
  destruct (read_all_inv _ _ _ _ Hb Hne Er) as [Hok _]. unfold remove_field_from_tx_extra. destruct extra as [|z extra]; [done|]. unfold read_all in Er. rewrite Er.
  destruct ok; [|done]. cbn [negb]. rewrite extra_blob_concat by (auto using fields_ok_filter). eexists. split; [done|]. by apply parse_blob, fields_ok_filter.
Qed.

(** *** Adding fields *)

Lemma overwrite_app v data d' : length d' = length data -> overwrite (v ++ d') (length v) data = v ++ data.
Proof. intros E. unfold overwrite. rewrite take_app_length, drop_ge by (rewrite length_app; lia). by rewrite app_nil_r. Qed.

Lemma overwrite_mid v data d' w : length d' = length data -> overwrite (v ++ d' ++ w) (length v) data = v ++ data ++ w.
Proof.
  intros E. unfold overwrite. rewrite take_app_length. f_equal. f_equal. rewrite app_assoc, drop_app_length' by (rewrite length_app; lia). done.
Qed.

Lemma resize_grow v k : resize v (length v + k) = v ++ replicate k 0.
Proof. unfold resize. rewrite take_ge by lia. by replace (length v + k - length v)%nat with k by lia. Qed.

Lemma put_pub_key k : put c_tx_extra_field (tx_extra_pub_key k) = Some (TX_EXTRA_TAG_PUBKEY :: k).
Proof. done. Qed.

Lemma put_nonce n : length n <= TX_EXTRA_NONCE_MAX_COUNT -> put c_tx_extra_field (tx_extra_nonce n) = Some ([TX_EXTRA_NONCE] ++ write_varint (length n) ++ n).
Proof.
  intros H. change (put c_tx_extra_field (tx_extra_nonce n)) with (b ← put c_nonce n; Some ([TX_EXTRA_NONCE] ++ b)). unfold put at 1. cbn [c_nonce c_check].
  by bfalse (TX_EXTRA_NONCE_MAX_COUNT <? length n).
Qed.

Lemma put_merge_mining d r : put c_tx_extra_field (tx_extra_merge_mining_tag d r) =
  Some ([TX_EXTRA_MERGE_MINING_TAG] ++ write_varint (length (write_varint d ++ r)) ++ write_varint d ++ r).
Proof. done. Qed.

Lemma add_pub_key_eq extra k : key_ok k -> add_tx_pub_key_to_extra extra k = extra ++ TX_EXTRA_TAG_PUBKEY :: k.
Proof.
  intros [_ Hk]. unfold add_tx_pub_key_to_extra. rewrite <- Nat.add_assoc, resize_grow. change (replicate (1 + 32) (0 : Z)) with ([0 : Z] ++ replicate 32 (0 : Z)).
  replace (length (extra ++ [(0 : Z)] ++ replicate 32 (0 : Z)) - 1 - 32)%nat with (length extra) by (rewrite !length_app, length_replicate; cbn [length]; lia).
  rewrite overwrite_mid by done. rewrite app_assoc. replace (length ((extra ++ [TX_EXTRA_TAG_PUBKEY]) ++ replicate 32 (0 : Z)) - 32)%nat with (length (extra ++ [TX_EXTRA_TAG_PUBKEY]))
    by (rewrite !length_app, length_replicate; cbn [length]; lia).
  rewrite overwrite_app by (by rewrite length_replicate). by rewrite <- app_assoc.
Qed.

Lemma add_nonce_eq extra n : length n <= TX_EXTRA_NONCE_MAX_COUNT ->
  add_extra_nonce_to_tx_extra extra n = Some (extra ++ [TX_EXTRA_NONCE] ++ write_varint (length n) ++ n).
Proof.
  intros Hn. unfold add_extra_nonce_to_tx_extra. btrue (length n <=? TX_EXTRA_NONCE_MAX_COUNT). cbn [negb]. rewrite varint_byte_size, Nat2Z.id by lia. cbv zeta.
  set (w := write_varint (length n)). rewrite <- !Nat.add_assoc, resize_grow, !replicate_add. cbn [replicate].
  rewrite overwrite_mid by done. rewrite app_assoc. replace (length extra + 1)%nat with (length (extra ++ [TX_EXTRA_NONCE])) by (rewrite length_app; done).
  rewrite overwrite_mid by (by rewrite length_replicate). rewrite app_assoc.
  replace (length extra + (1 + length w))%nat with (length ((extra ++ [TX_EXTRA_NONCE]) ++ w)) by (rewrite !length_app; cbn [length]; lia).
  rewrite overwrite_app by (by rewrite length_replicate). by rewrite <- !app_assoc.
Qed.

Lemma add_merge_mining_eq extra d r : is_u64 d -> key_ok r ->
  add_mm_merkle_root_to_tx_extra extra r d = extra ++ [TX_EXTRA_MERGE_MINING_TAG] ++ write_varint (length (write_varint d ++ r)) ++ write_varint d ++ r.
Proof.
  intros Hd [_ Hr]. pose proof (length_write_varint_max d Hd) as Hl. unfold add_mm_merkle_root_to_tx_extra. set (w := write_varint d) in *. cbv zeta.
  rewrite <- !Nat.add_assoc, resize_grow. unfold max_varint_size.
  replace (2 + (32 + 16))%nat with (1 + (1 + (length w + (32 + (16 - length w)))))%nat by lia. rewrite !replicate_add. change (replicate 1 (0 : Z)) with [(0 : Z)].
  rewrite overwrite_mid by done. rewrite app_assoc. replace (length extra + 1)%nat with (length (extra ++ [TX_EXTRA_MERGE_MINING_TAG])) by (rewrite length_app; done).
  set (pre := extra ++ [TX_EXTRA_MERGE_MINING_TAG]). rewrite overwrite_mid by done. rewrite (app_assoc pre). replace (length extra + (1 + 1))%nat with (length (pre ++ [(0 : Z)])) by (unfold pre; rewrite !length_app; cbn [length]; lia).
  rewrite overwrite_mid by (by rewrite length_replicate). rewrite (app_assoc (pre ++ [0])). replace (length extra + (1 + (1 + length w)))%nat with (length ((pre ++ [(0 : Z)]) ++ w)) by (unfold pre; rewrite !length_app; cbn [length]; lia).
  rewrite overwrite_mid by (by rewrite length_replicate). set (v := ((pre ++ [0]) ++ w) ++ r ++ replicate (16 - length w) 0).
  assert (Ev : resize v (length v - (16 - length w)) = ((pre ++ [0]) ++ w) ++ r).
  { unfold v, resize. rewrite app_assoc, length_app, length_replicate. rewrite Nat.add_sub, take_app_length.
    match goal with |- context [replicate ?k 0] => replace k with 0%nat by lia end. by rewrite app_nil_r. }
  rewrite Ev, <- !app_assoc, overwrite_mid by done. rewrite length_app, Hr, write_varint_unfold by lia.
  bfalse (0x80 <=? (length w + 32)%nat). rewrite wrap_small by (unfold is_uint; lia). unfold pre. rewrite <- !app_assoc. do 4 f_equal. lia.
Qed.

Lemma put_additional_some l : Forall key_ok l -> is_u64 (length l) -> exists b, put c_tx_extra_field (tx_extra_additional_pub_keys l) = Some b.
Proof. intros HF Hu. destruct (put_field_some (tx_extra_additional_pub_keys l)) as (b & E & _); [done|by exists b]. Qed.

(** Fields written at the end of closed ones are read back. *)
Lemma parse_append fs f b : Forall closed_ok fs -> closed_ok f -> put c_tx_extra_field f = Some b -> parse_tx_extra (extra_blob fs ++ b) = (true, fs ++ [f]).
Proof.
  intros HF Hf E. rewrite <- (parse_blob (fs ++ [f])) by (apply fields_ok_app; [done|]; by repeat constructor).
  rewrite extra_blob_app by (auto; apply Forall_singleton; auto). by rewrite (extra_blob_cons f [] b E), app_nil_r by constructor.
Qed.

(** ** Properties *)

(** sorting an extra field never loses or changes a field.  Whatever bytes it is
    given, [sort_tx_extra] with [allow_partial] returns bytes from which
    [parse_tx_extra] reads the same fields grouped by type, with the same verdict;
    the result is a permutation of the fields, sorting it again changes nothing, and
    public keys are found under the same indices.  Without [allow_partial] the same
    bytes are returned exactly when all of the input can be parsed. *)
Theorem sort_extra_correct extra ok fs :
  bytes extra -> parse_tx_extra extra = (ok, fs) ->
  exists s gs, sort_tx_extra extra true = Some s /\ sort_tx_extra extra false = (if ok then Some s else None) /\
    parse_tx_extra s = (ok, gs) /\ gs ≡ₚ fs /\ sort_tx_extra s true = Some s /\
    get_additional_tx_pub_keys_from_extra s = get_additional_tx_pub_keys_from_extra extra /\
    forall i, get_tx_pub_key_from_extra s i = get_tx_pub_key_from_extra extra i.
Proof.
  intros Hb Ep. destruct (sort_correct _ _ _ Hb Ep) as (s & E1 & E2 & E3 & E4). exists s, (sort_fields fs). split_and!; [done..|apply sort_fields_perm|done| |].
  - unfold get_additional_tx_pub_keys_from_extra, find_tx_extra_field_by_type. rewrite E3, Ep. cbn [snd].
    by rewrite (omap_sort as_additional TX_EXTRA_TAG_ADDITIONAL_PUBKEYS) by ((by intros []) || set_solver).
  - intros i. unfold get_tx_pub_key_from_extra, find_tx_extra_field_by_type. rewrite E3, Ep. cbn [snd].
    by rewrite (omap_sort as_pub_key TX_EXTRA_TAG_PUBKEY) by ((by intros []) || set_solver).
Qed.

(** after any closed fields, a public key, additional public keys, a nonce of at
    most 255 bytes or a merge mining tag added to the extra field is read back as one
    more field at the end, the others unchanged; longer nonces are refused. *)
Theorem extra_add_correct fs :
  Forall closed_ok fs ->
  (forall k, key_ok k -> parse_tx_extra (add_tx_pub_key_to_extra (extra_blob fs) k) = (true, fs ++ [tx_extra_pub_key k])) /\
  (forall l, Forall key_ok l -> is_u64 (length l) -> exists e, add_additional_tx_pub_keys_to_extra (extra_blob fs) l = Some e /\ parse_tx_extra e = (true, fs ++ [tx_extra_additional_pub_keys l])) /\
  (forall n, bytes n -> if length n <=? 255 then exists e, add_extra_nonce_to_tx_extra (extra_blob fs) n = Some e /\ parse_tx_extra e = (true, fs ++ [tx_extra_nonce n])
             else add_extra_nonce_to_tx_extra (extra_blob fs) n = None) /\
  (forall d r, is_u64 d -> key_ok r -> parse_tx_extra (add_mm_merkle_root_to_tx_extra (extra_blob fs) r d) = (true, fs ++ [tx_extra_merge_mining_tag d r])).
Proof.
  intros HF. split_and!.
  - intros k Hk. rewrite add_pub_key_eq by done. by apply parse_append.
  - intros l Hl Hu. destruct (put_additional_some l Hl Hu) as (b & E). unfold add_additional_tx_pub_keys_to_extra. rewrite E. cbn [mbind option_bind].
    rewrite resize_grow, overwrite_app by (by rewrite length_replicate). eexists. split; [done|]. by apply parse_append.
  - intros n Hn. destruct (length n <=? 255) eqn:El; bcase_hyps.
    + rewrite add_nonce_eq by done. eexists. split; [done|]. apply parse_append; [done| |by apply put_nonce]. split; [|done]. split; [done|]. unfold is_uint. lia.
    + unfold add_extra_nonce_to_tx_extra, TX_EXTRA_NONCE_MAX_COUNT. by bfalse (length n <=? 255).
  - intros d r Hd Hr. rewrite add_merge_mining_eq by done. by apply parse_append.
Qed.

(** removing the fields of one type from an extra field that parses leaves
    exactly the other fields, in order; an extra field that does not parse is refused
    and left as it is. *)
Theorem extra_remove_correct extra tag ok fs :
  bytes extra -> parse_tx_extra extra = (ok, fs) ->
  if ok then exists e, remove_field_from_tx_extra extra tag = Some e /\ parse_tx_extra e = (true, filter (fun f => extra_tag f <> tag) fs)
  else remove_field_from_tx_extra extra tag = None.
Proof. apply remove_correct. Qed.

(** a payment id set in an extra nonce is read back, and not as one of the other kind. *)
Theorem payment_id_nonce id id8 :
  length id = 32%nat -> length id8 = 8%nat ->
  get_payment_id_from_tx_extra_nonce (set_payment_id_to_tx_extra_nonce id) = Some id /\
  get_encrypted_payment_id_from_tx_extra_nonce (set_encrypted_payment_id_to_tx_extra_nonce id8) = Some id8 /\
  get_payment_id_from_tx_extra_nonce (set_encrypted_payment_id_to_tx_extra_nonce id8) = None /\
  get_encrypted_payment_id_from_tx_extra_nonce (set_payment_id_to_tx_extra_nonce id) = None.
Proof. intros H H8. cbn. by rewrite H, H8. Qed.

(** ** Witnesses *)

Definition sample_extra : list Z :=
  [2; 9; 1; 8; 7; 6; 5; 4; 3; 2; 1] ++ 1 :: replicate 32 5 ++ [4; 1] ++ replicate 32 6 ++ [3; 33; 2] ++ replicate 32 4 ++ [0; 0; 0].

Lemma sample_extra_bytes : bytes sample_extra.
Proof. by apply (bool_decide_unpack (Forall is_u8 sample_extra)); vm_compute. Qed.

Lemma sort_extra_correct_witness :
  exists s gs, sort_tx_extra sample_extra true = Some s /\ parse_tx_extra s = (true, gs) /\ gs ≡ₚ (parse_tx_extra sample_extra).2.
Proof.
  destruct (sort_extra_correct sample_extra true (parse_tx_extra sample_extra).2 sample_extra_bytes eq_refl) as (s & gs & H1 & _ & H2 & H3 & _).
  exists s, gs. split; [exact H1|split; [exact H2|exact H3]].
Defined.

Lemma extra_remove_correct_witness :
  exists e, remove_field_from_tx_extra sample_extra TX_EXTRA_NONCE = Some e /\
    parse_tx_extra e = (true, filter (fun f => extra_tag f <> TX_EXTRA_NONCE) (parse_tx_extra sample_extra).2).
Proof. exact (extra_remove_correct sample_extra TX_EXTRA_NONCE true (parse_tx_extra sample_extra).2 sample_extra_bytes eq_refl). Defined.

Lemma sample_closed : Forall closed_ok [tx_extra_nonce [1; 2; 3]; tx_extra_pub_key (replicate 32 5)].
Proof.
  repeat constructor; try (unfold is_uint; cbn; lia); try done; apply Forall_replicate; unfold is_uint; lia.
Qed.

Lemma extra_add_correct_witness :
  parse_tx_extra (add_tx_pub_key_to_extra (extra_blob [tx_extra_nonce [1; 2; 3]; tx_extra_pub_key (replicate 32 5)]) (replicate 32 6)) =
  (true, [tx_extra_nonce [1; 2; 3]; tx_extra_pub_key (replicate 32 5); tx_extra_pub_key (replicate 32 6)]).
Proof.
  destruct (extra_add_correct _ sample_closed) as (H & _). apply (H (replicate 32 6)).
  split; [apply Forall_replicate; unfold is_uint; lia|reflexivity].
Defined.

Lemma payment_id_nonce_witness :
  get_encrypted_payment_id_from_tx_extra_nonce (set_encrypted_payment_id_to_tx_extra_nonce [8; 7; 6; 5; 4; 3; 2; 1]) = Some [8; 7; 6; 5; 4; 3; 2; 1].
Proof. apply (payment_id_nonce (replicate 32 1) [8; 7; 6; 5; 4; 3; 2; 1] eq_refl eq_refl). Defined.
