(* ===== verification/Address.v ===== *)
(** * Address: account addresses as strings

    Models the address functions of src/cryptonote_basic/cryptonote_basic_impl.cpp
    and the binary layout of [account_public_address] and [integrated_address].
    Keys are lists of 32 bytes.  Membership of a point in the prime-order
    subgroup ([rct::isInMainSubgroup]) and the DNS lookup are parameters. *)
From S2P Require Import Prelude Config Base58.

(** ** Data *)

Record account_public_address := mk_address {
  m_spend_public_key : list Z;
  m_view_public_key : list Z;
}.

Record integrated_address := mk_integrated {
  adr : account_public_address;
  payment_id : list Z;
}.

Record address_parse_info := mk_info {
  info_address : account_public_address;
  info_is_subaddress : bool;
  info_has_payment_id : bool;
  info_payment_id : list Z;
}.

(** [addr_throw] is the exception of [get_config]. *)
Inductive address_result := addr_throw | addr_false | addr_ok (info : address_parse_info).

Definition key_size : nat := 32.
Definition payment_id_size : nat := 8.

(** The objects the C++ types can hold. *)
Definition wf_address (a : account_public_address) : Prop :=
  bytes (m_spend_public_key a) /\ length (m_spend_public_key a) = key_size /\
  bytes (m_view_public_key a) /\ length (m_view_public_key a) = key_size.
Definition wf_payment_id (p : list Z) : Prop := bytes p /\ length p = payment_id_size.

(** ** Binary serialization: the fields one after the other *)

Definition address_to_blob (a : account_public_address) : list Z :=
  m_spend_public_key a ++ m_view_public_key a.
Definition integrated_to_blob (i : integrated_address) : list Z :=
  address_to_blob (adr i) ++ payment_id i.

(** A fixed-size field is read whole or the archive fails. *)
Definition read_blob (n : nat) (ar : list Z) : option (list Z * list Z) :=
  if (length ar <? n)%nat then None else Some (take n ar, drop n ar).

Definition read_address (ar : list Z) : option (account_public_address * list Z) :=
  '(spend, ar) ← read_blob key_size ar;
  '(view, ar) ← read_blob key_size ar;
  Some (mk_address spend view, ar).

(** [parse_binary] also requires the archive to be at its end. *)
Definition parse_address (data : list Z) : option account_public_address :=
  '(a, ar) ← read_address data;
  match ar with [] => Some a | _ => None end.

Definition parse_integrated (data : list Z) : option integrated_address :=
  '(a, ar) ← read_address data;
  '(p, ar) ← read_blob payment_id_size ar;
  match ar with [] => Some (mk_integrated a p) | _ => None end.

(** ** Strings *)

Section address.
Context (isInMainSubgroup : list Z -> bool).

Definition rct_identity : list Z := 1 :: replicate 31 0.

Definition valid_key (key : list Z) : bool :=
  negb (bool_decide (key = rct_identity)) && isInMainSubgroup key.

Definition check_address (a : account_public_address) : bool :=
  valid_key (m_spend_public_key a) && valid_key (m_view_public_key a).

Definition get_account_address_as_str (nettype : network_type) (subaddress : bool)
    (a : account_public_address) : option (list Z) :=
  c ← get_config nettype;
  let address_prefix := if subaddress then CRYPTONOTE_PUBLIC_SUBADDRESS_BASE58_PREFIX c
                        else CRYPTONOTE_PUBLIC_ADDRESS_BASE58_PREFIX c in
  encode_addr address_prefix (address_to_blob a).

Definition get_account_integrated_address_as_str (nettype : network_type)
    (a : account_public_address) (pid : list Z) : option (list Z) :=
  c ← get_config nettype;
  encode_addr (CRYPTONOTE_PUBLIC_INTEGRATED_ADDRESS_BASE58_PREFIX c) (integrated_to_blob (mk_integrated a pid)).

(** The kind of address a prefix announces: [(is_subaddress, has_payment_id)]. *)
Definition address_kind (c : config_t) (prefix : Z) : option (bool * bool) :=
  if CRYPTONOTE_PUBLIC_INTEGRATED_ADDRESS_BASE58_PREFIX c =? prefix then Some (false, true)
  else if CRYPTONOTE_PUBLIC_ADDRESS_BASE58_PREFIX c =? prefix then Some (false, false)
  else if CRYPTONOTE_PUBLIC_SUBADDRESS_BASE58_PREFIX c =? prefix then Some (true, false)
  else None.

(** The payment id of a plain address stays the null id. *)
Definition null_payment_id : list Z := replicate 8 0.

Definition get_account_address_from_str (nettype : network_type) (str : list Z) : address_result :=
  match get_config nettype with
  | None => addr_throw
  | Some c =>
      match decode_addr str with
      | None => addr_false
      | Some (prefix, data) =>
          match address_kind c prefix with
          | None => addr_false
          | Some (is_subaddress, has_payment_id) =>
              let parsed :=
                if has_payment_id : bool
                then match parse_integrated data with
                     | Some iadr => Some (adr iadr, payment_id iadr)
                     | None => None
                     end
                else match parse_address data with
                     | Some a => Some (a, null_payment_id)
                     | None => None
                     end in
              match parsed with
              | None => addr_false
              | Some (a, pid) =>
                  if negb (check_address a) then addr_false
                  else addr_ok (mk_info a is_subaddress has_payment_id pid)
              end
          end
      end
  end.

(** [get_account_address_from_str_or_url], with the DNS resolution
    [get_account_address_as_str_from_url] as a parameter. *)
Definition get_account_address_from_str_or_url (dns : list Z -> list Z) (nettype : network_type)
    (str_or_url : list Z) (allow_dns : bool) : address_result :=
  match get_account_address_from_str nettype str_or_url with
  | addr_false =>
      if negb allow_dns then addr_false
      else
        match dns str_or_url with
        | [] => addr_false
        | address_str => get_account_address_from_str nettype address_str
        end
  | r => r
  end.

(** The string of an address description. *)
Definition address_string (nettype : network_type) (info : address_parse_info) : option (list Z) :=
  if info_has_payment_id info
  then get_account_integrated_address_as_str nettype (info_address info) (info_payment_id info)
  else get_account_address_as_str nettype (info_is_subaddress info) (info_address info).

(** The descriptions the parser can return. *)
Definition wf_info (info : address_parse_info) : Prop :=
  wf_address (info_address info) /\ check_address (info_address info) = true /\
  if info_has_payment_id info then wf_payment_id (info_payment_id info) /\ info_is_subaddress info = false
  else info_payment_id info = null_payment_id.

(** ** Lemmas *)

Lemma read_blob_app n x ar : length x = n -> read_blob n (x ++ ar) = Some (x, ar).
Proof.
  intros Hx. unfold read_blob. rewrite length_app.
  replace (length x + length ar <? n)%nat with false by (symmetry; apply Nat.ltb_ge; lia).
  by rewrite take_app_length', drop_app_length' by done.
Qed.

Lemma read_blob_inv n ar x ar' : read_blob n ar = Some (x, ar') -> ar = x ++ ar' /\ length x = n.
Proof.
  unfold read_blob. destruct (_ <? _)%nat eqn:E; [done|]. intros. simplify_eq.
  apply Nat.ltb_ge in E. rewrite take_drop, length_take. split; [done|lia].
Qed.

Lemma read_address_blob a ar : wf_address a -> read_address (address_to_blob a ++ ar) = Some (a, ar).
Proof.
  intros (_ & H1 & _ & H2). unfold read_address, address_to_blob. rewrite <- app_assoc.
  rewrite read_blob_app by done. cbn [mbind option_bind]. rewrite read_blob_app by done. by destruct a.
Qed.

Lemma read_address_inv ar a ar' :
  bytes ar -> read_address ar = Some (a, ar') -> ar = address_to_blob a ++ ar' /\ wf_address a.
Proof.
  intros Hb E. unfold read_address in E. destruct (read_blob key_size ar) as [[sp r1]|] eqn:E1; [|done].
  cbn [mbind option_bind] in E. destruct (read_blob key_size r1) as [[vw r2]|] eqn:E2; [|done].
  cbn [mbind option_bind] in E. simplify_eq. apply read_blob_inv in E1 as [-> ?], E2 as [-> ?].
  apply Forall_app in Hb as [? Hb]. apply Forall_app in Hb as [? _].
  split; [unfold address_to_blob; cbn; by rewrite app_assoc|]. by unfold wf_address.
Qed.

Lemma parse_address_blob a : wf_address a -> parse_address (address_to_blob a) = Some a.
Proof. intros H. unfold parse_address. rewrite <- (app_nil_r (address_to_blob a)). by rewrite read_address_blob. Qed.

Lemma parse_integrated_blob a p :
  wf_address a -> wf_payment_id p -> parse_integrated (integrated_to_blob (mk_integrated a p)) = Some (mk_integrated a p).
Proof.
  intros Ha [_ Hp]. unfold parse_integrated, integrated_to_blob. cbn [adr payment_id].
  rewrite read_address_blob by done. cbn [mbind option_bind].
  pose proof (read_blob_app _ p [] Hp) as E. rewrite app_nil_r in E. by rewrite E.
Qed.

Lemma parse_address_inv data a : bytes data -> parse_address data = Some a -> data = address_to_blob a /\ wf_address a.
Proof.
  intros Hb E. unfold parse_address in E. destruct (read_address data) as [[a' ar]|] eqn:Er; [|done].
  cbn [mbind option_bind] in E. destruct ar; [|done]. simplify_eq.
  apply read_address_inv in Er as [-> ?]; [|done]. by rewrite app_nil_r.
Qed.

Lemma parse_integrated_inv data i :
  bytes data -> parse_integrated data = Some i ->
  data = integrated_to_blob i /\ wf_address (adr i) /\ wf_payment_id (payment_id i).
Proof.
  intros Hb E. unfold parse_integrated in E. destruct (read_address data) as [[a' ar]|] eqn:Er; [|done].
  cbn [mbind option_bind] in E. apply read_address_inv in Er as [-> ?]; [|done].
  destruct (read_blob payment_id_size ar) as [[p r]|] eqn:Ep; [|done]. cbn [mbind option_bind] in E.
  destruct r; [|done]. simplify_eq. apply read_blob_inv in Ep as [-> ?]. rewrite app_nil_r in *.
  apply Forall_app in Hb as [_ ?]. done.
Qed.

Lemma address_to_blob_bytes a : wf_address a -> bytes (address_to_blob a).
Proof. intros (? & _ & ? & _). by apply Forall_app. Qed.

Lemma address_kind_prefix nettype c :
  get_config nettype = Some c ->
  address_kind c (CRYPTONOTE_PUBLIC_INTEGRATED_ADDRESS_BASE58_PREFIX c) = Some (false, true) /\
  address_kind c (CRYPTONOTE_PUBLIC_ADDRESS_BASE58_PREFIX c) = Some (false, false) /\
  address_kind c (CRYPTONOTE_PUBLIC_SUBADDRESS_BASE58_PREFIX c) = Some (true, false).
Proof. intros E. destruct nettype; simplify_eq/=; done. Qed.

Lemma address_kind_inv c prefix sub pid :
  address_kind c prefix = Some (sub, pid) ->
  prefix = (if pid then CRYPTONOTE_PUBLIC_INTEGRATED_ADDRESS_BASE58_PREFIX c
           else if sub then CRYPTONOTE_PUBLIC_SUBADDRESS_BASE58_PREFIX c
           else CRYPTONOTE_PUBLIC_ADDRESS_BASE58_PREFIX c) /\ (pid = true -> sub = false).
Proof. unfold address_kind. bcase; intros; simplify_eq; done. Qed.

Lemma config_prefix_u64 nettype c :
  get_config nettype = Some c ->
  is_u64 (CRYPTONOTE_PUBLIC_ADDRESS_BASE58_PREFIX c) /\ is_u64 (CRYPTONOTE_PUBLIC_INTEGRATED_ADDRESS_BASE58_PREFIX c) /\
  is_u64 (CRYPTONOTE_PUBLIC_SUBADDRESS_BASE58_PREFIX c).
Proof. intros E. apply get_config_prefixes in E as [_ HF]. rewrite !Forall_cons in HF. tauto. Qed.

(** Parsing back a written address. *)
Lemma address_string_parse nettype info :
  nettype <> UNDEFINED -> wf_info info ->
  exists s, address_string nettype info = Some s /\ get_account_address_from_str nettype s = addr_ok info.
Proof.
  intros Hn (Ha & Hc & Hp). destruct (get_config nettype) as [c|] eqn:Ec; [|by destruct nettype].
  destruct (config_prefix_u64 _ _ Ec) as (U1 & U2 & U3). destruct (address_kind_prefix _ _ Ec) as (K1 & K2 & K3).
  unfold address_string, get_account_integrated_address_as_str, get_account_address_as_str, get_account_address_from_str.
  rewrite Ec. cbn [mbind option_bind]. destruct info as [a sub has pid]. cbn in *. destruct has.
  - destruct Hp as [Hp ->].
    destruct (decode_encode_addr _ (integrated_to_blob (mk_integrated a pid)) U2) as (s & Es & Ed).
    { apply Forall_app. split; [by apply address_to_blob_bytes|apply Hp]. }
    exists s. split; [done|]. rewrite Ed, K1, parse_integrated_blob by done. cbn. by rewrite Hc.
  - subst pid. cbv zeta.
    destruct (decode_encode_addr (if sub then CRYPTONOTE_PUBLIC_SUBADDRESS_BASE58_PREFIX c
      else CRYPTONOTE_PUBLIC_ADDRESS_BASE58_PREFIX c) (address_to_blob a)) as (s & Es & Ed).
    { by destruct sub. } { by apply address_to_blob_bytes. }
    exists s. split; [done|]. rewrite Ed. destruct sub; rewrite ?K2, ?K3, parse_address_blob by done; cbn; by rewrite Hc.
Qed.

(** An accepted string is the one its description writes. *)
Lemma address_parse_string nettype s info :
  bytes s -> get_account_address_from_str nettype s = addr_ok info ->
  wf_info info /\ address_string nettype info = Some s.
Proof.
  intros Hs E. unfold get_account_address_from_str in E.
  destruct (get_config nettype) as [c|] eqn:Ec; [|done]. destruct (decode_addr s) as [[prefix data]|] eqn:Ed; [|done].
  pose proof (decode_addr_bytes _ _ _ Hs Ed) as Hd.
  apply decode_addr_inv in Ed as [Ed|[-> _]]; [| |done].
  2:{ by destruct (address_kind c prefix) as [[? []]|]. }
  destruct (address_kind c prefix) as [[sub has]|] eqn:Ek; [|done]. apply address_kind_inv in Ek as [-> Hsub]. cbv zeta in E.
  unfold address_string, wf_info, get_account_integrated_address_as_str, get_account_address_as_str.
  rewrite Ec. cbn [mbind option_bind]. destruct has.
  - destruct (parse_integrated data) as [[a p]|] eqn:Ep; [|done]. apply parse_integrated_inv in Ep as (-> & ? & ?); [|done].
    destruct (check_address _) eqn:Ech in E; cbn [negb] in E; [|done]. simplify_eq.
    by rewrite Hsub.
  - destruct (parse_address data) as [a|] eqn:Ep; [|done]. apply parse_address_inv in Ep as (-> & ?); [|done].
    destruct (check_address _) eqn:Ech in E; cbn [negb] in E; [|done]. by simplify_eq.
Qed.

End address.

(** ** Properties *)

(** Every well-formed address description, standard, subaddress or integrated, is
    written as a string that parses back to it on the same network. *)
Theorem address_str_roundtrip isInMainSubgroup nettype info :
  nettype <> UNDEFINED -> wf_info isInMainSubgroup info ->
  exists s, address_string nettype info = Some s /\
    get_account_address_from_str isInMainSubgroup nettype s = addr_ok info.
Proof. apply address_string_parse. Qed.

(** C29: Addresses are not malleable: a string the parser accepts describes a
    well-formed address with validated keys, and is the very string that
    description is written as. *)
Theorem address_str_canonical isInMainSubgroup nettype s info :
  bytes s -> get_account_address_from_str isInMainSubgroup nettype s = addr_ok info ->
  wf_info isInMainSubgroup info /\ address_string nettype info = Some s.
Proof. apply address_parse_string. Qed.

(** Networks are separated: an address string written for one network is rejected
    by the parser of a network with another configuration. *)
Theorem address_networks_disjoint isInMainSubgroup n1 n2 info s :
  wf_info isInMainSubgroup info -> get_config n1 <> get_config n2 -> n2 <> UNDEFINED ->
  address_string n1 info = Some s -> get_account_address_from_str isInMainSubgroup n2 s = addr_false.
Proof.
  intros (Ha & Hc & Hp) Hn H2 E.
  destruct (get_config n1) as [c1|] eqn:E1; [|destruct n1; done || by (destruct info as [? ? []]; simpl in E)].
  destruct (get_config n2) as [c2|] eqn:E2; [|by destruct n2].
  unfold address_string, get_account_integrated_address_as_str, get_account_address_as_str in E.
  rewrite E1 in E. cbn [mbind option_bind] in E. destruct info as [a sub has pid]. cbn in *.
  destruct (config_prefix_u64 _ _ E1) as (U1 & U2 & U3).
  assert (exists prefix data, encode_addr prefix data = Some s /\ is_u64 prefix /\ bytes data /\ address_kind c2 prefix = None)
    as (prefix & data & Ee & Hu & Hb & Hk).
  { destruct has; do 2 eexists; (split; [exact E|]); (split; [by destruct sub|]).
    - split; [apply Forall_app; split; [by apply address_to_blob_bytes|apply Hp]|].
      destruct n1, n2; simplify_eq/=; done.
    - split; [by apply address_to_blob_bytes|]. destruct n1, n2; simplify_eq/=; by destruct sub. }
  destruct (decode_encode_addr prefix data Hu Hb) as (s' & Es & Ed). simplify_eq.
  unfold get_account_address_from_str. by rewrite E2, Ed, Hk.
Qed.

(** A sample description for the concrete instances below. *)
Definition sample_info : address_parse_info :=
  mk_info (mk_address (replicate 32 7) (replicate 32 9)) false true (replicate 8 5).

Lemma sample_info_wf : wf_info (fun _ => true) sample_info.
Proof.
  unfold wf_info, wf_address, wf_payment_id, sample_info. cbn [info_address info_has_payment_id info_payment_id info_is_subaddress m_spend_public_key m_view_public_key].
  assert (forall n x, is_u8 x -> bytes (replicate n x)) as Hr by (intros; by apply Forall_replicate).
  split_and!; try done; apply Hr; by apply is_uintb_spec.
Qed.

Lemma address_str_roundtrip_witness :
  exists s, address_string STAGENET sample_info = Some s /\
    get_account_address_from_str (fun _ => true) STAGENET s = addr_ok sample_info.
Proof. apply (address_str_roundtrip (fun _ => true) STAGENET sample_info); [discriminate|apply sample_info_wf]. Defined.

(** Its string on the main network. *)
Definition sample_str : list Z := Eval vm_compute in default [] (address_string MAINNET sample_info).

Lemma sample_str_written : address_string MAINNET sample_info = Some sample_str.
Proof. vm_compute. reflexivity. Qed.

Lemma sample_str_parsed : get_account_address_from_str (fun _ => true) MAINNET sample_str = addr_ok sample_info.
Proof. vm_compute. reflexivity. Qed.

Lemma sample_str_bytes : bytes sample_str.
Proof.
  apply Forall_forall. intros x Hx. apply is_uintb_spec.
  assert (H : forallb (is_uintb 8) sample_str = true) by (vm_compute; reflexivity).
  rewrite forallb_forall in H. by apply H, list_elem_of_In.
Qed.

Lemma address_str_canonical_witness :
  get_account_address_from_str (fun _ => true) MAINNET sample_str = addr_ok sample_info /\
  (wf_info (fun _ => true) sample_info /\ address_string MAINNET sample_info = Some sample_str).
Proof.
  split; [exact sample_str_parsed|].
  exact (address_str_canonical (fun _ => true) MAINNET sample_str sample_info sample_str_bytes sample_str_parsed).
Defined.

Lemma address_networks_disjoint_witness :
  address_string MAINNET sample_info = Some sample_str /\
  get_account_address_from_str (fun _ => true) TESTNET sample_str = addr_false.
Proof.
  split; [exact sample_str_written|].
  apply (address_networks_disjoint (fun _ => true) MAINNET TESTNET sample_info sample_str sample_info_wf).
  - discriminate.
  - discriminate.
  - exact sample_str_written.
Defined.
