(* ===== verification/Difficulty.v ===== *)
(** * Difficulty: proof-of-work check and difficulty retargeting

    Models src/cryptonote_basic/difficulty.cpp.  A hash is the list of its 32
    bytes; a [difficulty_type] is a 128-bit integer.  A failed [assert] or an
    out-of-range vector access is [None]. *)
From S2P Require Import Prelude IntUtil Config.
#[local] Open Scope mach_scope.

(** ** Definitions *)

(** The x86-64 branch, and the portable one; results are (low, high). *)
Definition mul (a b : Z) : Z * Z := mul128 a b.

Definition mul_portable (a b : Z) : Z * Z :=
  let aLow := Z.land a 0xFFFFFFFF in
  let aHigh := Z.shiftr a 32 in
  let bLow := Z.land b 0xFFFFFFFF in
  let bHigh := Z.shiftr b 32 in
  let res := aLow ⊠ bLow in
  let lowRes1 := Z.land res 0xFFFFFFFF in
  let carry := Z.shiftr res 32 in
  let res := aHigh ⊠ bLow ⊞ carry in
  let highResHigh1 := Z.shiftr res 32 in
  let highResLow1 := Z.land res 0xFFFFFFFF in
  let res := aLow ⊠ bHigh in
  let lowRes2 := Z.land res 0xFFFFFFFF in
  let carry := Z.shiftr res 32 in
  let res := aHigh ⊠ bHigh ⊞ carry in
  let highResHigh2 := Z.shiftr res 32 in
  let highResLow2 := Z.land res 0xFFFFFFFF in
  let r := highResLow1 ⊞ lowRes2 in
  let carry := Z.shiftr r 32 in
  let low := Z.lor (u64 (Z.shiftl r 32)) lowRes1 in
  let r := highResHigh1 ⊞ highResLow2 ⊞ carry in
  let d3 := Z.land r 0xFFFFFFFF in
  let carry := Z.shiftr r 32 in
  let r := highResHigh2 ⊞ carry in
  (low, Z.lor d3 (u64 (Z.shiftl r 32))).

Definition cadd (a b : Z) : bool := a ⊞ b <? a.

Definition cadc (a b : Z) (c : bool) : bool :=
  (a ⊞ b <? a) || (c && (a ⊞ b =? UINT64_MAX)).

Definition load_u64_from_hash (hash : list Z) (index : nat) : Z :=
  SWAP64LE (le_val (take 8 (drop (8 * index) hash))).

Definition check_hash_64 (hash : list Z) (difficulty : Z) : bool :=
  let '(top, high) := mul (load_u64_from_hash hash 3) difficulty in
  if negb (high =? 0) then false
  else
    let '(low, cur) := mul (load_u64_from_hash hash 0) difficulty in
    let '(low, high) := mul (load_u64_from_hash hash 1) difficulty in
    let carry := cadd cur low in
    let cur := high in
    let '(low, high) := mul (load_u64_from_hash hash 2) difficulty in
    let carry := cadc cur low carry in
    let carry := cadc high top carry in
    negb carry.

(** The accumulator is a [uint512_t]: the shift and the product are taken
    modulo 2^512. *)
Definition hash_value_step (hash : list Z) (hashVal : Z) (i : nat) : Z :=
  Z.lor (wrap 512 (Z.shiftl hashVal 64)) (load_u64_from_hash hash (3 - i)).

Definition check_hash_128 (hash : list Z) (difficulty : Z) : bool :=
  let hashVal := foldl (hash_value_step hash) 0 [0; 1; 2; 3]%nat in
  wrap 512 (hashVal * difficulty) <=? 2 ^ 256 - 1.

Definition check_hash (hash : list Z) (difficulty : Z) : bool :=
  if difficulty <=? UINT64_MAX then check_hash_64 hash (u64 difficulty)
  else check_hash_128 hash difficulty.

(** The window cut shared by both retargeting functions: the (begin, end)
    indices kept after dropping the outliers on both sides. *)
Definition cut_bounds (length : Z) : Z * Z :=
  if length <=? DIFFICULTY_WINDOW - 2 * DIFFICULTY_CUT then (0, length)
  else
    let cut_begin := (length - (DIFFICULTY_WINDOW - 2 * DIFFICULTY_CUT) + 1) / 2 in
    (cut_begin, cut_begin + (DIFFICULTY_WINDOW - 2 * DIFFICULTY_CUT)).

Definition vec_resize_window (timestamps difficulties : list Z) : list Z * list Z :=
  if DIFFICULTY_WINDOW <? length timestamps
  then (resize 720 0 timestamps, resize 720 0 difficulties)
  else (timestamps, difficulties).

Definition at_Z (l : list Z) (i : Z) : option Z := if i <? 0 then None else l !! Z.to_nat i.

Definition next_difficulty_64 (timestamps cumulative_difficulties : list Z) (target_seconds : Z) : option Z :=
  let '(timestamps, cumulative_difficulties) := vec_resize_window timestamps cumulative_difficulties in
  let len := Z.of_nat (length timestamps) in
  if negb (len =? length cumulative_difficulties) then None
  else if len <=? 1 then Some 1
  else
    let timestamps := merge_sort Z.le timestamps in
    let '(cut_begin, cut_end) := cut_bounds len in
    if negb ((cut_begin + 2 <=? cut_end) && (cut_end <=? len)) then None
    else
      t1 ← at_Z timestamps (cut_end - 1);
      t0 ← at_Z timestamps cut_begin;
      let time_span := t1 ⊟ t0 in
      let time_span := if time_span =? 0 then 1 else time_span in
      d1 ← at_Z cumulative_difficulties (cut_end - 1);
      d0 ← at_Z cumulative_difficulties cut_begin;
      let total_work := d1 ⊟ d0 in
      if total_work <=? 0 then None
      else
        let '(low, high) := mul total_work target_seconds in
        if negb (high =? 0) || (low ⊞ time_span ⊟ 1 <? low) then Some 0
        else Some ((low ⊞ time_span ⊟ 1) / time_span).

(** [total_work] is a [uint128_t] difference; the quotient is taken on
    [uint256_t], modulo 2^256. *)
Definition next_difficulty (timestamps cumulative_difficulties : list Z) (target_seconds : Z) : option Z :=
  let '(timestamps, cumulative_difficulties) := vec_resize_window timestamps cumulative_difficulties in
  let len := Z.of_nat (length timestamps) in
  if negb (len =? length cumulative_difficulties) then None
  else if len <=? 1 then Some 1
  else
    let timestamps := merge_sort Z.le timestamps in
    let '(cut_begin, cut_end) := cut_bounds len in
    if negb ((cut_begin + 2 <=? cut_end) && (cut_end <=? len)) then None
    else
      t1 ← at_Z timestamps (cut_end - 1);
      t0 ← at_Z timestamps cut_begin;
      let time_span := t1 ⊟ t0 in
      let time_span := if time_span =? 0 then 1 else time_span in
      d1 ← at_Z cumulative_difficulties (cut_end - 1);
      d0 ← at_Z cumulative_difficulties cut_begin;
      let total_work := u128 (d1 - d0) in
      if total_work <=? 0 then None
      else
        let res := wrap 256 (wrap 256 (total_work * target_seconds) + time_span - 1) / time_span in
        if 2 ^ 128 - 1 <? res then Some 0 else Some (u128 res).

Definition hex_chars : list Z := str_bytes "0123456789abcdef".

(** The loop of [hex]: pushes the digits least significant first. *)
Fixpoint hex_loop (fuel : nat) (v : Z) : list Z :=
  match fuel with
  | O => []
  | S fuel' =>
      if 0 <? v
      then nth (Z.to_nat (Z.land v 0xf)) hex_chars 0 :: hex_loop fuel' (Z.shiftr v 4)
      else []
  end.

(** A 128-bit value has at most 32 hexadecimal digits. *)
Definition hex (v : Z) : list Z :=
  let s := hex_loop 32 v in
  let s := match s with [] => str_bytes "0" | _ => s end in
  str_bytes "0x" ++ reverse s.

(** ** Lemmas *)

Lemma lor_halves h l : 0 <= h < 2 ^ 32 -> 0 <= l < 2 ^ 32 -> Z.lor (u64 (Z.shiftl h 32)) l = h * 2 ^ 32 + l.
Proof. intros. rewrite shiftl_mul by lia. rewrite wrap_small by (unfold is_uint; lia). apply lor_disjoint; lia. Qed.

(** [r << 32] keeps the low half of [r]. *)
Lemma shl32_low r : u64 (Z.shiftl r 32) = u64 (Z.shiftl (lo_dword r) 32).
Proof.
  rewrite !shiftl_mul, lo_dword_mod by lia. unfold wrap. change (2 ^ 64) with (2 ^ 32 * 2 ^ 32).
  rewrite !Z.mul_mod_distr_r, Z.mod_mod by lia. done.
Qed.

Lemma mul_portable_correct a b low high :
  is_u64 a -> is_u64 b -> mul_portable a b = (low, high) ->
  low + 2 ^ 64 * high = a * b /\ is_u64 low /\ is_u64 high.
Proof.
  intros Ha Hb. unfold mul_portable.
  repeat match goal with
  | |- context [Z.land ?x 0xFFFFFFFF] => change (Z.land x 0xFFFFFFFF) with (lo_dword x)
  | |- context [Z.shiftr ?x 32] => change (Z.shiftr x 32) with (hi_dword x)
  end.
  destruct (dword_range a Ha), (dword_range b Hb).
  pose proof (dword_split a) as Ea. pose proof (dword_split b) as Eb.
  set (aL := lo_dword a) in *. set (aH := hi_dword a) in *.
  set (bL := lo_dword b) in *. set (bH := hi_dword b) in *.
  destruct (dword_mul aL bL) as [? _], (dword_mul aH bL) as [? ?], (dword_mul aL bH) as [? _],
    (dword_mul aH bH) as [? ?]; [done..|].
  assert (Hprod : a * b = aL * bL + (aH * bL + aL * bH) * 2 ^ 32 + aH * bH * 2 ^ 64) by (rewrite Ea, Eb; ring).
  assert (Hbound : a * b < 2 ^ 128) by (unfold is_uint in *; nia).
  clearbody aL aH bL bH. rewrite !(wrap_small 64 (_ * _)) by done. cbv zeta.
  pose proof (dword_split (aL * bL)) as E1. destruct (dword_range (aL * bL)); [done|].
  rewrite (wrap_small 64 (aH * bL + _)) by (unfold is_uint in *; lia).
  pose proof (dword_split (aH * bL + hi_dword (aL * bL))) as E2.
  destruct (dword_range (aH * bL + hi_dword (aL * bL))); [unfold is_uint in *; lia|].
  pose proof (dword_split (aL * bH)) as E3. destruct (dword_range (aL * bH)); [done|].
  rewrite (wrap_small 64 (aH * bH + _)) by (unfold is_uint in *; lia).
  pose proof (dword_split (aH * bH + hi_dword (aL * bH))) as E4.
  destruct (dword_range (aH * bH + hi_dword (aL * bH))); [unfold is_uint in *; lia|].
  set (x2 := aH * bL + hi_dword (aL * bL)) in *. set (x4 := aH * bH + hi_dword (aL * bH)) in *.
  rewrite (wrap_small 64 (lo_dword x2 + _)) by (unfold is_uint; lia).
  pose proof (dword_split (lo_dword x2 + lo_dword (aL * bH))) as E5.
  destruct (dword_range (lo_dword x2 + lo_dword (aL * bH))); [unfold is_uint; lia|].
  set (r1 := lo_dword x2 + lo_dword (aL * bH)) in *.
  rewrite (wrap_small 64 (hi_dword x2 + _)), (wrap_small 64 (hi_dword x2 + _ + _)) by (unfold is_uint; lia).
  pose proof (dword_split (hi_dword x2 + lo_dword x4 + hi_dword r1)) as E6.
  destruct (dword_range (hi_dword x2 + lo_dword x4 + hi_dword r1)); [unfold is_uint; lia|].
  set (r2 := hi_dword x2 + lo_dword x4 + hi_dword r1) in *.
  rewrite (wrap_small 64 (hi_dword x4 + _)) by (unfold is_uint; lia).
  assert (hi_dword x4 + hi_dword r2 < 2 ^ 32) by lia.
  rewrite (shl32_low r1), (Z.lor_comm (lo_dword r2)), !lor_halves by lia.
  intros [= <- <-]. unfold is_uint. lia.
Qed.

Lemma mul_portable_mul128 a b : is_u64 a -> is_u64 b -> mul_portable a b = mul a b.
Proof.
  intros Ha Hb. unfold mul. destruct (mul_portable a b) as [l1 h1] eqn:E1, (mul128 a b) as [l2 h2] eqn:E2.
  apply mul_portable_correct in E1; [|done..]. apply mul128_correct in E2; [|done..].
  unfold is_uint in *. f_equal; lia.
Qed.

Lemma cadc_spec a b c : is_u64 a -> is_u64 b -> cadc a b c = (2 ^ 64 <=? a + b + Z.b2z c).
Proof.
  intros Ha Hb. unfold cadc. pose proof (add_carry a b Ha Hb) as H.
  assert (is_u64 (a ⊞ b)) by (apply wrap_range; lia). unfold is_uint in *.
  destruct (a ⊞ b <? a) eqn:E1; bcase_hyps; cbn [orb].
  - symmetry. apply Z.leb_le. destruct c; cbn [Z.b2z]; lia.
  - destruct c; cbn [andb Z.b2z]; [|symmetry; apply Z.leb_gt; lia].
    destruct (Z.eqb_spec (a ⊞ b) UINT64_MAX); symmetry; [apply Z.leb_le|apply Z.leb_gt]; lia.
Qed.

Lemma cadd_spec a b : is_u64 a -> is_u64 b -> cadd a b = (2 ^ 64 <=? a + b).
Proof.
  intros Ha Hb. pose proof (cadc_spec a b false Ha Hb) as H. unfold cadc in H.
  cbn [andb Z.b2z] in H. rewrite orb_false_r, Z.add_0_r in H. done.
Qed.

Lemma load_u64_range hash i : bytes hash -> is_u64 (load_u64_from_hash hash i).
Proof.
  intros Hb. unfold load_u64_from_hash, SWAP64LE.
  pose proof (le_val_range (take 8 (drop (8 * i) hash)) ltac:(by apply Forall_take, Forall_drop)) as [H1 H2].
  split; [done|]. eapply Z.lt_le_trans; [exact H2|]. change (2 ^ 64) with (256 ^ 8).
  apply Z.pow_le_mono_r; [lia|]. rewrite length_take. lia.
Qed.

(** The four words of a hash, least significant first. *)
Lemma hash_words hash :
  length hash = 32%nat ->
  le_val hash = load_u64_from_hash hash 0 + 2 ^ 64 * load_u64_from_hash hash 1 +
    2 ^ 128 * load_u64_from_hash hash 2 + 2 ^ 192 * load_u64_from_hash hash 3.
Proof.
  intros Hl. unfold load_u64_from_hash, SWAP64LE.
  rewrite <- (take_drop 8 hash) at 1. rewrite <- (take_drop 8 (drop 8 hash)) at 1.
  rewrite <- (take_drop 8 (drop 8 (drop 8 hash))) at 1. rewrite !drop_drop, !le_val_app, !length_take, !length_drop, Hl.
  change (8 * 0)%nat with 0%nat. rewrite drop_0.
  rewrite (take_ge (drop (8 * 3) hash)) by (rewrite length_drop; lia).
  change (Z.of_nat (8 `min` 32)) with 8. change (Z.of_nat (8 `min` (32 - 8))) with 8.
  change (Z.of_nat (8 `min` (32 - (8 + 8)))) with 8. change (256 ^ 8) with (2 ^ 64).
  change (8 * 1)%nat with 8%nat. change (8 * 2)%nat with (8 + 8)%nat. change (8 * 3)%nat with (8 + 8 + 8)%nat.
  lia.
Qed.

Lemma check_hash_64_spec hash d :
  bytes hash -> length hash = 32%nat -> is_u64 d ->
  check_hash_64 hash d = (le_val hash * d <? 2 ^ 256).
Proof.
  intros Hb Hl Hd. rewrite (hash_words hash Hl). unfold check_hash_64, mul.
  pose proof (load_u64_range hash 0 Hb). pose proof (load_u64_range hash 1 Hb).
  pose proof (load_u64_range hash 2 Hb). pose proof (load_u64_range hash 3 Hb).
  set (w0 := load_u64_from_hash hash 0) in *. set (w1 := load_u64_from_hash hash 1) in *.
  set (w2 := load_u64_from_hash hash 2) in *. set (w3 := load_u64_from_hash hash 3) in *.
  destruct (mul128 w3 d) as [l3 h3] eqn:E3, (mul128 w2 d) as [l2 h2] eqn:E2,
    (mul128 w1 d) as [l1 h1] eqn:E1, (mul128 w0 d) as [l0 h0] eqn:E0.
  apply mul128_correct in E0 as (E0 & ? & ?), E1 as (E1 & ? & ?), E2 as (E2 & ? & ?), E3 as (E3 & ? & ?); [|done..].
  rewrite !Z.mul_add_distr_r, <- !Z.mul_assoc, <- E0, <- E1, <- E2, <- E3.
  rewrite cadd_spec, !cadc_spec by done. unfold is_uint in *.
  destruct (h3 =? 0) eqn:Eh; bcase_hyps; cbn [negb]; [|symmetry; apply Z.ltb_ge; lia].
  destruct (2 ^ 64 <=? h0 + l1) eqn:?; cbn [Z.b2z];
  match goal with |- context [2 ^ 64 <=? h1 + l2 + ?c] => destruct (2 ^ 64 <=? h1 + l2 + c) eqn:? end; cbn [Z.b2z];
  match goal with |- negb ?b = _ => destruct b eqn:? end; bcase_hyps; cbn [negb]; symmetry;
  solve [apply Z.ltb_lt; lia | apply Z.ltb_ge; lia].
Qed.

Lemma lor_word v w : 0 <= v < 2 ^ 448 -> is_u64 w -> Z.lor (wrap 512 (Z.shiftl v 64)) w = v * 2 ^ 64 + w.
Proof.
  intros Hv Hw. rewrite shiftl_mul, wrap_small by (unfold is_uint; lia). by apply lor_disjoint.
Qed.

Lemma check_hash_128_spec hash d :
  bytes hash -> length hash = 32%nat -> is_u128 d ->
  check_hash_128 hash d = (le_val hash * d <? 2 ^ 256).
Proof.
  intros Hb Hl Hd. pose proof (le_val_range hash Hb) as Hr. rewrite Hl in Hr. revert Hr.
  rewrite (hash_words hash Hl). unfold check_hash_128, hash_value_step. cbn [foldl Nat.sub].
  pose proof (load_u64_range hash 0 Hb). pose proof (load_u64_range hash 1 Hb).
  pose proof (load_u64_range hash 2 Hb). pose proof (load_u64_range hash 3 Hb).
  set (w0 := load_u64_from_hash hash 0) in *. set (w1 := load_u64_from_hash hash 1) in *.
  set (w2 := load_u64_from_hash hash 2) in *. set (w3 := load_u64_from_hash hash 3) in *.
  clearbody w0 w1 w2 w3. intros Hr. change (256 ^ 32%nat) with (2 ^ 256) in Hr.
  unfold is_uint in *. rewrite (lor_word 0 w3), (lor_word _ w2), (lor_word _ w1), (lor_word _ w0) by (unfold is_uint; lia).
  replace (((0 * 2 ^ 64 + w3) * 2 ^ 64 + w2) * 2 ^ 64 + w1) with (w1 + w2 * 2 ^ 64 + w3 * 2 ^ 128) by lia.
  replace ((w1 + w2 * 2 ^ 64 + w3 * 2 ^ 128) * 2 ^ 64 + w0)
    with (w0 + 2 ^ 64 * w1 + 2 ^ 128 * w2 + 2 ^ 192 * w3) by lia.
  set (h := w0 + 2 ^ 64 * w1 + 2 ^ 128 * w2 + 2 ^ 192 * w3) in *.
  rewrite wrap_small.
  - destruct (Z.ltb_spec (h * d) (2 ^ 256)); [apply Z.leb_le|apply Z.leb_gt]; lia.
  - split; [nia|]. apply Z.lt_le_trans with (2 ^ 256 * 2 ^ 128); [nia|lia].
Qed.

(** C11: The proof-of-work test accepts a hash exactly when the hash, read as a
    little-endian 256-bit integer, times the difficulty stays below 2^256, for
    every 128-bit difficulty: the carry-propagating 64-bit fast path and the wide
    path decide the same relation. *)
Theorem check_hash_correct hash difficulty :
  bytes hash -> length hash = 32%nat -> is_u128 difficulty ->
  check_hash hash difficulty = true <-> le_val hash * difficulty < 2 ^ 256.
Proof.
  intros Hb Hl Hd. rewrite <- Z.ltb_lt. unfold check_hash. bcase.
  - rewrite wrap_small by (unfold is_uint in *; lia).
    rewrite check_hash_64_spec; [done..|]. unfold is_uint in *; lia.
  - by rewrite check_hash_128_spec.
Qed.

Lemma check_hash_correct_witness :
  let hash := replicate 30 0 ++ [1; 0] in
  (bytes hash /\ length hash = 32%nat /\ is_u128 255) /\
  (check_hash hash 255 = true <-> le_val hash * 255 < 2 ^ 256).
Proof.
  cbv zeta. assert (H : bytes (replicate 30 0 ++ [1; 0]) /\ length (replicate 30 0 ++ [1; 0]) = 32%nat /\ is_u128 255).
  { split_and!; [|done|by apply is_uintb_spec].
    repeat constructor; vm_compute; done || discriminate. }
  split; [exact H|]. apply (check_hash_correct (replicate 30 0 ++ [1; 0]) 255); apply H.
Defined.

(** ** Retargeting *)

(** The inputs a chain supplies: as many timestamps as cumulative
    difficulties, the latter strictly increasing and of width [w]. *)
Record chain_window (w : Z) (ts cds : list Z) : Prop := {
  cw_length : length ts = length cds;
  cw_ts : Forall is_u64 ts;
  cw_cds : Forall (is_uint w) cds;
  cw_increasing : StronglySorted Z.lt cds;
}.

(** What the code measures on its window: the time span between the sorted
    timestamps at the cut, at least one second, and the work between the
    blocks at the cut. *)
Definition window_size (ts : list Z) : Z := Z.of_nat (length (take 720 ts)).
Definition nth_Z (l : list Z) (i : Z) : Z := nth (Z.to_nat i) l 0.

Definition window_span (ts : list Z) : Z :=
  let '(b, e) := cut_bounds (window_size ts) in
  let s := merge_sort Z.le (take 720 ts) in
  Z.max 1 (nth_Z s (e - 1) - nth_Z s b).

Definition window_work (ts cds : list Z) : Z :=
  let '(b, e) := cut_bounds (window_size ts) in nth_Z cds (e - 1) - nth_Z cds b.

Lemma vec_resize_window_take ts cds :
  length ts = length cds -> vec_resize_window ts cds = (take 720 ts, take 720 cds).
Proof.
  intros Hl. unfold vec_resize_window, DIFFICULTY_WINDOW. bcase.
  - rewrite !resize_le by lia. done.
  - rewrite !take_ge by lia. done.
Qed.

Lemma cut_bounds_ok (n : Z) b e : 2 <= n <= 720 -> cut_bounds n = (b, e) -> 0 <= b /\ b + 2 <= e <= n.
Proof.
  unfold cut_bounds, DIFFICULTY_WINDOW, DIFFICULTY_CUT. intros Hn. bcase; intros [= <- <-]; zlia.
Qed.

Lemma at_Z_nth l i : 0 <= i < length l -> at_Z l i = Some (nth_Z l i).
Proof.
  intros Hi. unfold at_Z, nth_Z. bfalse (i <? 0).
  destruct (l !! Z.to_nat i) as [x|] eqn:E.
  - f_equal. symmetry. by apply nth_lookup_Some.
  - apply lookup_ge_None in E. lia.
Qed.

Lemma nth_Z_Forall (P : Z -> Prop) l i : Forall P l -> 0 <= i < length l -> P (nth_Z l i).
Proof. intros HF Hi. pose proof (at_Z_nth l i Hi) as E. unfold at_Z in E. case_match; [done|]. eapply Forall_lookup_1; eauto. Qed.

Lemma nth_Z_take l (n : nat) i : 0 <= i < n -> nth_Z (take n l) i = nth_Z l i.
Proof. intros. unfold nth_Z. rewrite !nth_lookup, lookup_take_lt by lia. done. Qed.

Lemma StronglySorted_nth R l i j :
  StronglySorted R l -> 0 <= i < j -> j < length l -> R (nth_Z l i) (nth_Z l j).
Proof.
  intros HS Hij Hj. destruct (lookup_lt_is_Some_2 l (Z.to_nat i)) as [x Hx]; [lia|].
  destruct (lookup_lt_is_Some_2 l (Z.to_nat j)) as [y Hy]; [lia|].
  unfold nth_Z. rewrite (nth_lookup_Some _ _ _ _ Hx), (nth_lookup_Some _ _ _ _ Hy).
  eapply strongly_sorted_lookup; [done| |apply Hx|apply Hy]. lia.
Qed.

Lemma window_span_range ts : Forall is_u64 ts -> 2 <= length ts -> 1 <= window_span ts < 2 ^ 64.
Proof.
  intros Hts Hl. unfold window_span. destruct (cut_bounds _) as [b e] eqn:Ec.
  assert (Hn : window_size ts <= length ts) by (unfold window_size; rewrite length_take; lia).
  apply cut_bounds_ok in Ec; [|unfold window_size in *; rewrite length_take in *; lia].
  assert (Forall is_u64 (merge_sort Z.le (take 720 ts))) as HF.
  { rewrite merge_sort_Permutation. by apply Forall_take. }
  assert (Hlen : length (merge_sort Z.le (take 720 ts)) = Z.to_nat (window_size ts)).
  { rewrite merge_sort_Permutation. unfold window_size. lia. }
  pose proof (nth_Z_Forall _ _ (e - 1) HF ltac:(lia)). pose proof (nth_Z_Forall _ _ b HF ltac:(lia)).
  cbv beta zeta in *. unfold is_uint in *. lia.
Qed.

(** Both retargeting functions measure [window_span] and [window_work]. *)
Lemma window_measure w ts cds b e :
  chain_window w ts cds -> 2 <= length ts -> cut_bounds (window_size ts) = (b, e) ->
  exists t0 t1 d0 d1,
    at_Z (merge_sort Z.le (take 720 ts)) (e - 1) = Some t1 /\
    at_Z (merge_sort Z.le (take 720 ts)) b = Some t0 /\
    at_Z (take 720 cds) (e - 1) = Some d1 /\ at_Z (take 720 cds) b = Some d0 /\
    (if t1 ⊟ t0 =? 0 then 1 else t1 ⊟ t0) = window_span ts /\
    d1 - d0 = window_work ts cds /\ 0 < window_work ts cds < 2 ^ w.
Proof.
  intros [Hl Hts Hcds Hinc] H2 Ec. pose proof Ec as Hc.
  assert (Hn : window_size ts = Z.of_nat (720 `min` length ts)) by (unfold window_size; rewrite length_take; lia).
  apply cut_bounds_ok in Hc; [|lia].
  assert (HF : Forall is_u64 (merge_sort Z.le (take 720 ts))) by (rewrite merge_sort_Permutation; by apply Forall_take).
  assert (HS : StronglySorted Z.le (merge_sort Z.le (take 720 ts))) by apply (StronglySorted_merge_sort _ _).
  assert (Hlen : length (merge_sort Z.le (take 720 ts)) = Z.to_nat (window_size ts))
    by (rewrite merge_sort_Permutation; unfold window_size; lia).
  assert (Hlc : length (take 720 cds) = Z.to_nat (window_size ts)) by (rewrite length_take; lia).
  do 4 eexists. rewrite !at_Z_nth by lia. split_and!; try done.
  - unfold window_span. rewrite Ec.
    pose proof (StronglySorted_nth _ _ b (e - 1) HS ltac:(lia) ltac:(lia)).
    pose proof (nth_Z_Forall _ _ (e - 1) HF ltac:(lia)). pose proof (nth_Z_Forall _ _ b HF ltac:(lia)).
    cbv beta zeta in *. unfold is_uint in *. rewrite wrap_small by (unfold is_uint; lia). bcase; lia.
  - unfold window_work. rewrite Ec, !nth_Z_take by lia. done.
  - unfold window_work. rewrite Ec.
    pose proof (StronglySorted_nth _ _ b (e - 1) Hinc ltac:(lia) ltac:(lia)).
    pose proof (nth_Z_Forall _ _ (e - 1) Hcds ltac:(lia)). pose proof (nth_Z_Forall _ _ b Hcds ltac:(lia)).
    cbv beta in *. unfold is_uint in *. lia.
  - unfold window_work. rewrite Ec.
    pose proof (nth_Z_Forall _ _ (e - 1) Hcds ltac:(lia)). pose proof (nth_Z_Forall _ _ b Hcds ltac:(lia)).
    cbv beta in *. unfold is_uint in *. lia.
Qed.

Lemma window_work_range w ts cds : chain_window w ts cds -> 2 <= length ts -> 0 < window_work ts cds < 2 ^ w.
Proof.
  intros Hw H2. destruct (cut_bounds (window_size ts)) as [b e] eqn:Ec.
  by destruct (window_measure w ts cds b e Hw H2 Ec) as (? & ? & ? & ? & ? & ? & ? & ? & ? & ? & ?).
Qed.

(** Division rounding up: the least quotient that covers the dividend. *)
Definition ceil_div (a b : Z) : Z := (a + b - 1) / b.

Lemma ceil_div_least a b d : 0 < b -> a <= d * b <-> ceil_div a b <= d.
Proof. intros. unfold ceil_div. split; intros; Z.div_mod_to_equations; nia. Qed.

Lemma next_difficulty_measured ts cds target :
  chain_window 128 ts cds -> 2 <= length ts -> is_u64 target ->
  let d := ceil_div (window_work ts cds * target) (window_span ts) in
  next_difficulty ts cds target = Some (if d <? 2 ^ 128 then d else 0).
Proof.
  intros Hw H2 Ht. unfold next_difficulty. rewrite vec_resize_window_take by apply Hw.
  pose proof (window_span_range ts ltac:(apply Hw) H2) as Hs.
  fold (window_size ts). destruct (cut_bounds (window_size ts)) as [b e] eqn:Ec.
  destruct (window_measure 128 ts cds b e Hw H2 Ec) as (t0 & t1 & d0 & d1 & -> & -> & -> & -> & Es & Ed & Hwork).
  assert (Hn : window_size ts = Z.of_nat (720 `min` length ts)) by (unfold window_size; rewrite length_take; lia).
  apply cut_bounds_ok in Ec; [|lia]. rewrite length_take, <- (cw_length _ _ _ Hw), <- Hn, Z.eqb_refl. cbn [negb].
  bfalse (window_size ts <=? 1). btrue ((b + 2 <=? e) && (e <=? window_size ts)). cbn [negb mbind option_bind].
  cbv zeta. rewrite Es, Ed. set (work := window_work ts cds) in *. set (span := window_span ts) in *.
  rewrite (wrap_small 128) by (unfold is_uint; lia). bfalse (work <=? 0). unfold is_uint in Ht.
  assert (0 <= work * target < 2 ^ 128 * 2 ^ 64) by nia.
  rewrite (wrap_small 256 (work * target)), (wrap_small 256 (_ - 1)) by (unfold is_uint; lia).
  replace ((work * target + span - 1) / span) with (ceil_div (work * target) span) by (unfold ceil_div; reflexivity).
  assert (0 <= ceil_div (work * target) span) by (apply Z.div_pos; lia).
  destruct (Z.ltb_spec (ceil_div (work * target) span) (2 ^ 128)).
  - bfalse (2 ^ 128 - 1 <? ceil_div (work * target) span). rewrite wrap_small; [done|by split].
  - btrue (2 ^ 128 - 1 <? ceil_div (work * target) span). done.
Qed.

Lemma next_difficulty_64_measured ts cds target :
  chain_window 64 ts cds -> 2 <= length ts -> is_u64 target ->
  let work := window_work ts cds in let span := window_span ts in
  next_difficulty_64 ts cds target =
    Some (if work * target + span - 1 <? 2 ^ 64 then ceil_div (work * target) span else 0).
Proof.
  intros Hw H2 Ht. unfold next_difficulty_64. rewrite vec_resize_window_take by apply Hw.
  pose proof (window_span_range ts ltac:(apply Hw) H2) as Hs.
  fold (window_size ts). destruct (cut_bounds (window_size ts)) as [b e] eqn:Ec.
  destruct (window_measure 64 ts cds b e Hw H2 Ec) as (t0 & t1 & d0 & d1 & -> & -> & -> & -> & Es & Ed & Hwork).
  assert (Hn : window_size ts = Z.of_nat (720 `min` length ts)) by (unfold window_size; rewrite length_take; lia).
  apply cut_bounds_ok in Ec; [|lia]. rewrite length_take, <- (cw_length _ _ _ Hw), <- Hn, Z.eqb_refl. cbn [negb].
  bfalse (window_size ts <=? 1). btrue ((b + 2 <=? e) && (e <=? window_size ts)). cbn [negb mbind option_bind].
  cbv zeta. rewrite Es, Ed. set (work := window_work ts cds) in *. set (span := window_span ts) in *.
  rewrite (wrap_small 64 work) by (unfold is_uint; lia). bfalse (work <=? 0). unfold mul.
  destruct (mul128 work target) as [low high] eqn:Em.
  apply mul128_correct in Em as (Em & Hlo & Hhi); [|by split; lia|done]. unfold is_uint in *.
  destruct (Z.eqb_spec high 0) as [->|]; cbn [negb orb].
  2:{ bfalse (work * target + span - 1 <? 2 ^ 64). done. }
  replace (work * target) with low by lia. rewrite wrap_sub_l.
  destruct (Z.ltb_spec (low + span - 1) (2 ^ 64)).
  - rewrite wrap_small by (unfold is_uint; lia). bfalse (low + span - 1 <? low). done.
  - assert (u64 (low + span - 1) = low + span - 1 - 2 ^ 64) as ->.
    { symmetry. apply (Z.mod_unique _ _ 1); lia. }
    btrue (low + span - 1 - 2 ^ 64 <? low). done.
Qed.

(** C40: Retargeting returns the least difficulty that covers the work of the
    window at the target block time (work times target over the trimmed time
    span, rounded up), and 0 exactly when that needs more than 128 bits. *)
Theorem next_difficulty_least ts cds target :
  chain_window 128 ts cds -> 2 <= length ts -> is_u64 target ->
  exists d, (forall e, window_work ts cds * target <= e * window_span ts <-> d <= e) /\
    next_difficulty ts cds target = Some (if d <? 2 ^ 128 then d else 0).
Proof.
  intros Hw H2 Ht. eexists. split; [|by apply next_difficulty_measured].
  intros e. apply ceil_div_least. pose proof (window_span_range ts ltac:(apply Hw) H2). lia.
Qed.

(** The 128-bit retargeting extends the original 64-bit one: on a chain whose
    cumulative difficulties fit 64 bits, a non-zero result of the old function is
    the result of the new one. *)
Theorem next_difficulty_extends_64 ts cds target d :
  chain_window 64 ts cds -> is_u64 target ->
  next_difficulty_64 ts cds target = Some d -> d <> 0 -> next_difficulty ts cds target = Some d.
Proof.
  intros Hw Ht E Hd. destruct (Z.le_gt_cases 2 (length ts)) as [H2|H1].
  - assert (Hw' : chain_window 128 ts cds).
    { destruct Hw as [??? ?]. split; [done..| |done]. eapply Forall_impl; [done|].
      intros x Hx. eapply is_uint_mono; [done|lia]. }
    rewrite next_difficulty_64_measured in E by done. rewrite next_difficulty_measured by done.
    cbv zeta in *. pose proof (window_span_range ts ltac:(apply Hw) H2).
    simplify_eq. case_match; [|done]. bcase_hyps.
    assert (ceil_div (window_work ts cds * target) (window_span ts) < 2 ^ 64).
    { unfold ceil_div. apply Z.div_lt_upper_bound; nia. }
    btrue (ceil_div (window_work ts cds * target) (window_span ts) <? 2 ^ 128). done.
  - revert E. unfold next_difficulty, next_difficulty_64. rewrite vec_resize_window_take by apply Hw.
    rewrite !length_take, <- (cw_length _ _ _ Hw), Z.eqb_refl. cbn [negb].
    btrue (Z.of_nat (720 `min` length ts) <=? 1). done.
Qed.

(** In a sorted list with at most [k] elements below [lo], the element at
    index [k] is at least [lo]; and dually from the other end. *)
Lemma sorted_low_outliers l (lo : Z) (k : nat) x :
  StronglySorted Z.le l -> (length (filter (fun t => (t < lo)%Z) l) <= k)%nat -> l !! k = Some x -> lo <= x.
Proof.
  intros HS Hf Hx. destruct (Z.le_gt_cases lo x) as [|Hlt]; [done|]. exfalso.
  rewrite <- (take_drop (S k) l), filter_app, length_app in Hf.
  rewrite (filter_Forall_id _ (take (S k) l)) in Hf; [|].
  - rewrite length_take in Hf. apply lookup_lt_Some in Hx. lia.
  - apply Forall_lookup. intros i y Hy. apply lookup_take_Some in Hy as [Hy Hi].
    destruct (decide (i = k)) as [->|]; [simplify_eq; lia|].
    pose proof (strongly_sorted_lookup _ _ i k y x HS ltac:(lia) Hy Hx). lia.
Qed.

Lemma sorted_high_outliers l (hi : Z) (k : nat) x :
  StronglySorted Z.le l -> (length (filter (fun t => (hi < t)%Z) l) + k < length l)%nat -> l !! k = Some x -> x <= hi.
Proof.
  intros HS Hf Hx. destruct (Z.le_gt_cases x hi) as [|Hlt]; [done|]. exfalso.
  rewrite <- (take_drop k l), filter_app, length_app in Hf at 1.
  rewrite (filter_Forall_id _ (drop k l)) in Hf; [|].
  - rewrite length_drop in Hf. lia.
  - apply Forall_lookup. intros i y Hy. rewrite lookup_drop in Hy.
    destruct i as [|i]; [rewrite Nat.add_0_r in Hy; simplify_eq; lia|].
    pose proof (strongly_sorted_lookup _ _ k (k + S i) x y HS ltac:(lia) Hx Hy). lia.
Qed.

Lemma nth_Z_lookup l i : 0 <= i < length l -> l !! Z.to_nat i = Some (nth_Z l i).
Proof. intros Hi. pose proof (at_Z_nth l i Hi) as E. unfold at_Z in E. case_match; done. Qed.

(** Time-warp resistance of a full window: if at most 60 of the 720 timestamps
    lie below [lo] and at most 60 above [hi], then the new difficulty, when it
    fits, covers the work of the window over a span of at most [hi - lo], whatever
    the outlying timestamps are. *)
Theorem next_difficulty_outliers ts cds target (lo hi : Z) d :
  chain_window 128 ts cds -> is_u64 target -> length ts = Z.to_nat DIFFICULTY_WINDOW -> lo < hi ->
  Z.of_nat (length (filter (fun t => t < lo) ts)) <= DIFFICULTY_CUT ->
  Z.of_nat (length (filter (fun t => hi < t) ts)) <= DIFFICULTY_CUT ->
  next_difficulty ts cds target = Some d -> d <> 0 ->
  window_work ts cds * target <= d * (hi - lo).
Proof.
  unfold DIFFICULTY_WINDOW, DIFFICULTY_CUT. intros Hw Ht Hl Hlh Hlo Hhi E Hd.
  rewrite next_difficulty_measured in E by (done || lia). cbv zeta in E. simplify_eq.
  case_match; [|done]. pose proof (window_span_range ts ltac:(apply Hw) ltac:(lia)).
  assert (window_work ts cds * target <= ceil_div (window_work ts cds * target) (window_span ts) * window_span ts)
    by (apply ceil_div_least; lia).
  assert (window_span ts <= hi - lo).
  { assert (Hn : window_size ts = 720) by (unfold window_size; rewrite length_take; lia).
    unfold window_span. rewrite Hn. change (cut_bounds 720) with (60, 660).
    rewrite take_ge by lia. set (s := merge_sort Z.le ts).
    assert (Hp : s ≡ₚ ts) by apply merge_sort_Permutation.
    assert (HS : StronglySorted Z.le s) by apply (StronglySorted_merge_sort _ _).
    assert (Hls : length s = 720%nat) by (rewrite Hp; lia).
    assert (lo <= nth_Z s 60).
    { apply (sorted_low_outliers s lo 60); [done| |apply (nth_Z_lookup s 60); lia].
      rewrite (filter_Permutation _ _ _ Hp). lia. }
    assert (nth_Z s (660 - 1) <= hi).
    { apply (sorted_high_outliers s hi 659); [done| |apply (nth_Z_lookup s 659); lia].
      rewrite (filter_Permutation _ _ _ Hp). lia. }
    lia. }
  pose proof (window_work_range _ _ _ Hw ltac:(lia)). unfold is_uint in Ht.
  assert (0 <= ceil_div (window_work ts cds * target) (window_span ts)) by (apply Z.div_pos; nia).
  nia.
Qed.

(** A run of 720 blocks, 120 seconds apart, with work 1000 each. *)
Definition sample_ts : list Z := map (fun n => 1000 + 120 * Z.of_nat n) (seq 0 720).
Definition sample_cds : list Z := map (fun n => 1000 * (Z.of_nat n + 1)) (seq 0 720).

Lemma sample_window w : 64 <= w -> chain_window w sample_ts sample_cds.
Proof.
  intros Hw. assert (Forall is_u64 sample_ts /\ Forall is_u64 sample_cds) as [H1 H2].
  { split; apply Forall_forall; intros x Hx; apply list_elem_of_fmap in Hx as (n & -> & Hn);
      apply elem_of_seq in Hn; unfold is_uint; lia. }
  split; [done|done| |].
  - eapply Forall_impl; [exact H2|]. intros x Hx. eapply is_uint_mono; [done|lia].
  - assert (H : bool_decide (Sorted Z.lt sample_cds) = true) by (vm_compute; reflexivity).
    apply Sorted_StronglySorted; [exact Z.lt_trans|]. by apply bool_decide_eq_true in H.
Qed.

Lemma next_difficulty_least_witness :
  (chain_window 128 sample_ts sample_cds /\ 2 <= length sample_ts /\ is_u64 120) /\
  exists d, (forall e, window_work sample_ts sample_cds * 120 <= e * window_span sample_ts <-> d <= e) /\
    next_difficulty sample_ts sample_cds 120 = Some (if d <? 2 ^ 128 then d else 0).
Proof.
  assert (H : chain_window 128 sample_ts sample_cds /\ 2 <= length sample_ts /\ is_u64 120).
  { split_and!; [apply sample_window; lia|vm_compute; discriminate|by apply is_uintb_spec]. }
  split; [exact H|]. apply (next_difficulty_least sample_ts sample_cds 120); apply H.
Defined.

Lemma next_difficulty_extends_64_witness :
  next_difficulty_64 sample_ts sample_cds 120 = Some 1000 /\ next_difficulty sample_ts sample_cds 120 = Some 1000.
Proof.
  assert (E : next_difficulty_64 sample_ts sample_cds 120 = Some 1000) by (vm_compute; reflexivity).
  split; [exact E|]. apply (next_difficulty_extends_64 sample_ts sample_cds 120 1000).
  - apply sample_window; lia.
  - by apply is_uintb_spec.
  - exact E.
  - discriminate.
Defined.

Lemma next_difficulty_outliers_witness :
  next_difficulty sample_ts sample_cds 120 = Some 1000 /\
  window_work sample_ts sample_cds * 120 <= 1000 * (80080 - 8200).
Proof.
  assert (E : next_difficulty sample_ts sample_cds 120 = Some 1000) by (vm_compute; reflexivity).
  split; [exact E|]. apply (next_difficulty_outliers sample_ts sample_cds 120 8200 80080 1000).
  - apply sample_window; lia.
  - by apply is_uintb_spec.
  - reflexivity.
  - lia.
  - vm_compute; discriminate.
  - vm_compute; discriminate.
  - exact E.
  - discriminate.
Defined.
