(* ===== verification/HashTemplate.v ===== *)
(** * HashTemplate: comparing and masking hashes by their most significant bits

    Models [compare_hash32_reversed_nbits] and [make_hash32_loose_template] of
    src/cryptonote_basic/cryptonote_basic_impl.cpp.  A hash is the list of its
    32 bytes, read as a little-endian 256-bit integer. *)
From S2P Require Import Prelude IntUtil Difficulty.

(** The four words of a hash, most significant first: the order in which both
    loops visit them. *)
Definition hash_words_be (h : list Z) : list Z :=
  map (fun n => SWAP64LE (load_u64_from_hash h n)) [3; 2; 1; 0]%nat.

Fixpoint compare_words (va vb : list Z) (nbits : Z) : Z :=
  match va, vb with
  | a :: va', b :: vb' =>
      if nbits =? 0 then 0
      else
        let msb_nbits := Z.min 64 nbits in
        let lsb_nbits_dropped := 64 - msb_nbits in
        let van := Z.shiftr a lsb_nbits_dropped in
        let vbn := Z.shiftr b lsb_nbits_dropped in
        let nbits := nbits - msb_nbits in
        if van <? vbn then -1 else if vbn <? van then 1 else compare_words va' vb' nbits
  | _, _ => 0
  end.

Definition compare_hash32_reversed_nbits (ha hb : list Z) (nbits : Z) : Z :=
  compare_words (hash_words_be ha) (hash_words_be hb) nbits.

Definition template_mask (msb_nbits : Z) : Z :=
  if msb_nbits =? 0 then 0 else u64 (Z.lnot (Z.shiftl 1 (64 - msb_nbits) - 1)).

Fixpoint mask_words (vh : list Z) (nbits : Z) : list Z :=
  match vh with
  | w :: vh' =>
      let msb_nbits := Z.min 64 nbits in
      Z.land w (SWAP64LE (template_mask msb_nbits)) :: mask_words vh' (nbits - msb_nbits)
  | [] => []
  end.

(** The masked words are stored back at their places. *)
Definition make_hash32_loose_template (nbits : Z) (h : list Z) : list Z :=
  flat_map (le_bytes 8) (reverse (mask_words (hash_words_be h) nbits)).

(** ** Lemmas *)

(** The [n] most significant bits of a [k]-word big-endian number. *)
Definition top_bits (k : nat) (n v : Z) : Z := v / 2 ^ (64 * k - n).

Definition words (l : list Z) : Prop := Forall (fun d => 0 <= d < 2 ^ 64) l.
Definition words_val (l : list Z) : Z := be_val (2 ^ 64) l.

Lemma words_val_cons w l : words_val (w :: l) = w * 2 ^ (64 * length l) + words_val l.
Proof. unfold words_val. rewrite be_val_cons. f_equal. f_equal. rewrite <- Z.pow_mul_r by lia. done. Qed.

Lemma words_val_range l : words l -> 0 <= words_val l < 2 ^ (64 * length l).
Proof. intros Hl. rewrite Z.pow_mul_r by lia. apply be_val_range; [lia|done]. Qed.

(** Split the top bits at the first word. *)
Lemma top_bits_cons k w l n :
  words (w :: l) -> length l = k -> 0 <= n ->
  top_bits (S k) (Z.min n (64 * S k)) (words_val (w :: l)) =
    if n <=? 64 then w / 2 ^ (64 - n)
    else w * 2 ^ (Z.min (n - 64) (64 * k)) + top_bits k (Z.min (n - 64) (64 * k)) (words_val l).
Proof.
  intros Hw <- Hn. apply Forall_cons in Hw as [Hw Hl]. pose proof (words_val_range l Hl) as Hr.
  rewrite words_val_cons. unfold top_bits. set (K := 64 * Z.of_nat (length l)) in *.
  assert (HK : 0 <= K) by lia. replace (64 * Z.of_nat (S (length l))) with (K + 64) by lia.
  destruct (Z.leb_spec n 64).
  - rewrite Z.min_l by lia. replace (K + 64 - n) with (K + (64 - n)) by lia. rewrite Z.pow_add_r by lia.
    rewrite <- Z.div_div by (try apply Z.pow_nonzero; lia).
    rewrite Z.div_add_l, (Z.div_small (words_val l)) by lia. f_equal. lia.
  - set (n' := Z.min (n - 64) K). replace (Z.min n (K + 64)) with (n' + 64) by lia.
    replace (K + 64 - (n' + 64)) with (K - n') by lia.
    assert (E : 2 ^ K = 2 ^ n' * 2 ^ (K - n')) by (rewrite <- Z.pow_add_r by lia; f_equal; lia).
    rewrite E, Z.mul_assoc, Z.div_add_l by (apply Z.pow_nonzero; lia). done.
Qed.

Lemma top_bits_range k n l : words l -> length l = k -> 0 <= n <= 64 * k -> 0 <= top_bits k n (words_val l) < 2 ^ n.
Proof.
  intros Hl Hk Hn. pose proof (words_val_range l Hl) as Hr. rewrite Hk in Hr. unfold top_bits.
  pose proof (pow2_pos (64 * k - n) ltac:(lia)). split; [apply Z.div_pos; lia|].
  apply Z.div_lt_upper_bound; [done|]. rewrite <- Z.pow_add_r by lia. replace (64 * k - n + n) with (64 * k) by lia. lia.
Qed.

Definition sign_of (c : comparison) : Z := match c with Lt => -1 | Eq => 0 | Gt => 1 end.

Lemma sign_of_lex a b B x y :
  0 < B -> 0 <= x < B -> 0 <= y < B ->
  sign_of (a * B + x ?= b * B + y) = if a <? b then -1 else if b <? a then 1 else sign_of (x ?= y).
Proof.
  intros HB Hx Hy. bcase.
  - replace (a * B + x ?= b * B + y) with Lt; [done|]. symmetry. apply Z.compare_lt_iff. nia.
  - replace (a * B + x ?= b * B + y) with Gt; [done|]. symmetry. apply Z.compare_gt_iff. nia.
  - assert (a = b) as -> by lia. by rewrite Z.add_compare_mono_l.
Qed.

Lemma compare_words_spec k : forall va vb nbits,
  words va -> words vb -> length va = k -> length vb = k -> 0 <= nbits ->
  let n := Z.min nbits (64 * k) in
  compare_words va vb nbits = sign_of (top_bits k n (words_val va) ?= top_bits k n (words_val vb)).
Proof.
  induction k as [|k IH]; intros [|a va] [|b vb] nbits Ha Hb Hla Hlb Hn; try done.
  cbv zeta. injection Hla as Hla. injection Hlb as Hlb. cbn [compare_words].
  rewrite !top_bits_cons by done. pose proof Ha as Ha'. pose proof Hb as Hb'.
  apply Forall_cons in Ha' as [Hwa Ha'], Hb' as [Hwb Hb'].
  destruct (Z.eqb_spec nbits 0) as [->|].
  { rewrite !Z.div_small by (simpl; lia). done. }
  rewrite IH by (done || lia). cbv zeta. destruct (Z.leb_spec nbits 64).
  - rewrite (Z.min_r 64 nbits), !shiftr_div, Z.sub_diag by lia. rewrite (Z.min_l 0) by lia.
    pose proof (top_bits_range k 0 va Ha' Hla ltac:(lia)). pose proof (top_bits_range k 0 vb Hb' Hlb ltac:(lia)).
    replace (top_bits k 0 (words_val va)) with 0 by lia. replace (top_bits k 0 (words_val vb)) with 0 by lia.
    unfold Z.ltb. rewrite (Z.compare_antisym (a / 2 ^ (64 - nbits))). by destruct (_ ?= _).
  - rewrite (Z.min_l 64 nbits) by lia. change (64 - 64) with 0. rewrite !Z.shiftr_0_r.
    rewrite sign_of_lex; [done|apply pow2_pos; lia|apply top_bits_range; (done || lia)..].
Qed.

Lemma hash_words_be_words h : bytes h -> words (hash_words_be h).
Proof. intros Hb. repeat constructor; apply (load_u64_range h _ Hb). Qed.

Lemma hash_words_be_val h : length h = 32%nat -> words_val (hash_words_be h) = le_val h.
Proof.
  intros Hl. rewrite (hash_words h Hl). unfold words_val, be_val, hash_words_be, SWAP64LE. cbn [map fold_left]. lia.
Qed.

Lemma template_mask_land w m :
  0 <= w < 2 ^ 64 -> 0 <= m <= 64 -> Z.land w (template_mask m) = w / 2 ^ (64 - m) * 2 ^ (64 - m).
Proof.
  intros Hw Hm. unfold template_mask. destruct (Z.eqb_spec m 0) as [->|].
  { rewrite Z.land_0_r, Z.div_small by (simpl; lia). done. }
  rewrite shiftl_mul, Z.mul_1_l by lia. unfold Z.lnot.
  assert (Hp : 2 ^ 64 = 2 ^ m * 2 ^ (64 - m)) by (rewrite <- Z.pow_add_r by lia; f_equal; lia).
  pose proof (pow2_pos (64 - m) ltac:(lia)). pose proof (pow2_pos m ltac:(lia)).
  replace (u64 (Z.pred (- (2 ^ (64 - m) - 1)))) with ((2 ^ m - 1) * 2 ^ (64 - m)).
  - rewrite land_field by lia. f_equal. apply Z.mod_small.
    split; [apply Z.div_pos; lia|]. apply Z.div_lt_upper_bound; lia.
  - unfold wrap. apply (Z.mod_unique _ _ (-1)); [left; nia|]. rewrite Hp. lia.
Qed.

Lemma mask_words_spec k : forall l nbits,
  words l -> length l = k -> 0 <= nbits ->
  let n := Z.min nbits (64 * k) in
  words (mask_words l nbits) /\ length (mask_words l nbits) = k /\
  words_val (mask_words l nbits) = top_bits k n (words_val l) * 2 ^ (64 * k - n).
Proof.
  induction k as [|k IH]; intros [|w l] nbits Hl Hk Hn; try done.
  cbv zeta. injection Hk as Hk. pose proof Hl as Hl'. apply Forall_cons in Hl' as [Hw Hl'].
  cbn [mask_words]. unfold SWAP64LE. rewrite template_mask_land by lia.
  destruct (IH l (nbits - Z.min 64 nbits) Hl' Hk ltac:(lia)) as (H1 & H2 & H3).
  set (m := Z.min 64 nbits) in *. pose proof (pow2_pos (64 - m) ltac:(lia)).
  pose proof (Z.div_mod w (2 ^ (64 - m)) ltac:(lia)). pose proof (Z.mod_pos_bound w (2 ^ (64 - m)) ltac:(lia)).
  assert (0 <= w / 2 ^ (64 - m)) by (apply Z.div_pos; lia).
  split_and!; [constructor; [nia|done]|by simpl; rewrite H2|].
  rewrite words_val_cons, H2, H3, top_bits_cons by done. cbv zeta. destruct (Z.leb_spec nbits 64).
  - assert (m = nbits) as -> by lia. rewrite Z.sub_diag, (Z.min_l 0) by lia.
    pose proof (top_bits_range k 0 l Hl' Hk ltac:(lia)). replace (top_bits k 0 (words_val l)) with 0 by lia.
    rewrite (Z.min_l nbits) by lia. rewrite Z.mul_0_l, Z.add_0_r, <- Z.mul_assoc, <- Z.pow_add_r by lia.
    do 2 f_equal. lia.
  - assert (m = 64) as -> by lia. change (64 - 64) with 0. rewrite Z.pow_0_r, Z.div_1_r, Z.mul_1_r.
    set (n' := Z.min (nbits - 64) (64 * k)). replace (Z.min nbits (64 * S k)) with (n' + 64) by lia.
    replace (64 * S k - (n' + 64)) with (64 * k - n') by lia. rewrite Z.mul_add_distr_r, <- Z.mul_assoc, <- Z.pow_add_r by lia.
    replace (n' + (64 * k - n')) with (64 * k) by lia. done.
Qed.

Lemma le_val_words ws :
  words ws -> le_val (flat_map (le_bytes 8) (reverse ws)) = words_val ws.
Proof.
  intros Hw. induction ws as [|w ws IH] using rev_ind; [done|].
  apply Forall_app in Hw as [Hws Hw]. apply Forall_cons in Hw as [Hw _].
  rewrite reverse_app, reverse_singleton. cbn [app flat_map]. rewrite le_val_app, length_le_bytes, IH by done.
  rewrite le_val_le_bytes by (change (256 ^ 8%nat) with (2 ^ 64); lia).
  unfold words_val. rewrite be_val_snoc. change (256 ^ 8%nat) with (2 ^ 64). lia.
Qed.

Lemma template_bytes ws : bytes (flat_map (le_bytes 8) ws).
Proof. induction ws; cbn [flat_map]; [constructor|]. apply Forall_app. split; [apply le_bytes_bytes|done]. Qed.

(** ** Properties *)

(** The value of the [n] most significant bits of a 256-bit hash. *)
Definition hash_top (n : Z) (h : list Z) : Z := le_val h / 2 ^ (256 - n).

(** Comparing two hashes on [nbits] bits orders them by their [nbits] most
    significant bits as little-endian 256-bit integers (all 256 bits from 256 on). *)
Theorem compare_hash_nbits ha hb nbits :
  bytes ha -> bytes hb -> length ha = 32%nat -> length hb = 32%nat -> 0 <= nbits ->
  let n := Z.min nbits 256 in
  compare_hash32_reversed_nbits ha hb nbits = sign_of (hash_top n ha ?= hash_top n hb).
Proof.
  intros Ha Hb Hla Hlb Hn. unfold compare_hash32_reversed_nbits, hash_top.
  rewrite (compare_words_spec 4) by (done || by apply hash_words_be_words).
  by rewrite !hash_words_be_val.
Qed.

Lemma compare_hash_nbits_witness :
  let ha := replicate 31 0 ++ [128] in let hb := replicate 31 0 ++ [192] in
  compare_hash32_reversed_nbits ha hb 2 = -1 /\
  compare_hash32_reversed_nbits ha hb 1 = sign_of (hash_top (Z.min 1 256) ha ?= hash_top (Z.min 1 256) hb).
Proof.
  cbv zeta. split; [vm_compute; reflexivity|].
  apply (compare_hash_nbits (replicate 31 0 ++ [128]) (replicate 31 0 ++ [192]) 1);
    [repeat constructor; vm_compute; done || discriminate..|done|done|lia].
Defined.

(** The loose template of a hash keeps its [nbits] most significant bits and
    clears the others: it compares equal to the hash on [nbits] bits and is the
    least 32-byte hash that does. *)
Theorem loose_template_least nbits h :
  bytes h -> length h = 32%nat -> 0 <= nbits ->
  let t := make_hash32_loose_template nbits h in
  bytes t /\ length t = 32%nat /\ compare_hash32_reversed_nbits t h nbits = 0 /\
  forall h', bytes h' -> length h' = 32%nat ->
    compare_hash32_reversed_nbits h' h nbits = 0 -> le_val t <= le_val h'.
Proof.
  intros Hb Hl Hn. cbv zeta. set (n := Z.min nbits 256).
  destruct (mask_words_spec 4 _ nbits (hash_words_be_words h Hb) eq_refl Hn) as (Hw & Hlen & Hv).
  assert (Htb : bytes (make_hash32_loose_template nbits h)) by apply template_bytes.
  assert (Htl : length (make_hash32_loose_template nbits h) = 32%nat).
  { unfold make_hash32_loose_template. rewrite (length_flat_map_const _ 8) by (intros; apply length_le_bytes).
    rewrite length_reverse, Hlen. done. }
  assert (Htv : le_val (make_hash32_loose_template nbits h) = hash_top n h * 2 ^ (256 - n)).
  { unfold make_hash32_loose_template. rewrite le_val_words, Hv, hash_words_be_val by done. done. }
  pose proof (pow2_pos (256 - n) ltac:(lia)) as Hp.
  assert (Heq : forall h', bytes h' -> length h' = 32%nat ->
    compare_hash32_reversed_nbits h' h nbits = sign_of (hash_top n h' ?= hash_top n h)).
  { intros h' ? ?. unfold compare_hash32_reversed_nbits, hash_top.
    rewrite (compare_words_spec 4) by (done || by apply hash_words_be_words). by rewrite !hash_words_be_val. }
  split_and!; [done..| |].
  - rewrite Heq by done. unfold hash_top at 1. rewrite Htv, Z.div_mul by lia. by rewrite Z.compare_refl.
  - intros h' Hb' Hl' E. rewrite Heq in E by done.
    destruct (Z.compare_spec (hash_top n h') (hash_top n h)) as [Et| |]; [|done..].
    rewrite Htv, <- Et. unfold hash_top. pose proof (Z.mul_div_le (le_val h') (2 ^ (256 - n)) Hp). lia.
Qed.

Lemma loose_template_least_witness :
  let h := replicate 32 255 in let t := make_hash32_loose_template 3 h in
  bytes t /\ length t = 32%nat /\ compare_hash32_reversed_nbits t h 3 = 0 /\
  forall h', bytes h' -> length h' = 32%nat ->
    compare_hash32_reversed_nbits h' h 3 = 0 -> le_val t <= le_val h'.
Proof.
  cbv zeta. apply (loose_template_least 3 (replicate 32 255)); [|done|lia].
  repeat constructor; vm_compute; done || discriminate.
Defined.
