(* ===== verification/Hex.v ===== *)
(** * Hex: hexadecimal conversion and the character tables of the JSON reader

    Models contrib/epee/src/hex.cpp, the tables of
    contrib/epee/include/storages/parserse_base_utils.h and the hexadecimal
    helpers of contrib/epee/include/string_tools.h.  Characters are bytes. *)
From S2P Require Import Prelude.

(** ** Character tables *)

(** Character classes: 1 digit, 2 float marker, 4 letter, 8 white space,
    16 allowed in a number, 32 end of a verbatim string. *)
Definition lut : list Z :=
  [0; 0; 0; 0; 0; 0; 0; 0; 0; 8; 8; 8; 8; 8; 0; 0;
   0; 0; 0; 0; 0; 0; 0; 0; 0; 0; 0; 0; 0; 0; 0; 0;
   8; 0; 32; 0; 0; 0; 0; 0; 0; 0; 0; 16; 0; 16; 18; 0;
   17; 17; 17; 17; 17; 17; 17; 17; 17; 17; 0; 0; 0; 0; 0; 0;
   0; 4; 4; 4; 4; 22; 4; 4; 4; 4; 4; 4; 4; 4; 4; 4;
   4; 4; 4; 4; 4; 4; 4; 4; 4; 4; 4; 0; 32; 0; 0; 0;
   0; 4; 4; 4; 4; 22; 4; 4; 4; 4; 4; 4; 4; 4; 4; 4;
   4; 4; 4; 4; 4; 4; 4; 4; 4; 4; 4; 0; 0; 0; 0; 0] ++ replicate 128 0.

(** The value of a hexadecimal digit, 0xff for any other byte. *)
Definition isx : list Z :=
  replicate 48 0xff ++ [0; 1; 2; 3; 4; 5; 6; 7; 8; 9] ++ replicate 7 0xff ++
  [10; 11; 12; 13; 14; 15] ++ replicate 26 0xff ++ [10; 11; 12; 13; 14; 15] ++ replicate 153 0xff.

Definition lut_at (c : Z) : Z := nth (Z.to_nat c) lut 0.
Definition isx_at (c : Z) : Z := nth (Z.to_nat c) isx 0xff.

Definition isspace (c : Z) : bool := negb (Z.land (lut_at c) 8 =? 0).
Definition isdigit (c : Z) : bool := negb (Z.land (lut_at c) 1 =? 0).
Definition isalpha (c : Z) : bool := negb (Z.land (lut_at c) 4 =? 0).

(** ** Writing *)

Definition hexdigits : list Z := str_bytes "0123456789abcdef".
Definition hexdigit (d : Z) : Z := nth (Z.to_nat d) hexdigits 0.

Fixpoint write_hex (src : list Z) : list Z :=
  match src with
  | [] => []
  | byte :: src' => hexdigit (Z.shiftr byte 4) :: hexdigit (Z.land byte 0x0F) :: write_hex src'
  end.

(** [to_hex::string]; the [range_error] needs a source of 2^63 bytes. *)
Definition to_hex_string (src : list Z) : option (list Z) :=
  if UINT64_MAX / 2 <? length src then None else Some (write_hex src).

(** [to_hex::buffer] into an output span of [out_size] characters. *)
Definition to_hex_buffer (out_size : nat) (src : list Z) : option (list Z) :=
  if negb (bool_decide (out_size mod 2 = 0)%nat) || negb (bool_decide (out_size / 2 = length src)%nat)
  then None else Some (write_hex src).

Definition to_hex_formatted (src : list Z) : list Z := str_bytes "<" ++ write_hex src ++ str_bytes ">".

(** ** Reading *)

(** The loop of [from_hex::to_buffer_unchecked] after the parity test; a
    [false] return of the source is [None]. *)
Fixpoint from_hex_loop (s : list Z) : option (list Z) :=
  match s with
  | c1 :: c2 :: s' =>
      let tmp := isx_at c1 in
      if tmp =? 0xff then None
      else
        let t2 := isx_at c2 in
        if t2 =? 0xff then None
        else rest ← from_hex_loop s'; Some (u8 (Z.lor (Z.shiftl tmp 4) t2) :: rest)
  | _ => Some []
  end.

Definition to_buffer_unchecked (s : list Z) : option (list Z) :=
  if negb (bool_decide (length s mod 2 = 0)%nat) then None else from_hex_loop s.

(** [from_hex::to_buffer] into a span of [out_size] bytes. *)
Definition from_hex_to_buffer (out_size : nat) (src : list Z) : option (list Z) :=
  if negb (bool_decide (length src / 2 = out_size)%nat) then None else to_buffer_unchecked src.

Definition from_hex_to_string (src : list Z) : option (list Z) := to_buffer_unchecked src.

Definition parse_hexstr_to_binbuff (s : list Z) : option (list Z) := from_hex_to_string s.
Definition buff_to_hex_nodelimer (src : list Z) : option (list Z) := to_hex_string src.

(** [pod_to_hex] and [hex_to_pod] on the bytes of a standard-layout object of
    [size] bytes. *)
Definition pod_to_hex (s : list Z) : option (list Z) := to_hex_string s.
Definition hex_to_pod (size : nat) (hex_str : list Z) : option (list Z) := from_hex_to_buffer size hex_str.

(** [parse_hash256] of cryptonote_basic_impl.cpp: a 32-byte hash. *)
Definition parse_hash256 (str_hash : list Z) : option (list Z) :=
  match parse_hexstr_to_binbuff str_hash with
  | Some buf => if negb (bool_decide (length buf = 32)%nat) then None else Some buf
  | None => None
  end.

(** ** Reading with separators: [from_hex_locale::to_vector] *)

Inductive hex_error := length_error | range_error.

(** [std::isspace] and [std::tolower] in the C locale. *)
Definition std_isspace (c : Z) : bool := (c =? 32) || ((9 <=? c) && (c <=? 13)).
Definition tolower (c : Z) : Z := if (65 <=? c) && (c <=? 90) then c + 32 else c.

Definition include (c : Z) : bool := negb (std_isspace c) && negb (c =? 58).

Definition char_to_int (c : Z) : option Z :=
  let c := tolower c in
  if (48 <=? c) && (c <=? 57) then Some (c - 48)
  else if (97 <=? c) && (c <=? 102) then Some (c - 87)
  else None.

(** [pending] is the high digit already read; reading a low digit at the end
    meets the terminating NUL. *)
Fixpoint locale_loop (pending : option Z) (data : list Z) : list Z + hex_error :=
  match data with
  | [] => match pending with None => inl [] | Some _ => inr range_error end
  | c :: data' =>
      if negb (include c) then locale_loop pending data'
      else
        match char_to_int c, pending with
        | None, _ => inr range_error
        | Some high, None => locale_loop (Some high) data'
        | Some low, Some high =>
            match locale_loop None data' with
            | inl result => inl (u8 (Z.lor (Z.shiftl high 4) low) :: result)
            | inr e => inr e
            end
        end
  end.

Definition from_hex_locale_to_vector (src : list Z) : list Z + hex_error :=
  let count := length (filter (fun c => include c = true) src) in
  if bool_decide (count mod 2 = 0)%nat then locale_loop None src else inr length_error.

(** ** Lemmas *)

(** A statement about every byte, decided by evaluation. *)
Lemma byte_forall (P : Z -> bool) : forallb P (seqZ 0 256) = true -> forall c, is_u8 c -> P c = true.
Proof.
  intros H c Hc. rewrite forallb_forall in H. apply H, list_elem_of_In, elem_of_seqZ.
  unfold is_uint in Hc. lia.
Qed.

Lemma nibble_forall (P : Z -> bool) : forallb P (seqZ 0 16) = true -> forall d, 0 <= d < 16 -> P d = true.
Proof. intros H d Hd. rewrite forallb_forall in H. apply H, list_elem_of_In, elem_of_seqZ. lia. Qed.

Lemma isx_hexdigit d : 0 <= d < 16 -> isx_at (hexdigit d) = d.
Proof.
  intros Hd. apply Z.eqb_eq. revert d Hd.
  apply (nibble_forall (fun d => isx_at (hexdigit d) =? d)). vm_compute. reflexivity.
Qed.

Lemma hexdigit_isx c : is_u8 c -> isx_at c <> 0xff -> 0 <= isx_at c < 16 /\ hexdigit (isx_at c) = tolower c.
Proof.
  intros Hc Hx. pose proof (byte_forall (fun c => (isx_at c =? 0xff) ||
    ((0 <=? isx_at c) && (isx_at c <? 16) && (hexdigit (isx_at c) =? tolower c)))
    ltac:(vm_compute; reflexivity) c Hc) as H.
  cbv beta in H. apply orb_true_iff in H as [H|H]; bcase_hyps; [done|lia].
Qed.

Lemma char_to_int_isx c :
  is_u8 c -> char_to_int c = if isx_at c =? 0xff then None else Some (isx_at c).
Proof.
  intros Hc. set (P := fun c => bool_decide (char_to_int c = if isx_at c =? 0xff then None else Some (isx_at c))).
  pose proof (byte_forall P ltac:(vm_compute; reflexivity) c Hc) as H. by apply bool_decide_eq_true in H.
Qed.

Lemma isx_include c : is_u8 c -> isx_at c <> 0xff -> include c = true.
Proof.
  intros Hc Hx. pose proof (byte_forall (fun c => (isx_at c =? 0xff) || include c)
    ltac:(vm_compute; reflexivity) c Hc) as H.
  cbv beta in H. apply orb_true_iff in H as [H|H]; bcase_hyps; done.
Qed.

Lemma byte_nibbles b : is_u8 b ->
  0 <= Z.shiftr b 4 < 16 /\ 0 <= Z.land b 0xF < 16 /\ u8 (Z.lor (Z.shiftl (Z.shiftr b 4) 4) (Z.land b 0xF)) = b.
Proof.
  intros Hb. unfold is_uint in Hb. rewrite shiftr_div, shiftl_mul by lia.
  change 0xF with (2 ^ 4 - 1). rewrite land_ones_mod by lia.
  rewrite lor_disjoint by zlia. unfold wrap. split_and!; zlia.
Qed.

Lemma nibbles_byte h l : 0 <= h < 16 -> 0 <= l < 16 ->
  let b := u8 (Z.lor (Z.shiftl h 4) l) in is_u8 b /\ Z.shiftr b 4 = h /\ Z.land b 0xF = l.
Proof.
  intros Hh Hl b. unfold b. rewrite shiftl_mul, lor_disjoint by lia.
  rewrite wrap_small by (unfold is_uint; lia). rewrite shiftr_div by lia.
  change 0xF with (2 ^ 4 - 1). rewrite land_ones_mod by lia. unfold is_uint. split_and!; zlia.
Qed.

Lemma write_hex_bytes_length src : length (write_hex src) = (2 * length src)%nat.
Proof. induction src as [|b src IH]; [done|]. simpl. rewrite IH. lia. Qed.

Lemma from_hex_loop_write src : bytes src -> from_hex_loop (write_hex src) = Some src.
Proof.
  induction 1 as [|b src Hb Hs IH]; [done|]. cbn [write_hex from_hex_loop].
  destruct (byte_nibbles b Hb) as (H1 & H2 & H3). rewrite !isx_hexdigit by lia.
  bfalse (Z.shiftr b 4 =? 255). bfalse (Z.land b 15 =? 255). rewrite IH. simpl. by rewrite H3.
Qed.

(** Two characters at a time. *)
Lemma pair_list_ind (P : list Z -> Prop) :
  P [] -> (forall a, P [a]) -> (forall a b l, P l -> P (a :: b :: l)) -> forall l, P l.
Proof. intros H0 H1 H2. fix IH 1. intros [|a [|b l]]; [done|done|]. apply H2, IH. Qed.

Lemma even_length_tail {A} (a b : A) l : (length (a :: b :: l) mod 2 = 0)%nat -> (length l mod 2 = 0)%nat.
Proof.
  cbn [length]. replace (S (S (length l))) with (length l + 1 * 2)%nat by lia.
  by rewrite Nat.Div0.mod_add.
Qed.

Lemma from_hex_loop_inv s b :
  (length s mod 2 = 0)%nat -> bytes s -> from_hex_loop s = Some b -> bytes b /\ write_hex b = tolower <$> s.
Proof.
  revert b. induction s as [|c|c1 c2 s IH] using pair_list_ind; intros b Hl Hs E; [|done|].
  { simplify_eq/=. by split; [constructor|]. }
  apply even_length_tail in Hl.
  inversion Hs as [|?? Hc1 Hs']; subst. inversion Hs' as [|?? Hc2 Hs'']; subst.
  cbn [from_hex_loop] in E. destruct (isx_at c1 =? 255) eqn:E1, (isx_at c2 =? 255) eqn:E2; try done. bcase_hyps.
  destruct (from_hex_loop s) as [r|] eqn:Er; [|done]. simplify_eq/=.
  destruct (IH r Hl Hs'' eq_refl) as [Hr Hw].
  destruct (hexdigit_isx c1) as [Hd1 <-]; [done..|]. destruct (hexdigit_isx c2) as [Hd2 <-]; [done..|].
  destruct (nibbles_byte _ _ Hd1 Hd2) as (Hb & Eh & Elo). cbv zeta in *.
  split; [by constructor|]. rewrite Eh, Elo. by rewrite Hw.
Qed.

(** The separators are skipped wherever they occur, also between the two
    digits of a byte. *)
Lemma locale_loop_filter src :
  forall pending, locale_loop pending src = locale_loop pending (filter (fun c => include c = true) src).
Proof.
  induction src as [|c src IH]; intros pending; [done|]. cbn [locale_loop].
  destruct (include c) eqn:Ei; cbn [negb].
  - rewrite filter_cons_True by done. cbn [locale_loop]. rewrite Ei. cbn [negb].
    destruct (char_to_int c), pending; rewrite ?IH; done.
  - rewrite filter_cons_False by congruence. apply IH.
Qed.

Lemma locale_loop_from_hex s :
  (length s mod 2 = 0)%nat -> bytes s -> Forall (fun c => include c = true) s ->
  locale_loop None s = match from_hex_loop s with Some b => inl b | None => inr range_error end.
Proof.
  induction s as [|c|c1 c2 s IH] using pair_list_ind; intros Hl Hs Hi; [done|done|].
  apply even_length_tail in Hl.
  inversion Hs as [|?? Hc1 Hs']; subst. inversion Hs' as [|?? Hc2 Hs'']; subst.
  inversion Hi as [|?? Hi1 Hi']; subst. inversion Hi' as [|?? Hi2 Hi'']; subst.
  cbn [locale_loop from_hex_loop]. rewrite Hi1, Hi2, !char_to_int_isx by done. cbn [negb].
  destruct (isx_at c1 =? 255); [done|]. destruct (isx_at c2 =? 255); [done|].
  rewrite IH by done. by destruct (from_hex_loop s).
Qed.

(** ** Properties *)

(** Hexadecimal output reads back: any byte string survives [to_hex] followed by
    [from_hex], also through the fixed-size [hex_to_pod]. *)
Theorem hex_roundtrip src :
  bytes src -> length src <= UINT64_MAX / 2 ->
  exists h, to_hex_string src = Some h /\ from_hex_to_string h = Some src /\
    hex_to_pod (length src) h = Some src.
Proof.
  intros Hs Hl. exists (write_hex src). unfold to_hex_string. bfalse (UINT64_MAX / 2 <? length src).
  unfold hex_to_pod, from_hex_to_buffer, from_hex_to_string, to_buffer_unchecked.
  rewrite write_hex_bytes_length, Nat.mul_comm, Nat.Div0.mod_mul, Nat.div_mul by done.
  rewrite !bool_decide_true by done. cbn [negb]. by rewrite from_hex_loop_write.
Qed.

Lemma hex_roundtrip_witness :
  (bytes [0; 171; 255] /\ length [0; 171; 255] <= UINT64_MAX / 2) /\
  exists h, to_hex_string [0; 171; 255] = Some h /\ from_hex_to_string h = Some [0; 171; 255] /\
    hex_to_pod (length [0; 171; 255]) h = Some [0; 171; 255].
Proof.
  assert (H : bytes [0; 171; 255] /\ length [0; 171; 255] <= UINT64_MAX / 2).
  { split; [repeat constructor; vm_compute; done || discriminate|vm_compute; discriminate]. }
  split; [exact H|]. apply (hex_roundtrip [0; 171; 255]); apply H.
Defined.

(** What [from_hex] accepts determines its text up to letter case: writing the
    bytes back gives the lower-cased input. *)
Theorem from_hex_canonical s b :
  bytes s -> from_hex_to_string s = Some b -> bytes b /\ write_hex b = tolower <$> s.
Proof.
  intros Hs E. unfold from_hex_to_string, to_buffer_unchecked in E.
  case_bool_decide; [|done]. by apply from_hex_loop_inv.
Qed.

Lemma from_hex_canonical_witness :
  from_hex_to_string (str_bytes "0aBF") = Some [10; 191] /\
  (bytes [10; 191] /\ write_hex [10; 191] = tolower <$> str_bytes "0aBF").
Proof.
  assert (E : from_hex_to_string (str_bytes "0aBF") = Some [10; 191]) by (vm_compute; reflexivity).
  split; [exact E|]. apply (from_hex_canonical (str_bytes "0aBF") [10; 191]); [|exact E].
  repeat constructor; vm_compute; done || discriminate.
Defined.

(** The separator-tolerant reader agrees with the strict one on the input with
    its white space and colons removed, error for error. *)
Theorem from_hex_locale_strict src :
  bytes src ->
  from_hex_locale_to_vector src =
    let s := filter (fun c => include c = true) src in
    if bool_decide (length s mod 2 = 0)%nat
    then match from_hex_to_string s with Some b => inl b | None => inr range_error end
    else inr length_error.
Proof.
  intros Hs. unfold from_hex_locale_to_vector, from_hex_to_string, to_buffer_unchecked.
  cbv zeta. case_bool_decide; [|done]. cbn [negb]. rewrite locale_loop_filter.
  apply locale_loop_from_hex; [done| |].
  - apply Forall_forall. intros c Hc. apply list_elem_of_filter in Hc as [_ Hc].
    by eapply Forall_forall in Hs.
  - apply Forall_forall. intros c Hc. by apply list_elem_of_filter in Hc as [? _].
Qed.

Lemma from_hex_locale_strict_witness :
  from_hex_locale_to_vector (str_bytes "0a: B f") = inl [10; 191] /\
  from_hex_locale_to_vector (str_bytes "0a: B f") =
    let s := filter (fun c => include c = true) (str_bytes "0a: B f") in
    if bool_decide (length s mod 2 = 0)%nat
    then match from_hex_to_string s with Some b => inl b | None => inr range_error end
    else inr length_error.
Proof.
  split; [vm_compute; reflexivity|]. apply (from_hex_locale_strict (str_bytes "0a: B f")).
  repeat constructor; vm_compute; done || discriminate.
Defined.
