(* ===== verification/Checkpoints.v ===== *)
(** * Checkpoints: the fixed hashes of the chain

    Models the container of src/checkpoints/checkpoints.cpp: adding checkpoints,
    checking a block against them, the zone they cover and the rule for
    alternative blocks.  A [std::map] is a list of pairs in the order of its keys.
    Reading a difficulty from its text is boost's, a parameter. *)
From stdpp Require Import base list sorting sets.
From S2P Require Import Prelude Keccak Hex.
#[local] Open Scope Z_scope.

(** ** Definitions *)

Section ordered_map.
Context {V : Type}.

Fixpoint map_find (m : list (Z * V)) (k : Z) : option V :=
  match m with [] => None | (k', v) :: m => if k =? k' then Some v else map_find m k end.

(** [m[k] = v] *)
Fixpoint map_set (m : list (Z * V)) (k : Z) (v : V) : list (Z * V) :=
  match m with
  | [] => [(k, v)]
  | (k', v') :: m' => if k <? k' then (k, v) :: m else if k =? k' then (k, v) :: m' else (k', v') :: map_set m' k v
  end.

(** The entries before [upper_bound(k)] and before [lower_bound(k)]. *)
Fixpoint before_upper (m : list (Z * V)) (k : Z) : list (Z * V) :=
  match m with [] => [] | (k', v) :: m => if k <? k' then [] else (k', v) :: before_upper m k end.
Fixpoint before_lower (m : list (Z * V)) (k : Z) : list (Z * V) :=
  match m with [] => [] | (k', v) :: m => if k <=? k' then [] else (k', v) :: before_lower m k end.
End ordered_map.

Record checkpoints := mk_checkpoints {
  m_points : list (Z * list Z);
  m_difficulty_points : list (Z * Z);
}.

Definition no_checkpoints : checkpoints := mk_checkpoints [] [].

(** The verdict and the container left: a point stays when its difficulty is refused. *)
Definition add_checkpoint (difficulty_type_of : list Z -> option Z) (cp : checkpoints) (height : Z) (hash_str difficulty_str : list Z) : bool * checkpoints :=
  match hex_to_pod 32 hash_str with
  | None => (false, cp)
  | Some h =>
    if (match map_find (m_points cp) height with Some h' => negb (bool_decide (h = h')) | None => false end) then (false, cp)
    else
      let cp := mk_checkpoints (map_set (m_points cp) height h) (m_difficulty_points cp) in
      if bool_decide (difficulty_str = []) then (true, cp)
      else
        match difficulty_type_of difficulty_str with
        | None => (false, cp)
        | Some difficulty =>
          if (match map_find (m_difficulty_points cp) height with Some d => negb (difficulty =? d) | None => false end) then (false, cp)
          else (true, mk_checkpoints (m_points cp) (map_set (m_difficulty_points cp) height difficulty))
        end
  end.

Definition is_in_checkpoint_zone (cp : checkpoints) (height : Z) : bool :=
  match last (m_points cp) with None => false | Some (k, _) => height <=? k end.

(** The verdict and [is_a_checkpoint]. *)
Definition check_block (cp : checkpoints) (height : Z) (h : list Z) : bool * bool :=
  match map_find (m_points cp) height with
  | None => (true, false)
  | Some h' => (bool_decide (h' = h), true)
  end.

Definition is_alternative_block_allowed (cp : checkpoints) (blockchain_height block_height : Z) : bool :=
  if 0 =? block_height then false
  else match last (before_upper (m_points cp) blockchain_height) with None => true | Some (checkpoint_height, _) => checkpoint_height <? block_height end.

Definition get_max_height (cp : checkpoints) : Z := match last (m_points cp) with None => 0 | Some (k, _) => k end.

Definition get_nearest_checkpoint_height (cp : checkpoints) (block_height : Z) : Z :=
  match last (before_lower (m_points cp) block_height) with None => 0 | Some (k, _) => k end.

Definition check_for_conflicts (cp other : checkpoints) : bool :=
  forallb (fun pt => match map_find (m_points cp) pt.1 with Some h => bool_decide (pt.2 = h) | None => true end) (m_points other).

(** ** Lemmas *)

Definition sorted_map {V} (m : list (Z * V)) : Prop := StronglySorted (fun a b : Z * V => a.1 < b.1) m.

Section ordered_lemmas.
Context {V : Type}.
Implicit Types (m : list (Z * V)) (k : Z) (v : V).

Lemma sorted_map_cons p m : sorted_map (p :: m) <-> sorted_map m /\ Forall (fun q => p.1 < q.1) m.
Proof. split; [intros H; inversion H; by subst|intros []; by constructor]. Qed.

Lemma map_find_elem m k v : sorted_map m -> map_find m k = Some v <-> (k, v) ∈ m.
Proof.
  induction m as [|[k' v'] m IH]; intros Hs; [by split; [|intros ?%elem_of_nil]|]. apply sorted_map_cons in Hs as [Hs HF]. cbn [map_find]. rewrite elem_of_cons. destruct (Z.eqb_spec k k') as [->|Hne].
  - split; [intros [= ->]; by left|]. intros [[= ->]|Hin]; [done|]. rewrite Forall_forall in HF. specialize (HF _ Hin). cbn in HF. lia.
  - rewrite IH by done. split; [by right|]. by intros [[= -> ->]|?].
Qed.

Lemma map_set_elem m k v q : sorted_map m -> q ∈ map_set m k v <-> q = (k, v) \/ (q ∈ m /\ q.1 <> k).
Proof.
  induction m as [|[k' v'] m IH]; intros Hs; cbn [map_set]; [rewrite list_elem_of_singleton; set_solver|]. apply sorted_map_cons in Hs as [Hs HF]. rewrite Forall_forall in HF.
  destruct (Z.ltb_spec k k') as [Hlt|Hge].
  - rewrite elem_of_cons. split; [|naive_solver]. intros [->|Hin]; [by left|]. right. split; [done|]. apply elem_of_cons in Hin as [->|Hin]; [cbn; lia|]. specialize (HF _ Hin). cbn in HF. lia.
  - destruct (Z.eqb_spec k k') as [->|Hne]; rewrite !elem_of_cons.
    + split; [|naive_solver]. intros [->|Hin]; [by left|]. right. split; [by right|]. specialize (HF _ Hin). cbn in HF. lia.
    + rewrite IH by done. split; [intros [->|[->|[? ?]]]; [right; split; [by left|cbn; lia]|by left|right; split; [by right|done]]|]. naive_solver.
Qed.

Lemma map_set_sorted m k v : sorted_map m -> sorted_map (map_set m k v).
Proof.
  induction m as [|[k' v'] m IH]; intros Hs; cbn [map_set]; [repeat constructor|]. pose proof Hs as [Hs' HF]%sorted_map_cons. destruct (Z.ltb_spec k k') as [Hlt|Hge].
  - apply sorted_map_cons. split; [done|]. constructor; [done|]. eapply Forall_impl; [exact HF|]. cbn. intros. lia.
  - destruct (Z.eqb_spec k k') as [->|Hne]; [by apply sorted_map_cons|]. apply sorted_map_cons. split; [by apply IH|]. apply Forall_forall. intros q [->|[Hin _]]%map_set_elem; [cbn; lia| |done].
    rewrite Forall_forall in HF. by apply HF.
Qed.

Lemma before_upper_elem m k q : sorted_map m -> q ∈ before_upper m k <-> q ∈ m /\ q.1 <= k.
Proof.
  induction m as [|[k' v'] m IH]; intros Hs; cbn [before_upper]; [set_solver|]. apply sorted_map_cons in Hs as [Hs HF]. rewrite Forall_forall in HF. destruct (Z.ltb_spec k k') as [Hlt|Hge].
  - split; [by intros ?%elem_of_nil|]. intros [[->|Hin]%elem_of_cons Hk]; [cbn in Hk; lia|]. specialize (HF _ Hin). cbn in HF. lia.
  - rewrite !elem_of_cons, IH by done. split; [intros [->|[? ?]]; [split; [by left|cbn; lia]|split; [by right|done]]|naive_solver].
Qed.

Lemma before_lower_elem m k q : sorted_map m -> q ∈ before_lower m k <-> q ∈ m /\ q.1 < k.
Proof.
  induction m as [|[k' v'] m IH]; intros Hs; cbn [before_lower]; [set_solver|]. apply sorted_map_cons in Hs as [Hs HF]. rewrite Forall_forall in HF. destruct (Z.leb_spec k k') as [Hlt|Hge].
  - split; [by intros ?%elem_of_nil|]. intros [[->|Hin]%elem_of_cons Hk]; [cbn in Hk; lia|]. specialize (HF _ Hin). cbn in HF. lia.
  - rewrite !elem_of_cons, IH by done. split; [intros [->|[? ?]]; [split; [by left|cbn; lia]|split; [by right|done]]|naive_solver].
Qed.

Lemma before_upper_sorted m k : sorted_map m -> sorted_map (before_upper m k).
Proof.
  induction m as [|[k' v'] m IH]; intros Hs; cbn [before_upper]; [done|]. pose proof Hs as [Hs' HF]%sorted_map_cons. destruct (Z.ltb_spec k k'); [constructor|]. apply sorted_map_cons. split; [by apply IH|].
  apply Forall_forall. intros q [Hin _]%before_upper_elem; [|done]. rewrite Forall_forall in HF. by apply HF.
Qed.

Lemma before_lower_sorted m k : sorted_map m -> sorted_map (before_lower m k).
Proof.
  induction m as [|[k' v'] m IH]; intros Hs; cbn [before_lower]; [done|]. pose proof Hs as [Hs' HF]%sorted_map_cons. destruct (Z.leb_spec k k'); [constructor|]. apply sorted_map_cons. split; [by apply IH|].
  apply Forall_forall. intros q [Hin _]%before_lower_elem; [|done]. rewrite Forall_forall in HF. by apply HF.
Qed.

Lemma last_max m q : sorted_map m -> last m = Some q -> q ∈ m /\ forall p, p ∈ m -> p.1 <= q.1.
Proof.
  intros Hs Hl. split; [by apply last_Some_elem_of|]. revert Hs Hl. induction m as [|p0 m IH]; intros Hs Hl; [done|]. apply sorted_map_cons in Hs as [Hs HF]. destruct m as [|p1 m].
  - cbn in Hl. simplify_eq. intros p ->%list_elem_of_singleton. lia.
  - rewrite last_cons_cons in Hl. intros p [->|Hin]%elem_of_cons; [|by apply IH]. rewrite Forall_forall in HF. assert (Hq : q ∈ p1 :: m) by (by apply last_Some_elem_of). specialize (HF _ Hq). lia.
Qed.
End ordered_lemmas.

Definition checkpoints_ok (cp : checkpoints) : Prop := sorted_map (m_points cp) /\ sorted_map (m_difficulty_points cp).

Lemma add_checkpoint_ok f cp height hash_str difficulty_str : checkpoints_ok cp -> checkpoints_ok (add_checkpoint f cp height hash_str difficulty_str).2.
Proof.
  intros [H1 H2]. unfold add_checkpoint. destruct (hex_to_pod 32 hash_str) as [h|]; [|done]. repeat case_match; try done; split; try done; by apply map_set_sorted.
Qed.

(** ** Theorems *)

(** C33: A checkpoint is never moved: adding one keeps the hash recorded for every
    height, and one that was accepted is recorded with its hash. *)
Theorem checkpoints_stable f cp height hash_str difficulty_str k h :
  checkpoints_ok cp ->
  let '(ok, cp') := add_checkpoint f cp height hash_str difficulty_str in
  (map_find (m_points cp) k = Some h -> map_find (m_points cp') k = Some h) /\
  (ok = true -> exists h', hex_to_pod 32 hash_str = Some h' /\ check_block cp' height h' = (true, true) /\ (h <> h' -> check_block cp' height h = (false, true))).
Proof.
  intros Hok. pose proof (add_checkpoint_ok f cp height hash_str difficulty_str Hok) as Hok'. destruct Hok as [Hs _].
  destruct (add_checkpoint f cp height hash_str difficulty_str) as [ok cp'] eqn:E. destruct Hok' as [Hs' _]. cbn in Hs'. unfold add_checkpoint in E. destruct (hex_to_pod 32 hash_str) as [h0|]; [|by simplify_eq].
  destruct (match map_find (m_points cp) height with Some h' => negb (bool_decide (h0 = h')) | None => false end) eqn:Ex; [by simplify_eq|].
  assert (Hp : m_points cp' = map_set (m_points cp) height h0) by (repeat case_match; by simplify_eq). rewrite Hp in Hs'.
  assert (Hf : map_find (m_points cp') height = Some h0) by (rewrite Hp; apply map_find_elem; [done|]; apply map_set_elem; [done|by left]). split.
  - intros Hk. rewrite Hp. apply map_find_elem; [done|]. apply map_set_elem; [done|]. destruct (decide (k = height)) as [->|Hne].
    + rewrite Hk in Ex. left. apply negb_false_iff, bool_decide_eq_true in Ex. by subst.
    + right. split; [by apply map_find_elem|done].
  - intros _. exists h0. split; [done|]. unfold check_block. rewrite Hf. split; [by rewrite bool_decide_true|]. intros Hne. by rewrite bool_decide_false by congruence.
Qed.

(** A block of an alternative chain is allowed exactly when it is not a genesis
    block and lies above every checkpoint the main chain has reached; the zone of
    the checkpoints reaches to the highest; and the nearest checkpoint below a
    height is the highest one below it. *)
Theorem checkpoint_queries cp blockchain_height block_height :
  checkpoints_ok cp ->
  (is_alternative_block_allowed cp blockchain_height block_height = true <->
     block_height <> 0 /\ forall k h, (k, h) ∈ m_points cp -> k <= blockchain_height -> k < block_height) /\
  (is_in_checkpoint_zone cp block_height = true <-> exists k h, (k, h) ∈ m_points cp /\ block_height <= k) /\
  (forall k h, (k, h) ∈ m_points cp -> 0 <= k < block_height -> k <= get_nearest_checkpoint_height cp block_height < block_height).
Proof.
  intros [Hs _]. split_and!.
  - unfold is_alternative_block_allowed. destruct (Z.eqb_spec 0 block_height) as [<-|Hne]; [split; [done|by intros []]|]. destruct (last (before_upper (m_points cp) blockchain_height)) as [[c v]|] eqn:El.
    + apply last_max in El as [Hin Hmax]; [|by apply before_upper_sorted]. apply before_upper_elem in Hin as [Hin Hle]; [|done]. rewrite Z.ltb_lt. split.
      * intros Hlt. split; [done|]. intros k h Hk Hkb. specialize (Hmax (k, h)). rewrite before_upper_elem in Hmax by done. specialize (Hmax (conj Hk Hkb)). cbn in Hmax. lia.
      * intros [_ H]. by eapply H.
    + split; [|done]. intros _. split; [done|]. intros k h Hk Hkb. apply last_None in El. assert (Hb : (k, h) ∈ before_upper (m_points cp) blockchain_height) by (by apply before_upper_elem). rewrite El in Hb. by apply elem_of_nil in Hb.
  - unfold is_in_checkpoint_zone. destruct (last (m_points cp)) as [[c v]|] eqn:El.
    + apply last_max in El as [Hin Hmax]; [|done]. rewrite Z.leb_le. split; [intros Hle; by exists c, v|]. intros (k & h & Hk & Hle). specialize (Hmax _ Hk). cbn in Hmax. lia.
    + apply last_None in El. rewrite El. split; [done|]. by intros (k & h & ?%elem_of_nil & _).
  - intros k h Hk Hlt. unfold get_nearest_checkpoint_height. assert (Hb : (k, h) ∈ before_lower (m_points cp) block_height) by (apply before_lower_elem; [done|]; split; [done|cbn; lia]).
    destruct (last (before_lower (m_points cp) block_height)) as [[c v]|] eqn:El; [|apply last_None in El; rewrite El in Hb; by apply elem_of_nil in Hb].
    apply last_max in El as [Hin Hmax]; [|by apply before_lower_sorted]. apply before_lower_elem in Hin as [_ Hc]; [|done]. specialize (Hmax _ Hb). cbn in *. lia.
Qed.

(** ** Examples *)

(** The first checkpoints of the test network. *)
Definition sample_difficulty (s : list Z) : option Z := if bool_decide (s = str_bytes "0x1") then Some 1 else Some 32927469907.
Definition sample_points : checkpoints :=
  (add_checkpoint sample_difficulty (add_checkpoint sample_difficulty no_checkpoints 1000000 (str_bytes "46b690b710a07ea051bc4a6b6842ac37be691089c0f7758cfeec4d5fc0b4a258") (str_bytes "0x7aaad7153")).2
     0 (str_bytes "48ca7cd3c8de5b6a4d53d2861fbdaedca141553559f9be9520068053cda8430b") (str_bytes "0x1")).2.

Lemma sample_points_ok : checkpoints_ok sample_points.
Proof. apply add_checkpoint_ok, add_checkpoint_ok. split; constructor. Qed.

Lemma checkpoints_stable_witness :
  map_find (m_points (add_checkpoint sample_difficulty sample_points 5 (str_bytes "48ca7cd3c8de5b6a4d53d2861fbdaedca141553559f9be9520068053cda8430b") []).2) 1000000 = map_find (m_points sample_points) 1000000 /\
  map_find (m_points sample_points) 1000000 <> None.
Proof.
  pose proof (checkpoints_stable sample_difficulty sample_points 5 (str_bytes "48ca7cd3c8de5b6a4d53d2861fbdaedca141553559f9be9520068053cda8430b") [] 1000000 (default [] (map_find (m_points sample_points) 1000000)) sample_points_ok) as H.
  destruct (add_checkpoint sample_difficulty sample_points 5 _ []) as [ok cp'] eqn:E. destruct H as [H _]. assert (Hs : map_find (m_points sample_points) 1000000 = Some (default [] (map_find (m_points sample_points) 1000000))) by (by vm_compute).
  specialize (H Hs). cbn [snd]. rewrite H. split; [by rewrite Hs at 1|by rewrite Hs].
Defined.

Lemma checkpoint_queries_witness :
  is_alternative_block_allowed sample_points 1000500 999999 = false /\ is_alternative_block_allowed sample_points 999999 7 = true /\
  0 <= get_nearest_checkpoint_height sample_points 1000000 < 1000000.
Proof.
  split; [by vm_compute|]. split; [by vm_compute|]. destruct (checkpoint_queries sample_points 0 1000000 sample_points_ok) as (_ & _ & H).
  eapply (H 0); [|lia]. apply (proj1 (map_find_elem _ _ (default [] (map_find (m_points sample_points) 0)) (proj1 sample_points_ok))). by vm_compute.
Defined.
