(* ===== verification/JsonText.v ===== *)
(** * JsonText: the lexical layer of the JSON reader and writer

    Models contrib/epee/src/parserse_base_utils.cpp.  A position in the input
    is the list of the characters from it on; a thrown exception is a value of
    [json_error]. *)
From S2P Require Import Prelude Hex.

Inductive json_error :=
  | invalid_unicode_escape | bad_unicode_encoding | invalid_surrogate_pair
  | invalid_escape | unterminated_string | invalid_number | invalid_word.

(** ** Writing a string *)

Definition must_escape (c : Z) : bool := (c <? 0x20) || (c =? 34) || (c =? 92) || (c =? 47).

(** The [switch] of the writer, one character at a time. *)
Definition escape_char (c : Z) : list Z :=
  if c =? 8 then [92; 98]
  else if c =? 12 then [92; 102]
  else if c =? 10 then [92; 110]
  else if c =? 13 then [92; 114]
  else if c =? 9 then [92; 116]
  else if c =? 34 then [92; 34]
  else if c =? 92 then [92; 92]
  else if c =? 47 then [92; 47]
  else if c <? 0x20 then [92; 117; 48; 48; hexdigit (Z.shiftr c 4); hexdigit (Z.land c 0xf)]
  else [c].

(** The verbatim prefix before the first character to escape, and the rest. *)
Fixpoint verbatim_prefix (p : Z -> bool) (src : list Z) : list Z * list Z :=
  match src with
  | [] => ([], [])
  | c :: src' =>
      if p c then ([], src)
      else let '(pre, it) := verbatim_prefix p src' in (c :: pre, it)
  end.

Definition transform_to_escape_sequence (src : list Z) : list Z :=
  let '(pre, it) := verbatim_prefix must_escape src in
  match it with
  | [] => src
  | _ => pre ++ flat_map escape_char it
  end.

(** ** Reading a string *)

(** Four hexadecimal digits of a [\u] escape. *)
Definition read_hex4 (a b c d : Z) : option Z :=
  foldl (fun v h => v ← v; let tmp := isx_at h in
           if tmp =? 0xff then None else Some (Z.lor (u32 (Z.shiftl v 4)) tmp)) (Some 0) [a; b; c; d].

Definition utf8_encode (dst : Z) : list Z :=
  if dst <=? 0x7f then [dst]
  else if dst <=? 0x7ff then
    [Z.lor 0xc0 (Z.shiftr dst 6); Z.lor 0x80 (Z.land dst 0x3f)]
  else if dst <=? 0xffff then
    [Z.lor 0xe0 (Z.shiftr dst 12); Z.lor 0x80 (Z.land (Z.shiftr dst 6) 0x3f); Z.lor 0x80 (Z.land dst 0x3f)]
  else
    [Z.lor 0xf0 (Z.shiftr dst 18); Z.lor 0x80 (Z.land (Z.shiftr dst 12) 0x3f);
     Z.lor 0x80 (Z.land (Z.shiftr dst 6) 0x3f); Z.lor 0x80 (Z.land dst 0x3f)].

(** The single-character escapes. *)
Definition simple_escape (c : Z) : option Z :=
  if c =? 98 then Some 8
  else if c =? 102 then Some 12
  else if c =? 110 then Some 10
  else if c =? 114 then Some 13
  else if c =? 116 then Some 9
  else if c =? 118 then Some 11
  else if c =? 39 then Some 39
  else if c =? 34 then Some 34
  else if c =? 92 then Some 92
  else if c =? 47 then Some 47
  else None.

Definition push_val (v : list Z) (r : (list Z * list Z) + json_error) : (list Z * list Z) + json_error :=
  match r with
  | inl (val, it) => inl (v ++ val, it)
  | inr e => inr e
  end.

(** The main loop: the value read, and the position of the closing quote. *)
Fixpoint match_string_loop (escape_mode : bool) (it : list Z) : (list Z * list Z) + json_error :=
  match it with
  | [] => inr unterminated_string
  | c :: r =>
      if escape_mode then
        match simple_escape c with
        | Some v => push_val [v] (match_string_loop false r)
        | None =>
            if c =? 117 then
              match r with
              | h1 :: h2 :: h3 :: h4 :: r1 =>
                  match read_hex4 h1 h2 h3 h4 with
                  | None => inr bad_unicode_encoding
                  | Some dst =>
                      if (0xd800 <=? dst) && (dst <=? 0xdbff) then
                        match r1 with
                        | s :: u :: r2 =>
                            if (s =? 92) && (u =? 117) then
                              match r2 with
                              | l1 :: l2 :: l3 :: l4 :: r3 =>
                                  match read_hex4 l1 l2 l3 l4 with
                                  | None => inr bad_unicode_encoding
                                  | Some low =>
                                      if (0xdc00 <=? low) && (low <=? 0xdfff) then
                                        push_val (utf8_encode (0x10000 + Z.shiftl (dst - 0xd800) 10 + (low - 0xdc00)))
                                          (match_string_loop false r3)
                                      else inr invalid_surrogate_pair
                                  end
                              | _ => inr invalid_unicode_escape
                              end
                            else inr invalid_surrogate_pair
                        | _ => inr invalid_surrogate_pair
                        end
                      else if (dst <? 0xdc00) || (0xdfff <? dst) then
                        push_val (utf8_encode dst) (match_string_loop false r1)
                      else inr invalid_surrogate_pair
                  end
              | _ => inr invalid_unicode_escape
              end
            else inr invalid_escape
        end
      else if c =? 34 then inl ([], it)
      else if c =? 92 then match_string_loop true r
      else push_val [c] (match_string_loop false r)
  end.

(** [start] begins at the opening quote. *)
Definition match_string2 (start : list Z) : (list Z * list Z) + json_error :=
  match start with
  | [] => inr unterminated_string
  | _ :: it =>
      let '(pre, fi) := verbatim_prefix (fun c => negb (Z.land (lut_at c) 32 =? 0)) it in
      push_val pre (match_string_loop false fi)
  end.

(** ** Numbers and words *)

(** The characters of the token, the flags met, and the position after it. *)
Fixpoint number_loop (it : list Z) (float_flag : Z) : option (list Z * Z * list Z) :=
  match it with
  | [] => None
  | c :: it' =>
      let flags := lut_at c in
      if negb (Z.land flags 16 =? 0) then
        '(val, ff, rest) ← number_loop it' (Z.lor float_flag flags); Some (c :: val, ff, rest)
      else Some ([], float_flag, it)
  end.

(** [(val, is_float, is_signed, rest)], where [rest] begins after the number;
    the source leaves its iterator on the last character of the number. *)
Definition match_number2 (start : list Z) : (list Z * bool * bool * list Z) + json_error :=
  let '(sign, it) := match start with c :: it => if c =? 45 then ([c], it) else ([], start) | [] => ([], start) end in
  match number_loop it 0 with
  | None => inr invalid_number
  | Some (val, float_flag, rest) =>
      match sign ++ val with
      | [] => inr invalid_number
      | tok => inl (tok, negb (Z.land float_flag 2 =? 0), negb (bool_decide (sign = [])), rest)
      end
  end.

Fixpoint word_loop (it : list Z) : option (list Z * list Z) :=
  match it with
  | [] => None
  | c :: it' =>
      if Z.land (lut_at c) 4 =? 0 then Some ([], it)
      else '(val, rest) ← word_loop it'; Some (c :: val, rest)
  end.

Definition match_word2 (start : list Z) : (list Z * list Z) + json_error :=
  match word_loop start with
  | Some (c :: val, rest) => inl (c :: val, rest)
  | _ => inr invalid_word
  end.

(** ** Lemmas *)

Lemma verbatim_prefix_app p src pre it :
  verbatim_prefix p src = (pre, it) -> src = pre ++ it /\ Forall (fun c => p c = false) pre.
Proof.
  revert pre it. induction src as [|c src IH]; intros pre it E; simpl in E; [by simplify_eq|].
  destruct (p c) eqn:Ec; [by simplify_eq|]. destruct (verbatim_prefix p src) as [pre' it'] eqn:Ev.
  simplify_eq. destruct (IH _ _ eq_refl) as [-> ?]. split; [done|by constructor].
Qed.

Lemma escape_char_verbatim c : must_escape c = false -> escape_char c = [c].
Proof.
  unfold must_escape. intros H. bcase_hyps. unfold escape_char.
  bfalse (c =? 8). bfalse (c =? 12). bfalse (c =? 10). bfalse (c =? 13). bfalse (c =? 9).
  bfalse (c =? 34). bfalse (c =? 92). bfalse (c =? 47). bfalse (c <? 0x20). done.
Qed.

Lemma transform_flat_map src : transform_to_escape_sequence src = flat_map escape_char src.
Proof.
  unfold transform_to_escape_sequence. destruct (verbatim_prefix _ src) as [pre it] eqn:E.
  apply verbatim_prefix_app in E as [-> HF].
  assert (flat_map escape_char pre = pre) as Hp.
  { clear it. induction HF as [|c pre Hc _ IH]; [done|]. simpl. by rewrite escape_char_verbatim, IH. }
  rewrite flat_map_app, Hp. destruct it; [|done]. simpl. by rewrite !app_nil_r.
Qed.

(** Skipping the verbatim prefix at once reads the same value as the loop. *)
Lemma match_string_loop_prefix pre it :
  Forall (fun c => negb (Z.land (lut_at c) 32 =? 0) = false) pre ->
  match_string_loop false (pre ++ it) = push_val pre (match_string_loop false it).
Proof.
  induction 1 as [|c pre Hc _ IH]; [cbn [app]; by destruct (match_string_loop false it) as [[]|]|].
  rewrite <- app_comm_cons. cbn [match_string_loop].
  destruct (Z.eqb_spec c 34) as [->|]; [vm_compute in Hc; done|].
  destruct (Z.eqb_spec c 92) as [->|]; [vm_compute in Hc; done|].
  rewrite IH. by destruct (match_string_loop false it) as [[]|].
Qed.

Lemma match_string2_loop q it : match_string2 (q :: it) = match_string_loop false it.
Proof.
  unfold match_string2. destruct (verbatim_prefix _ it) as [pre fi] eqn:E.
  apply verbatim_prefix_app in E as [-> HF]. by rewrite match_string_loop_prefix.
Qed.

(** Reading one written character. *)
Lemma match_string_loop_escape c it :
  is_u8 c -> match_string_loop false (escape_char c ++ it) = push_val [c] (match_string_loop false it).
Proof.
  intros Hc. destruct (must_escape c) eqn:Em.
  - unfold must_escape in Em.
    assert (Hin : c ∈ seqZ 0 32 ++ [34; 92; 47]).
    { rewrite !orb_true_iff in Em. rewrite elem_of_app, !elem_of_cons, elem_of_seqZ, elem_of_nil.
      unfold is_uint in Hc. destruct_or! Em; bcase_hyps; lia. }
    change (seqZ 0 32) with ltac:(let t := eval vm_compute in (seqZ 0 32) in exact t) in Hin.
    cbn [app] in Hin. repeat (apply elem_of_cons in Hin as [->|Hin]; [reflexivity|]). by apply elem_of_nil in Hin.
  - rewrite escape_char_verbatim by done. unfold must_escape in Em. bcase_hyps. cbn [app match_string_loop].
    bfalse (c =? 34). bfalse (c =? 92). done.
Qed.

(** *** Unicode escapes *)

(** Strict UTF-8 (RFC 3629), one code point: no overlong form, no surrogate,
    nothing above U+10FFFF. *)
Definition is_cont (b : Z) : bool := (0x80 <=? b) && (b <? 0xc0).
Definition is_scalar (cp : Z) : bool :=
  ((0 <=? cp) && (cp <? 0xd800)) || ((0xe000 <=? cp) && (cp <=? 0x10ffff)).

Definition utf8_decode (l : list Z) : option (Z * list Z) :=
  match l with
  | [] => None
  | b0 :: r =>
      if b0 <? 0x80 then Some (b0, r)
      else if b0 <? 0xe0 then
        match r with
        | b1 :: r =>
            let cp := (b0 - 0xc0) * 64 + (b1 - 0x80) in
            if is_cont b1 && (0x80 <=? cp) then Some (cp, r) else None
        | _ => None
        end
      else if b0 <? 0xf0 then
        match r with
        | b1 :: b2 :: r =>
            let cp := (b0 - 0xe0) * 4096 + (b1 - 0x80) * 64 + (b2 - 0x80) in
            if is_cont b1 && is_cont b2 && (0x800 <=? cp) && is_scalar cp then Some (cp, r) else None
        | _ => None
        end
      else
        match r with
        | b1 :: b2 :: b3 :: r =>
            let cp := (b0 - 0xf0) * 262144 + (b1 - 0x80) * 4096 + (b2 - 0x80) * 64 + (b3 - 0x80) in
            if is_cont b1 && is_cont b2 && is_cont b3 && (0x10000 <=? cp) && is_scalar cp then Some (cp, r) else None
        | _ => None
        end
  end.

(** The JSON escape of a code point (RFC 8259): four digits, or two escapes
    forming a surrogate pair. *)
Definition u_escape (v : Z) : list Z := [92; 117] ++ (hexdigit <$> digits 16 4 v).
Definition json_escape (cp : Z) : list Z :=
  if cp <? 0x10000 then u_escape cp
  else u_escape (0xd800 + (cp - 0x10000) / 1024) ++ u_escape (0xdc00 + (cp - 0x10000) mod 1024).

Lemma lor_marker k h w x : 0 <= w -> k = h * 2 ^ w -> 0 <= x < 2 ^ w -> Z.lor k x = k + x.
Proof. intros Hw -> Hx. by apply lor_disjoint. Qed.

Lemma utf8_decode_encode cp : is_scalar cp = true -> utf8_decode (utf8_encode cp) = Some (cp, []).
Proof.
  intros Hs. assert (Hr : 0 <= cp <= 0x10ffff).
  { unfold is_scalar in Hs. apply orb_true_iff in Hs as [?|?]; bcase_hyps; lia. }
  unfold utf8_encode. change 0x3f with (2 ^ 6 - 1). rewrite !land_ones_mod, !shiftr_div by lia.
  assert (Hm : forall x, 0 <= x mod 2 ^ 6 < 2 ^ 6) by (intros; apply Z.mod_pos_bound; lia).
  assert (Hc : forall x, Z.lor 0x80 (x mod 2 ^ 6) = 0x80 + x mod 2 ^ 6)
    by (intros x; apply (lor_marker 0x80 2 6); done || lia).
  assert (Hcont : forall x, is_cont (0x80 + x mod 2 ^ 6) = true).
  { intros x. unfold is_cont. specialize (Hm x). rewrite andb_true_iff, Z.leb_le, Z.ltb_lt. lia. }
  destruct (Z.leb_spec cp 0x7f). { simpl. btrue (cp <? 128). done. }
  destruct (Z.leb_spec cp 0x7ff).
  { rewrite Hc, (lor_marker 0xc0 6 5) by (lia || split; zlia). cbn [utf8_decode]. rewrite Hcont.
    assert (E : (0xc0 + cp / 2 ^ 6 - 0xc0) * 64 + (0x80 + cp mod 2 ^ 6 - 0x80) = cp) by zlia.
    rewrite E. bfalse (0xc0 + cp / 2 ^ 6 <? 0x80). btrue (0xc0 + cp / 2 ^ 6 <? 0xe0).
    btrue (0x80 <=? cp). done. }
  destruct (Z.leb_spec cp 0xffff).
  { rewrite !Hc, (lor_marker 0xe0 14 4) by (lia || split; zlia). cbn [utf8_decode]. rewrite !Hcont.
    assert (E : (0xe0 + cp / 2 ^ 12 - 0xe0) * 4096 + (0x80 + (cp / 2 ^ 6) mod 2 ^ 6 - 0x80) * 64 +
      (0x80 + cp mod 2 ^ 6 - 0x80) = cp) by zlia.
    rewrite E, Hs. bfalse (0xe0 + cp / 2 ^ 12 <? 0x80). bfalse (0xe0 + cp / 2 ^ 12 <? 0xe0).
    btrue (0xe0 + cp / 2 ^ 12 <? 0xf0). btrue (0x800 <=? cp). done. }
  rewrite !Hc, (lor_marker 0xf0 30 3) by (lia || split; zlia). cbn [utf8_decode]. rewrite !Hcont.
  assert (E : (0xf0 + cp / 2 ^ 18 - 0xf0) * 262144 + (0x80 + (cp / 2 ^ 12) mod 2 ^ 6 - 0x80) * 4096 +
    (0x80 + (cp / 2 ^ 6) mod 2 ^ 6 - 0x80) * 64 + (0x80 + cp mod 2 ^ 6 - 0x80) = cp) by zlia.
  rewrite E, Hs. bfalse (0xf0 + cp / 2 ^ 18 <? 0x80). bfalse (0xf0 + cp / 2 ^ 18 <? 0xe0).
  bfalse (0xf0 + cp / 2 ^ 18 <? 0xf0). btrue (0x10000 <=? cp). done.
Qed.

Lemma read_hex4_digits v a b c d :
  0 <= v < 65536 -> hexdigit <$> digits 16 4 v = [a; b; c; d] -> read_hex4 a b c d = Some v.
Proof.
  intros Hv E. pose proof (digits_range 16 4 v ltac:(lia)) as HF.
  pose proof (be_val_digits 16 4 v ltac:(lia) ltac:(lia)) as Hval. revert E HF Hval.
  destruct (digits 16 4 v) as [|x [|y [|z [|t [|]]]]]; try done. intros [= <- <- <- <-] HF Hval.
  rewrite !Forall_cons in HF. destruct HF as (? & ? & ? & ? & _).
  unfold read_hex4. cbn [foldl mbind option_bind]. rewrite !isx_hexdigit by lia. cbv zeta.
  bfalse (x =? 255). bfalse (y =? 255). bfalse (z =? 255). bfalse (t =? 255). cbn [mbind option_bind].
  rewrite !shiftl_mul by lia. unfold be_val in Hval. cbn [fold_left] in Hval.
  assert (Hlor : forall p q, 0 <= p < 4096 -> 0 <= q < 16 -> Z.lor (u32 (p * 2 ^ 4)) q = p * 16 + q).
  { intros p q Hp Hq. rewrite wrap_small by (unfold is_uint; lia). by rewrite lor_disjoint by lia. }
  rewrite (Hlor 0 x), (Hlor _ y), (Hlor _ z), (Hlor _ t) by lia. f_equal. lia.
Qed.

Lemma u_escape_chars v : exists a b c d, u_escape v = [92; 117; a; b; c; d] /\ hexdigit <$> digits 16 4 v = [a; b; c; d].
Proof. do 4 eexists. split; reflexivity. Qed.

Lemma match_json_escape cp it :
  is_scalar cp = true ->
  match_string_loop false (json_escape cp ++ it) = push_val (utf8_encode cp) (match_string_loop false it).
Proof.
  intros Hs. unfold json_escape.
  assert (Hr : (0 <= cp < 0xd800) \/ (0xe000 <= cp <= 0x10ffff)).
  { unfold is_scalar in Hs. apply orb_true_iff in Hs as [?|?]; bcase_hyps; lia. }
  destruct (Z.ltb_spec cp 0x10000).
  - destruct (u_escape_chars cp) as (a & b & c & d & -> & E). apply read_hex4_digits in E; [|lia].
    cbn [app match_string_loop Z.eqb Pos.eqb simple_escape]. rewrite E.
    destruct ((0xd800 <=? cp) && (cp <=? 0xdbff)) eqn:E1; [bcase_hyps; lia|].
    destruct ((cp <? 0xdc00) || (0xdfff <? cp)) eqn:E2; [done|bcase_hyps; lia].
  - set (hi := 0xd800 + (cp - 0x10000) / 1024). set (lo := 0xdc00 + (cp - 0x10000) mod 1024).
    assert (Hhi : 0xd800 <= hi <= 0xdbff) by (unfold hi; zlia).
    assert (Hlo : 0xdc00 <= lo <= 0xdfff) by (unfold lo; zlia).
    destruct (u_escape_chars hi) as (a & b & c & d & -> & E). apply read_hex4_digits in E; [|lia].
    destruct (u_escape_chars lo) as (a' & b' & c' & d' & -> & E'). apply read_hex4_digits in E'; [|lia].
    cbn [app match_string_loop Z.eqb Pos.eqb simple_escape]. rewrite E.
    btrue ((0xd800 <=? hi) && (hi <=? 0xdbff)). cbn [andb]. rewrite E'.
    btrue ((0xdc00 <=? lo) && (lo <=? 0xdfff)). rewrite shiftl_mul by lia.
    assert (0x10000 + (hi - 0xd800) * 2 ^ 10 + (lo - 0xdc00) = cp) as -> by (unfold hi, lo; zlia).
    done.
Qed.

(** ** Properties *)

(** JSON strings survive the writer and the reader: the reader, started at the
    opening quote of an escaped string of arbitrary bytes, returns the original
    bytes and stops at the closing quote. *)
Theorem json_string_roundtrip s rest :
  bytes s -> match_string2 (34 :: transform_to_escape_sequence s ++ 34 :: rest) = inl (s, 34 :: rest).
Proof.
  intros Hs. rewrite match_string2_loop, transform_flat_map.
  induction Hs as [|c s Hc _ IH]; [done|]. cbn [flat_map]. rewrite <- app_assoc.
  rewrite match_string_loop_escape by done. by rewrite IH.
Qed.

Lemma json_string_roundtrip_witness :
  bytes [34; 7; 92; 200] /\
  match_string2 (34 :: transform_to_escape_sequence [34; 7; 92; 200] ++ 34 :: [44]) = inl ([34; 7; 92; 200], 34 :: [44]).
Proof.
  assert (H : bytes [34; 7; 92; 200]) by (repeat constructor; vm_compute; done || discriminate).
  split; [exact H|]. apply (json_string_roundtrip [34; 7; 92; 200] [44]); exact H.
Defined.

(** The JSON escape of any Unicode scalar value, a surrogate pair above U+FFFF,
    is read as a byte sequence that strict UTF-8 decodes to that value. *)
Theorem json_unicode_escape cp rest :
  is_scalar cp = true ->
  exists u, match_string2 (34 :: json_escape cp ++ 34 :: rest) = inl (u, 34 :: rest) /\ utf8_decode u = Some (cp, []).
Proof.
  intros Hs. exists (utf8_encode cp). split; [|by apply utf8_decode_encode].
  rewrite match_string2_loop, match_json_escape by done. simpl. by rewrite app_nil_r.
Qed.

Lemma json_unicode_escape_witness :
  is_scalar 0x1F600 = true /\
  exists u, match_string2 (34 :: json_escape 0x1F600 ++ 34 :: []) = inl (u, [34]) /\ utf8_decode u = Some (0x1F600, []).
Proof. split; [reflexivity|]. apply (json_unicode_escape 0x1F600 []). reflexivity. Defined.
