(* ===== verification/HardFork.v ===== *)
(** * HardFork: hard fork scheduling and version voting

    Models the class [HardFork] of src/cryptonote_basic/hardfork.{h,cpp}, every
    method that reads or changes its state.  The block chain database is the
    record [db_t] of what the class uses of it: the blocks (their version
    fields) and the hard fork version stored per height, which survives the
    removal of a block.  [None] is an exception of the database, a failed
    [assert], or an access outside a container. *)
From stdpp Require Import gmap.
From S2P Require Import Prelude.
#[local] Open Scope mach_scope.

(** ** State *)

Record hardfork_t := mk_fork {
  hf_version : Z;
  hf_height : Z;
  hf_threshold : Z;
  hf_time : Z;
}.

Inductive hf_state := LikelyForked | UpdateNeeded | Ready.

Record block := mk_block { major_version : Z; minor_version : Z }.

Record db_t := mk_db {
  db_blocks : list block;
  db_versions : gmap Z Z;
}.

Record HardFork := mk_hf {
  forked_time : Z;
  update_time : Z;
  window_size : Z;
  default_threshold_percent : Z;
  original_version : Z;
  original_version_till_height : Z;
  heights : list hardfork_t;
  versions : list Z;
  last_versions : list Z;
  current_fork_index : Z;
}.

Definition set_heights (hf : HardFork) (h : list hardfork_t) : HardFork :=
  mk_hf (forked_time hf) (update_time hf) (window_size hf) (default_threshold_percent hf) (original_version hf)
    (original_version_till_height hf) h (versions hf) (last_versions hf) (current_fork_index hf).
Definition set_votes (hf : HardFork) (v l : list Z) : HardFork :=
  mk_hf (forked_time hf) (update_time hf) (window_size hf) (default_threshold_percent hf) (original_version hf)
    (original_version_till_height hf) (heights hf) v l (current_fork_index hf).
Definition set_index (hf : HardFork) (i : Z) : HardFork :=
  mk_hf (forked_time hf) (update_time hf) (window_size hf) (default_threshold_percent hf) (original_version hf)
    (original_version_till_height hf) (heights hf) (versions hf) (last_versions hf) i.

(** ** The database operations used *)

Definition db_height (db : db_t) : Z := length (db_blocks db).
Definition get_block_from_height (db : db_t) (h : Z) : option block :=
  if h <? 0 then None else db_blocks db !! Z.to_nat h.
Definition get_hard_fork_version (db : db_t) (h : Z) : option Z := db_versions db !! h.
Definition set_hard_fork_version (db : db_t) (h v : Z) : db_t := mk_db (db_blocks db) (<[h := v]> (db_versions db)).

(** ** Blocks *)

Definition get_block_vote (b : block) : Z := if minor_version b =? 0 then 1 else minor_version b.
Definition get_block_version (b : block) : Z := major_version b.

(** ** Operations *)

Definition zero_votes : list Z := replicate 256 0.

(** The constructor, with its two throws; the members it leaves uninitialised
    are set by [init]. *)
Definition new_HardFork (original_version original_version_till_height forked_time update_time
    window_size default_threshold_percent : Z) : option HardFork :=
  if window_size =? 0 then None
  else if 100 <? default_threshold_percent then None
  else Some (mk_hf forked_time update_time window_size default_threshold_percent original_version
               original_version_till_height [] [] zero_votes 0).

Definition add_fork (hf : HardFork) (version height threshold time : Z) : bool * HardFork :=
  if version =? 0 then (false, hf)
  else if match last (heights hf) with
          | Some b => (version <=? hf_version b) || (height <=? hf_height b) || (time <=? hf_time b)
          | None => false
          end then (false, hf)
  else if 100 <? threshold then (false, hf)
  else (true, set_heights hf (heights hf ++ [mk_fork version height threshold time])).

Definition add_fork_default (hf : HardFork) (version height time : Z) : bool * HardFork :=
  add_fork hf version height (default_threshold_percent hf) time.

Definition get_effective_version (hf : HardFork) (voting_version : Z) : Z :=
  match last (heights hf) with
  | Some b => let max_version := hf_version b in
      if max_version <? voting_version then max_version else voting_version
  | None => voting_version
  end.

Definition fork_at (hf : HardFork) (i : Z) : option hardfork_t :=
  if i <? 0 then None else heights hf !! Z.to_nat i.

Definition do_check (hf : HardFork) (block_version voting_version : Z) : option bool :=
  f ← fork_at hf (current_fork_index hf);
  Some ((block_version =? hf_version f) && (hf_version f <=? voting_version)).

Definition check (hf : HardFork) (b : block) : option bool :=
  do_check hf (get_block_version b) (get_block_vote b).

Definition votes_of (last : list Z) (v : Z) : Z := nth (Z.to_nat v) last 0.

(** [threshold], a [uint32_t], from 64-bit arithmetic. *)
Definition fork_threshold (hf : HardFork) (f : hardfork_t) : Z :=
  u32 ((window_size hf ⊠ hf_threshold f ⊞ 99) / 100).

(** The loop of [get_voted_fork_index], on the indices below [n]. *)
Fixpoint voted_loop (hf : HardFork) (height : Z) (n : nat) (accumulated_votes : Z) : Z :=
  match n with
  | O => current_fork_index hf
  | S n' =>
      match heights hf !! n' with
      | None => current_fork_index hf
      | Some f =>
          let accumulated_votes := u32 (accumulated_votes + votes_of (last_versions hf) (hf_version f)) in
          if (hf_height f <=? height) && (fork_threshold hf f <=? accumulated_votes) then Z.of_nat n'
          else voted_loop hf height n' accumulated_votes
      end
  end.

Definition get_voted_fork_index (hf : HardFork) (height : Z) : Z :=
  voted_loop hf height (length (heights hf)) 0.

Definition do_check_for_height (hf : HardFork) (block_version voting_version height : Z) : option bool :=
  f ← fork_at hf (get_voted_fork_index hf height);
  Some ((block_version =? hf_version f) && (hf_version f <=? voting_version)).

Definition check_for_height (hf : HardFork) (b : block) (height : Z) : option bool :=
  do_check_for_height hf (get_block_version b) (get_block_vote b) height.

Definition count_vote (last : list Z) (v : Z) : list Z := alter (fun c => u32 (c + 1)) (Z.to_nat v) last.
Definition uncount_vote (last : list Z) (v : Z) : list Z := alter (fun c => u32 (c - 1)) (Z.to_nat v) last.

(** The [while] loop of [add] that makes room in the window. *)
Fixpoint shrink_window (window : Z) (versions last : list Z) : option (list Z * list Z) :=
  match versions with
  | [] => if window <=? 0 then None else Some ([], last)
  | old_version :: rest =>
      if window <=? length versions then
        if 1 <=? votes_of last old_version then shrink_window window rest (uncount_vote last old_version)
        else None
      else Some (versions, last)
  end.

(** Raise the current index to the voted one, a [uint8_t]. *)
Definition raise_to_voted (hf : HardFork) (height : Z) : HardFork :=
  let voted := u8 (get_voted_fork_index hf height) in
  if current_fork_index hf <? voted then set_index hf voted else hf.

Definition add (hf : HardFork) (db : db_t) (block_version voting_version height : Z) : option (bool * HardFork * db_t) :=
  ok ← do_check hf block_version voting_version;
  if negb ok then Some (false, hf, db)
  else
    f ← fork_at hf (current_fork_index hf);
    let db := set_hard_fork_version db height (hf_version f) in
    let voting_version := get_effective_version hf voting_version in
    '(vs, lv) ← shrink_window (window_size hf) (versions hf) (last_versions hf);
    let hf := set_votes hf (vs ++ [voting_version]) (count_vote lv voting_version) in
    Some (true, raise_to_voted hf (height ⊞ 1), db).

Definition add_block (hf : HardFork) (db : db_t) (b : block) (height : Z) : option (bool * HardFork * db_t) :=
  add hf db (get_block_version b) (get_block_vote b) height.

(** Push the effective votes of [n] blocks from height [h] on. *)
Fixpoint scan_votes (hf : HardFork) (db : db_t) (h : Z) (n : nat) (vs lv : list Z) : option (list Z * list Z) :=
  match n with
  | O => Some (vs, lv)
  | S n' =>
      b ← get_block_from_height db h;
      let v := get_effective_version hf (get_block_vote b) in
      scan_votes hf db (h + 1) n' (vs ++ [v]) (count_vote lv v)
  end.

(** The index loop of [rescan_from_block_height]: the first fork of version
    [lastv], or the last fork. *)
Fixpoint find_fork (hs : list hardfork_t) (lastv : Z) : Z :=
  match hs with
  | [] => 0
  | f :: rest =>
      match rest with
      | [] => 0
      | _ => if hf_version f =? lastv then 0 else 1 + find_fork rest lastv
      end
  end.

Definition rescan_from_block_height (hf : HardFork) (db : db_t) (height : Z) : option (bool * HardFork) :=
  if db_height db <=? height then Some (false, hf)
  else
    '(vs, lv) ← scan_votes hf db height (Z.to_nat (db_height db - height)) [] zero_votes;
    lastv ← get_hard_fork_version db (db_height db - 1);
    let hf := set_index (set_votes hf vs lv) (find_fork (heights hf) lastv) in
    Some (true, raise_to_voted hf (db_height db)).

Definition rescan_from_chain_height (hf : HardFork) (db : db_t) (height : Z) : option (bool * HardFork) :=
  if height =? 0 then Some (false, hf) else rescan_from_block_height hf db (height - 1).

Definition init (hf : HardFork) (db : db_t) : option HardFork :=
  let hf := match heights hf with
            | [] => set_heights hf [mk_fork (original_version hf) 0 0 0]
            | _ => hf
            end in
  let hf := set_index (set_votes hf [] zero_votes) 0 in
  let height := db_height db in
  let height := if window_size hf <? height then height - (window_size hf - 1) else 1 in
  '(_, hf) ← rescan_from_chain_height hf db height;
  Some hf.

(** [HardFork::get_block_version]. *)
Definition get_block_version_at (hf : HardFork) (db : db_t) (height : Z) : option Z :=
  if height <=? original_version_till_height hf then Some (original_version hf)
  else b ← get_block_from_height db height; Some (get_block_version b).

(** Lower the index while its fork is above the version of the kept block. *)
Fixpoint lower_index (hf : HardFork) (start_version : Z) (n : nat) : option Z :=
  match n with
  | O => Some 0
  | S n' =>
      f ← heights hf !! n;
      if start_version <? hf_version f then lower_index hf start_version n' else Some (Z.of_nat n)
  end.

(** Add the blocks of the database from height [h] on again. *)
Fixpoint readd_blocks (hf : HardFork) (db : db_t) (h : Z) (n : nat) : option (HardFork * db_t) :=
  match n with
  | O => Some (hf, db)
  | S n' =>
      b ← get_block_from_height db h;
      '(_, hf, db) ← add_block hf db b h;
      readd_blocks hf db (h + 1) n'
  end.

Definition reorganize_from_block_height (hf : HardFork) (db : db_t) (height : Z) : option (bool * HardFork * db_t) :=
  if db_height db <=? height then Some (false, hf, db)
  else
    let rescan_height := if window_size hf - 1 <=? height then height - (window_size hf - 1) else 0 in
    start_version ← (if height =? 0 then Some (original_version hf) else get_hard_fork_version db height);
    i ← lower_index hf start_version (Z.to_nat (current_fork_index hf));
    '(vs, lv) ← scan_votes hf db rescan_height (Z.to_nat (height - rescan_height + 1)) [] zero_votes;
    let hf := raise_to_voted (set_index (set_votes hf vs lv) i) (height + 1) in
    '(hf, db) ← readd_blocks hf db (height + 1) (Z.to_nat (db_height db - (height + 1)));
    Some (true, hf, db).

Definition reorganize_from_chain_height (hf : HardFork) (db : db_t) (height : Z) : option (bool * HardFork * db_t) :=
  if height =? 0 then Some (false, hf, db) else reorganize_from_block_height hf db (height - 1).

(** One round of [on_block_popped]: drop the newest vote, and put the stored
    version of the popped height in front of the window. *)
Definition pop_one (db : db_t) (height : Z) (vs lv : list Z) : option (list Z * list Z) :=
  v ← last vs;
  let lv := uncount_vote lv v in
  let vs := take (length vs - 1) vs in
  w ← get_hard_fork_version db height;
  Some (w :: vs, count_vote lv w).

Fixpoint pop_loop (db : db_t) (new_chain_height : Z) (n : nat) (vs lv : list Z) : option (list Z * list Z) :=
  match n with
  | O => Some (vs, lv)
  | S n' =>
      '(vs, lv) ← pop_one db (new_chain_height + Z.of_nat n') vs lv;
      pop_loop db new_chain_height n' vs lv
  end.

Fixpoint popped_index (hf : HardFork) (new_chain_height : Z) (n : nat) : option Z :=
  match n with
  | O => Some 0
  | S n' =>
      f ← heights hf !! n;
      if hf_height f <=? new_chain_height then Some (Z.of_nat n) else popped_index hf new_chain_height n'
  end.

(** [db] is the database after the removal of the [nblocks] blocks.  The loop
    counts an unsigned height down to the new chain height, so an empty chain
    would make it run for ever: [None]. *)
Definition on_block_popped (hf : HardFork) (db : db_t) (nblocks : Z) : option HardFork :=
  if nblocks <=? 0 then None
  else
    let new_chain_height := db_height db in
    if new_chain_height =? 0 then None
    else
      '(vs, lv) ← pop_loop db new_chain_height (Z.to_nat nblocks) (versions hf) (last_versions hf);
      i ← popped_index hf new_chain_height (length (heights hf) - 1);
      Some (set_index (set_votes hf vs lv) i).

(** ** Queries *)

Definition get_state (hf : HardFork) (t : Z) : hf_state :=
  match last (heights hf) with
  | Some b =>
      if length (heights hf) <=? 1 then Ready
      else if hf_time b + forked_time hf <=? t then LikelyForked
      else if hf_time b + update_time hf <=? t then UpdateNeeded
      else Ready
  | None => Ready
  end.

Definition get_current_version (hf : HardFork) : option Z :=
  f ← fork_at hf (current_fork_index hf); Some (hf_version f).

Definition get (hf : HardFork) (db : db_t) (height : Z) : option Z :=
  if db_height db <? height then None
  else if height =? db_height db then get_current_version hf
  else get_hard_fork_version db height.

Definition get_latest_ideal_version (hf : HardFork) : option Z :=
  f ← last (heights hf); Some (hf_version f).

Fixpoint ideal_loop (hf : HardFork) (height : Z) (n : nat) : Z :=
  match n with
  | O => original_version hf
  | S n' =>
      match heights hf !! n with
      | Some f => if hf_height f <=? height then hf_version f else ideal_loop hf height n'
      | None => original_version hf
      end
  end.

Definition get_ideal_version (hf : HardFork) (height : Z) : Z :=
  ideal_loop hf height (length (heights hf) - 1).

(** The reverse iteration, on the reversed list of forks. *)
Fixpoint earliest_loop (rforks : list hardfork_t) (version height : Z) : Z :=
  match rforks with
  | [] => height
  | f :: rforks' => if version <=? hf_version f then earliest_loop rforks' version (hf_height f) else height
  end.

Definition get_earliest_ideal_height_for_version (hf : HardFork) (version : Z) : Z :=
  earliest_loop (reverse (heights hf)) version UINT64_MAX.

Fixpoint next_loop (rforks : list hardfork_t) (prev : option hardfork_t) (height : Z) : option Z :=
  match rforks with
  | [] => None
  | f :: rforks' =>
      if hf_height f <=? height then Some (hf_version (default f prev)) else next_loop rforks' (Some f) height
  end.

Definition get_next_version (hf : HardFork) (db : db_t) : Z :=
  default (original_version hf) (next_loop (reverse (heights hf)) None (db_height db)).

Record voting_info := mk_voting {
  vi_enabled : bool; vi_window : Z; vi_votes : Z; vi_threshold : Z; vi_earliest_height : Z; vi_voting : Z }.

Definition sum_votes (lv : list Z) (version : Z) : Z :=
  foldl (fun acc c => u32 (acc + c)) 0 (drop (Z.to_nat version) lv).

Definition get_voting_info (hf : HardFork) (version : Z) : option voting_info :=
  f ← fork_at hf (current_fork_index hf);
  b ← last (heights hf);
  let window := u32 (length (versions hf)) in
  Some (mk_voting (version <=? hf_version f) window (sum_votes (last_versions hf) version)
          (u32 (window * hf_threshold f + 99) / 100)
          (get_earliest_ideal_height_for_version hf version) (hf_version b)).

(** ** Vote counting *)

(** [lv] counts the occurrences of every version in the window [vs]. *)
Record counts (vs lv : list Z) : Prop := {
  counts_length : length lv = 256%nat;
  counts_range : Forall is_u8 vs;
  counts_bound : length vs < 2 ^ 32;
  counts_votes : forall v, is_u8 v -> votes_of lv v = occ v vs;
}.

Lemma votes_of_alter f lv v w :
  length lv = 256%nat -> is_u8 v -> is_u8 w ->
  votes_of (alter f (Z.to_nat v) lv) w = if decide (v = w) then f (votes_of lv v) else votes_of lv w.
Proof.
  intros Hl Hv Hw. change (is_u8 v) with (0 <= v < 256) in Hv. change (is_u8 w) with (0 <= w < 256) in Hw.
  unfold votes_of. rewrite !nth_lookup. case_decide as E.
  - subst. destruct (lookup_lt_is_Some_2 lv (Z.to_nat w)) as [x Hx]; [lia|].
    by rewrite list_lookup_alter_eq, Hx.
  - rewrite list_lookup_alter_ne by lia. done.
Qed.

Lemma counts_zero : counts [] zero_votes.
Proof.
  split; [done|constructor|simpl; lia|]. intros v Hv. unfold votes_of, zero_votes.
  rewrite nth_lookup, lookup_replicate_2; [done|]. change (is_u8 v) with (0 <= v < 256) in Hv. lia.
Qed.

(** Counting a vote anywhere in the window. *)
Lemma counts_add vs lv v ws :
  counts vs lv -> is_u8 v -> ws ≡ₚ v :: vs -> length ws < 2 ^ 32 -> counts ws (count_vote lv v).
Proof.
  intros [Hl Hr Hb Hc] Hv Hp Hb'. split; [by unfold count_vote; rewrite length_alter| |done|].
  - rewrite Hp. by constructor.
  - intros w Hw. unfold count_vote. rewrite votes_of_alter by done.
    assert (occ w ws = occ w (v :: vs)) as -> by (unfold occ; by rewrite (filter_Permutation _ _ _ Hp)).
    rewrite occ_cons. case_decide as E; [subst|rewrite Hc by done; lia].
    rewrite Hc by done. pose proof (occ_le_length w vs). apply Permutation_length in Hp. simpl in Hp.
    rewrite wrap_small by (unfold is_uint; lia). lia.
Qed.

Lemma counts_remove vs lv v ws : counts ws lv -> ws ≡ₚ v :: vs -> counts vs (uncount_vote lv v).
Proof.
  intros [Hl Hr Hb Hc] Hp. rewrite Hp in Hr. apply Forall_cons in Hr as [Hv Hr].
  pose proof (Permutation_length Hp) as Hlen. simpl in Hlen.
  split; [by unfold uncount_vote; rewrite length_alter|done|lia|].
  intros w Hw. unfold uncount_vote. rewrite votes_of_alter by done.
  assert (forall u, occ u ws = occ u (v :: vs)) as Ho by (intros u; unfold occ; by rewrite (filter_Permutation _ _ _ Hp)).
  pose proof (occ_le_length w vs). rewrite !Hc, !Ho, !occ_cons by done. rewrite (decide_True _ _ (eq_refl v)).
  case_decide; [subst; rewrite wrap_small by (unfold is_uint; lia)|]; lia.
Qed.

Lemma counts_head v vs lv : counts (v :: vs) lv -> votes_of lv v >= 1.
Proof.
  intros [_ Hr _ Hc]. apply Forall_cons in Hr as [Hv _]. rewrite Hc, occ_cons, decide_True by done.
  pose proof (occ_le_length v vs). lia.
Qed.

(** The counters are determined by the window. *)
Lemma counts_unique vs l1 l2 : counts vs l1 -> counts vs l2 -> l1 = l2.
Proof.
  intros [H1 _ _ C1] [H2 _ _ C2]. apply (nth_ext _ _ 0 0); [congruence|].
  intros n Hn. specialize (C1 n). specialize (C2 n). unfold votes_of in C1, C2. rewrite Nat2Z.id in C1, C2.
  rewrite C1, C2; [done|unfold is_uint; lia..].
Qed.

Lemma shrink_window_spec window vs : forall lv,
  1 <= window -> counts vs lv ->
  exists lv', shrink_window window vs lv = Some (lastn (Z.to_nat window - 1) vs, lv') /\
    counts (lastn (Z.to_nat window - 1) vs) lv'.
Proof.
  induction vs as [|v vs IH]; intros lv Hw Hc.
  { exists lv. cbn [shrink_window]. bfalse (window <=? 0). done. }
  cbn [shrink_window]. destruct (Z.leb_spec window (length (v :: vs))) as [Hle|Hlt].
  - pose proof (counts_head _ _ _ Hc). btrue (1 <=? votes_of lv v).
    destruct (IH (uncount_vote lv v) Hw) as (lv' & E & Hc'); [by eapply counts_remove|].
    exists lv'. rewrite E.
    assert (lastn (Z.to_nat window - 1) (v :: vs) = lastn (Z.to_nat window - 1) vs) as ->; [|done].
    unfold lastn. cbn [length] in *. replace (S (length vs) - (Z.to_nat window - 1))%nat
      with (S (length vs - (Z.to_nat window - 1))) by lia. done.
  - exists lv. rewrite lastn_all by lia. done.
Qed.

(** ** The invariant *)

Definition fork_before (f g : hardfork_t) : Prop := hf_version f < hf_version g /\ hf_height f < hf_height g.

Record wf_forks (hs : list hardfork_t) : Prop := {
  forks_nonempty : hs <> [];
  forks_sorted : StronglySorted fork_before hs;
  forks_fields : Forall (fun f => is_u8 (hf_version f) /\ is_u64 (hf_height f) /\ 0 <= hf_threshold f <= 100) hs;
}.

Record hf_inv (hf : HardFork) : Prop := {
  inv_forks : wf_forks (heights hf);
  inv_window : 1 <= window_size hf < 2 ^ 32;
  inv_len : length (versions hf) <= window_size hf;
  inv_counts : counts (versions hf) (last_versions hf);
  inv_index : 0 <= current_fork_index hf < length (heights hf);
}.

Lemma forks_versions_sorted hs : wf_forks hs -> StronglySorted Z.lt (map hf_version hs).
Proof.
  intros [_ HS _]. induction HS as [|f hs HS IH HF]; simpl; constructor; [done|].
  apply Forall_forall. intros v Hv. apply list_elem_of_fmap in Hv as (g & -> & Hg).
  eapply Forall_forall in HF; [|done]. apply HF.
Qed.

Lemma forks_versions_NoDup hs : wf_forks hs -> NoDup (map hf_version hs).
Proof.
  intros Hw%forks_versions_sorted. induction Hw as [|v l HS IH HF]; constructor; [|done].
  intros Hv. eapply Forall_forall in HF; [|done]. lia.
Qed.

Lemma forks_count hs : wf_forks hs -> length hs <= 256.
Proof.
  intros Hw. pose proof (sorted_length (map hf_version hs) 0 256 (forks_versions_sorted _ Hw)) as H.
  change (map hf_version hs) with (hf_version <$> hs) in H. rewrite length_fmap in H. apply H; [|lia]. apply Forall_fmap. eapply Forall_impl; [apply Hw|].
  intros f [Hv _]. exact Hv.
Qed.

Lemma fork_at_Some hf i : hf_inv hf -> 0 <= i < length (heights hf) -> exists f, fork_at hf i = Some f /\ heights hf !! Z.to_nat i = Some f.
Proof.
  intros _ Hi. unfold fork_at. bfalse (i <? 0).
  destruct (lookup_lt_is_Some_2 (heights hf) (Z.to_nat i)) as [f Hf]; [lia|]. eauto.
Qed.

Lemma effective_version_u8 hf v : wf_forks (heights hf) -> is_u8 v -> is_u8 (get_effective_version hf v).
Proof.
  intros [_ _ HF] Hv. unfold get_effective_version. destruct (last (heights hf)) as [f|] eqn:E; [|done].
  apply last_Some_elem_of in E. eapply Forall_forall in HF; [|done]. cbv zeta. bcase; [apply HF|done].
Qed.

(** ** Voting *)

(** The votes of the window for one of the forks from index [n] on. *)
Definition fork_votes (hf : HardFork) (n : nat) : Z :=
  foldr Z.add 0 (map (fun f => occ (hf_version f) (versions hf)) (drop n (heights hf))).

(** Fork [n] may be active at [height]: scheduled, and with its share of the
    votes of a full window. *)
Definition fork_active (hf : HardFork) (height : Z) (n : nat) : Prop :=
  exists f, heights hf !! n = Some f /\ hf_height f <= height /\
    window_size hf * hf_threshold f <= 100 * fork_votes hf n.

Lemma fork_votes_S hf n f :
  heights hf !! n = Some f -> fork_votes hf n = occ (hf_version f) (versions hf) + fork_votes hf (S n).
Proof. intros E. unfold fork_votes. by rewrite (drop_S _ _ _ E). Qed.

Lemma fork_votes_range hf n : hf_inv hf -> 0 <= fork_votes hf n <= length (versions hf).
Proof.
  intros Hi. unfold fork_votes. split.
  - induction (drop n (heights hf)) as [|f l IH]; simpl; [lia|]. pose proof (occ_le_length (hf_version f) (versions hf)). lia.
  - pose proof (occ_sum_le_length (map hf_version (drop n (heights hf))) (versions hf)) as H.
    rewrite map_map in H. apply H. pose proof (forks_versions_NoDup _ (inv_forks _ Hi)) as Hn.
    rewrite <- (take_drop n (heights hf)), map_app in Hn. by apply NoDup_app in Hn as (_ & _ & Hn).
Qed.

Lemma fork_threshold_ceil hf f : hf_inv hf -> 0 <= hf_threshold f <= 100 ->
  fork_threshold hf f = (window_size hf * hf_threshold f + 99) / 100.
Proof.
  intros Hi Hf. pose proof (inv_window _ Hi). unfold fork_threshold.
  rewrite (wrap_small 64 (_ * _)), (wrap_small 64 (_ + 99)), (wrap_small 32); [done|..]; unfold is_uint.
  - split; [apply Z.div_pos; nia|]. apply Z.div_lt_upper_bound; nia.
  - nia.
  - nia.
Qed.

Lemma voted_loop_spec hf height n : hf_inv hf -> (n <= length (heights hf))%nat ->
  let r := voted_loop hf height n (fork_votes hf n) in
  (exists m : nat, r = m /\ (m < n)%nat /\ fork_active hf height m /\
     forall k, (m < k < n)%nat -> ~ fork_active hf height k) \/
  (r = current_fork_index hf /\ forall k, (k < n)%nat -> ~ fork_active hf height k).
Proof.
  intros Hi. induction n as [|n IH]; intros Hn; cbn [voted_loop]; [right; split; [done|lia]|].
  destruct (lookup_lt_is_Some_2 (heights hf) n) as [f Hf]; [lia|]. rewrite Hf. cbv zeta.
  pose proof (inv_forks _ Hi) as Hw. pose proof (Forall_lookup_1 _ _ _ _ (forks_fields _ Hw) Hf) as (Hv & _ & Ht).
  pose proof (fork_votes_range hf n Hi) as Hr. pose proof (inv_len _ Hi). pose proof (inv_window _ Hi).
  rewrite (counts_votes _ _ (inv_counts _ Hi)) by done. rewrite Z.add_comm, <- fork_votes_S by done.
  rewrite wrap_small by (unfold is_uint; lia). rewrite fork_threshold_ceil by done.
  assert (Hact : fork_active hf height n <-> hf_height f <= height /\ (window_size hf * hf_threshold f + 99) / 100 <= fork_votes hf n).
  { unfold fork_active. split.
    - intros (f' & Hf' & H1 & H2). simplify_eq. split; [done|]. apply Z.lt_succ_r, Z.div_lt_upper_bound; lia.
    - intros [H1 H2]. exists f. split_and!; [done..|]. Z.div_mod_to_equations; lia. }
  destruct (_ && _) eqn:E.
  - left. exists n. bcase_hyps. split_and!; [done|lia|by apply Hact|lia].
  - assert (Hno : ~ fork_active hf height n).
    { rewrite Hact. apply andb_false_iff in E as [E|E]; bcase_hyps; lia. }
    specialize (IH ltac:(lia)). cbv zeta in IH. destruct IH as [(m & Em & Hm & Ha & Hk)|[Er Hk]].
    + left. exists m. split_and!; [done|lia|done|]. intros k Hk'. destruct (decide (k = n)) as [->|]; [done|]. apply Hk. lia.
    + right. split; [done|]. intros k Hk'. destruct (decide (k = n)) as [->|]; [done|]. apply Hk. lia.
Qed.

Lemma voted_index_spec hf height : hf_inv hf ->
  (exists m : nat, get_voted_fork_index hf height = m /\ fork_active hf height m /\
     forall k, (m < k)%nat -> ~ fork_active hf height k) \/
  (get_voted_fork_index hf height = current_fork_index hf /\ forall k, ~ fork_active hf height k).
Proof.
  intros Hi. assert (Hout : forall k, (length (heights hf) <= k)%nat -> ~ fork_active hf height k).
  { intros k Hk (f & Hf & _). apply lookup_lt_Some in Hf. lia. }
  pose proof (voted_loop_spec hf height (length (heights hf)) Hi ltac:(lia)) as H. cbv zeta in H.
  replace (fork_votes hf (length (heights hf))) with 0 in H by (unfold fork_votes; by rewrite drop_all).
  destruct H as [(m & Em & Hm & Ha & Hk)|[Er Hk]]; [left|right].
  - exists m. split_and!; [done|done|]. intros k Hk'. destruct (le_lt_dec (length (heights hf)) k); [by apply Hout|]. apply Hk. lia.
  - split; [done|]. intros k. destruct (le_lt_dec (length (heights hf)) k); [by apply Hout|]. by apply Hk.
Qed.

Lemma voted_index_range hf height : hf_inv hf -> 0 <= get_voted_fork_index hf height < length (heights hf).
Proof.
  intros Hi. destruct (voted_index_spec hf height Hi) as [(m & -> & (f & Hf & _) & _)|[-> _]]; [|apply Hi].
  apply lookup_lt_Some in Hf. lia.
Qed.

Lemma raise_to_voted_eq hf height : hf_inv hf ->
  raise_to_voted hf height = set_index hf (Z.max (current_fork_index hf) (get_voted_fork_index hf height)).
Proof.
  intros Hi. unfold raise_to_voted. pose proof (voted_index_range hf height Hi). pose proof (forks_count _ (inv_forks _ Hi)).
  rewrite wrap_small by (unfold is_uint; lia). cbv zeta. bcase.
  - f_equal. lia.
  - rewrite Z.max_l by lia. by destruct hf.
Qed.

Lemma raise_to_voted_inv hf height : hf_inv hf -> hf_inv (raise_to_voted hf height).
Proof.
  intros Hi. pose proof (voted_index_range hf height Hi). rewrite raise_to_voted_eq by done.
  destruct Hi as [H1 H2 H3 H4 H5]. split; cbn; [done..|lia].
Qed.

(** ** Adding blocks *)

Lemma set_votes_inv hf vs lv :
  hf_inv hf -> counts vs lv -> length vs <= window_size hf -> hf_inv (set_votes hf vs lv).
Proof. intros [H1 H2 H3 H4 H5] Hc Hl. by split. Qed.

(** What [add] does when the block passes [do_check]. *)
Lemma add_accepted hf db bv vv height f :
  hf_inv hf -> is_u8 vv -> fork_at hf (current_fork_index hf) = Some f ->
  bv = hf_version f -> hf_version f <= vv ->
  exists lv', let hf1 := set_votes hf (lastn (Z.to_nat (window_size hf)) (versions hf ++ [get_effective_version hf vv])) lv' in
    add hf db bv vv height = Some (true, raise_to_voted hf1 (height ⊞ 1), set_hard_fork_version db height (hf_version f)) /\
    hf_inv hf1.
Proof.
  intros Hi Hv Ef -> Hle. pose proof (inv_window _ Hi) as Hw.
  destruct (shrink_window_spec (window_size hf) (versions hf) (last_versions hf) ltac:(lia) (inv_counts _ Hi)) as (lv & Es & Hc).
  pose proof (effective_version_u8 hf vv (inv_forks _ Hi) Hv) as He.
  assert (Hlast : lastn (Z.to_nat (window_size hf)) (versions hf ++ [get_effective_version hf vv]) =
    lastn (Z.to_nat (window_size hf) - 1) (versions hf) ++ [get_effective_version hf vv]).
  { rewrite <- lastn_snoc. f_equal. lia. }
  exists (count_vote lv (get_effective_version hf vv)). cbv zeta. rewrite Hlast. split.
  - unfold add, do_check. rewrite Ef. cbn [mbind option_bind]. rewrite Z.eqb_refl. btrue (hf_version f <=? vv).
    cbn [andb negb]. rewrite Es. done.
  - apply set_votes_inv; [done| |].
    + eapply counts_add; [done|done| |].
      * by rewrite Permutation_app_comm.
      * rewrite length_app, length_lastn. simpl. lia.
    + rewrite length_app, length_lastn. simpl. lia.
Qed.

(** What [add] does when it does not. *)
Lemma add_rejected hf db bv vv height f :
  fork_at hf (current_fork_index hf) = Some f -> (bv <> hf_version f \/ vv < hf_version f) ->
  add hf db bv vv height = Some (false, hf, db).
Proof.
  intros Ef Hno. unfold add, do_check. rewrite Ef. cbn [mbind option_bind].
  assert ((bv =? hf_version f) && (hf_version f <=? vv) = false) as ->; [|done].
  apply andb_false_iff. destruct Hno; [left|right]; [by apply Z.eqb_neq|by apply Z.leb_gt].
Qed.

Definition wf_block (b : block) : Prop := is_u8 (major_version b) /\ is_u8 (minor_version b).

Lemma block_vote_u8 b : wf_block b -> is_u8 (get_block_vote b).
Proof. intros [_ H]. unfold get_block_vote. bcase; [unfold is_uint; lia|done]. Qed.

(** [BlockchainDB::add_block]: the block is stored, then passed to [add] with
    its height. *)
Definition db_append (db : db_t) (b : block) : db_t := mk_db (db_blocks db ++ [b]) (db_versions db).
Definition chain_add (hf : HardFork) (db : db_t) (b : block) : option (bool * HardFork * db_t) :=
  add_block hf (db_append db b) b (db_height db).

(** The votes of the chain, as the window records them. *)
Definition chain_votes (hf : HardFork) (db : db_t) : list Z :=
  map (fun b => get_effective_version hf (get_block_vote b)) (db_blocks db).

(** A hard fork object in step with its database. *)
Record in_sync (hf : HardFork) (db : db_t) : Prop := {
  sync_inv : hf_inv hf;
  sync_blocks : Forall wf_block (db_blocks db);
  sync_window : versions hf = lastn (Z.to_nat (window_size hf)) (chain_votes hf db);
  sync_empty : db_blocks db = [] -> current_fork_index hf = 0;
  sync_top : db_blocks db <> [] -> exists (i : nat) f,
    heights hf !! i = Some f /\ get_hard_fork_version db (db_height db - 1) = Some (hf_version f) /\
    hf = raise_to_voted (set_index hf i) (db_height db) /\ hf_inv (set_index hf i);
}.

Lemma chain_votes_append hf hf' db b :
  heights hf' = heights hf ->
  chain_votes hf' (db_append db b) = chain_votes hf db ++ [get_effective_version hf (get_block_vote b)].
Proof. intros E. unfold chain_votes, db_append. cbn. rewrite map_app. unfold get_effective_version. by rewrite E. Qed.

Lemma db_height_nonneg db : 0 <= db_height db.
Proof. unfold db_height. lia. Qed.

Lemma db_height_append db b : db_height (db_append db b) = db_height db + 1.
Proof. unfold db_height, db_append. cbn. rewrite length_app. simpl. lia. Qed.

Lemma raise_keeps hf h : heights (raise_to_voted hf h) = heights hf /\ window_size (raise_to_voted hf h) = window_size hf /\
  versions (raise_to_voted hf h) = versions hf /\ (forall i, set_index (raise_to_voted hf h) i = set_index hf i).
Proof. unfold raise_to_voted. cbv zeta. case_match; done. Qed.

Lemma chain_add_in_sync hf db b hf' db' :
  in_sync hf db -> wf_block b -> db_height db < UINT64_MAX ->
  chain_add hf db b = Some (true, hf', db') -> in_sync hf' db'.
Proof.
  intros [Hi Hbs Hwin _ _] Hb Hh E. pose proof (inv_index _ Hi) as Hidx.
  destruct (fork_at_Some hf (current_fork_index hf) Hi Hidx) as (f & Ef & Hf).
  unfold chain_add, add_block, get_block_version in E.
  destruct (decide (major_version b = hf_version f /\ hf_version f <= get_block_vote b)) as [[Ev Hle]|Hno].
  2:{ rewrite (add_rejected _ _ _ _ _ f Ef) in E by lia. simplify_eq. }
  destruct (add_accepted hf (db_append db b) _ _ (db_height db) f Hi (block_vote_u8 b Hb) Ef Ev Hle) as (lv & Ea & Hi1).
  rewrite Ea in E. simplify_eq. set (hf1 := set_votes hf _ lv) in *.
  assert (Hht : db_height db ⊞ 1 = db_height (db_append db b)).
  { rewrite db_height_append. apply wrap_small. unfold is_uint, db_height in *. lia. }
  rewrite Hht. destruct (raise_keeps hf1 (db_height (db_append db b))) as (K1 & K2 & K3 & K4). split.
  - by apply raise_to_voted_inv.
  - apply Forall_app. split; [done|by constructor].
  - rewrite K2, K3. change (versions hf1) with (lastn (Z.to_nat (window_size hf)) (versions hf ++ [get_effective_version hf (get_block_vote b)])).
    change (window_size hf1) with (window_size hf).
    change (chain_votes (raise_to_voted hf1 (db_height (db_append db b)))
      (set_hard_fork_version (db_append db b) (db_height db) (hf_version f)))
      with (chain_votes (raise_to_voted hf1 (db_height (db_append db b))) (db_append db b)).
    rewrite (chain_votes_append hf) by (rewrite K1; done). rewrite Hwin.
    replace (Z.to_nat (window_size hf)) with (S (Z.to_nat (window_size hf) - 1)) by (pose proof (inv_window _ Hi); lia).
    rewrite !lastn_snoc, lastn_lastn by lia. done.
  - cbn. intros Hnil. by apply app_eq_nil in Hnil as [_ ?].
  - intros _. exists (Z.to_nat (current_fork_index hf)), f.
    assert (Hs : set_index (raise_to_voted hf1 (db_height (db_append db b))) (Z.to_nat (current_fork_index hf)) = hf1).
    { rewrite K4, Z2Nat.id by lia. unfold hf1. by destruct hf. }
    rewrite Hs. split_and!; [by rewrite K1| |done|done].
    unfold get_hard_fork_version, db_height. cbn. rewrite length_app. simpl.
    replace (Z.of_nat (length (db_blocks db) + 1) - 1) with (db_height db) by (unfold db_height; lia).
    apply lookup_insert_eq.
Qed.

(** *** Restoring the state from the database *)

Lemma scan_votes_spec hf db : wf_forks (heights hf) -> Forall wf_block (db_blocks db) ->
  forall (n : nat) (h : Z) vs lv, 0 <= h -> h + n <= db_height db -> counts vs lv -> length vs + n < 2 ^ 32 ->
  exists lv', scan_votes hf db h n vs lv = Some (vs ++ take n (drop (Z.to_nat h) (chain_votes hf db)), lv') /\
    counts (vs ++ take n (drop (Z.to_nat h) (chain_votes hf db))) lv'.
Proof.
  intros Hw Hb. induction n as [|n IH]; intros h vs lv Hh Hn Hc Hlen.
  { exists lv. rewrite take_0, app_nil_r. done. }
  cbn [scan_votes]. unfold db_height in Hn. destruct (lookup_lt_is_Some_2 (db_blocks db) (Z.to_nat h)) as [b Eb]; [lia|].
  unfold get_block_from_height. bfalse (h <? 0). rewrite Eb. cbn [mbind option_bind].
  pose proof (Forall_lookup_1 _ _ _ _ Hb Eb) as Hwb.
  set (v := get_effective_version hf (get_block_vote b)).
  assert (Hv : is_u8 v) by (apply effective_version_u8; [done|by apply block_vote_u8]).
  destruct (IH (h + 1) (vs ++ [v]) (count_vote lv v)) as (lv' & E & Hc').
  - lia.
  - unfold db_height. lia.
  - eapply counts_add; [done|done|by rewrite Permutation_app_comm|]. rewrite length_app. simpl. lia.
  - rewrite length_app. simpl. lia.
  - exists lv'. rewrite E. assert (Ed : drop (Z.to_nat h) (chain_votes hf db) = v :: drop (Z.to_nat (h + 1)) (chain_votes hf db)).
    { replace (Z.to_nat (h + 1)) with (S (Z.to_nat h)) by lia. apply drop_S. unfold chain_votes.
      change (map ?f ?l) with (f <$> l). rewrite list_lookup_fmap, Eb. done. }
    rewrite Ed. cbn [take]. rewrite <- !app_assoc in *. done.
Qed.

Lemma find_fork_index hs : NoDup (map hf_version hs) -> forall (i : nat) f, hs !! i = Some f -> find_fork hs (hf_version f) = i.
Proof.
  induction hs as [|g hs IH]; intros Hn i f E; [done|]. cbn [map] in Hn. apply NoDup_cons in Hn as [Hg Hn].
  destruct i as [|i]; simplify_eq/=.
  - destruct hs; [done|]. by rewrite Z.eqb_refl.
  - assert (hf_version g <> hf_version f).
    { intros Heq. apply Hg. rewrite Heq. apply list_elem_of_fmap. exists f. split; [done|]. by eapply list_elem_of_lookup_2. }
    destruct hs as [|g' hs]; [done|]. bfalse (hf_version g =? hf_version f). rewrite (IH Hn i f E). lia.
Qed.

(** A configured object: its fork table filled by [add_fork]. *)
Definition configured (hf : HardFork) : Prop := wf_forks (heights hf) /\ 1 <= window_size hf < 2 ^ 32.

(** The states of a node: a configured object initialised on an empty database,
    then fed each block that passes its check. *)
Inductive synced : HardFork -> db_t -> Prop :=
  | synced_init hf0 hf vs : configured hf0 -> init hf0 (mk_db [] vs) = Some hf -> synced hf (mk_db [] vs)
  | synced_add hf db b hf' db' : synced hf db -> wf_block b -> db_height db < UINT64_MAX ->
      chain_add hf db b = Some (true, hf', db') -> synced hf' db'.

Lemma init_empty hf vs : heights hf <> [] -> init hf (mk_db [] vs) = Some (set_index (set_votes hf [] zero_votes) 0).
Proof.
  intros Hn. unfold init. destruct (heights hf) as [|f hs] eqn:E; [done|].
  unfold rescan_from_chain_height, rescan_from_block_height, db_height. cbn [db_blocks length window_size set_index set_votes].
  destruct (Z.ltb_spec (window_size hf) 0%nat); [|done].
  destruct (Z.eqb_spec (0%nat - (window_size hf - 1)) 0); [done|]. btrue (0%nat <=? 0%nat - (window_size hf - 1) - 1). done.
Qed.

Lemma synced_in_sync hf db : synced hf db -> in_sync hf db.
Proof.
  induction 1 as [hf0 hf vs [Hw Hwin] E|hf db b hf' db' _ IH Hb Hh E]; [|by eapply chain_add_in_sync].
  rewrite init_empty in E by apply Hw. simplify_eq. split; cbn; try done.
  split; cbn; [done..| |apply counts_zero|].
  - lia.
  - pose proof (forks_nonempty _ Hw). destruct (heights hf0); [done|]. simpl. lia.
Qed.

Lemma in_sync_init hf db : in_sync hf db -> init hf db = Some hf.
Proof.
  intros [Hi Hb Hwin Hemp Htop]. pose proof (inv_forks _ Hi) as Hw. pose proof (inv_window _ Hi) as Hwn.
  pose proof (forks_nonempty _ Hw) as Hne. destruct (db_blocks db) as [|b0 bs] eqn:Ebs.
  - destruct db as [bs vs]. cbn in Ebs. subst. rewrite init_empty by done. f_equal.
    assert (Hv : versions hf = []) by (rewrite Hwin; done). pose proof (inv_counts _ Hi) as Hc. rewrite Hv in Hc.
    rewrite (counts_unique _ _ _ counts_zero Hc), <- Hv, <- (Hemp eq_refl). by destruct hf.
  - assert (Hpos : 0 < db_height db) by (unfold db_height; rewrite Ebs; simpl; lia). rewrite <- Ebs in *. clear Ebs Hemp.
    destruct Htop as (i & f & Hf & Hver & Hraise & Hi'); [intros E; unfold db_height in Hpos; rewrite E in Hpos; simpl in Hpos; lia|].
    unfold init. destruct (heights hf) as [|f0 hs] eqn:Eh; [done|]. rewrite <- Eh in *.
    cbn [set_index set_votes window_size]. set (hf1 := set_index (set_votes hf [] zero_votes) 0).
    set (start := if window_size hf <? db_height db then db_height db - window_size hf else 0).
    assert (Estart : rescan_from_chain_height hf1 db (if window_size hf <? db_height db then db_height db - (window_size hf - 1) else 1)
      = rescan_from_block_height hf1 db start).
    { unfold rescan_from_chain_height, start. destruct (Z.ltb_spec (window_size hf) (db_height db)); [|done].
      bfalse (db_height db - (window_size hf - 1) =? 0). f_equal. lia. }
    rewrite Estart. unfold rescan_from_block_height.
    assert (Hst : 0 <= start < db_height db) by (unfold start; bcase; lia). bfalse (db_height db <=? start).
    destruct (scan_votes_spec hf1 db Hw Hb (Z.to_nat (db_height db - start)) start [] zero_votes) as (lv & Es & Hc);
      [lia|lia|apply counts_zero|simpl; unfold start; bcase; lia|].
    rewrite Es. cbn [mbind option_bind]. rewrite Hver. cbn [mbind option_bind].
    assert (Hvs : [] ++ take (Z.to_nat (db_height db - start)) (drop (Z.to_nat start) (chain_votes hf1 db)) = versions hf).
    { rewrite Hwin. cbn [app]. change (chain_votes hf1 db) with (chain_votes hf db).
      assert (Hl : length (chain_votes hf db) = Z.to_nat (db_height db)) by (unfold chain_votes, db_height; rewrite length_map; lia).
      rewrite take_ge by (rewrite length_drop; lia). unfold lastn. f_equal. rewrite Hl. unfold start. bcase; lia. }
    rewrite Hvs in *. rewrite (counts_unique _ _ _ Hc (inv_counts _ Hi)).
    change (heights hf1) with (heights hf). rewrite (find_fork_index _ (forks_versions_NoDup _ Hw) i f Hf).
    f_equal. rewrite Hraise at 3. f_equal.
Qed.

(** *** The schedule, when voting is disabled *)

(** [i] is the last fork scheduled at or before [height], or the first fork. *)
Definition scheduled_index (hf : HardFork) (height : Z) (i : nat) : Prop :=
  (exists f, heights hf !! i = Some f /\ (i = O \/ hf_height f <= height)) /\
  forall k g, (i < k)%nat -> heights hf !! k = Some g -> height < hf_height g.

Definition voting_disabled (hf : HardFork) : Prop := Forall (fun f => hf_threshold f = 0) (heights hf).

Lemma active_scheduled hf height k g :
  hf_inv hf -> voting_disabled hf -> heights hf !! k = Some g -> fork_active hf height k <-> hf_height g <= height.
Proof.
  intros Hi Hd Hg. pose proof (fork_votes_range hf k Hi). pose proof (Forall_lookup_1 _ _ _ _ Hd Hg) as Ht. cbn in Ht.
  unfold fork_active. split; [intros (f & Hf & ? & _); by simplify_eq|]. intros Hle. exists g. rewrite Ht. split_and!; [done|done|lia].
Qed.

(** One step of the index along the schedule. *)
Lemma scheduled_raise hf h h' (i : nat) :
  hf_inv hf -> voting_disabled hf -> h <= h' -> current_fork_index hf = i -> scheduled_index hf h i ->
  exists j : nat, current_fork_index (raise_to_voted hf h') = j /\ scheduled_index hf h' j.
Proof.
  intros Hi Hd Hh Ei [(f & Hf & Hif) Hgt]. rewrite raise_to_voted_eq by done. cbn.
  destruct (voted_index_spec hf h' Hi) as [(m & -> & Hm & Hk)|[-> Hno]].
  - exists m. assert ((i <= m)%nat).
    { destruct Hif as [->|Hle]; [lia|]. destruct (le_lt_dec i m); [done|]. exfalso.
      apply (Hk i); [done|]. apply (active_scheduled hf h' i f); [done..|lia]. }
    split; [lia|]. destruct Hm as (g & Hg & Hgh & _). split; [exists g; auto|].
    intros k g' Hlt Hg'. specialize (Hk k Hlt). rewrite (active_scheduled hf h' k g' Hi Hd Hg') in Hk. lia.
  - exists i. split; [lia|]. assert (Hall : forall k g, heights hf !! k = Some g -> h' < hf_height g).
    { intros k g Hg. specialize (Hno k). rewrite (active_scheduled hf h' k g Hi Hd Hg) in Hno. lia. }
    split; [|eauto]. exists f. split; [done|]. left. destruct Hif as [->|Hle]; [done|]. specialize (Hall i f Hf). lia.
Qed.

Lemma synced_keeps_config hf db b hf' db' :
  in_sync hf db -> wf_block b -> chain_add hf db b = Some (true, hf', db') ->
  exists lv, let hf1 := set_votes hf (lastn (Z.to_nat (window_size hf)) (versions hf ++ [get_effective_version hf (get_block_vote b)])) lv in
    hf_inv hf1 /\ hf' = raise_to_voted hf1 (db_height db ⊞ 1) /\ db_blocks db' = db_blocks db ++ [b].
Proof.
  intros [Hi _ _ _ _] Hb E. destruct (fork_at_Some hf (current_fork_index hf) Hi (inv_index _ Hi)) as (f & Ef & _).
  unfold chain_add, add_block, get_block_version in E.
  destruct (decide (major_version b = hf_version f /\ hf_version f <= get_block_vote b)) as [[Ev Hle]|Hno].
  2:{ rewrite (add_rejected _ _ _ _ _ f Ef) in E by lia. simplify_eq. }
  destruct (add_accepted hf (db_append db b) _ _ (db_height db) f Hi (block_vote_u8 b Hb) Ef Ev Hle) as (lv & Ea & Hi1).
  exists lv. rewrite Ea in E. by simplify_eq.
Qed.

Lemma synced_scheduled hf db :
  synced hf db -> voting_disabled hf -> exists i : nat, current_fork_index hf = i /\ scheduled_index hf (db_height db) i.
Proof.
  induction 1 as [hf0 hf vs [Hw Hwin] E|hf db b hf' db' Hs IH Hb Hh E]; intros Hd.
  - rewrite init_empty in E by apply Hw. simplify_eq. exists O. split; [done|]. unfold scheduled_index. cbn [heights set_index set_votes].
    destruct (heights hf0) as [|f hs] eqn:Eh; [by destruct Hw|]. split; [exists f; auto|].
    intros k g Hk Hg. destruct k as [|k]; [lia|]. pose proof (strongly_sorted_lookup _ _ 0 (S k) f g (forks_sorted _ Hw) ltac:(lia) eq_refl Hg) as [_ ?].
    destruct (Forall_lookup_1 _ _ 0%nat f (forks_fields _ Hw) eq_refl) as (_ & [? _] & _). unfold db_height. cbn [db_blocks length]. lia.
  - destruct (synced_keeps_config hf db b hf' db' (synced_in_sync _ _ Hs) Hb E) as (lv & Hi1 & -> & Hbs). cbv zeta in *.
    set (hf1 := set_votes hf _ lv) in *.
    assert (Hd1 : voting_disabled hf1).
    { unfold voting_disabled in *. by rewrite (proj1 (raise_keeps _ _)) in Hd. }
    destruct IH as (i & Ei & Hsi); [exact Hd1|].
    assert (Hht : db_height db ⊞ 1 = db_height db').
    { unfold db_height at 2. rewrite Hbs, length_app. simpl. rewrite wrap_small; unfold is_uint, db_height in *; lia. }
    rewrite Hht. destruct (scheduled_raise hf1 (db_height db) (db_height db') i) as (j & Ej & Hsj); [done|done| |done|done|].
    { unfold db_height. rewrite Hbs, length_app. lia. }
    exists j. split; [done|]. unfold scheduled_index in *. by rewrite (proj1 (raise_keeps _ _)).
Qed.

Lemma ideal_loop_scheduled hf height i n :
  scheduled_index hf height i -> (i <= n < length (heights hf))%nat ->
  ideal_loop hf height n = match i, heights hf !! i with S _, Some f => hf_version f | _, _ => original_version hf end.
Proof.
  intros [(f & Hf & Hif) Hgt]. induction n as [|n IH]; intros Hn.
  - assert (i = O) as -> by lia. done.
  - cbn [ideal_loop]. destruct (lookup_lt_is_Some_2 (heights hf) (S n)) as [g Hg]; [lia|]. rewrite Hg.
    destruct (decide (i = S n)) as [->|].
    + rewrite Hg in *. simplify_eq. destruct Hif as [?|Hle]; [done|]. btrue (hf_height f <=? height). done.
    + specialize (Hgt (S n) g ltac:(lia) Hg). bfalse (hf_height g <=? height). apply IH. lia.
Qed.

(** *** Rebuilding after a reorganisation *)

(** A run of accepted blocks. *)
Inductive chain_run : HardFork -> db_t -> list block -> HardFork -> db_t -> Prop :=
  | run_nil hf db : chain_run hf db [] hf db
  | run_cons hf db b bs hf1 db1 hf2 db2 :
      wf_block b -> db_height db < UINT64_MAX -> chain_add hf db b = Some (true, hf1, db1) ->
      chain_run hf1 db1 bs hf2 db2 -> chain_run hf db (b :: bs) hf2 db2.

Lemma add_db hf db bv vv height hf' db' :
  add hf db bv vv height = Some (true, hf', db') ->
  exists v, db' = set_hard_fork_version db height v /\
    forall dbx, add hf dbx bv vv height = Some (true, hf', set_hard_fork_version dbx height v).
Proof.
  unfold add. destruct (do_check hf bv vv) as [[]|]; cbn [mbind option_bind negb]; try done.
  destruct (fork_at hf (current_fork_index hf)) as [f|]; cbn [mbind option_bind]; [|done].
  destruct (shrink_window _ _ _) as [[vs lv]|]; cbn [mbind option_bind]; [|done].
  intros. simplify_eq. eauto.
Qed.

(** The run extends the blocks and leaves the stored versions below alone. *)
Lemma chain_run_db hf db bs hf' db' :
  chain_run hf db bs hf' db' ->
  db_blocks db' = db_blocks db ++ bs /\ forall h, h < db_height db -> db_versions db' !! h = db_versions db !! h.
Proof.
  induction 1 as [hf db|hf db b bs hf1 db1 hf2 db2 Hb Hh E _ [IHb IHv]]; [by rewrite app_nil_r|].
  destruct (add_db _ _ _ _ _ _ _ E) as (v & -> & _). cbn in IHb. split; [by rewrite IHb, <- app_assoc|].
  intros h Hlt. rewrite IHv.
  - cbn. rewrite lookup_insert_ne by lia. done.
  - unfold db_height in *. cbn. rewrite length_app. lia.
Qed.

Lemma chain_run_blocks hf db bs hf' db' : chain_run hf db bs hf' db' -> Forall wf_block bs.
Proof. induction 1; by constructor. Qed.

(** Re-adding the blocks of a run from the final database repeats the run. *)
Lemma readd_replays hf db bs hf' db' :
  chain_run hf db bs hf' db' -> readd_blocks hf db' (db_height db) (length bs) = Some (hf', db').
Proof.
  induction 1 as [hf db|hf db b bs hf1 db1 hf2 db2 Hb Hh E Hrun IH]; [done|]. cbn [readd_blocks length].
  destruct (chain_run_db _ _ _ _ _ Hrun) as [Hbs Hvs]. destruct (add_db _ _ _ _ _ _ _ E) as (v & Edb1 & Eadd).
  assert (Hblk : get_block_from_height db2 (db_height db) = Some b).
  { pose proof (db_height_nonneg db). unfold get_block_from_height. bfalse (db_height db <? 0).
    rewrite Hbs, Edb1. cbn. unfold db_height. rewrite Nat2Z.id, <- app_assoc, lookup_app_r, Nat.sub_diag by lia. done. }
  rewrite Hblk. cbn [mbind option_bind]. unfold add_block. rewrite Eadd. cbn [mbind option_bind].
  assert (Hh1 : db_height db1 = db_height db + 1) by (rewrite Edb1; unfold db_height; cbn; rewrite length_app; simpl; lia).
  rewrite <- Hh1, <- IH. f_equal. unfold set_hard_fork_version. destruct db2 as [bs2 vs2]. cbn in *. f_equal.
  apply insert_id. rewrite (Hvs (db_height db)) by lia. rewrite Edb1. cbn. apply lookup_insert_eq.
Qed.

Lemma lower_index_spec hf (i j : nat) f :
  wf_forks (heights hf) -> heights hf !! i = Some f -> (i <= j < length (heights hf))%nat ->
  lower_index hf (hf_version f) j = Some (Z.of_nat i).
Proof.
  intros Hw Hf. induction j as [|j IH]; intros Hij; [by replace i with O by lia|]. cbn [lower_index].
  destruct (lookup_lt_is_Some_2 (heights hf) (S j)) as [g Hg]; [lia|]. rewrite Hg. cbn [mbind option_bind].
  destruct (decide (i = S j)) as [->|].
  - simplify_eq. bfalse (hf_version f <? hf_version f). done.
  - pose proof (strongly_sorted_lookup _ _ i (S j) f g (forks_sorted _ Hw) ltac:(lia) Hf Hg) as [? _].
    btrue (hf_version f <? hf_version g). apply IH. lia.
Qed.

(** [hfx] has the configuration of [hf], with any window and any counters. *)
Definition same_config (hf hfx : HardFork) : Prop :=
  exists vs lv i, hfx = set_index (set_votes hf vs lv) i.

Lemma reorganize_replays hf db bs hf' db' hfx :
  in_sync hf db -> 2 <= db_height db -> chain_run hf db bs hf' db' ->
  same_config hf hfx -> current_fork_index hf <= current_fork_index hfx < length (heights hf) ->
  reorganize_from_chain_height hfx db' (db_height db) = Some (true, hf', db').
Proof.
  intros [Hi Hb Hwin _ Htop] H2 Hrun (vs & lv & ix & ->) Hidx. cbn in Hidx.
  pose proof (inv_forks _ Hi) as Hw. pose proof (inv_window _ Hi) as Hwn.
  destruct Htop as (i & f & Hf & Hver & Hraise & Hi'); [intros E; unfold db_height in H2; rewrite E in H2; simpl in H2; lia|].
  assert (Hcur : i <= current_fork_index hf).
  { rewrite Hraise, raise_to_voted_eq by done. cbn. lia. }
  destruct (chain_run_db _ _ _ _ _ Hrun) as [Hbs Hvs].
  assert (Hh' : db_height db' = db_height db + length bs) by (unfold db_height; rewrite Hbs, length_app; lia).
  unfold reorganize_from_chain_height, reorganize_from_block_height. bfalse (db_height db =? 0).
  bfalse (db_height db' <=? db_height db - 1). bfalse (db_height db - 1 =? 0).
  assert (Hv' : get_hard_fork_version db' (db_height db - 1) = Some (hf_version f)).
  { rewrite <- Hver. apply Hvs. lia. }
  rewrite Hv'. cbn [mbind option_bind window_size set_index set_votes current_fork_index].
  rewrite (lower_index_spec _ i (Z.to_nat ix) f) by (cbn; done || lia). cbn [mbind option_bind].
  set (hfx := set_index (set_votes hf vs lv) ix).
  set (start := if window_size hf - 1 <=? db_height db - 1 then db_height db - 1 - (window_size hf - 1) else 0).
  assert (Hst : 0 <= start <= db_height db - 1) by (unfold start; bcase; lia).
  assert (Hb' : Forall wf_block (db_blocks db')).
  { rewrite Hbs. apply Forall_app. split; [done|]. by eapply chain_run_blocks. }
  destruct (scan_votes_spec hfx db' Hw Hb' (Z.to_nat (db_height db - 1 - start + 1)) start [] zero_votes) as (lv' & Es & Hc);
    [lia|lia|apply counts_zero|simpl; unfold start; bcase; lia|].
  rewrite Es. cbn [mbind option_bind].
  assert (Hvs' : [] ++ take (Z.to_nat (db_height db - 1 - start + 1)) (drop (Z.to_nat start) (chain_votes hfx db')) = versions hf).
  { rewrite Hwin. cbn [app]. change (chain_votes hfx db') with (chain_votes hf db').
    assert (chain_votes hf db' = chain_votes hf db ++ chain_votes hf (mk_db bs ∅)) as ->.
    { unfold chain_votes. rewrite Hbs, map_app. done. }
    assert (Hl : length (chain_votes hf db) = Z.to_nat (db_height db)) by (unfold chain_votes, db_height; rewrite length_map; lia).
    rewrite drop_app_le, take_app_le by (rewrite ?length_drop; lia). rewrite take_ge by (rewrite length_drop; lia).
    unfold lastn. f_equal. rewrite Hl. unfold start. bcase; lia. }
  rewrite Hvs' in *. rewrite (counts_unique _ _ _ Hc (inv_counts _ Hi)).
  replace (db_height db - 1 + 1) with (db_height db) by lia.
  replace (raise_to_voted _ (db_height db)) with hf.
  replace (Z.to_nat (db_height db' - db_height db)) with (length bs) by lia.
  by rewrite (readd_replays _ _ _ _ _ Hrun).
Qed.

(** *** Popping blocks *)

Lemma pop_one_counts db height vs lv w :
  vs <> [] -> counts vs lv -> get_hard_fork_version db height = Some w -> is_u8 w ->
  exists vs' lv', pop_one db height vs lv = Some (vs', lv') /\ counts vs' lv' /\ length vs' = length vs.
Proof.
  intros Hne Hc Hw Hu. destruct vs as [|v vs _] using rev_ind; [done|]. unfold pop_one. rewrite last_snoc. cbn [mbind option_bind].
  rewrite Hw. cbn [mbind option_bind]. rewrite length_app. simpl length.
  replace (length vs + 1 - 1)%nat with (length vs) by lia. rewrite take_app_length.
  do 2 eexists. split; [done|]. split; [|simpl; lia]. eapply counts_add; [| |done|].
  - eapply counts_remove; [done|]. by rewrite Permutation_app_comm.
  - done.
  - pose proof (counts_bound _ _ Hc) as Hb. rewrite length_app in Hb. simpl in *. lia.
Qed.

Lemma pop_loop_counts db new (n : nat) : (forall k, (k < n)%nat -> exists w, get_hard_fork_version db (new + k) = Some w /\ is_u8 w) ->
  forall vs lv, vs <> [] -> counts vs lv ->
  exists vs' lv', pop_loop db new n vs lv = Some (vs', lv') /\ counts vs' lv' /\ length vs' = length vs.
Proof.
  induction n as [|n IH]; intros Hdb vs lv Hne Hc; [by exists vs, lv|]. cbn [pop_loop].
  destruct (Hdb n ltac:(lia)) as (w & Hw & Hu).
  destruct (pop_one_counts db (new + n) vs lv w Hne Hc Hw Hu) as (vs1 & lv1 & -> & Hc1 & Hl1). cbn [mbind option_bind].
  destruct (IH (fun k Hk => Hdb k ltac:(lia)) vs1 lv1) as (vs2 & lv2 & E & Hc2 & Hl2); [|done|].
  - intros ->. simpl in Hl1. destruct vs; [done|]. simpl in Hl1. lia.
  - exists vs2, lv2. split_and!; [done|done|lia].
Qed.

Lemma popped_index_spec hf new n : (n < length (heights hf))%nat ->
  exists i : nat, popped_index hf new n = Some (Z.of_nat i) /\ (i <= n)%nat.
Proof.
  induction n as [|n IH]; intros Hn; [by exists O|]. cbn [popped_index].
  destruct (lookup_lt_is_Some_2 (heights hf) (S n)) as [f ->]; [lia|]. cbn [mbind option_bind].
  case_match; [by exists (S n)|]. destruct IH as (i & -> & Hi); [lia|]. exists i. split; [done|lia].
Qed.

(** ** Properties *)

(** The voted fork is the highest one that is both scheduled by the given height
    and carries its threshold percentage of the window in votes for itself or a
    later fork; with none, the current fork stays. *)
Theorem voted_fork_highest hf height :
  hf_inv hf ->
  (exists m : nat, get_voted_fork_index hf height = m /\ fork_active hf height m /\
     forall k, (m < k)%nat -> ~ fork_active hf height k) \/
  (get_voted_fork_index hf height = current_fork_index hf /\ forall k, ~ fork_active hf height k).
Proof. apply voted_index_spec. Qed.

(** [add] on every branch: a block of the current version whose vote is not below
    it is recorded under that version, its effective vote enters the window and
    pushes out the oldest ones beyond the window size, the counters keep matching
    the window and the current fork never goes back; any other block is refused
    and changes nothing. *)
Theorem hardfork_add hf db bv vv height :
  hf_inv hf -> is_u8 vv ->
  exists f, fork_at hf (current_fork_index hf) = Some f /\
    (bv = hf_version f /\ hf_version f <= vv /\
     (exists hf', add hf db bv vv height = Some (true, hf', set_hard_fork_version db height (hf_version f)) /\
        hf_inv hf' /\ current_fork_index hf <= current_fork_index hf' /\
        versions hf' = lastn (Z.to_nat (window_size hf)) (versions hf ++ [get_effective_version hf vv])) \/
     ((bv <> hf_version f \/ vv < hf_version f) /\ add hf db bv vv height = Some (false, hf, db))).
Proof.
  intros Hi Hv. destruct (fork_at_Some hf (current_fork_index hf) Hi (inv_index _ Hi)) as (f & Ef & _).
  exists f. split; [done|]. destruct (decide (bv = hf_version f /\ hf_version f <= vv)) as [[Eb Hle]|Hno].
  - left. split_and!; [done|done|]. destruct (add_accepted hf db bv vv height f Hi Hv Ef Eb Hle) as (lv & E & Hi1).
    eexists. split; [exact E|]. destruct (raise_keeps (set_votes hf
      (lastn (Z.to_nat (window_size hf)) (versions hf ++ [get_effective_version hf vv])) lv) (height ⊞ 1)) as (_ & _ & K3 & _).
    split_and!; [by apply raise_to_voted_inv| |by rewrite K3]. rewrite raise_to_voted_eq by done. cbn. lia.
  - right. assert (bv <> hf_version f \/ vv < hf_version f) by lia. split; [done|]. by eapply add_rejected.
Qed.

(** C19: Restarting changes nothing: for a node that initialised on an empty chain and
    added any sequence of accepted blocks, running [init] again on its database
    restores exactly the state it had, vote window, counters and current fork. *)
Theorem hardfork_restart hf db : synced hf db -> init hf db = Some hf.
Proof. intros Hs. by apply in_sync_init, synced_in_sync. Qed.

(** C39: Reorganising replays the chain: with the true state at the split point and the
    blocks accepted after it, [reorganize_from_chain_height] at the split rebuilds
    the final state and leaves the database as it is, whatever window and counters
    the object held, provided its fork index was not below the true one. *)
Theorem hardfork_reorganize hf db bs hf' db' hfx :
  synced hf db -> 2 <= db_height db -> chain_run hf db bs hf' db' ->
  same_config hf hfx -> current_fork_index hf <= current_fork_index hfx < length (heights hf) ->
  reorganize_from_chain_height hfx db' (db_height db) = Some (true, hf', db').
Proof. intros Hs. apply reorganize_replays. by apply synced_in_sync. Qed.

(** With voting disabled the forks activate exactly on schedule: the current version
    of a synced node is the ideal version for its next block. *)
Theorem hardfork_schedule hf db f :
  synced hf db -> voting_disabled hf -> head (heights hf) = Some f -> hf_version f = original_version hf ->
  get_current_version hf = Some (get_ideal_version hf (db_height db)).
Proof.
  intros Hs Hd Hf0 Ho. destruct (synced_scheduled hf db Hs Hd) as (i & Ei & Hsi).
  pose proof (synced_in_sync _ _ Hs) as [Hi _ _ _ _]. pose proof Hsi as [(g & Hg & _) _].
  pose proof (lookup_lt_Some _ _ _ Hg). unfold get_current_version, get_ideal_version, fork_at. rewrite Ei.
  bfalse (Z.of_nat i <? 0). rewrite Nat2Z.id, Hg. cbn [mbind option_bind]. f_equal.
  rewrite (ideal_loop_scheduled hf (db_height db) i) by (done || lia).
  destruct i; [|by rewrite Hg]. destruct (heights hf); [done|]. by simplify_eq/=.
Qed.

(** Popping blocks keeps the object well formed: the window keeps its length, the
    counters keep matching it and the fork index stays in range. *)
Theorem hardfork_pop_inv hf db nblocks :
  hf_inv hf -> versions hf <> [] -> 0 < nblocks -> 0 < db_height db ->
  (forall k, (k < Z.to_nat nblocks)%nat -> exists w, get_hard_fork_version db (db_height db + k) = Some w /\ is_u8 w) ->
  exists hf', on_block_popped hf db nblocks = Some hf' /\ hf_inv hf' /\ length (versions hf') = length (versions hf).
Proof.
  intros Hi Hne Hn Hh Hdb. unfold on_block_popped. bfalse (nblocks <=? 0). bfalse (db_height db =? 0).
  destruct (pop_loop_counts db (db_height db) (Z.to_nat nblocks) Hdb _ _ Hne (inv_counts _ Hi)) as (vs & lv & -> & Hc & Hl).
  cbn [mbind option_bind]. pose proof (inv_index _ Hi). pose proof (inv_len _ Hi).
  destruct (popped_index_spec hf (db_height db) (length (heights hf) - 1)) as (i & -> & Hle); [lia|]. cbn [mbind option_bind].
  eexists. split; [done|]. split; [|done]. destruct Hi as [H1 H2 H3 H4 H5]. split; cbn; [done|done|lia|done|lia].
Qed.

(** *** Concrete instances *)

(** Window of two blocks; version 2 from height 3 on, without a vote. *)
Definition sample_hf0 : HardFork :=
  snd (add_fork (snd (add_fork (mk_hf 100 50 2 80 1 0 [] [] zero_votes 0) 1 0 0 1)) 2 3 0 2).
Definition run_blocks (hf : HardFork) (db : db_t) (bs : list block) : option (HardFork * db_t) :=
  foldl (fun s b => '(hf, db) ← s; '(ok, hf, db) ← chain_add hf db b; if ok : bool then Some (hf, db) else None) (Some (hf, db)) bs.

Definition sample_init : HardFork := default sample_hf0 (init sample_hf0 (mk_db [] ∅)).
Definition sample_blocks : list block := [mk_block 1 0; mk_block 1 2; mk_block 1 2; mk_block 2 2].
Definition sample_at (n : nat) : HardFork * db_t :=
  default (sample_hf0, mk_db [] ∅) (run_blocks sample_init (mk_db [] ∅) (take n sample_blocks)).

Lemma sample_configured : configured sample_hf0.
Proof.
  split; [|vm_compute; split; done || discriminate]. split.
  - discriminate.
  - repeat constructor.
  - repeat constructor; vm_compute; done || discriminate.
Qed.

Lemma sample_step n b : (n < 4)%nat -> sample_blocks !! n = Some b ->
  wf_block b /\ db_height (snd (sample_at n)) < UINT64_MAX /\
  chain_add (fst (sample_at n)) (snd (sample_at n)) b = Some (true, fst (sample_at (S n)), snd (sample_at (S n))).
Proof.
  intros Hn Hb. destruct n as [|[|[|[|n]]]]; [..|lia]; injection Hb as <-; (split; [by split; apply is_uintb_spec|split]);
    vm_compute; reflexivity.
Qed.

Lemma sample_synced n : (n <= 4)%nat -> synced (fst (sample_at n)) (snd (sample_at n)).
Proof.
  induction n as [|n IH]; intros Hn.
  - apply (synced_init sample_hf0); [apply sample_configured|vm_compute; reflexivity].
  - destruct (lookup_lt_is_Some_2 sample_blocks n) as [b Hb]; [simpl; lia|].
    destruct (sample_step n b ltac:(lia) Hb) as (H1 & H2 & H3). eapply synced_add; eauto with lia.
Qed.

Lemma sample_inv n : (n <= 4)%nat -> hf_inv (fst (sample_at n)).
Proof. intros Hn. apply (synced_in_sync _ (snd (sample_at n))). by apply sample_synced. Qed.

Lemma voted_fork_highest_witness :
  let hf := fst (sample_at 3) in
  (exists m : nat, get_voted_fork_index hf 3 = m /\ fork_active hf 3 m /\
     forall k, (m < k)%nat -> ~ fork_active hf 3 k) \/
  (get_voted_fork_index hf 3 = current_fork_index hf /\ forall k, ~ fork_active hf 3 k).
Proof. apply (voted_fork_highest (fst (sample_at 3)) 3). apply sample_inv. lia. Defined.

Lemma hardfork_add_witness :
  let hf := fst (sample_at 3) in let db := snd (sample_at 3) in
  exists f, fork_at hf (current_fork_index hf) = Some f /\
    (2 = hf_version f /\ hf_version f <= 7 /\
     (exists hf', add hf db 2 7 3 = Some (true, hf', set_hard_fork_version db 3 (hf_version f)) /\
        hf_inv hf' /\ current_fork_index hf <= current_fork_index hf' /\
        versions hf' = lastn (Z.to_nat (window_size hf)) (versions hf ++ [get_effective_version hf 7])) \/
     ((2 <> hf_version f \/ 7 < hf_version f) /\ add hf db 2 7 3 = Some (false, hf, db))).
Proof.
  apply (hardfork_add (fst (sample_at 3)) (snd (sample_at 3)) 2 7 3); [apply sample_inv; lia|by apply is_uintb_spec].
Defined.

Lemma hardfork_restart_witness :
  synced (fst (sample_at 4)) (snd (sample_at 4)) /\ init (fst (sample_at 4)) (snd (sample_at 4)) = Some (fst (sample_at 4)).
Proof.
  assert (H : synced (fst (sample_at 4)) (snd (sample_at 4))) by (apply sample_synced; lia).
  split; [exact H|]. apply (hardfork_restart _ _ H).
Defined.

Lemma hardfork_schedule_witness :
  get_current_version (fst (sample_at 3)) = Some (get_ideal_version (fst (sample_at 3)) (db_height (snd (sample_at 3)))).
Proof.
  apply (hardfork_schedule (fst (sample_at 3)) (snd (sample_at 3)) (mk_fork 1 0 0 1)).
  - apply sample_synced. lia.
  - assert (H : forallb (fun f => hf_threshold f =? 0) (heights (fst (sample_at 3))) = true) by (vm_compute; reflexivity).
    apply Forall_forall. intros f Hf. rewrite forallb_forall in H. apply Z.eqb_eq, H. by apply list_elem_of_In.
  - vm_compute. reflexivity.
  - vm_compute. reflexivity.
Defined.

Lemma hardfork_reorganize_witness :
  reorganize_from_chain_height (set_index (set_votes (fst (sample_at 3)) [] zero_votes) 1) (snd (sample_at 4))
    (db_height (snd (sample_at 3))) = Some (true, fst (sample_at 4), snd (sample_at 4)).
Proof.
  apply (hardfork_reorganize (fst (sample_at 3)) (snd (sample_at 3)) [mk_block 2 2] (fst (sample_at 4)) (snd (sample_at 4))).
  - apply sample_synced. lia.
  - vm_compute. discriminate.
  - destruct (sample_step 3 (mk_block 2 2) ltac:(lia) eq_refl) as (H1 & H2 & H3).
    eapply run_cons; [exact H1|exact H2|exact H3|constructor].
  - by exists [], zero_votes, 1.
  - vm_compute. split; [discriminate|reflexivity].
Defined.

(** The database after the removal of the top block. *)
Definition db_pop (db : db_t) : db_t := mk_db (take (length (db_blocks db) - 1) (db_blocks db)) (db_versions db).

Lemma hardfork_pop_inv_witness :
  exists hf', on_block_popped (fst (sample_at 4)) (db_pop (snd (sample_at 4))) 1 = Some hf' /\ hf_inv hf' /\
    length (versions hf') = length (versions (fst (sample_at 4))).
Proof.
  apply (hardfork_pop_inv (fst (sample_at 4)) (db_pop (snd (sample_at 4))) 1).
  - apply sample_inv. lia.
  - vm_compute. discriminate.
  - lia.
  - vm_compute. reflexivity.
  - intros k Hk. assert (k = O) as -> by lia. exists 2. split; [vm_compute; reflexivity|by apply is_uintb_spec].
Defined.

(** Version 2 scheduled far ahead, with a vote of 80%: two blocks vote for it,
    a third does not. *)
Definition stale_hf0 : HardFork :=
  snd (add_fork (snd (add_fork (mk_hf 100 50 2 80 1 0 [] [] zero_votes 0) 1 0 0 1)) 2 100 80 2).
Definition stale_blocks : list block := [mk_block 1 2; mk_block 1 2; mk_block 1 1].
Definition stale_at (n : nat) : HardFork * db_t :=
  default (stale_hf0, mk_db [] ∅)
    (run_blocks (default stale_hf0 (init stale_hf0 (mk_db [] ∅))) (mk_db [] ∅) (take n stale_blocks)).
Definition stale_popped : HardFork :=
  default stale_hf0 (on_block_popped (fst (stale_at 3)) (db_pop (snd (stale_at 3))) 1).

Lemma stale_synced : synced (fst (stale_at 2)) (snd (stale_at 2)).
Proof.
  assert (Hb : wf_block (mk_block 1 2)) by (split; by apply is_uintb_spec).
  apply (synced_add (fst (stale_at 1)) (snd (stale_at 1)) (mk_block 1 2)); [|exact Hb|vm_compute; reflexivity..].
  apply (synced_add (fst (stale_at 0)) (snd (stale_at 0)) (mk_block 1 2)); [|exact Hb|vm_compute; reflexivity..].
  apply (synced_init stale_hf0); [|vm_compute; reflexivity]. split; [|vm_compute; split; done || discriminate]. split.
  - discriminate.
  - repeat constructor.
  - repeat constructor; vm_compute; done || discriminate.
Qed.

(** Popping forgets votes: a synced node whose window holds two votes for a fork
    adds a block and pops it again, and then counts only one of them. *)
Theorem hardfork_pop_forgets_votes :
  exists hf db b hf1 db1 hf2,
    synced hf db /\ chain_add hf db b = Some (true, hf1, db1) /\
    on_block_popped hf1 (db_pop db1) 1 = Some hf2 /\
    votes_of (last_versions hf) 2 = 2 /\ votes_of (last_versions hf2) 2 = 1.
Proof.
  exists (fst (stale_at 2)), (snd (stale_at 2)), (mk_block 1 1), (fst (stale_at 3)), (snd (stale_at 3)), stale_popped.
  split; [exact stale_synced|]. split_and!; vm_compute; reflexivity.
Qed.
