(* ===== verification/Pruning.v ===== *)
(** * Pruning: which blocks a pruned node keeps

    Models src/common/pruning.{h,cpp}.  A pruning seed packs the number of
    stripes and the stripe kept; [None] is a thrown assertion. *)
From S2P Require Import Prelude Config.
#[local] Open Scope mach_scope.

Definition PRUNING_SEED_LOG_STRIPES_SHIFT : Z := 7.
Definition PRUNING_SEED_LOG_STRIPES_MASK : Z := 0x7.
Definition PRUNING_SEED_STRIPE_SHIFT : Z := 0.
Definition PRUNING_SEED_STRIPE_MASK : Z := 0x7f.

Definition get_pruning_log_stripes (pruning_seed : Z) : Z :=
  Z.land (Z.shiftr pruning_seed PRUNING_SEED_LOG_STRIPES_SHIFT) PRUNING_SEED_LOG_STRIPES_MASK.

(** The stripe of a seed. *)
Definition get_seed_stripe (pruning_seed : Z) : Z :=
  if pruning_seed =? 0 then 0
  else u32 (1 + Z.land (Z.shiftr pruning_seed PRUNING_SEED_STRIPE_SHIFT) PRUNING_SEED_STRIPE_MASK).

Definition make_pruning_seed (stripe log_stripes : Z) : option Z :=
  if negb (log_stripes <=? PRUNING_SEED_LOG_STRIPES_MASK) then None
  else if negb ((0 <? stripe) && (stripe <=? u64 (Z.shiftl 1 log_stripes))) then None
  else Some (Z.lor (u32 (Z.shiftl log_stripes PRUNING_SEED_LOG_STRIPES_SHIFT))
                   (u32 (Z.shiftl (u32 (stripe - 1)) PRUNING_SEED_STRIPE_SHIFT))).

(** The stripe of a block: 0 near the tip, where every node keeps everything. *)
Definition get_pruning_stripe (block_height blockchain_height log_stripes : Z) : Z :=
  if blockchain_height <=? block_height ⊞ CRYPTONOTE_PRUNING_TIP_BLOCKS then 0
  else u32 (Z.land (block_height / CRYPTONOTE_PRUNING_STRIPE_SIZE) (u64 (Z.shiftl 1 log_stripes) ⊟ 1) ⊞ 1).

Definition has_unpruned_block (block_height blockchain_height pruning_seed : Z) : bool :=
  let stripe := get_seed_stripe pruning_seed in
  if stripe =? 0 then true
  else
    let log_stripes := get_pruning_log_stripes pruning_seed in
    let block_stripe := get_pruning_stripe block_height blockchain_height log_stripes in
    (block_stripe =? 0) || (block_stripe =? stripe).

Definition get_pruning_seed (block_height blockchain_height log_stripes : Z) : option Z :=
  let stripe := get_pruning_stripe block_height blockchain_height log_stripes in
  if stripe =? 0 then Some 0 else make_pruning_seed stripe log_stripes.

(** The stripe computed without regard to the tip, shared by the next-height functions. *)
Definition raw_stripe (block_height mask : Z) : Z :=
  u32 (Z.land (block_height / CRYPTONOTE_PRUNING_STRIPE_SIZE) mask ⊞ 1).

Definition get_next_unpruned_block_height (block_height blockchain_height pruning_seed : Z) : Z :=
  if negb (block_height <=? CRYPTONOTE_MAX_BLOCK_NUMBER + 1) then block_height
  else if negb (blockchain_height <=? CRYPTONOTE_MAX_BLOCK_NUMBER + 1) then block_height
  else
    let stripe := get_seed_stripe pruning_seed in
    if stripe =? 0 then block_height
    else if blockchain_height <=? block_height ⊞ CRYPTONOTE_PRUNING_TIP_BLOCKS then block_height
    else
      let seed_log_stripes := get_pruning_log_stripes pruning_seed in
      let log_stripes := if seed_log_stripes =? 0 then CRYPTONOTE_PRUNING_LOG_STRIPES else seed_log_stripes in
      let mask := u64 (Z.shiftl 1 log_stripes) ⊟ 1 in
      let block_pruning_stripe := raw_stripe block_height mask in
      if block_pruning_stripe =? stripe then block_height
      else
        let cycles := Z.shiftr (block_height / CRYPTONOTE_PRUNING_STRIPE_SIZE) log_stripes in
        let cycle_start := cycles ⊞ (if block_pruning_stripe <? stripe then 0 else 1) in
        let h := cycle_start ⊠ Z.shiftl CRYPTONOTE_PRUNING_STRIPE_SIZE log_stripes
                 ⊞ u32 ((stripe - 1) * CRYPTONOTE_PRUNING_STRIPE_SIZE) in
        if blockchain_height <? h ⊞ CRYPTONOTE_PRUNING_TIP_BLOCKS then
          if blockchain_height <? CRYPTONOTE_PRUNING_TIP_BLOCKS then 0
          else blockchain_height ⊟ CRYPTONOTE_PRUNING_TIP_BLOCKS
        else if negb (block_height <=? h) then block_height
        else h.

Definition get_next_pruned_block_height (block_height blockchain_height pruning_seed : Z) : option Z :=
  let stripe := get_seed_stripe pruning_seed in
  if stripe =? 0 then Some blockchain_height
  else if blockchain_height <=? block_height ⊞ CRYPTONOTE_PRUNING_TIP_BLOCKS then Some blockchain_height
  else
    let seed_log_stripes := get_pruning_log_stripes pruning_seed in
    let log_stripes := if seed_log_stripes =? 0 then CRYPTONOTE_PRUNING_LOG_STRIPES else seed_log_stripes in
    let mask := u64 (Z.shiftl 1 log_stripes) ⊟ 1 in
    let block_pruning_seed := raw_stripe block_height mask in
    if negb (block_pruning_seed =? stripe) then Some block_height
    else
      let next_stripe := u32 (1 + Z.land block_pruning_seed mask) in
      seed ← make_pruning_seed next_stripe log_stripes;
      Some (get_next_unpruned_block_height block_height blockchain_height seed).

(** [rnd] is the random byte. *)
Definition get_random_stripe (rnd : Z) : Z := 1 + rnd mod u64 (Z.shiftl 1 CRYPTONOTE_PRUNING_LOG_STRIPES).

(** ** Lemmas *)

(** A seed with stripe [s] out of [2 ^ l]. *)
Definition valid_stripe (s l : Z) : Prop := 1 <= l <= 7 /\ 1 <= s <= 2 ^ l.

Lemma pow_log_stripes l : 0 <= l <= 7 -> 1 <= 2 ^ l <= 128.
Proof. intros. zcases l 8; vm_compute; split; discriminate. Qed.

Lemma make_pruning_seed_valid s l : valid_stripe s l -> make_pruning_seed s l = Some (l * 2 ^ 7 + (s - 1)).
Proof.
  intros [Hl Hs]. pose proof (pow_log_stripes l ltac:(lia)). unfold make_pruning_seed.
  unfold PRUNING_SEED_LOG_STRIPES_SHIFT, PRUNING_SEED_STRIPE_SHIFT, PRUNING_SEED_LOG_STRIPES_MASK.
  rewrite !shiftl_mul, Z.mul_1_l by lia.
  btrue (l <=? 7). rewrite (wrap_small 64) by (unfold is_uint; lia). btrue ((0 <? s) && (s <=? 2 ^ l)). cbn [negb].
  rewrite Z.pow_0_r, Z.mul_1_r, (wrap_small 32 (s - 1)), (wrap_small 32 (s - 1)), (wrap_small 32 (l * 2 ^ 7)) by (unfold is_uint; lia).
  rewrite (lor_disjoint l (s - 1) 7) by lia. done.
Qed.

Lemma seed_fields s l : valid_stripe s l ->
  get_pruning_log_stripes (l * 2 ^ 7 + (s - 1)) = l /\ get_seed_stripe (l * 2 ^ 7 + (s - 1)) = s.
Proof.
  intros [Hl Hs]. pose proof (pow_log_stripes l ltac:(lia)). unfold get_pruning_log_stripes, get_seed_stripe.
  unfold PRUNING_SEED_LOG_STRIPES_SHIFT, PRUNING_SEED_STRIPE_SHIFT, PRUNING_SEED_LOG_STRIPES_MASK, PRUNING_SEED_STRIPE_MASK.
  bfalse (l * 2 ^ 7 + (s - 1) =? 0). rewrite !shiftr_div by lia.
  change 7 with (2 ^ 3 - 1) at 3. change 127 with (2 ^ 7 - 1). rewrite !land_ones_mod, Z.pow_0_r, Z.div_1_r by lia.
  split; [zlia|]. rewrite wrap_small; unfold is_uint; zlia.
Qed.

Lemma mask_pow l : 0 <= l <= 7 -> u64 (Z.shiftl 1 l) ⊟ 1 = 2 ^ l - 1.
Proof.
  intros Hl. pose proof (pow_log_stripes l Hl). rewrite shiftl_mul, Z.mul_1_l by lia.
  rewrite !wrap_small; unfold is_uint; rewrite ?wrap_small; unfold is_uint; lia.
Qed.

Lemma raw_stripe_mod b l : 0 <= b -> 0 <= l <= 7 -> raw_stripe b (2 ^ l - 1) = (b / 4096) mod 2 ^ l + 1.
Proof.
  intros Hb Hl. pose proof (pow_log_stripes l Hl). unfold raw_stripe, CRYPTONOTE_PRUNING_STRIPE_SIZE.
  rewrite land_ones_mod by lia. pose proof (Z.mod_pos_bound (b / 4096) (2 ^ l) ltac:(lia)).
  rewrite (wrap_small 64), (wrap_small 32) by (unfold is_uint; lia). done.
Qed.

(** What a node with stripe [s] of [2 ^ l] keeps. *)
Lemma has_unpruned_spec b h s l :
  valid_stripe s l -> 0 <= b -> b + 5500 < 2 ^ 64 ->
  has_unpruned_block b h (l * 2 ^ 7 + (s - 1)) = (h <=? b + 5500) || ((b / 4096) mod 2 ^ l =? s - 1).
Proof.
  intros Hv Hb Hu. destruct (seed_fields s l Hv) as [El Es]. destruct Hv as [Hl Hs].
  unfold has_unpruned_block, get_pruning_stripe. rewrite El, Es. bfalse (s =? 0). rewrite mask_pow by lia.
  change (u32 (Z.land (b / CRYPTONOTE_PRUNING_STRIPE_SIZE) (2 ^ l - 1) ⊞ 1)) with (raw_stripe b (2 ^ l - 1)).
  rewrite raw_stripe_mod by lia. unfold CRYPTONOTE_PRUNING_TIP_BLOCKS. rewrite (wrap_small 64) by (unfold is_uint; lia).
  pose proof (pow_log_stripes l ltac:(lia)). pose proof (Z.mod_pos_bound (b / 4096) (2 ^ l) ltac:(lia)).
  cbv zeta. destruct (h <=? b + 5500); [done|]. bfalse ((b / 4096) mod 2 ^ l + 1 =? 0). cbn [orb].
  destruct (Z.eqb_spec ((b / 4096) mod 2 ^ l) (s - 1)); [apply Z.eqb_eq|apply Z.eqb_neq]; lia.
Qed.

(** The least [x] from [q] on congruent to [r]: in this cycle or the next. *)
Lemma next_congruent n q r : 0 < n -> 0 <= r < n -> q mod n <> r ->
  let q' := (q / n + (if q mod n <? r then 0 else 1)) * n + r in
  q < q' /\ q' mod n = r /\ forall x, q <= x < q' -> x mod n <> r.
Proof.
  intros Hn Hr Hq. cbv zeta. pose proof (Z.div_mod q n ltac:(lia)) as Eq. pose proof (Z.mod_pos_bound q n Hn).
  split_and!.
  - bcase; nia.
  - rewrite Z.add_comm, Z.mod_add by lia. by apply Z.mod_small.
  - intros x Hx Hxr. pose proof (Z.div_mod x n ltac:(lia)) as Ex. rewrite Hxr in Ex.
    revert Hx. bcase; intros Hx.
    + assert (q / n <= x / n) by (apply Z.div_le_mono; lia). nia.
    + assert (q / n <= x / n) by (apply Z.div_le_mono; lia). assert (x / n <> q / n) by (intros E'; nia). nia.
Qed.

Lemma next_unpruned_spec b h s l :
  valid_stripe s l -> 0 <= b <= CRYPTONOTE_MAX_BLOCK_NUMBER + 1 -> 0 <= h <= CRYPTONOTE_MAX_BLOCK_NUMBER + 1 ->
  let seed := l * 2 ^ 7 + (s - 1) in
  let r := get_next_unpruned_block_height b h seed in
  b <= r /\ r <= Z.max b h /\ has_unpruned_block r h seed = true /\
  forall k, b <= k < r -> (k / 4096) mod 2 ^ l <> s - 1 /\ k + 5500 < h.
Proof.
  intros Hv Hb Hh. cbv zeta. destruct (seed_fields s l Hv) as [El Es]. pose proof Hv as [Hl Hs].
  pose proof (pow_log_stripes l ltac:(lia)) as Hp. unfold CRYPTONOTE_MAX_BLOCK_NUMBER in *.
  assert (Hhas : forall x, 0 <= x <= 2 ^ 40 -> has_unpruned_block x h (l * 2 ^ 7 + (s - 1)) =
    (h <=? x + 5500) || ((x / 4096) mod 2 ^ l =? s - 1)) by (intros; apply has_unpruned_spec; [done|lia..]).
  unfold get_next_unpruned_block_height, CRYPTONOTE_MAX_BLOCK_NUMBER, CRYPTONOTE_PRUNING_TIP_BLOCKS, CRYPTONOTE_PRUNING_STRIPE_SIZE.
  btrue (b <=? 500000000 + 1). btrue (h <=? 500000000 + 1). rewrite El, Es. bfalse (s =? 0). cbn [negb].
  rewrite (wrap_small 64 (b + 5500)) by (unfold is_uint; lia).
  destruct (Z.leb_spec h (b + 5500)).
  { split_and!; [lia|lia| |intros; lia]. rewrite Hhas by lia. btrue (h <=? b + 5500). done. }
  bfalse (l =? 0). cbv zeta. rewrite mask_pow, raw_stripe_mod by lia. set (q := b / 4096). set (n := 2 ^ l) in *.
  destruct (Z.eqb_spec (q mod n + 1) s) as [Eqs|Hne].
  { split_and!; [lia|lia| |intros; lia]. rewrite Hhas by lia. apply orb_true_iff. right. apply Z.eqb_eq. unfold q, n in *. lia. }
  destruct (next_congruent n q (s - 1) ltac:(lia) ltac:(lia) ltac:(lia)) as (Hlt & Hmod & Hmin).
  replace (q mod n + 1 <? s) with (q mod n <? s - 1) by (destruct (Z.ltb_spec (q mod n) (s - 1)), (Z.ltb_spec (q mod n + 1) s); lia).
  set (c := if q mod n <? s - 1 then 0 else 1) in *. assert (Hc : 0 <= c <= 1) by (unfold c; bcase; lia).
  assert (Hq : 0 <= q < 2 ^ 20) by (unfold q; zlia). assert (Hqn : 0 <= q / n <= q) by (split; [apply Z.div_pos; lia|apply Z.div_le_upper_bound; nia]).
  rewrite shiftr_div, shiftl_mul by lia. fold n. set (q' := (q / n + c) * n + (s - 1)) in *.
  rewrite (wrap_small 64 (q / n + c)) by (unfold is_uint; lia).
  rewrite (wrap_small 32) by (unfold is_uint; lia).
  assert (Hbig : 0 <= (q / n + c) * (4096 * n) <= 2 ^ 42) by nia.
  rewrite (wrap_small 64 ((q / n + c) * (4096 * n))) by (unfold is_uint; lia).
  rewrite (wrap_small 64 (_ + (s - 1) * 4096)) by (unfold is_uint; lia).
  replace ((q / n + c) * (4096 * n) + (s - 1) * 4096) with (q' * 4096) by (unfold q'; ring).
  assert (Hq' : 0 <= q' * 4096 <= 2 ^ 43) by (unfold q'; nia).
  rewrite (wrap_small 64 (q' * 4096 + 5500)) by (unfold is_uint; lia).
  assert (Hk : forall k, b <= k < q' * 4096 -> (k / 4096) mod n <> s - 1).
  { intros k Hk. apply Hmin. unfold q. split; [apply Z.div_le_mono; lia|apply Z.div_lt_upper_bound; lia]. }
  assert (Hbq : b < q' * 4096) by (unfold q in Hlt; zlia).
  destruct (Z.ltb_spec h (q' * 4096 + 5500)).
  - bfalse (h <? 5500). rewrite wrap_small by (unfold is_uint; lia). split_and!; [lia|lia| |].
    + rewrite Hhas by lia. btrue (h <=? h - 5500 + 5500). done.
    + intros k Hk'. split; [apply Hk; lia|lia].
  - btrue (b <=? q' * 4096). cbn [negb]. split_and!; [lia|lia| |].
    + rewrite Hhas by lia. apply orb_true_iff. right. rewrite Z.div_mul by lia. by apply Z.eqb_eq.
    + intros k Hk'. split; [by apply Hk|lia].
Qed.

(** ** Properties *)

(** Pruning seeds round-trip: a stripe and a number of stripes packed by
    [make_pruning_seed] are what the accessors read back. *)
Theorem pruning_seed_roundtrip s l :
  valid_stripe s l ->
  exists seed, make_pruning_seed s l = Some seed /\ get_seed_stripe seed = s /\ get_pruning_log_stripes seed = l.
Proof.
  intros Hv. exists (l * 2 ^ 7 + (s - 1)). split; [by apply make_pruning_seed_valid|].
  by destruct (seed_fields s l Hv).
Qed.

Lemma pruning_seed_roundtrip_witness :
  exists seed, make_pruning_seed 8 3 = Some seed /\ get_seed_stripe seed = 8 /\ get_pruning_log_stripes seed = 3.
Proof. apply (pruning_seed_roundtrip 8 3). unfold valid_stripe. lia. Defined.

(** [get_next_unpruned_block_height] finds the least height from the given one on
    whose block a node with that seed keeps. *)
Theorem next_unpruned_least b h s l seed :
  valid_stripe s l -> 0 <= b <= CRYPTONOTE_MAX_BLOCK_NUMBER + 1 -> 0 <= h <= CRYPTONOTE_MAX_BLOCK_NUMBER + 1 ->
  make_pruning_seed s l = Some seed ->
  let r := get_next_unpruned_block_height b h seed in
  b <= r /\ has_unpruned_block r h seed = true /\ forall k, b <= k < r -> has_unpruned_block k h seed = false.
Proof.
  intros Hv Hb Hh E. rewrite make_pruning_seed_valid in E by done. injection E as <-.
  destruct (next_unpruned_spec b h s l Hv Hb Hh) as (H1 & H2 & H3 & H4). cbv zeta in *. split_and!; [done|done|].
  intros k Hk. unfold CRYPTONOTE_MAX_BLOCK_NUMBER in *. rewrite has_unpruned_spec by (done || lia).
  destruct (H4 k Hk) as [H5 H6]. bfalse (h <=? k + 5500). by apply Z.eqb_neq.
Qed.

Lemma next_unpruned_least_witness :
  let r := get_next_unpruned_block_height 100 1000000 (3 * 2 ^ 7 + 4) in
  100 <= r /\ has_unpruned_block r 1000000 (3 * 2 ^ 7 + 4) = true /\
  forall k, 100 <= k < r -> has_unpruned_block k 1000000 (3 * 2 ^ 7 + 4) = false.
Proof.
  apply (next_unpruned_least 100 1000000 5 3 (3 * 2 ^ 7 + 4)).
  - unfold valid_stripe. lia.
  - vm_compute. split; discriminate.
  - vm_compute. split; discriminate.
  - vm_compute. reflexivity.
Defined.

(** [get_next_pruned_block_height] returns the end of the run of kept blocks: every
    block from the given height up to it is kept, and the block there is pruned
    unless it lies in the tip that no node prunes. *)
Theorem next_pruned_run b h s l seed :
  valid_stripe s l -> 0 <= b <= CRYPTONOTE_MAX_BLOCK_NUMBER + 1 -> 0 <= h <= CRYPTONOTE_MAX_BLOCK_NUMBER + 1 ->
  make_pruning_seed s l = Some seed ->
  exists r, get_next_pruned_block_height b h seed = Some r /\
    (forall k, b <= k < r -> has_unpruned_block k h seed = true) /\
    (has_unpruned_block r h seed = false \/ h <= r + CRYPTONOTE_PRUNING_TIP_BLOCKS).
Proof.
  intros Hv Hb Hh E. rewrite make_pruning_seed_valid in E by done. injection E as <-.
  destruct (seed_fields s l Hv) as [El Es]. pose proof Hv as [Hl Hs]. pose proof (pow_log_stripes l ltac:(lia)) as Hp.
  unfold CRYPTONOTE_MAX_BLOCK_NUMBER, CRYPTONOTE_PRUNING_TIP_BLOCKS in *.
  assert (Hhas : forall x, 0 <= x <= 2 ^ 40 -> has_unpruned_block x h (l * 2 ^ 7 + (s - 1)) =
    (h <=? x + 5500) || ((x / 4096) mod 2 ^ l =? s - 1)) by (intros; apply has_unpruned_spec; [done|lia..]).
  unfold get_next_pruned_block_height, CRYPTONOTE_PRUNING_TIP_BLOCKS. rewrite El, Es. bfalse (s =? 0).
  rewrite (wrap_small 64 (b + 5500)) by (unfold is_uint; lia).
  destruct (Z.leb_spec h (b + 5500)).
  { exists h. split; [done|]. split; [|right; lia]. intros k Hk. rewrite Hhas by lia. btrue (h <=? k + 5500). done. }
  bfalse (l =? 0). cbv zeta. rewrite mask_pow, raw_stripe_mod by lia. set (n := 2 ^ l) in *.
  destruct (Z.eqb_spec ((b / 4096) mod n + 1) s) as [Eqs|Hne]; cbn [negb].
  2:{ exists b. split; [done|]. split; [lia|]. left. rewrite Hhas by lia. bfalse (h <=? b + 5500). apply Z.eqb_neq. unfold n in *. lia. }
  rewrite Eqs. set (s' := 1 + s mod n). assert (Hs' : 0 <= s mod n < n) by (apply Z.mod_pos_bound; lia).
  change (n - 1) with (2 ^ l - 1). rewrite land_ones_mod by lia. fold n. rewrite (wrap_small 32) by (unfold is_uint; lia). fold s'.
  assert (Hv' : valid_stripe s' l) by (unfold valid_stripe, s', n in *; lia).
  rewrite make_pruning_seed_valid by done. cbn [mbind option_bind]. eexists. split; [done|].
  destruct (next_unpruned_spec b h s' l Hv' Hb Hh) as (H1 & H2 & H3 & H4). cbv zeta in *.
  set (r := get_next_unpruned_block_height b h (l * 2 ^ 7 + (s' - 1))) in *.
  assert (Hn2 : 2 <= n) by (unfold n; apply (Z.pow_le_mono_r 2 1 l); lia).
  assert (Hdiff : s mod n <> s - 1).
  { destruct (decide (s = n)) as [->|]; [rewrite Z_mod_same_full; lia|rewrite Z.mod_small; lia]. }
  set (q := b / 4096) in *. assert (Hqn : (q + 1) mod n = s mod n).
  { rewrite <- Zplus_mod_idemp_l. f_equal. lia. }
  assert (Hr : r <= (q + 1) * 4096).
  { destruct (Z.le_gt_cases r ((q + 1) * 4096)) as [|Hgt]; [done|]. exfalso.
    destruct (H4 ((q + 1) * 4096)) as [Hno _]; [split; [unfold q; zlia|done]|].
    apply Hno. rewrite Z.div_mul by lia. unfold n in *. rewrite Hqn. unfold s'. lia. }
  split.
  - intros k Hk. rewrite Hhas by lia. apply orb_true_iff. right. apply Z.eqb_eq.
    replace (k / 4096) with q by (unfold q in *; zlia). unfold n in *. lia.
  - rewrite has_unpruned_spec in H3 by (done || lia). rewrite Hhas by lia.
    destruct (Z.leb_spec h (r + 5500)); [right; lia|left]. cbn [orb] in *. bcase_hyps. apply Z.eqb_neq. unfold s', n in *. lia.
Qed.

Lemma next_pruned_run_witness :
  exists r, get_next_pruned_block_height 20000 1000000 (3 * 2 ^ 7 + 4) = Some r /\
    (forall k, 20000 <= k < r -> has_unpruned_block k 1000000 (3 * 2 ^ 7 + 4) = true) /\
    (has_unpruned_block r 1000000 (3 * 2 ^ 7 + 4) = false \/ 1000000 <= r + CRYPTONOTE_PRUNING_TIP_BLOCKS).
Proof.
  apply (next_pruned_run 20000 1000000 5 3 (3 * 2 ^ 7 + 4)).
  - unfold valid_stripe. lia.
  - vm_compute. split; discriminate.
  - vm_compute. split; discriminate.
  - vm_compute. reflexivity.
Defined.
