(* ===== verification/TreeHash.v ===== *)
(** * TreeHash: the Merkle tree over transaction hashes

    Models src/crypto/tree-hash.c.  A hash is a list of 32 bytes; the array
    [ints] of the source, which is overwritten in place level after level, is a
    list updated by index.  [None] is a failed [assert], or the [false] return
    of [tree_path] and [tree_branch]. *)
From S2P Require Import Prelude Keccak.

(** ** Definitions *)

Definition hash_at (hashes : list (list Z)) (i : nat) : list Z := nth i hashes [].

(** [cn_fast_hash] of the 64 bytes of two adjacent hashes. *)
Definition hash_two (a b : list Z) : list Z := cn_fast_hash (a ++ b).

Fixpoint cnt_loop (fuel : nat) (pow count : Z) : Z :=
  match fuel with
  | O => pow
  | S fuel' => if pow <? count then cnt_loop fuel' (wrap 64 (Z.shiftl pow 1)) count else pow
  end.

(** At most 2^28 leaves: 28 doublings suffice. *)
Definition tree_hash_cnt (count : Z) : option Z :=
  if negb (3 <=? count) then None
  else if negb (count <=? 0x10000000) then None
  else Some (Z.shiftr (cnt_loop 28 2 count) 1).

(** The loop that reduces the last leaves in pairs: round [t] hashes the leaves
    [a + 2t] and [a + 2t + 1] into entry [a + t]. *)
Definition first_round (hashes : list (list Z)) (a : nat) (ints : list (list Z)) (t : nat) : list (list Z) :=
  <[(a + t)%nat := hash_two (hash_at hashes (a + 2 * t)) (hash_at hashes (a + 2 * t + 1))]> ints.

(** One round of a later level: entries [2j] and [2j + 1] into entry [j]. *)
Definition level_round (ints : list (list Z)) (j : nat) : list (list Z) :=
  <[j := hash_two (hash_at ints (2 * j)) (hash_at ints (2 * j + 1))]> ints.

Definition reduce_level (cnt : nat) (ints : list (list Z)) : list (list Z) := foldl level_round ints (seq 0 cnt).

(** [while (cnt > 2)]; halving ends within 28 rounds. *)
Fixpoint levels_loop (fuel : nat) (cnt : nat) (ints : list (list Z)) : list (list Z) :=
  match fuel with
  | O => ints
  | S fuel' =>
      if (2 <? cnt)%nat then let cnt := (cnt / 2)%nat in levels_loop fuel' cnt (reduce_level cnt ints) else ints
  end.

Definition init_ints (hashes : list (list Z)) (cnt a : nat) : list (list Z) :=
  take a hashes ++ replicate (cnt - a) (replicate 32 0).

Definition tree_hash (hashes : list (list Z)) : option (list Z) :=
  match hashes with
  | [] => None
  | [h] => Some h
  | [h1; h2] => Some (hash_two h1 h2)
  | _ =>
      let count := length hashes in
      cntz ← tree_hash_cnt count;
      let cnt := Z.to_nat cntz in
      let a := (2 * cnt - count)%nat in
      let ints := foldl (first_round hashes a) (init_ints hashes cnt a) (seq 0 (cnt - a)) in
      if negb (bool_decide (a + 2 * (cnt - a) = count)%nat) then None
      else
        let ints := levels_loop 28 cnt ints in
        Some (hash_two (hash_at ints 0) (hash_at ints 1))
  end.

(** *** Path of a leaf *)

(** [idx] meets the pair [i], [i + 1] that goes to [j]: [(path, idx)]. *)
Definition path_step (i j : nat) (s : Z * nat) : Z * nat :=
  let '(path, idx) := s in
  if bool_decide (idx = i) || bool_decide (idx = (i + 1)%nat)
  then (Z.lor (u32 (Z.shiftl path 1)) (if bool_decide (idx = i) then 0 else 1), j)
  else s.

Fixpoint path_levels (fuel cnt : nat) (s : Z * nat) : Z * nat :=
  match fuel with
  | O => s
  | S fuel' =>
      if (2 <? cnt)%nat then
        let cnt := (cnt / 2)%nat in
        path_levels fuel' cnt (foldl (fun s j => path_step (2 * j) j s) s (seq 0 cnt))
      else s
  end.

Definition tree_path (count idx : nat) : option Z :=
  match count with
  | O => None
  | 1%nat => Some 0
  | 2%nat => Some (if bool_decide (idx = O) then 0 else 1)
  | _ =>
      cntz ← tree_hash_cnt count;
      let cnt := Z.to_nat cntz in
      let a := (2 * cnt - count)%nat in
      let s := foldl (fun s t => path_step (a + 2 * t) (a + t) s) (0, idx) (seq 0 (cnt - a)) in
      if negb (bool_decide (a + 2 * (cnt - a) = count)%nat) then None
      else
        let '(path, idx) := path_levels 28 cnt s in
        let '(path, _) := path_step 0 0 (path, idx) in
        Some path
  end.

(** *** Branch of a leaf *)

(** The variables of [tree_branch]; [*depth] is the length of the branch. *)
Record branch_state := mk_bs {
  bs_ints : list (list Z);
  bs_idx : nat;
  bs_branch : list (list Z);
  bs_path : Z;
}.

(** Record the sibling of [idx] in the pair [i], [i + 1] of [src]. *)
Definition branch_step (src : list (list Z)) (i j : nat) (s : branch_state) : branch_state :=
  if bool_decide (bs_idx s = i) || bool_decide (bs_idx s = (i + 1)%nat)
  then mk_bs (bs_ints s) j
         (bs_branch s ++ [hash_at src (if bool_decide (bs_idx s = i) then (i + 1)%nat else i)])
         (Z.lor (u32 (Z.shiftl (bs_path s) 1)) (if bool_decide (bs_idx s = i) then 0 else 1))
  else s.

Definition branch_first (hashes : list (list Z)) (a : nat) (s : branch_state) (t : nat) : branch_state :=
  let s := branch_step hashes (a + 2 * t) (a + t) s in
  mk_bs (first_round hashes a (bs_ints s) t) (bs_idx s) (bs_branch s) (bs_path s).

Definition branch_round (s : branch_state) (j : nat) : branch_state :=
  let s := branch_step (bs_ints s) (2 * j) j s in
  mk_bs (level_round (bs_ints s) j) (bs_idx s) (bs_branch s) (bs_path s).

Fixpoint branch_levels (fuel cnt : nat) (s : branch_state) : branch_state :=
  match fuel with
  | O => s
  | S fuel' =>
      if (2 <? cnt)%nat then let cnt := (cnt / 2)%nat in branch_levels fuel' cnt (foldl branch_round s (seq 0 cnt)) else s
  end.

(** The index of the first leaf equal to [hash]. *)
Fixpoint find_hash (hash : list Z) (hashes : list (list Z)) : option nat :=
  match hashes with
  | [] => None
  | h :: hashes' => if bool_decide (hash = h) then Some O else i ← find_hash hash hashes'; Some (S i)
  end.

(** [(branch, depth, path)]. *)
Definition tree_branch (hashes : list (list Z)) (hash : list Z) : option (list (list Z) * nat * Z) :=
  idx ← find_hash hash hashes;
  match hashes with
  | [] => None
  | [_] => Some ([], O, 0)
  | [h1; h2] => Some ([hash_at hashes (Nat.lxor idx 1)], 1%nat, if bool_decide (idx = O) then 0 else 1)
  | _ =>
      let count := length hashes in
      cntz ← tree_hash_cnt count;
      let cnt := Z.to_nat cntz in
      let a := (2 * cnt - count)%nat in
      let s := foldl (branch_first hashes a) (mk_bs (init_ints hashes cnt a) idx [] 0) (seq 0 (cnt - a)) in
      if negb (bool_decide (a + 2 * (cnt - a) = count)%nat) then None
      else
        let s := branch_levels 28 cnt s in
        let s := branch_step (bs_ints s) 0 0 s in
        Some (bs_branch s, length (bs_branch s), bs_path s)
  end.

(** *** Checking a branch *)

Definition branch_hash_step (branch : list (list Z)) (depth : nat) (path : Z) (partial : list Z) (d : nat) : list Z :=
  if negb (Z.land (Z.shiftr path (depth - d - 1)%nat) 1 =? 0)
  then hash_two (hash_at branch d) partial
  else hash_two partial (hash_at branch d).

Definition tree_branch_hash (hash : list Z) (branch : list (list Z)) (depth : nat) (path : Z) : list Z :=
  foldl (branch_hash_step branch depth path) hash (seq 0 depth).

Definition is_branch_in_tree (hash root : list Z) (branch : list (list Z)) (depth : nat) (path : Z) : bool :=
  bool_decide (tree_branch_hash hash branch depth path = root).

(** ** Lemmas *)

(** *** The number of inner entries *)

Lemma cnt_loop_pow (count : Z) : count <= 2 ^ 28 -> forall fuel j : nat, (1 <= j)%nat -> 28 <= j + fuel -> 2 ^ (j - 1) < count ->
  exists m : nat, cnt_loop fuel (2 ^ j) count = 2 ^ m /\ (j <= m)%nat /\ 2 ^ (m - 1) < count <= 2 ^ m.
Proof.
  intros Hc. induction fuel as [|fuel IH]; intros j Hj Hf Hlt; cbn [cnt_loop].
  - exists j. split_and!; [done|lia|done|]. etrans; [exact Hc|]. apply Z.pow_le_mono_r; lia.
  - destruct (Z.ltb_spec (2 ^ j) count); [|exists j; split_and!; done || lia].
    assert (Hj28 : j < 28).
    { destruct (Z.le_gt_cases 28 j); [|done]. pose proof (Z.pow_le_mono_r 2 28 j). lia. }
    assert (E : wrap 64 (Z.shiftl (2 ^ j) 1) = 2 ^ (S j)).
    { rewrite shiftl_mul, <- Z.pow_add_r by lia. replace (j + 1) with (Z.of_nat (S j)) by lia.
      apply wrap_small. split; [apply Z.pow_nonneg; lia|]. apply Z.pow_lt_mono_r; lia. }
    rewrite E. destruct (IH (S j)) as (m & Em & Hm & Hb); [lia|lia|replace (S j - 1) with (Z.of_nat j) by lia; done|].
    exists m. split_and!; [done|lia|apply Hb|apply Hb].
Qed.

Lemma tree_hash_cnt_spec (count : nat) :
  (3 <= count)%nat -> count <= 2 ^ 28 ->
  exists k : nat, (1 <= k <= 27)%nat /\ tree_hash_cnt count = Some (Z.of_nat (2 ^ k)) /\ (2 ^ k < count <= 2 * 2 ^ k)%nat.
Proof.
  intros H3 Hc. unfold tree_hash_cnt. btrue (3 <=? Z.of_nat count). change 268435456 with (2 ^ 28).
  btrue (Z.of_nat count <=? 2 ^ 28). cbn [negb].
  destruct (cnt_loop_pow count Hc 28 1) as (m & Em & Hm & Hb); [lia|lia|simpl; lia|].
  assert (Hm2 : (2 <= m)%nat).
  { destruct m as [|[|m]]; [lia| |lia]. simpl in Hb. lia. }
  assert (Hm28 : m <= 28).
  { destruct (Z.le_gt_cases m 28); [done|]. pose proof (Z.pow_le_mono_r 2 28 (m - 1)). lia. }
  exists (m - 1)%nat. assert (Epow : Z.of_nat (2 ^ (m - 1)) = 2 ^ (m - 1)) by (rewrite Nat2Z.inj_pow; f_equal; lia).
  assert (E2 : 2 ^ m = 2 * 2 ^ (m - 1)) by (rewrite <- Z.pow_succ_r by lia; f_equal; lia).
  split_and!; [lia..| |lia|lia]. change (2 ^ 1%nat) with 2 in Em. rewrite Em, shiftr_div by lia.
  rewrite Epow, E2, Z.mul_comm, Z.div_mul by lia. done.
Qed.

(** *** The tree as a function *)

(** A level of the tree, and the root over [2 ^ k] entries. *)
Definition level (f : nat -> list Z) (j : nat) : list Z := hash_two (f (2 * j)%nat) (f (2 * j + 1)%nat).
Fixpoint troot (k : nat) (f : nat -> list Z) : list Z :=
  match k with
  | O => f O
  | S k' => troot k' (level f)
  end.

Lemma troot_ext k : forall f g, (forall j, (j < 2 ^ k)%nat -> f j = g j) -> troot k f = troot k g.
Proof.
  induction k as [|k IH]; intros f g H; [apply H; simpl; lia|]. cbn [troot]. apply IH.
  intros j Hj. unfold level. rewrite !H; [done|simpl; lia..].
Qed.

(** The entries after the first reduction: leading leaves as they are, the others in pairs. *)
Definition first_level (hashes : list (list Z)) (a : nat) (j : nat) : list Z :=
  if (j <? a)%nat then hash_at hashes j
  else hash_two (hash_at hashes (a + 2 * (j - a))) (hash_at hashes (a + 2 * (j - a) + 1)).

Lemma hash_at_insert l i j h : (i < length l)%nat -> hash_at (<[i := h]> l) j = if bool_decide (i = j) then h else hash_at l j.
Proof.
  intros Hi. unfold hash_at. rewrite !nth_lookup. case_bool_decide; subst.
  - by rewrite list_lookup_insert_eq.
  - by rewrite list_lookup_insert_ne.
Qed.

Lemma first_rounds_at hashes a n ints t :
  (t <= n)%nat -> length ints = (a + n)%nat ->
  (forall j, (j < a)%nat -> hash_at ints j = hash_at hashes j) ->
  let r := foldl (first_round hashes a) ints (seq 0 t) in
  length r = (a + n)%nat /\ forall j, (j < a + t)%nat -> hash_at r j = first_level hashes a j.
Proof.
  intros Ht Hl Ha. cbv zeta. induction t as [|t IH].
  { split; [done|]. intros j Hj. cbn. unfold first_level. replace (j <? a)%nat with true by (symmetry; apply Nat.ltb_lt; lia). apply Ha. lia. }
  destruct IH as [IHl IHj]; [lia|]. rewrite seq_S, foldl_app. cbn [foldl Nat.add].
  set (r := foldl _ ints (seq 0 t)) in *. unfold first_round. split; [by rewrite length_insert|].
  intros j Hj. rewrite hash_at_insert by lia. case_bool_decide as E; [|apply IHj; lia]. subst j. unfold first_level.
  replace (a + t <? a)%nat with false by (symmetry; apply Nat.ltb_ge; lia). by replace (a + t - a)%nat with t by lia.
Qed.

Lemma reduce_level_at n ints t :
  (t <= n)%nat -> (n <= length ints)%nat ->
  let r := foldl level_round ints (seq 0 t) in
  length r = length ints /\ forall j, hash_at r j = if (j <? t)%nat then level (hash_at ints) j else hash_at ints j.
Proof.
  intros Ht Hn. cbv zeta. induction t as [|t IH]; [done|].
  destruct IH as [IHl IHj]; [lia|]. rewrite seq_S, foldl_app. cbn [foldl Nat.add].
  set (r := foldl _ ints (seq 0 t)) in *. unfold level_round. split; [by rewrite length_insert|].
  intros j. rewrite hash_at_insert by lia. rewrite !IHj.
  replace (2 * t <? t)%nat with false by (symmetry; apply Nat.ltb_ge; lia).
  replace (2 * t + 1 <? t)%nat with false by (symmetry; apply Nat.ltb_ge; lia).
  case_bool_decide as E.
  - subst j. replace (t <? S t)%nat with true by (symmetry; apply Nat.ltb_lt; lia). done.
  - destruct (Nat.ltb_spec j t), (Nat.ltb_spec j (S t)); done || lia.
Qed.

Lemma levels_loop_root k : (1 <= k)%nat -> forall fuel ints, (k <= fuel)%nat -> (2 ^ k <= length ints)%nat ->
  let r := levels_loop fuel (2 ^ k) ints in hash_two (hash_at r 0) (hash_at r 1) = troot k (hash_at ints).
Proof.
  induction k as [|k IH]; intros Hk fuel ints Hf Hl; [lia|]. cbv zeta. destruct fuel as [|fuel]; [lia|]. cbn [levels_loop].
  destruct k as [|k].
  - done.
  - replace (2 <? 2 ^ S (S k))%nat with true by (symmetry; apply Nat.ltb_lt; simpl; pose proof (Nat.pow_nonzero 2 k); lia).
    assert (Ediv : (2 ^ S (S k) / 2)%nat = (2 ^ S k)%nat) by (rewrite Nat.pow_succ_r', Nat.mul_comm, Nat.div_mul; lia).
    rewrite Ediv. assert (Hle : (2 ^ S k <= length ints)%nat) by (simpl in *; lia).
    destruct (reduce_level_at (2 ^ S k) ints (2 ^ S k) ltac:(lia) Hle) as [Hrl Hrj]. fold (reduce_level (2 ^ S k) ints) in *.
    rewrite (IH ltac:(lia) fuel) by lia. change (troot (S (S k)) (hash_at ints)) with (troot (S k) (level (hash_at ints))).
    apply troot_ext. intros j Hj. rewrite Hrj. replace (j <? 2 ^ S k)%nat with true by (symmetry; by apply Nat.ltb_lt). done.
Qed.

(** The tree over at least three leaves: the leading leaves and the pairs of the
    others form a perfect tree. *)
Lemma tree_hash_troot hashes k :
  (3 <= length hashes)%nat -> (1 <= k <= 27)%nat -> tree_hash_cnt (length hashes) = Some (Z.of_nat (2 ^ k)) ->
  (2 ^ k < length hashes <= 2 * 2 ^ k)%nat ->
  tree_hash hashes = Some (troot k (first_level hashes (2 * 2 ^ k - length hashes))).
Proof.
  intros H3 Hk Ec Hb. unfold tree_hash. destruct hashes as [|h1 [|h2 [|h3 hs]]]; [simpl in H3; lia..|].
  set (hashes := h1 :: h2 :: h3 :: hs) in *. rewrite Ec. cbn [mbind option_bind]. rewrite Nat2Z.id.
  set (a := (2 * 2 ^ k - length hashes)%nat). cbv zeta. rewrite bool_decide_true by lia. cbn [negb].
  destruct (first_rounds_at hashes a (2 ^ k - a) (init_ints hashes (2 ^ k) a) (2 ^ k - a)) as [Hl Hj].
  - lia.
  - unfold init_ints. rewrite length_app, length_take, length_replicate. lia.
  - intros j Hj. unfold hash_at, init_ints. rewrite !nth_lookup, lookup_app_l, lookup_take_lt by (rewrite ?length_take; lia). done.
  - rewrite (levels_loop_root k) by lia. f_equal. apply troot_ext. intros j Hj'. apply Hj. lia.
Qed.

(** *** Branches *)

(** A branch as steps towards the root: the side of the node (true: right) and
    its sibling. *)
Definition climb (h : list Z) (steps : list (bool * list Z)) : list Z :=
  foldl (fun p '(r, s) => if r : bool then hash_two s p else hash_two p s) h steps.

Definition path_val (steps : list (bool * list Z)) : Z := be_val 2 (map (fun s => Z.b2z (fst s)) steps).

Lemma path_val_snoc steps r s : path_val (steps ++ [(r, s)]) = path_val steps * 2 + Z.b2z r.
Proof. unfold path_val. rewrite map_app. cbn [map fst]. by rewrite be_val_snoc. Qed.

Lemma path_val_range steps : 0 <= path_val steps < 2 ^ length steps.
Proof.
  pose proof (be_val_range 2 (map (fun s => Z.b2z (fst s)) steps) ltac:(lia)) as H. rewrite length_map in H. apply H.
  apply Forall_forall. intros x Hx. apply list_elem_of_fmap in Hx as ([r s] & -> & _). destruct r; simpl; lia.
Qed.

Lemma path_shift p r : 0 <= p < 2 ^ 31 -> Z.lor (u32 (Z.shiftl p 1)) (Z.b2z r) = p * 2 + Z.b2z r.
Proof.
  intros Hp. rewrite shiftl_mul, wrap_small by (unfold is_uint; lia). apply (lor_disjoint p _ 1); [lia|]. destruct r; simpl; lia.
Qed.

(** [tree_branch_hash] climbs the recorded steps. *)
Lemma branch_hash_climb h steps extra :
  tree_branch_hash h (map snd steps ++ extra) (length steps) (path_val steps) = climb h steps.
Proof.
  unfold tree_branch_hash. revert extra. induction steps as [|[r s] steps IH] using rev_ind; intros extra; [done|].
  rewrite length_app. cbn [length]. rewrite Nat.add_1_r, seq_S, foldl_app. cbn [foldl Nat.add].
  unfold climb. rewrite foldl_app. cbn [foldl]. fold (climb h steps).
  assert (Hpre : foldl (branch_hash_step (map snd (steps ++ [(r, s)]) ++ extra) (S (length steps)) (path_val (steps ++ [(r, s)])))
    h (seq 0 (length steps)) = climb h steps).
  { rewrite <- (IH ([s] ++ extra)). apply foldl_ext_in. intros p d Hd. apply elem_of_seq in Hd.
    rewrite map_app, <- app_assoc. cbn [map snd app]. unfold branch_hash_step. rewrite path_val_snoc.
    assert (E : Z.shiftr (path_val steps * 2 + Z.b2z r) (S (length steps) - d - 1)%nat = Z.shiftr (path_val steps) (length steps - d - 1)%nat).
    { rewrite !shiftr_div by lia. replace (Z.of_nat (S (length steps) - d - 1)) with (1 + Z.of_nat (length steps - d - 1)) by lia.
      rewrite Z.pow_add_r by lia. rewrite <- Z.div_div by (try apply Z.pow_nonzero; lia). f_equal.
      change (2 ^ 1) with 2. rewrite Z.div_add_l by lia. destruct r; [change (Z.b2z true / 2) with 0|change (Z.b2z false / 2) with 0]; lia. }
    by rewrite E. }
  rewrite Hpre. unfold branch_hash_step. rewrite path_val_snoc. replace (S (length steps) - length steps - 1)%nat with O by lia.
  change (Z.of_nat 0) with 0. rewrite Z.shiftr_0_r. change 1 with (2 ^ 1 - 1). rewrite land_ones_mod by lia.
  change (2 ^ 1) with 2. rewrite Z.add_comm, Z.mod_add by lia.
  assert (hash_at (map snd (steps ++ [(r, s)]) ++ extra) (length steps) = s) as ->.
  { unfold hash_at. rewrite map_app, <- app_assoc, nth_lookup, lookup_app_r by (rewrite length_map; done).
    by rewrite length_map, Nat.sub_diag. }
  by destruct r.
Qed.

(** The step taken at the pair [i], [i + 1] of [src], from side [r]. *)
Definition step_at (src : list (list Z)) (i : nat) (r : bool) : bool * list Z :=
  (r, hash_at src (if r then i else (i + 1)%nat)).

Lemma half_split (i : nat) : exists q r, i = (2 * q + Nat.b2n r)%nat.
Proof. exists (i / 2)%nat, (Nat.odd i). by rewrite <- Nat.div2_div, <- Nat.div2_odd. Qed.

Lemma climb_snoc h steps r s :
  climb h (steps ++ [(r, s)]) = if r then hash_two s (climb h steps) else hash_two (climb h steps) s.
Proof. unfold climb. by rewrite foldl_app. Qed.

Lemma climb_level h steps src q r :
  climb h steps = hash_at src (2 * q + Nat.b2n r) -> climb h (steps ++ [step_at src (2 * q) r]) = level (hash_at src) q.
Proof. intros E. unfold step_at. rewrite climb_snoc, E. unfold level. by destruct r; cbn [Nat.b2n]; rewrite ?Nat.add_0_r. Qed.

(** The pair test at the pair of [idx], and away from it. *)
Lemma branch_step_hit src i j ints steps r :
  (length steps <= 30)%nat ->
  branch_step src i j (mk_bs ints (i + Nat.b2n r) (map snd steps) (path_val steps)) =
  mk_bs ints j (map snd (steps ++ [step_at src i r])) (path_val (steps ++ [step_at src i r])).
Proof.
  intros Hlen. pose proof (path_val_range steps) as Hr.
  pose proof (Z.pow_le_mono_r 2 (length steps) 30 ltac:(lia) ltac:(lia)).
  unfold branch_step, step_at. cbn [bs_idx bs_branch bs_path bs_ints]. rewrite path_val_snoc, map_app. cbn [map snd].
  rewrite <- path_shift by lia. destruct r; cbn [Nat.b2n].
  - rewrite (bool_decide_false (i + 1 = i)%nat), (bool_decide_true (i + 1 = i + 1)%nat) by lia. done.
  - rewrite Nat.add_0_r, (bool_decide_true (i = i)%nat) by lia. done.
Qed.

Lemma branch_step_miss src i j s : bs_idx s <> i -> bs_idx s <> (i + 1)%nat -> branch_step src i j s = s.
Proof. intros H1 H2. unfold branch_step. by rewrite !bool_decide_false by done. Qed.

(** The rounds of a level take one step. *)
Lemma branch_rounds n ints steps q r t :
  (t <= n)%nat -> (n <= length ints)%nat -> (length steps <= 30)%nat ->
  foldl branch_round (mk_bs ints (2 * q + Nat.b2n r) (map snd steps) (path_val steps)) (seq 0 t) =
  let ints' := foldl level_round ints (seq 0 t) in
  if (q <? t)%nat
  then mk_bs ints' q (map snd (steps ++ [step_at ints (2 * q) r])) (path_val (steps ++ [step_at ints (2 * q) r]))
  else mk_bs ints' (2 * q + Nat.b2n r) (map snd steps) (path_val steps).
Proof.
  intros Ht Hn Hs. cbv zeta. induction t as [|t IH]; [done|]. rewrite !seq_S, !foldl_app, IH by lia. cbn [foldl Nat.add].
  destruct (reduce_level_at n ints t ltac:(lia) Hn) as [Hl Hj]. set (ints' := foldl level_round ints (seq 0 t)) in *.
  unfold branch_round. destruct (Nat.ltb_spec q t), (Nat.ltb_spec q (S t)); [|lia| |].
  - rewrite branch_step_miss by (cbn [bs_idx]; lia). done.
  - replace t with q in * by lia. cbn [bs_ints]. rewrite branch_step_hit by done. cbn [bs_ints bs_idx bs_branch bs_path].
    assert (step_at ints' (2 * q) r = step_at ints (2 * q) r) as ->; [|done].
    unfold step_at. f_equal. rewrite Hj. destruct r; [destruct (Nat.ltb_spec (2 * q) q)|destruct (Nat.ltb_spec (2 * q + 1) q)]; done || lia.
  - rewrite branch_step_miss by (cbn [bs_idx]; destruct r; simpl; lia). done.
Qed.

(** The rounds over the last leaves take one step from a leaf of a pair. *)
Lemma branch_firsts hashes a ints q r t :
  foldl (branch_first hashes a) (mk_bs ints (a + 2 * q + Nat.b2n r) [] 0) (seq 0 t) =
  let ints' := foldl (first_round hashes a) ints (seq 0 t) in
  let steps := [step_at hashes (a + 2 * q) r] in
  if (q <? t)%nat then mk_bs ints' (a + q) (map snd steps) (path_val steps)
  else mk_bs ints' (a + 2 * q + Nat.b2n r) [] 0.
Proof.
  cbv zeta. induction t as [|t IH]; [done|]. rewrite !seq_S, !foldl_app, IH. cbn [foldl Nat.add].
  unfold branch_first. destruct (Nat.ltb_spec q t), (Nat.ltb_spec q (S t)); [|lia| |].
  - rewrite branch_step_miss by (cbn [bs_idx]; lia). done.
  - replace t with q by lia. rewrite (branch_step_hit hashes (a + 2 * q) (a + q) _ [] r) by (simpl; lia). done.
  - rewrite branch_step_miss by (cbn [bs_idx]; destruct r; simpl; lia). done.
Qed.

Lemma branch_firsts_lead hashes a ints idx t :
  (idx < a)%nat ->
  foldl (branch_first hashes a) (mk_bs ints idx [] 0) (seq 0 t) = mk_bs (foldl (first_round hashes a) ints (seq 0 t)) idx [] 0.
Proof.
  intros Hi. induction t as [|t IH]; [done|]. rewrite !seq_S, !foldl_app, IH. cbn [foldl Nat.add].
  unfold branch_first. rewrite branch_step_miss by (cbn [bs_idx]; lia). done.
Qed.

(** The later levels climb to the root of a perfect tree. *)
Lemma branch_levels_root h k : (1 <= k)%nat -> forall fuel ints idx steps,
  (k <= fuel)%nat -> (2 ^ k <= length ints)%nat -> (idx < 2 ^ k)%nat -> (length steps + k <= 30)%nat ->
  climb h steps = hash_at ints idx ->
  let s := branch_levels fuel (2 ^ k) (mk_bs ints idx (map snd steps) (path_val steps)) in
  exists steps', length steps' = (length steps + k)%nat /\ climb h steps' = troot k (hash_at ints) /\
    branch_step (bs_ints s) 0 0 s = mk_bs (bs_ints s) 0 (map snd steps') (path_val steps').
Proof.
  induction k as [|k IH]; intros Hk fuel ints idx steps Hf Hl Hi Hs Hc; [lia|]. cbv zeta.
  destruct fuel as [|fuel]; [lia|]. cbn [branch_levels]. destruct (half_split idx) as (q & r & ->).
  destruct k as [|k].
  - change (2 <? 2 ^ 1)%nat with false. cbv iota. cbn [bs_ints].
    assert (q = O) as -> by (simpl in Hi; lia). exists (steps ++ [step_at ints (2 * 0) r]).
    rewrite length_app. split_and!; [done|by rewrite climb_level|]. apply (branch_step_hit ints 0 0). lia.
  - pose proof (Nat.pow_nonzero 2 k ltac:(done)) as Hnz. replace (2 <? 2 ^ S (S k))%nat with true by (symmetry; apply Nat.ltb_lt; simpl; lia).
    assert (Ediv : (2 ^ S (S k) / 2)%nat = (2 ^ S k)%nat) by (rewrite Nat.pow_succ_r', Nat.mul_comm, Nat.div_mul; lia).
    rewrite Ediv. assert (Hle : (2 ^ S k <= length ints)%nat) by (simpl in *; lia).
    destruct (reduce_level_at (2 ^ S k) ints (2 ^ S k) ltac:(lia) Hle) as [Hrl Hrj].
    rewrite (branch_rounds (2 ^ S k)) by lia. cbv zeta. assert (Hq : (q < 2 ^ S k)%nat) by (rewrite Nat.pow_succ_r' in Hi; lia).
    replace (q <? 2 ^ S k)%nat with true by (symmetry; by apply Nat.ltb_lt).
    set (steps1 := steps ++ [step_at ints (2 * q) r]). assert (Hs1 : length steps1 = S (length steps)) by (unfold steps1; rewrite length_app; simpl; lia).
    set (ints' := foldl level_round ints (seq 0 (2 ^ S k))) in *.
    destruct (IH ltac:(lia) fuel ints' q steps1) as (steps' & Hlen & Hcl & Hst); [lia|lia|lia|lia| |].
    + unfold steps1. rewrite climb_level by done. rewrite Hrj. by replace (q <? 2 ^ S k)%nat with true by (symmetry; by apply Nat.ltb_lt).
    + exists steps'. split_and!; [lia| |done]. rewrite Hcl. change (troot (S (S k)) (hash_at ints)) with (troot (S k) (level (hash_at ints))).
      apply troot_ext. intros j Hj. rewrite Hrj. by replace (j <? 2 ^ S k)%nat with true by (symmetry; by apply Nat.ltb_lt).
Qed.

(** [tree_path] is [tree_branch] without the hashes. *)
Definition bs_proj (s : branch_state) : Z * nat := (bs_path s, bs_idx s).

Lemma branch_step_proj src i j s : bs_proj (branch_step src i j s) = path_step i j (bs_proj s).
Proof. unfold branch_step, path_step, bs_proj. by destruct (_ || _). Qed.

Lemma branch_fold_proj (f : branch_state -> nat -> branch_state) (g : Z * nat -> nat -> Z * nat) l :
  (forall s t, bs_proj (f s t) = g (bs_proj s) t) -> forall s, bs_proj (foldl f s l) = foldl g (bs_proj s) l.
Proof. intros H. induction l as [|t l IH]; intros s; [done|]. cbn [foldl]. by rewrite IH, H. Qed.

Lemma branch_first_proj hashes a s t : bs_proj (branch_first hashes a s t) = path_step (a + 2 * t) (a + t) (bs_proj s).
Proof. unfold branch_first. rewrite <- (branch_step_proj hashes). done. Qed.

Lemma branch_round_proj s j : bs_proj (branch_round s j) = path_step (2 * j) j (bs_proj s).
Proof. unfold branch_round. rewrite <- (branch_step_proj (bs_ints s)). done. Qed.

Lemma branch_levels_proj fuel : forall cnt s, bs_proj (branch_levels fuel cnt s) = path_levels fuel cnt (bs_proj s).
Proof.
  induction fuel as [|fuel IH]; intros cnt s; [done|]. cbn [branch_levels path_levels]. destruct (2 <? cnt)%nat; [|done].
  rewrite IH. f_equal. apply branch_fold_proj. apply branch_round_proj.
Qed.

Lemma find_hash_spec hash hashes i : find_hash hash hashes = Some i -> (i < length hashes)%nat /\ hash_at hashes i = hash.
Proof.
  revert i. induction hashes as [|h hashes IH]; intros i; cbn [find_hash]; [done|]. case_bool_decide as E.
  - intros [= <-]. subst. simpl. split; [lia|done].
  - destruct (find_hash hash hashes) as [i'|]; [|done]. intros [= <-]. destruct (IH i') as [H1 H2]; [done|]. simpl. split; [lia|done].
Qed.

Lemma find_hash_elem hash hashes : hash ∈ hashes -> is_Some (find_hash hash hashes).
Proof.
  intros H. induction hashes as [|h hashes IH]; [by apply not_elem_of_nil in H|]. cbn [find_hash]. case_bool_decide as E; [by eexists|].
  apply elem_of_cons in H as [H|H]; [done|]. destruct (IH H) as [i ->]. by eexists.
Qed.

(** The branch of a leaf, over at least three leaves. *)
Lemma tree_branch_big hashes hash idx k :
  (3 <= length hashes)%nat -> (1 <= k <= 27)%nat -> tree_hash_cnt (length hashes) = Some (Z.of_nat (2 ^ k)) ->
  (2 ^ k < length hashes <= 2 * 2 ^ k)%nat -> find_hash hash hashes = Some idx ->
  exists steps, tree_branch hashes hash = Some (map snd steps, length steps, path_val steps) /\
    (k <= length steps <= k + 1)%nat /\
    climb hash steps = troot k (first_level hashes (2 * 2 ^ k - length hashes)) /\
    tree_path (length hashes) idx = Some (path_val steps).
Proof.
  intros H3 Hk Ec Hb Hf. destruct (find_hash_spec _ _ _ Hf) as [Hi Hat]. unfold tree_branch, tree_path. rewrite Hf. cbn [mbind option_bind].
  destruct hashes as [|h1 [|h2 [|h3 hs]]]; [simpl in H3; lia..|]. set (hashes := h1 :: h2 :: h3 :: hs) in *.
  change (length hashes) with (S (S (S (length hs)))) in *. cbv iota. rewrite Ec. cbn [mbind option_bind]. rewrite Nat2Z.id.
  set (n := S (S (S (length hs)))) in *. set (a := (2 * 2 ^ k - n)%nat) in *. cbv zeta. rewrite bool_decide_true by lia. cbn [negb].
  destruct (first_rounds_at hashes a (2 ^ k - a) (init_ints hashes (2 ^ k) a) (2 ^ k - a)) as [Hl Hj].
  { lia. } { unfold init_ints. rewrite length_app, length_take, length_replicate. simpl. lia. }
  { intros j Hj. unfold hash_at, init_ints. rewrite !nth_lookup, lookup_app_l, lookup_take_lt by (rewrite ?length_take; simpl; lia). done. }
  set (ints := foldl (first_round hashes a) _ _) in *.
  assert (exists steps1 idx1, foldl (branch_first hashes a) (mk_bs (init_ints hashes (2 ^ k) a) idx [] 0) (seq 0 (2 ^ k - a)) =
      mk_bs ints idx1 (map snd steps1) (path_val steps1) /\ (idx1 < 2 ^ k)%nat /\ (length steps1 <= 1)%nat /\ climb hash steps1 = hash_at ints idx1)
    as (steps1 & idx1 & E1 & Hi1 & Hs1 & Hc1).
  { destruct (Nat.lt_ge_cases idx a) as [Hlt|Hge].
    - exists [], idx. rewrite branch_firsts_lead by done. split_and!; [done|lia|simpl; lia|]. rewrite Hj by lia. unfold first_level.
      by replace (idx <? a)%nat with true by (symmetry; by apply Nat.ltb_lt).
    - destruct (half_split (idx - a)) as (q & r & Eq). assert (idx = a + 2 * q + Nat.b2n r)%nat as -> by lia.
      exists [step_at hashes (a + 2 * q) r], (a + q)%nat. rewrite branch_firsts. cbv zeta.
      replace (q <? 2 ^ k - a)%nat with true by (symmetry; apply Nat.ltb_lt; lia).
      split_and!; [done|lia|simpl; lia|]. rewrite Hj by lia. unfold first_level, step_at, climb. cbn [foldl].
      replace (a + q <? a)%nat with false by (symmetry; apply Nat.ltb_ge; lia). replace (a + q - a)%nat with q by lia.
      rewrite <- Hat. by destruct r; cbn [Nat.b2n]; rewrite ?Nat.add_0_r. }
  destruct (branch_levels_root hash k ltac:(lia) 28 ints idx1 steps1) as (steps & Hlen & Hcl & Hst); [lia..|done|].
  exists steps. rewrite E1, Hst. cbn [bs_branch bs_path]. rewrite length_map. split_and!; [done|lia|lia| |].
  - rewrite Hcl. apply troot_ext. intros j Hj'. apply Hj. lia.
  - change (0, idx) with (bs_proj (mk_bs (init_ints hashes (2 ^ k) a) idx [] 0)).
    rewrite <- (branch_fold_proj (branch_first hashes a)) by (intros; apply branch_first_proj). rewrite E1, <- branch_levels_proj.
    set (s := branch_levels _ _ _) in *. change (bs_proj s) with (bs_path s, bs_idx s). cbv iota beta.
    change (bs_path s, bs_idx s) with (bs_proj s). by rewrite <- (branch_step_proj (bs_ints s)), Hst.
Qed.

Lemma tree_branch_steps hashes hash idx :
  (1 <= length hashes)%nat -> length hashes <= 2 ^ 28 -> find_hash hash hashes = Some idx ->
  exists steps, tree_branch hashes hash = Some (map snd steps, length steps, path_val steps) /\ (length steps <= 28)%nat /\
    tree_hash hashes = Some (climb hash steps) /\ tree_path (length hashes) idx = Some (path_val steps).
Proof.
  intros H1 Hc Hf. destruct (find_hash_spec _ _ _ Hf) as [Hi Hat].
  destruct (Nat.lt_ge_cases (length hashes) 3) as [Hlt|Hge].
  - unfold tree_branch. rewrite Hf. cbn [mbind option_bind].
    destruct hashes as [|h1 [|h2 [|h3 hs]]]; simpl in H1, Hlt, Hi; try lia.
    + assert (idx = O) as -> by lia. exists []. cbn in Hat. subst. split_and!; done || simpl; lia.
    + assert (idx = O \/ idx = 1%nat) as [-> | ->] by lia; cbn in Hat; subst.
      * exists [(false, h2)]. split_and!; done || simpl; lia.
      * exists [(true, h1)]. split_and!; done || simpl; lia.
  - destruct (tree_hash_cnt_spec _ Hge Hc) as (k & Hk & Ec & Hb).
    destruct (tree_branch_big _ _ _ _ Hge Hk Ec Hb Hf) as (steps & E & Hl & Hcl & Hp). exists steps.
    split_and!; [done|lia| |done]. by rewrite (tree_hash_troot _ k), Hcl.
Qed.

(** *** Collisions *)

(** Distinct inputs, one hashed in each of two runs, with the same hash. *)
Definition collision_in (xs ys : list (list Z)) : Prop :=
  exists x y, x ∈ xs /\ y ∈ ys /\ x <> y /\ cn_fast_hash x = cn_fast_hash y.

(** The inputs hashed on the way to a root. *)
Fixpoint troot_inputs (k : nat) (f : nat -> list Z) : list (list Z) :=
  match k with
  | O => []
  | S k' => map (fun j => f (2 * j)%nat ++ f (2 * j + 1)%nat) (seq 0 (2 ^ k')) ++ troot_inputs k' (level f)
  end.

Definition first_inputs (hashes : list (list Z)) (a c : nat) : list (list Z) :=
  map (fun t => hash_at hashes (a + 2 * t) ++ hash_at hashes (a + 2 * t + 1)) (seq 0 c).

Definition tree_inputs (hashes : list (list Z)) : list (list Z) :=
  match hashes with
  | [] | [_] => []
  | [h1; h2] => [h1 ++ h2]
  | _ =>
      let cnt := Z.to_nat (default 0 (tree_hash_cnt (length hashes))) in
      let a := (2 * cnt - length hashes)%nat in
      first_inputs hashes a (cnt - a) ++ troot_inputs (Nat.log2 cnt) (first_level hashes a)
  end.

Fixpoint branch_inputs (branch : list (list Z)) (depth : nat) (path : Z) (hash : list Z) (n : nat) : list (list Z) :=
  match n with
  | O => []
  | S n' =>
      let partial := foldl (branch_hash_step branch depth path) hash (seq 0 n') in
      branch_inputs branch depth path hash n' ++
      [if negb (Z.land (Z.shiftr path (depth - n' - 1)%nat) 1 =? 0)
       then hash_at branch n' ++ partial else partial ++ hash_at branch n']
  end.

Lemma collision_in_app_l xs ys xs' ys' : collision_in xs ys -> collision_in (xs ++ xs') (ys ++ ys').
Proof. intros (x & y & Hx & Hy & H). exists x, y. rewrite !elem_of_app. tauto. Qed.

Lemma collision_in_app_r xs ys xs' ys' : collision_in xs ys -> collision_in (xs' ++ xs) (ys' ++ ys).
Proof. intros (x & y & Hx & Hy & H). exists x, y. rewrite !elem_of_app. tauto. Qed.

Lemma hash_two_inj xs ys a b a' b' :
  length a = length a' -> a ++ b ∈ xs -> a' ++ b' ∈ ys -> hash_two a b = hash_two a' b' -> a = a' /\ b = b' \/ collision_in xs ys.
Proof.
  intros Hl Hx Hy E. destruct (decide (a ++ b = a' ++ b')) as [Eq|Ne]; [left|right; by exists (a ++ b), (a' ++ b')].
  apply app_inj_1 in Eq; done.
Qed.

Lemma length_hash_two a b : length (hash_two a b) = 32%nat.
Proof. apply length_cn_fast_hash. Qed.

(** A counterexample to a property of the first [n] indices, or none. *)
Lemma index_dec (P : nat -> Prop) `{forall j, Decision (P j)} n : (forall j, (j < n)%nat -> P j) \/ exists j, (j < n)%nat /\ ~ P j.
Proof.
  destruct (decide (Forall P (seq 0 n))) as [HF|HF].
  - left. intros j Hj. rewrite Forall_forall in HF. apply HF, elem_of_seq. lia.
  - right. apply not_Forall_Exists in HF; [|done]. apply Exists_exists in HF as (j & Hj & Hn). apply elem_of_seq in Hj. exists j. split; [lia|done].
Qed.

Lemma troot_inj k : forall f g,
  (forall j, (j < 2 ^ k)%nat -> length (f j) = length (g j)) -> troot k f = troot k g ->
  (forall j, (j < 2 ^ k)%nat -> f j = g j) \/ collision_in (troot_inputs k f) (troot_inputs k g).
Proof.
  induction k as [|k IH]; intros f g Hl E.
  { left. intros j Hj. assert (j = O) as -> by (simpl in Hj; lia). done. }
  cbn [troot troot_inputs] in E |- *. destruct (IH (level f) (level g)) as [H|]; [intros; unfold level; by rewrite !length_hash_two|done| |right; by apply collision_in_app_r].
  destruct (index_dec (fun j => f j = g j) (2 ^ S k)) as [|(j & Hj & Hne)]; [by left|right]. apply collision_in_app_l.
  destruct (half_split j) as (q & r & ->). assert (Hq : (q < 2 ^ k)%nat) by (rewrite Nat.pow_succ_r' in Hj; lia).
  specialize (H q Hq). assert (Hq2 : (2 * q < 2 ^ S k)%nat) by (rewrite Nat.pow_succ_r'; lia).
  set (xs := map _ _). set (ys := map _ _).
  apply (hash_two_inj xs ys _ _ _ _ (Hl _ Hq2)) in H as [[H0 H1]|]; [|done|apply list_elem_of_fmap; exists q; split; [done|apply elem_of_seq; lia]..].
  exfalso. apply Hne. destruct r; cbn [Nat.b2n]; [done|]. by rewrite Nat.add_0_r.
Qed.

Lemma first_level_inj l l' a c :
  (forall j, (j < length l)%nat -> length (hash_at l j) = length (hash_at l' j)) ->
  length l = length l' -> length l = (a + 2 * c)%nat ->
  (forall j, (j < a + c)%nat -> first_level l a j = first_level l' a j) ->
  l = l' \/ collision_in (first_inputs l a c) (first_inputs l' a c).
Proof.
  intros H32 Hll Hc H. destruct (index_dec (fun j => hash_at l j = hash_at l' j) (length l)) as [HF|(j & Hj & Hn)].
  { left. by apply (nth_ext l l' [] []). }
  right. destruct (Nat.lt_ge_cases j a) as [Hlt|Hge].
  - specialize (H j ltac:(lia)). unfold first_level in H. replace (j <? a)%nat with true in H by (symmetry; by apply Nat.ltb_lt). done.
  - destruct (half_split (j - a)) as (q & r & Eq). assert (j = a + 2 * q + Nat.b2n r)%nat as -> by lia.
    specialize (H (a + q)%nat ltac:(lia)). unfold first_level in H. replace (a + q <? a)%nat with false in H by (symmetry; apply Nat.ltb_ge; lia).
    replace (a + q - a)%nat with q in H by lia. assert (Hq2 : (a + 2 * q < length l)%nat) by lia.
    apply (hash_two_inj (first_inputs l a c) (first_inputs l' a c) _ _ _ _ (H32 _ Hq2)) in H as [[H0 H1]|];
      [|done|apply list_elem_of_fmap; exists q; split; [done|apply elem_of_seq; lia]..].
    exfalso. apply Hn. destruct r; cbn [Nat.b2n]; [done|]. by rewrite Nat.add_0_r.
Qed.

Lemma branch_climb_inj branch branch' depth path hash hash' :
  length hash = 32%nat -> length hash' = 32%nat -> forall n,
  (forall d, (d < n)%nat -> length (hash_at branch d) = length (hash_at branch' d)) ->
  foldl (branch_hash_step branch depth path) hash (seq 0 n) = foldl (branch_hash_step branch' depth path) hash' (seq 0 n) ->
  hash = hash' /\ (forall d, (d < n)%nat -> hash_at branch d = hash_at branch' d) \/
  collision_in (branch_inputs branch depth path hash n) (branch_inputs branch' depth path hash' n).
Proof.
  intros Hh Hh'. assert (H32 : forall br h n, length h = 32%nat -> length (foldl (branch_hash_step br depth path) h (seq 0 n)) = 32%nat).
  { intros br h [|n] Hl; [done|]. rewrite seq_S, foldl_app. cbn [foldl]. unfold branch_hash_step at 1. destruct (negb _); apply length_hash_two. }
  induction n as [|n IH]; intros Hl E; [left; split; [done|lia]|]. rewrite !seq_S, !foldl_app in E. cbn [foldl Nat.add] in E. cbn [branch_inputs].
  pose proof (H32 branch hash n Hh) as Hp. pose proof (H32 branch' hash' n Hh') as Hp'. unfold branch_hash_step at 1 3 in E.
  destruct (negb _).
  - eapply hash_two_inj in E as [[E1 E2]|]; [|right; by apply collision_in_app_r|by apply Hl; lia|by apply list_elem_of_singleton..].
    destruct (IH ltac:(intros; apply Hl; lia) E2) as [[-> Hd]|]; [|right; by apply collision_in_app_l].
    left. split; [done|]. intros d Hd'. destruct (decide (d = n)) as [->|]; [done|apply Hd; lia].
  - eapply hash_two_inj in E as [[E1 E2]|]; [|right; by apply collision_in_app_r|by rewrite Hp, Hp'|by apply list_elem_of_singleton..].
    destruct (IH ltac:(intros; apply Hl; lia) E1) as [[-> Hd]|]; [|right; by apply collision_in_app_l].
    left. split; [done|]. intros d Hd'. destruct (decide (d = n)) as [->|]; [done|apply Hd; lia].
Qed.

Lemma tree_hash_binding hashes hashes' root :
  length hashes <= 2 ^ 28 -> length hashes' = length hashes ->
  Forall (fun h => length h = 32%nat) (hashes ++ hashes') ->
  tree_hash hashes = Some root -> tree_hash hashes' = Some root ->
  hashes = hashes' \/ collision_in (tree_inputs hashes) (tree_inputs hashes').
Proof.
  intros Hc Hl HF E E'. apply Forall_app in HF as [HF HF'].
  assert (H32 : forall l j, Forall (fun h => length h = 32%nat) l -> (j < length l)%nat -> length (hash_at l j) = 32%nat).
  { intros l j HFl Hj. rewrite Forall_forall in HFl. apply HFl. apply list_elem_of_In, nth_In. done. }
  destruct (Nat.lt_ge_cases (length hashes) 3) as [Hlt|Hge].
  - destruct hashes as [|h1 [|h2 [|h3 hs]]]; simpl in Hlt; try lia; destruct hashes' as [|h1' [|h2' [|h3' hs']]]; try done.
    + cbn in E, E'. left. congruence.
    + apply Forall_cons in HF as [Hh _]. apply Forall_cons in HF' as [Hh' _]. cbn [tree_hash tree_inputs] in *.
      destruct (hash_two_inj [h1 ++ h2] [h1' ++ h2'] h1 h2 h1' h2') as [[-> ->]|];
        [congruence|by apply list_elem_of_singleton..|congruence|by left|by right].
  - destruct (tree_hash_cnt_spec _ Hge Hc) as (k & Hk & Ec & Hb). rewrite (tree_hash_troot hashes k) in E by done.
    rewrite (tree_hash_troot hashes' k) in E' by (rewrite ?Hl; done).
    rewrite Hl in E'. injection E as <-. injection E' as E'.
    assert (Ei : forall l, (3 <= length l)%nat -> length l = length hashes ->
      tree_inputs l = let a := (2 * 2 ^ k - length hashes)%nat in first_inputs l a (2 ^ k - a) ++ troot_inputs k (first_level l a)).
    { intros l H3 El. unfold tree_inputs. rewrite El, Ec. cbn [default]; unfold id. rewrite Nat2Z.id, Nat.log2_pow2 by lia.
      destruct l as [|? [|? [|? ?]]]; simpl in H3; try lia. done. }
    rewrite (Ei hashes), (Ei hashes') by lia. cbv zeta. set (a := (2 * 2 ^ k - length hashes)%nat) in *.
    destruct (troot_inj k (first_level hashes a) (first_level hashes' a)) as [H|]; [|done| |right; by apply collision_in_app_r].
    + intros j Hj. unfold first_level. destruct (Nat.ltb_spec j a); [|by rewrite !length_hash_two]. rewrite !H32; done || lia.
    + destruct (first_level_inj hashes hashes' a (2 ^ k - a)) as [|]; [|lia|lia| |by left|right; by apply collision_in_app_l].
      * intros j Hj. rewrite !H32; done || lia.
      * intros j Hj. apply H. lia.
Qed.


(** ** Properties *)

(** for every list of 1 to 2^28 leaves and every hash among them,
    [tree_branch] returns a branch of at most 28 hashes that [is_branch_in_tree]
    accepts for the root computed by [tree_hash], and its path is the one
    [tree_path] gives for the index of the first such leaf. *)
Theorem merkle_branch_accepted hashes hash :
  length hashes <= 2 ^ 28 -> hash ∈ hashes ->
  exists idx branch depth path root,
    hashes !! idx = Some hash /\ tree_hash hashes = Some root /\
    tree_branch hashes hash = Some (branch, depth, path) /\ length branch = depth /\ (depth <= 28)%nat /\
    tree_path (length hashes) idx = Some path /\ is_branch_in_tree hash root branch depth path = true.
Proof.
  intros Hc Hin. destruct (find_hash_elem _ _ Hin) as [idx Hf]. destruct (find_hash_spec _ _ _ Hf) as [Hi Hat].
  destruct (tree_branch_steps hashes hash idx ltac:(lia) Hc Hf) as (steps & E & Hl & Ht & Hp).
  exists idx, (map snd steps), (length steps), (path_val steps), (climb hash steps). split_and!; [|done..|by rewrite length_map|done|done|].
  - destruct (lookup_lt_is_Some_2 hashes idx Hi) as [x Hx]. unfold hash_at in Hat. by rewrite Hx, <- Hat, (nth_lookup_Some _ _ _ _ Hx).
  - unfold is_branch_in_tree. apply bool_decide_true. rewrite <- (branch_hash_climb hash steps []). by rewrite app_nil_r.
Qed.

(** C26: the root commits to the leaves: if two lists of the same number of
    32-byte leaves (at most 2^28) have the same [tree_hash], then they are equal,
    or two distinct inputs hashed in the two computations have the same
    [cn_fast_hash]. *)
Theorem merkle_root_binding hashes hashes' root :
  length hashes <= 2 ^ 28 -> length hashes' = length hashes ->
  Forall (fun h => length h = 32%nat) (hashes ++ hashes') ->
  tree_hash hashes = Some root -> tree_hash hashes' = Some root ->
  hashes = hashes' \/ collision_in (tree_inputs hashes) (tree_inputs hashes').
Proof. apply tree_hash_binding. Qed.

(** a branch commits to its leaf: if two 32-byte hashes are accepted by
    [is_branch_in_tree] against the same root with branches of 32-byte hashes of
    the same depth and path, then the hashes and the branches are equal, or two
    distinct inputs hashed by the two checks have the same [cn_fast_hash]. *)
Theorem merkle_branch_binding hash hash' root branch branch' depth path :
  length hash = 32%nat -> length hash' = 32%nat -> length branch = depth -> length branch' = depth ->
  Forall (fun h => length h = 32%nat) (branch ++ branch') ->
  is_branch_in_tree hash root branch depth path = true -> is_branch_in_tree hash' root branch' depth path = true ->
  hash = hash' /\ branch = branch' \/
  collision_in (branch_inputs branch depth path hash depth) (branch_inputs branch' depth path hash' depth).
Proof.
  intros Hh Hh' Hb Hb' HF E E'. apply bool_decide_eq_true in E, E'. apply Forall_app in HF as [HF HF'].
  destruct (branch_climb_inj branch branch' depth path hash hash' Hh Hh' depth) as [[-> Hd]|]; [| | |by right].
  - intros d Hd. rewrite Forall_forall in HF, HF'. rewrite HF, HF'; [done|apply list_elem_of_In, nth_In; lia..].
  - fold (tree_branch_hash hash branch depth path). fold (tree_branch_hash hash' branch' depth path). congruence.
  - left. split; [done|]. apply (nth_ext branch branch' [] []); [congruence|]. intros d Hd'. apply Hd. lia.
Qed.

(** ** Witnesses *)

(** Five leaves: a tree over four entries, two of them leaves. *)
Definition leaf (b : Z) : list Z := replicate 32 b.
Definition five : list (list Z) := map leaf [10; 20; 30; 40; 50].
Definition five_root : list Z := Eval vm_compute in default [] (tree_hash five).
Definition five_branch : list (list Z) * nat * Z := Eval vm_compute in default ([], O, 0) (tree_branch five (leaf 40)).

Lemma five_root_eq : tree_hash five = Some five_root.
Proof. vm_compute. reflexivity. Qed.

Lemma five_branch_eq : is_branch_in_tree (leaf 40) five_root (fst (fst five_branch)) 3 3 = true.
Proof. vm_compute. reflexivity. Qed.

Lemma five_branch_wf : Forall (fun h => length h = 32%nat) (fst (fst five_branch) ++ fst (fst five_branch)) /\ length (fst (fst five_branch)) = 3%nat.
Proof. split; [repeat constructor|reflexivity]. Qed.

Lemma merkle_branch_accepted_witness :
  exists idx branch depth path root,
    five !! idx = Some (leaf 40) /\ tree_hash five = Some root /\
    tree_branch five (leaf 40) = Some (branch, depth, path) /\ length branch = depth /\ (depth <= 28)%nat /\
    tree_path (length five) idx = Some path /\ is_branch_in_tree (leaf 40) root branch depth path = true.
Proof.
  apply (merkle_branch_accepted five (leaf 40)); [simpl; lia|]. apply list_elem_of_lookup_2 with 3%nat. reflexivity.
Defined.

Lemma merkle_root_binding_witness : five = five \/ collision_in (tree_inputs five) (tree_inputs five).
Proof.
  apply (merkle_root_binding five five five_root); [simpl; lia|reflexivity|repeat constructor|exact five_root_eq|exact five_root_eq].
Defined.

Lemma merkle_branch_binding_witness :
  leaf 40 = leaf 40 /\ fst (fst five_branch) = fst (fst five_branch) \/
  collision_in (branch_inputs (fst (fst five_branch)) 3 3 (leaf 40) 3) (branch_inputs (fst (fst five_branch)) 3 3 (leaf 40) 3).
Proof.
  apply (merkle_branch_binding (leaf 40) (leaf 40) five_root); [reflexivity..| | | | |].
  - exact (proj2 five_branch_wf).
  - exact (proj2 five_branch_wf).
  - exact (proj1 five_branch_wf).
  - exact five_branch_eq.
  - exact five_branch_eq.
Defined.
