(* ===== verification/TxHash.v ===== *)
(** * TxHash: transaction and block identifiers

    Models the hash functions of src/cryptonote_basic/cryptonote_format_utils.cpp
    and cryptonote_format_utils_basic.cpp: transaction hashes, full and pruned, the
    block hashing blob and the block id with the exception made for block 202612.
    The functions are the uncached ones; [None] is a [false] return, a throw, or a
    transaction that cannot be serialized. *)
From S2P Require Import Prelude Varint Archive Config TxFormat RctFormat Transaction TxParse Keccak TreeHash Hex.
#[local] Arguments put : simpl never.
#[local] Arguments get : simpl never.

(** ** Definitions *)

Definition get_blob_hash (blob : list Z) : list Z := cn_fast_hash blob.

(** [get_object_hash] of an object with serializer [c]. *)
Definition get_object_hash {A} (c : codec A) (o : A) : option (list Z) := b ← dump_binary c o; Some (get_blob_hash b).

Definition get_transaction_prefix_hash (p : transaction_prefix) : option (list Z) := get_object_hash c_transaction_prefix p.

(** The members [prefix_size] and [unprunable_size], 32-bit, that saving a
    transaction sets; the latter keeps its value for a version 2 transaction without inputs. *)
Definition serialized_sizes (unprunable_size : Z) (tx : transaction) : option (Z * Z) :=
  p ← put c_transaction_prefix (tx_prefix tx);
  let prefix_size := u32 (length p) in
  if tx_version tx =? 1 then Some (prefix_size, u32 (length p))
  else if bool_decide (length (tx_vin tx) = 0%nat) then Some (prefix_size, unprunable_size)
  else b ← put (serialize_rctsig_base (length (tx_vin tx)) (length (tx_vout tx))) (tx_rct tx);
       Some (prefix_size, u32 (length p + length b)).

Definition prunable_blob_hash (tx_version : Z) (prunable_tx_blob : list Z) : option (list Z) :=
  if tx_version =? 2 then Some (get_blob_hash prunable_tx_blob) else None.

Definition calculate_transaction_prunable_hash (t : transaction) (unprunable_size : Z) (blob : option (list Z)) : option (list Z) :=
  if tx_version t =? 1 then None
  else
    let from_object :=
      b ← put (serialize_rctsig_prunable (rct_type (tx_rct t)) (length (tx_vin t)) (length (tx_vout t)) (first_mixin (tx_vin t))) (tx_rct_p t);
      Some (get_blob_hash b) in
    match blob with
    | Some blob =>
        if negb (unprunable_size =? 0) then
          if negb (unprunable_size <=? length blob) then None
          else prunable_blob_hash (tx_version t) (drop (Z.to_nat unprunable_size) blob)
        else from_object
    | None => from_object
    end.

Definition get_pruned_transaction_hash (t : transaction) (pruned_data_hash : list Z) : option (list Z) :=
  if negb (1 <? tx_version t) then None
  else
    h0 ← get_transaction_prefix_hash t;
    b ← put (serialize_rctsig_base (length (tx_vin t)) (length (tx_vout t))) (tx_rct t);
    let h1 := get_blob_hash b in
    let h2 := if rct_type (tx_rct t) =? RCTTypeNull then null_hash else pruned_data_hash in
    Some (cn_fast_hash (h0 ++ h1 ++ h2)).

(** [unprunable_size] is the member's value before the call. *)
Definition calculate_transaction_hash (t : transaction) (unprunable_size : Z) : option (list Z) :=
  if tx_pruned t then None
  else if tx_version t =? 1 then get_object_hash c_transaction t
  else
    h0 ← get_transaction_prefix_hash t;
    blob ← tx_to_blob t;
    '(prefix_size, unprunable_size) ← serialized_sizes unprunable_size t;
    if negb ((prefix_size <=? unprunable_size) && (unprunable_size <=? length blob)) then None
    else
      let h1 := get_blob_hash (take (Z.to_nat (unprunable_size - prefix_size)) (drop (Z.to_nat prefix_size) blob)) in
      h2 ← (if rct_type (tx_rct t) =? RCTTypeNull then Some null_hash
            else calculate_transaction_prunable_hash t unprunable_size (Some blob));
      Some (cn_fast_hash (h0 ++ h1 ++ h2)).

(** *** Blocks *)

Definition get_tx_tree_hash (b : block) : option (list Z) :=
  h ← calculate_transaction_hash (miner_tx b) 0; tree_hash (h :: tx_hashes b).

Definition get_block_hashing_blob (b : block) : option (list Z) :=
  blob ← dump_binary c_block_header (b_header b);
  tree_root_hash ← get_tx_tree_hash b;
  Some (blob ++ tree_root_hash ++ get_varint_data (length (tx_hashes b) + 1)).

Definition correct_blob_hash_202612 : list Z := str_bytes "3a8a2b3a29b50fc86ff73dd087ea43c6f0d6b8f936c849194d5c84c737903966".
Definition existing_block_id_202612 : list Z := str_bytes "bbd604d2ba11ba27935e006ed39c9bfdd99b76bf4a50654bc1e1e61217962698".

(** The hashing blob is hashed as a string, its length in front. *)
Definition calculate_block_hash (b : block) (blob : option (list Z)) : option (list Z) :=
  blob ← match blob with Some blob => Some blob | None => block_to_blob b end;
  hb ← get_block_hashing_blob b;
  res ← get_object_hash do_serialize_string hb;
  let other := match tx_vin (miner_tx b) with [txin_gen height] => negb (height =? 202612) | _ => false end in
  if other then Some res
  else if bool_decide (pod_to_hex (get_blob_hash blob) = Some correct_blob_hash_202612) then hex_to_pod 32 existing_block_id_202612
  else if bool_decide (pod_to_hex res = Some existing_block_id_202612) then None
  else Some res.

(** ** Lemmas *)

(** Equal hashes of inputs of two runs: the inputs are equal, or they collide. *)
Lemma hash_inj xs ys x y : x ∈ xs -> y ∈ ys -> cn_fast_hash x = cn_fast_hash y -> x = y \/ collision_in xs ys.
Proof. intros Hx Hy E. destruct (decide (x = y)); [by left|]. right. by exists x, y. Qed.

Lemma lawful_inj {A} (ok : A -> Prop) m t (c : codec A) `{!Lawful ok m t c} a a' bs : ok a -> ok a' -> put c a = Some bs -> put c a' = Some bs -> a = a'.
Proof. intros Ha Ha' E E'. pose proof (law_get_put a bs [] Ha E). pose proof (law_get_put a' bs [] Ha' E'). congruence. Qed.

(** The three parts of a RingCT transaction blob. *)
Definition prefix_bytes (tx : transaction) : list Z := default [] (put c_transaction_prefix (tx_prefix tx)).
Definition base_bytes (tx : transaction) : list Z :=
  default [] (put (serialize_rctsig_base (length (tx_vin tx)) (length (tx_vout tx))) (tx_rct tx)).
Definition prunable_part (tx : transaction) : list Z :=
  if rct_type (tx_rct tx) =? RCTTypeNull then []
  else default [] (put (serialize_rctsig_prunable (rct_type (tx_rct tx)) (length (tx_vin tx)) (length (tx_vout tx)) (first_mixin (tx_vin tx))) (tx_rct_p tx)).

Lemma lawful_default {A} (ok : A -> Prop) m t (c : codec A) `{!Lawful ok m t c} a : ok a -> put c a = Some (default [] (put c a)).
Proof. intros Ha. destruct (law_put a Ha) as (bs & -> & _). done. Qed.

Lemma rct_parts tx :
  tx_ok tx -> tx_version tx <> 1 -> tx_vin tx <> [] ->
  put c_transaction_prefix (tx_prefix tx) = Some (prefix_bytes tx) /\
  put (serialize_rctsig_base (length (tx_vin tx)) (length (tx_vout tx))) (tx_rct tx) = Some (base_bytes tx) /\
  (rct_type (tx_rct tx) <> RCTTypeNull ->
   put (serialize_rctsig_prunable (rct_type (tx_rct tx)) (length (tx_vin tx)) (length (tx_vout tx)) (first_mixin (tx_vin tx))) (tx_rct_p tx) = Some (prunable_part tx)) /\
  tx_to_blob tx = Some (prefix_bytes tx ++ base_bytes tx ++ prunable_part tx).
Proof.
  intros (Hp & Hpr & Hr) Hv Hne. rewrite (proj2 (Z.eqb_neq _ _)) in Hr by done. destruct Hr as [Hs Hr].
  rewrite bool_decide_false in Hr by (by intros ?%length_zero_iff_nil). destruct Hr as [Hb Hr].
  pose proof (lawful_default _ _ _ c_transaction_prefix _ Hp) as Ep.
  pose proof (lawful_default _ _ _ (serialize_rctsig_base (length (tx_vin tx)) (length (tx_vout tx))) _ Hb) as Eb.
  assert (Er : rct_type (tx_rct tx) <> RCTTypeNull ->
    put (serialize_rctsig_prunable (rct_type (tx_rct tx)) (length (tx_vin tx)) (length (tx_vout tx)) (first_mixin (tx_vin tx))) (tx_rct_p tx) = Some (prunable_part tx)).
  { intros Hn. unfold prunable_part. rewrite (proj2 (Z.eqb_neq _ _)) in * by done. exact (lawful_default _ _ _ _ _ Hr). }
  split_and!; [done..|]. unfold tx_to_blob, dump_binary. unfold put at 1. cbn [c_transaction]. rewrite Hpr. unfold tx_fields.
  apply put_dep; [done|]. unfold signature_fields. rewrite (proj2 (Z.eqb_neq _ _)) by done. rewrite bool_decide_false by (by intros ?%length_zero_iff_nil).
  unfold put at 1. cbn [c_map snd]. apply put_dep; [done|]. cbn [negb andb]. unfold prunable_part in *.
  destruct (Z.eqb_spec (rct_type (tx_rct tx)) RCTTypeNull); cbn [negb]; [done|by apply Er].
Qed.

(** The hash of a RingCT transaction, from its parts. *)
Definition part_hashes (tx : transaction) : list Z :=
  cn_fast_hash (prefix_bytes tx) ++ cn_fast_hash (base_bytes tx) ++
  (if rct_type (tx_rct tx) =? RCTTypeNull then null_hash else cn_fast_hash (prunable_part tx)).

Lemma hash_of_parts tx u :
  tx_ok tx -> tx_version tx <> 1 -> tx_vin tx <> [] -> length (prefix_bytes tx ++ base_bytes tx ++ prunable_part tx) < 2 ^ 32 ->
  calculate_transaction_hash tx u = Some (cn_fast_hash (part_hashes tx)).
Proof.
  intros Hok Hv Hne Hsz. destruct (rct_parts tx Hok Hv Hne) as (Ep & Eb & Er & Eblob). rewrite !length_app in Hsz.
  pose proof Hok as (Hp & Hpr & _). assert (Hv2 : tx_version tx = 2) by (destruct Hp as (? & _); lia).
  unfold calculate_transaction_hash. rewrite Hpr, (proj2 (Z.eqb_neq (tx_version tx) 1) Hv). unfold get_transaction_prefix_hash, get_object_hash, dump_binary.
  rewrite Ep. cbn [mbind option_bind]. rewrite Eblob. cbn [mbind option_bind]. unfold serialized_sizes. rewrite Ep. cbn [mbind option_bind].
  rewrite (proj2 (Z.eqb_neq (tx_version tx) 1) Hv). rewrite bool_decide_false by (by intros ?%length_zero_iff_nil). rewrite Eb. cbn [mbind option_bind].
  rewrite !wrap_small by (unfold is_uint; lia). rewrite !length_app.
  btrue (length (prefix_bytes tx) <=? length (prefix_bytes tx) + length (base_bytes tx)).
  btrue (length (prefix_bytes tx) + length (base_bytes tx) <=? Z.of_nat (length (prefix_bytes tx) + (length (base_bytes tx) + length (prunable_part tx)))). cbn [negb andb].
  rewrite Nat2Z.id, drop_app_length. replace (Z.to_nat (length (prefix_bytes tx) + length (base_bytes tx) - length (prefix_bytes tx))) with (length (base_bytes tx)) by lia.
  rewrite take_app_length. unfold part_hashes. destruct (Z.eqb_spec (rct_type (tx_rct tx)) RCTTypeNull); [done|].
  unfold calculate_transaction_prunable_hash, prunable_blob_hash. rewrite (proj2 (Z.eqb_neq (tx_version tx) 1)) by done.
  assert (0 < length (base_bytes tx)).
  { destruct Hok as (_ & _ & Hr). rewrite (proj2 (Z.eqb_neq (tx_version tx) 1) Hv) in Hr. rewrite bool_decide_false in Hr by (by intros ?%length_zero_iff_nil).
    destruct (law_put (c := serialize_rctsig_base (length (tx_vin tx)) (length (tx_vout tx))) _ (proj1 (proj2 Hr))) as (bs & Ebs & _ & Hl).
    rewrite Eb in Ebs. apply (inj Some) in Ebs. rewrite Ebs. lia. }
  bfalse (length (prefix_bytes tx) + length (base_bytes tx) =? 0). cbn [negb].
  rewrite !length_app. btrue (length (prefix_bytes tx) + length (base_bytes tx) <=? Z.of_nat (length (prefix_bytes tx) + (length (base_bytes tx) + length (prunable_part tx)))). cbn [negb].
  rewrite Hv2. cbn [Z.eqb]. cbn [mbind option_bind]. rewrite app_assoc, drop_app_length' by (rewrite length_app; lia). done.
Qed.

(** The inputs hashed on the way to a transaction hash. *)
Definition tx_hash_inputs (tx : transaction) : list (list Z) :=
  if tx_version tx =? 1 then [default [] (tx_to_blob tx)]
  else [prefix_bytes tx; base_bytes tx] ++ (if rct_type (tx_rct tx) =? RCTTypeNull then [] else [prunable_part tx]) ++ [part_hashes tx].

(** A loaded transaction; RingCT ones have inputs and sizes that fit their 32-bit members. *)
Definition hashable (tx : transaction) : Prop :=
  tx_ok tx /\ (tx_version tx <> 1 -> tx_vin tx <> []) /\ length (default [] (tx_to_blob tx)) < 2 ^ 32.

Lemma hashable_parts tx u :
  hashable tx -> tx_version tx <> 1 ->
  calculate_transaction_hash tx u = Some (cn_fast_hash (part_hashes tx)).
Proof.
  intros (Hok & Hne & Hsz) Hv. specialize (Hne Hv). apply hash_of_parts; [done..|].
  destruct (rct_parts tx Hok Hv Hne) as (_ & _ & _ & Eb). by rewrite Eb in Hsz.
Qed.

Lemma tx_ok_rct tx : tx_ok tx -> tx_version tx <> 1 -> tx_vin tx <> [] ->
  tx_signatures tx = [] /\ rct_ok tx (tx_rct tx) (tx_rct_p tx).
Proof.
  intros (_ & _ & H) Hv Hne. rewrite (proj2 (Z.eqb_neq (tx_version tx) 1) Hv) in H. by rewrite bool_decide_false in H by (by intros ?%length_zero_iff_nil).
Qed.

Lemma tx_hash_inj_v2 tx tx' :
  hashable tx -> hashable tx' -> tx_version tx <> 1 -> tx_version tx' <> 1 -> cn_fast_hash (part_hashes tx) = cn_fast_hash (part_hashes tx') ->
  tx = tx' \/ collision_in (tx_hash_inputs tx) (tx_hash_inputs tx').
Proof.
  intros (Hok & Hne & _) (Hok' & Hne' & _) Hv Hv' E. specialize (Hne Hv). specialize (Hne' Hv').
  destruct (rct_parts tx Hok Hv Hne) as (Ep & Eb & Er & _). destruct (rct_parts tx' Hok' Hv' Hne') as (Ep' & Eb' & Er' & _).
  destruct (tx_ok_rct tx Hok Hv Hne) as (Hs & Hb & Hr). destruct (tx_ok_rct tx' Hok' Hv' Hne') as (Hs' & Hb' & Hr').
  unfold tx_hash_inputs. rewrite (proj2 (Z.eqb_neq (tx_version tx) 1) Hv), (proj2 (Z.eqb_neq (tx_version tx') 1) Hv').
  set (ins := [prefix_bytes tx; base_bytes tx] ++ _). set (ins' := [prefix_bytes tx'; base_bytes tx'] ++ _).
  destruct (hash_inj ins ins' (part_hashes tx) (part_hashes tx')) as [E0|]; [apply elem_of_app; right; apply elem_of_app; right; by apply list_elem_of_singleton..|done| |by right].
  unfold part_hashes in E0. apply app_inj_1 in E0 as [E1 E0]; [|by rewrite !length_cn_fast_hash]. apply app_inj_1 in E0 as [E2 E3]; [|by rewrite !length_cn_fast_hash].
  destruct (hash_inj ins ins' _ _ ltac:(by left) ltac:(by left) E1) as [Epb|]; [|by right].
  destruct (hash_inj ins ins' (base_bytes tx) (base_bytes tx') ltac:(right; by left) ltac:(right; by left) E2) as [Ebb|]; [|by right].
  rewrite <- Epb in Ep'. pose proof (lawful_inj _ _ _ c_transaction_prefix _ _ _ (proj1 Hok) (proj1 Hok') Ep Ep') as Epp.
  rewrite <- Ebb, <- Epp in Eb'. unfold rct_ok in *. rewrite <- Epp in *.
  pose proof (lawful_inj _ _ _ (serialize_rctsig_base (length (tx_vin tx)) (length (tx_vout tx))) _ _ _ Hb Hb' Eb Eb') as Ebase. rewrite <- Ebase in *.
  assert (Heq : tx_rct_p tx = tx_rct_p tx' -> tx = tx').
  { intros Erp. destruct tx as [p s b r pr], tx' as [p' s' b' r' pr']. destruct Hok as (_ & Hpr & _), Hok' as (_ & Hpr' & _). cbn in *. congruence. }
  destruct (Z.eqb_spec (rct_type (tx_rct tx)) RCTTypeNull) as [Et|Hnt]; [left; apply Heq; congruence|].
  destruct (hash_inj ins ins' (prunable_part tx) (prunable_part tx')) as [Err|]; [right; right; by left| |done| |by right].
  { right; right. rewrite <- Ebase. rewrite (proj2 (Z.eqb_neq _ _)) by done. by left. }
  left. apply Heq. specialize (Er Hnt). specialize (Er' Hnt). rewrite <- Err in Er'.
  exact (lawful_inj _ _ _ _ _ _ _ Hr Hr' Er Er').
Qed.

Lemma tx_hash_inj tx tx' u u' h :
  hashable tx -> hashable tx' -> tx_version tx = tx_version tx' ->
  calculate_transaction_hash tx u = Some h -> calculate_transaction_hash tx' u' = Some h ->
  tx = tx' \/ collision_in (tx_hash_inputs tx) (tx_hash_inputs tx').
Proof.
  intros Hh Hh' Hv E E'. destruct (Z.eq_dec (tx_version tx) 1) as [V|V].
  - unfold calculate_transaction_hash in E, E'. rewrite <- Hv in E'. destruct Hh as (Hok & _), Hh' as (Hok' & _).
    rewrite (proj1 (proj2 Hok)), V in E. rewrite (proj1 (proj2 Hok')), V in E'. cbn [Z.eqb] in E, E'.
    unfold get_object_hash, dump_binary in *. destruct (law_put (c := c_transaction) tx Hok) as (b & Eb & _). destruct (law_put (c := c_transaction) tx' Hok') as (b' & Eb' & _).
    rewrite Eb in E. rewrite Eb' in E'. cbn in E, E'. simplify_eq. unfold tx_hash_inputs. rewrite <- Hv, V. cbn [Z.eqb]. unfold tx_to_blob, dump_binary. rewrite Eb, Eb'. cbn [default]. unfold id.
    destruct (hash_inj [b] [b'] b b') as [->|]; [by apply list_elem_of_singleton..|done| |by right]. left. exact (lawful_inj _ _ _ c_transaction _ _ _ Hok Hok' Eb Eb').
  - assert (V' : tx_version tx' <> 1) by congruence. rewrite (hashable_parts tx u Hh V) in E. rewrite (hashable_parts tx' u' Hh' V') in E'. apply tx_hash_inj_v2; [done..|congruence].
Qed.

(** *** Blocks *)

Lemma length_tree_hash l r : Forall (fun h => length h = 32%nat) l -> tree_hash l = Some r -> length r = 32%nat.
Proof.
  intros HF E. unfold tree_hash in E. destruct l as [|h1 [|h2 [|h3 l]]]; [done| | |].
  - simplify_eq. by apply Forall_cons in HF as [? _].
  - simplify_eq. apply length_hash_two.
  - destruct (tree_hash_cnt _); [|done]. cbn [mbind option_bind] in E. destruct (negb _); simplify_eq. apply length_hash_two.
Qed.

Lemma length_tx_hash tx u h : calculate_transaction_hash tx u = Some h -> length h = 32%nat.
Proof.
  unfold calculate_transaction_hash, get_object_hash. intros E. destruct (tx_pruned tx); [done|]. destruct (_ =? _).
  { destruct (dump_binary c_transaction tx); [|done]. cbn in E. simplify_eq. apply length_cn_fast_hash. }
  repeat match type of E with
  | mbind _ ?m = Some _ => destruct m as [?|]; [cbn [mbind option_bind] in E|discriminate E]
  | (let '(_, _) := ?p in _) = Some _ => destruct p
  | (if ?b then _ else _) = Some _ => destruct b; try discriminate E
  end.
  simplify_eq. apply length_cn_fast_hash.
Qed.

(** A block whose id is the hash of its hashing blob, as loaded from a blob. *)
Definition block_hashable (b : block) : Prop :=
  block_ok b /\ hashable (miner_tx b) /\ length (tx_hashes b) < 2 ^ 28 /\
  match tx_vin (miner_tx b) with [txin_gen height] => height <> 202612 | _ => False end.

Definition block_hash_inputs (b : block) : list (list Z) :=
  let hb := default [] (get_block_hashing_blob b) in
  let ids := default [] (calculate_transaction_hash (miner_tx b) 0) :: tx_hashes b in
  [write_varint (length hb) ++ hb] ++ tree_inputs ids ++ tx_hash_inputs (miner_tx b).

Lemma block_hash_parts b blob id :
  block_hashable b -> calculate_block_hash b blob = Some id ->
  exists hdr h root, put c_block_header (b_header b) = Some hdr /\ calculate_transaction_hash (miner_tx b) 0 = Some h /\
    tree_hash (h :: tx_hashes b) = Some root /\ length root = 32%nat /\
    let hb := hdr ++ root ++ write_varint (length (tx_hashes b) + 1) in
    get_block_hashing_blob b = Some hb /\ id = cn_fast_hash (write_varint (length hb) ++ hb).
Proof.
  intros ((Hh & Hm & Ht & _) & _ & _ & Hg) E. unfold calculate_block_hash in E. destruct (match blob with Some _ => _ | None => _ end); [|done]. cbn [mbind option_bind] in E.
  destruct (get_block_hashing_blob b) as [hb|] eqn:Ehb; [|done]. cbn [mbind option_bind] in E.
  unfold get_block_hashing_blob in Ehb. destruct (dump_binary c_block_header b) as [hdr|] eqn:E1; [|done]. cbn [mbind option_bind] in Ehb.
  unfold get_tx_tree_hash in Ehb. destruct (calculate_transaction_hash (miner_tx b) 0) as [h|] eqn:E2; [|done]. cbn [mbind option_bind] in Ehb.
  destruct (tree_hash (h :: tx_hashes b)) as [root|] eqn:E3; [|done]. cbn [mbind option_bind] in Ehb. apply (inj Some) in Ehb. subst hb.
  exists hdr, h, root. split_and!; try done.
  - eapply length_tree_hash; [|exact E3]. constructor; [by eapply length_tx_hash|]. eapply Forall_impl; [exact Ht|]. by intros x [_ ?].
  - cbv zeta. split; [done|]. destruct (tx_vin (miner_tx b)) as [|[h'| | |] [|]]; try done. rewrite (proj2 (Z.eqb_neq h' 202612) Hg) in E. cbn [negb] in E.
    set (hb := hdr ++ root ++ _) in *. assert (Es : Some (cn_fast_hash (write_varint (length hb) ++ hb)) = Some id) by exact E. congruence.
Qed.

Lemma block_hash_inj b b' blob blob' id :
  block_hashable b -> block_hashable b' -> tx_version (miner_tx b) = tx_version (miner_tx b') ->
  calculate_block_hash b blob = Some id -> calculate_block_hash b' blob' = Some id ->
  b = b' \/ collision_in (block_hash_inputs b) (block_hash_inputs b').
Proof.
  intros Hb Hb' Hv E E'.
  destruct (block_hash_parts b blob id Hb E) as (hdr & h & root & E1 & E2 & E3 & Hroot & Ehb & Eid).
  destruct (block_hash_parts b' blob' id Hb' E') as (hdr' & h' & root' & E1' & E2' & E3' & Hroot' & Ehb' & Eid').
  destruct Hb as ((Hh & Hm & Ht & _) & Hmh & Hlt & _). destruct Hb' as ((Hh' & Hm' & Ht' & _) & Hmh' & Hlt' & _).
  unfold block_hash_inputs. rewrite Ehb, Ehb', E2, E2'. cbn [default]. unfold Datatypes.id. cbv zeta.
  set (hb := hdr ++ root ++ _) in *. set (hb' := hdr' ++ root' ++ _) in *.
  destruct (hash_inj [write_varint (length hb) ++ hb] [write_varint (length hb') ++ hb'] (write_varint (length hb) ++ hb) (write_varint (length hb') ++ hb')) as [Es|];
    [by apply list_elem_of_singleton..|congruence| |right; by apply collision_in_app_l].
  apply write_varint_inj in Es as [_ Es]; [|lia..]. unfold hb, hb' in Es.
  pose proof (law_get_put _ hdr (root ++ write_varint (length (tx_hashes b) + 1)) Hh E1) as G.
  pose proof (law_get_put _ hdr' (root' ++ write_varint (length (tx_hashes b') + 1)) Hh' E1') as G'.
  rewrite Es in G. rewrite G in G'. injection G' as Ehd Er. apply app_inj_1 in Er as [Er Ec]; [|congruence].
  rewrite <- (app_nil_r (write_varint (_ + 1))), <- (app_nil_r (write_varint (length (tx_hashes b') + 1))) in Ec.
  apply write_varint_inj in Ec as [Ec _]; [|lia..]. subst root'.
  assert (H32 : forall t, Forall key_ok t -> Forall (fun h => length h = 32%nat) t) by (intros t ?; eapply Forall_impl; [done|]; by intros x [_ ?]).
  destruct (tree_hash_binding (h :: tx_hashes b) (h' :: tx_hashes b') root) as [Ei|]; [cbn; lia..| |done|done| |right; by apply collision_in_app_r, collision_in_app_l].
  { apply Forall_app; split; constructor; [by eapply length_tx_hash|by apply H32|by eapply length_tx_hash|by apply H32]. }
  injection Ei as Eh Et. subst h'.
  destruct (tx_hash_inj _ _ _ _ _ Hmh Hmh' Hv E2 E2') as [Em|]; [left|right; by apply collision_in_app_r, collision_in_app_r].
  destruct b, b'; cbn in *; congruence.
Qed.

(** *** The hashes exist *)

Lemma tree_hash_total l : l <> [] -> length l <= 2 ^ 28 -> exists r, tree_hash l = Some r.
Proof.
  intros Hne Hl. destruct l as [|h1 [|h2 [|h3 l]]]; [done|by eexists..|].
  destruct (tree_hash_cnt_spec (length (h1 :: h2 :: h3 :: l)) ltac:(cbn; lia) Hl) as (k & Hk & Ec & Hb).
  eexists. by apply tree_hash_troot; [cbn; lia|exact Hk|..].
Qed.

Lemma tx_hash_total tx u : hashable tx -> exists h, calculate_transaction_hash tx u = Some h.
Proof.
  intros Hh. destruct (Z.eq_dec (tx_version tx) 1) as [V|V]; [|eexists; by apply hashable_parts].
  destruct Hh as (Hok & _). unfold calculate_transaction_hash. rewrite (proj1 (proj2 Hok)), V. cbn [Z.eqb]. unfold get_object_hash, dump_binary.
  destruct (law_put (c := c_transaction) tx Hok) as (b & -> & _). by eexists.
Qed.

Lemma block_hash_total b : block_hashable b -> exists id, calculate_block_hash b None = Some id.
Proof.
  intros (Hok & Hmh & Hlt & Hg). unfold calculate_block_hash, block_to_blob, dump_binary. destruct (law_put (c := c_block) b Hok) as (blob & -> & _). cbn [mbind option_bind].
  destruct Hok as (Hh & _ & _ & _). unfold get_block_hashing_blob, get_tx_tree_hash, dump_binary. destruct (law_put (c := c_block_header) _ Hh) as (hdr & -> & _). cbn [mbind option_bind].
  destruct (tx_hash_total (miner_tx b) 0 Hmh) as (h & ->). cbn [mbind option_bind].
  destruct (tree_hash_total (h :: tx_hashes b) ltac:(done) ltac:(cbn [length]; lia)) as (r & ->). cbn [mbind option_bind].
  destruct (tx_vin (miner_tx b)) as [|[h'| | |] [|]]; try done. rewrite (proj2 (Z.eqb_neq h' 202612) Hg). cbn [negb]. by eexists.
Qed.

(** ** Properties *)



(** a pruned node computes the same transaction hash as a full one: pruning the
    blob of a RingCT transaction, loading what is left and combining it with the
    hash of the prunable part gives the hash of the full transaction. *)
Theorem pruned_hash_agrees blob tx u :
  bytes blob -> parse_binary c_transaction blob = Some tx -> tx_version tx <> 1 -> tx_vin tx <> [] ->
  Forall keyed (tx_vout tx) -> length (tx_extra tx) <= CRYPTONOTE_MAX_TX_SIZE -> length blob < 2 ^ 32 ->
  exists pruned ptx ph h, prune_transaction_blob blob = Some pruned /\ parse_binary serialize_base pruned = Some ptx /\
    (rct_type (tx_rct tx) <> RCTTypeNull -> calculate_transaction_prunable_hash tx 0 None = Some ph) /\
    calculate_transaction_hash tx u = Some h /\ get_pruned_transaction_hash ptx ph = Some h.
Proof.
  intros Hb E V Hne Hk He Hl. destruct (prune_parse blob tx Hb E ltac:(done) Hk He) as (pruned & E1 & E2).
  destruct (parse_binary_inv tx_ok 5 _ c_transaction blob tx Hb E) as [Hok Hd].
  assert (Hdump : tx_to_blob tx = Some blob).
  { apply Hd. right. unfold tail_bytes. rewrite (proj2 (Z.eqb_neq (tx_version tx) 1) V). rewrite bool_decide_false by (by intros ?%length_zero_iff_nil). lia. }
  assert (Hh : hashable tx) by (split_and!; [done..|by rewrite Hdump]).
  destruct (rct_parts tx Hok V Hne) as (Ep & Eb & Er & _).
  exists pruned, (base_of tx), (cn_fast_hash (prunable_part tx)), (cn_fast_hash (part_hashes tx)). split_and!; [done..| |by apply hashable_parts|].
  - intros Hn. unfold calculate_transaction_prunable_hash. rewrite (proj2 (Z.eqb_neq (tx_version tx) 1) V). by rewrite (Er Hn).
  - unfold get_pruned_transaction_hash, get_transaction_prefix_hash, get_object_hash, dump_binary. cbn [base_of tx_prefix tx_rct].
    assert (1 < tx_version tx) by (destruct Hok as ((? & _) & _); lia). btrue (1 <? tx_version tx). cbn [negb]. rewrite Ep. cbn [mbind option_bind]. by rewrite Eb.
Qed.

(** *** Instances *)

Lemma sample_hashable : hashable sample_tx.
Proof. split; [exact (proj1 (proj2 sample_block_ok))|]. split; [done|by vm_compute]. Qed.

Lemma sample_block_hashable : block_hashable sample_block.
Proof. split; [exact sample_block_ok|]. split; [exact sample_hashable|]. split; by vm_compute. Qed.

Definition sample_tx_hash : list Z := default [] (calculate_transaction_hash sample_tx 0).
Definition sample_id : list Z := default [] (calculate_block_hash sample_block None).

Lemma sample_tx_hash_eq : calculate_transaction_hash sample_tx 0 = Some sample_tx_hash.
Proof. unfold sample_tx_hash. by destruct (tx_hash_total sample_tx 0 sample_hashable) as (h & ->). Qed.

Lemma sample_id_eq : calculate_block_hash sample_block None = Some sample_id.
Proof. unfold sample_id. by destruct (block_hash_total sample_block sample_block_hashable) as (h & ->). Qed.



Lemma pruned_hash_hyps :
  bytes sample_v2_blob /\ parse_binary c_transaction sample_v2_blob = Some sample_v2 /\ tx_version sample_v2 <> 1 /\ tx_vin sample_v2 <> [] /\
  Forall keyed (tx_vout sample_v2) /\ length (tx_extra sample_v2) <= CRYPTONOTE_MAX_TX_SIZE /\ length sample_v2_blob < 2 ^ 32.
Proof. split_and!; [exact sample_v2_bytes|exact sample_v2_parses|done|done|by repeat constructor|by vm_compute|by vm_compute]. Qed.

Lemma pruned_hash_agrees_witness :
  exists pruned ptx ph h, prune_transaction_blob sample_v2_blob = Some pruned /\ parse_binary serialize_base pruned = Some ptx /\
    (rct_type (tx_rct sample_v2) <> RCTTypeNull -> calculate_transaction_prunable_hash sample_v2 0 None = Some ph) /\
    calculate_transaction_hash sample_v2 0 = Some h /\ get_pruned_transaction_hash ptx ph = Some h.
Proof.
  destruct pruned_hash_hyps as (H1 & H2 & H3 & H4 & H5 & H6 & H7).
  exact (pruned_hash_agrees sample_v2_blob sample_v2 0 H1 H2 H3 H4 H5 H6 H7).
Defined.
