(* ===== verification/TxWeight.v ===== *)
(** * TxWeight: transaction weights

    Models [get_transaction_weight], [get_transaction_weight_clawback] and
    [get_pruned_transaction_weight] of
    src/cryptonote_basic/cryptonote_format_utils.cpp: a transaction weighs its blob
    size plus a share of the space large aggregated range proofs save. *)
From S2P Require Import Prelude Varint Archive Config TxFormat RctFormat Transaction TxParse TxHash.
#[local] Open Scope mach_scope.
#[local] Arguments put : simpl never.
#[local] Arguments get : simpl never.

(** ** Definitions *)

(** [while ((1u << nlr) < n) ++nlr]; 32 rounds exhaust [unsigned int]. *)
Fixpoint padding_loop (fuel : nat) (nlr n : Z) : Z :=
  match fuel with
  | O => nlr
  | S fuel' => if Z.shiftl 1 nlr <? n then padding_loop fuel' (nlr + 1) n else nlr
  end.
Definition padding_log (n : Z) : Z := padding_loop 32 0 n.

Definition proof_keys (plus : bool) : Z := if plus then 6 else 9.

(** [None] is a throw. *)
Definition get_transaction_weight_clawback (tx : transaction) (n_padded_outputs : Z) : option Z :=
  let plus := rct_type (tx_rct tx) =? RCTTypeBulletproofPlus in
  let bp_base := 32 * (proof_keys plus + 7 * 2) / 2 in
  let n_outputs := Z.of_nat (length (tx_vout tx)) in
  if n_padded_outputs <=? 2 then Some 0
  else
    let nlr := padding_log n_padded_outputs + 6 in
    let bp_size := 32 * (proof_keys plus + 2 * nlr) in
    if negb (n_outputs <=? BULLETPROOF_MAX_OUTPUTS) then None
    else if negb (bp_size <=? bp_base ⊠ n_padded_outputs) then None
    else Some ((bp_base ⊠ n_padded_outputs ⊟ bp_size) ⊠ 4 / 5).

Definition get_transaction_weight (tx : transaction) (blob_size : Z) : option Z :=
  if tx_pruned tx then Some UINT64_MAX
  else if tx_version tx <? 2 then Some blob_size
  else
    let type := rct_type (tx_rct tx) in
    if negb (is_rct_bulletproof type) && negb (is_rct_bulletproof_plus type) then Some blob_size
    else
      let n_padded_outputs :=
        if is_rct_bulletproof_plus type then n_bulletproof_plus_max_amounts (p_bulletproofs_plus (tx_rct_p tx))
        else n_bulletproof_max_amounts (p_bulletproofs (tx_rct_p tx)) in
      bp_clawback ← get_transaction_weight_clawback tx n_padded_outputs;
      if negb (bp_clawback <=? UINT64_MAX - blob_size) then None else Some (blob_size ⊞ bp_clawback).

(** The weight of a transaction of which only the unprunable part is at hand. *)
Definition get_pruned_transaction_weight (tx : transaction) : option Z :=
  let type := rct_type (tx_rct tx) in
  if negb (tx_pruned tx) then Some UINT64_MAX
  else if negb (2 <=? tx_version tx) then Some UINT64_MAX
  else if negb ((type =? RCTTypeBulletproof2) || (type =? RCTTypeCLSAG) || (type =? RCTTypeBulletproofPlus)) then Some UINT64_MAX
  else
    match tx_vin tx with
    | txin_to_key _ key_offsets _ :: _ =>
        blob ← dump_binary c_transaction tx;
        let weight := length blob ⊞ 1 in
        let nrl := padding_log (length (tx_vout tx)) in
        let n_padded_outputs := Z.shiftl 1 nrl in
        let weight := weight ⊞ (32 * (proof_keys (is_rct_bulletproof_plus type) + 2 * (nrl + 6)) + 2) in
        let ring_size := Z.of_nat (length key_offsets) in
        let inputs := Z.of_nat (length (tx_vin tx)) in
        let weight := weight ⊞ (if is_rct_clsag type then inputs * (ring_size + 2) * 32 else inputs * (ring_size * (1 + 1) * 32 + 32)) in
        let weight := weight ⊞ 32 * inputs in
        bp_clawback ← get_transaction_weight_clawback tx n_padded_outputs;
        if negb (bp_clawback <=? UINT64_MAX - weight) then None else Some (weight ⊞ bp_clawback)
    | _ => Some UINT64_MAX
    end.

(** The blob size is the cached one, when valid. *)
Definition get_transaction_weight_of (tx : transaction) (cached_blob_size : option Z) : option Z :=
  blob_size ← match cached_blob_size with Some s => Some s | None => Z.of_nat ∘ length <$> dump_binary c_transaction tx end;
  get_transaction_weight tx blob_size.

(** ** Lemmas *)

Lemma fixed_put {A} (ok : A -> Prop) m t (c : codec A) `{!Lawful ok m t c} k a bs : fixed k c -> ok a -> put c a = Some bs -> length bs = k.
Proof.
  intros F Ha E. pose proof (law_get_put a bs [] Ha E) as G. rewrite app_nil_r in G. apply F in G as [H1 H2].
  apply (f_equal length) in H2. rewrite length_drop in H2. cbn in H2. lia.
Qed.

Lemma fixed_clsag mixin : fixed ((mixin + 1) * 32 + (32 + 32)) (c_clsag mixin).
Proof. apply fixed_map, fixed_seq; [apply fixed_vec, fixed_blob|apply (fixed_seq 32 32); apply fixed_blob]. Qed.

Lemma fixed_mg type inputs mixin : fixed ((mixin + 1) * (((if mg_simple type then 1 else inputs) + 1) * 32) + 32) (c_mgSig type inputs mixin).
Proof. apply fixed_map, fixed_seq; [apply fixed_vec, fixed_vec, fixed_blob|apply fixed_blob]. Qed.

Lemma put_dep_inv {A B} (c1 : codec A) (c2 : A -> codec B) a b bs :
  put (c_dep c1 c2) (a, b) = Some bs -> exists u1 u2, put c1 a = Some u1 /\ put (c2 a) b = Some u2 /\ bs = u1 ++ u2.
Proof.
  unfold put at 1. cbn [c_dep]. intros E. destruct (put c1 a) as [u1|] eqn:E1; [|done]. cbn [mbind option_bind] in E. destruct (put (c2 a) b) as [u2|] eqn:E2; [|done].
  cbn in E. simplify_eq. by exists u1, u2.
Qed.

(** Count bytes below 128 take one byte. *)
Lemma length_small_varint n : 0 <= n < 128 -> length (write_varint n) = 1%nat.
Proof. intros H. rewrite write_varint_unfold by lia. by bfalse (128 <=? n). Qed.

Lemma length_keyV l bs : keyV_ok l -> length l < 128 -> put c_keyV l = Some bs -> Z.of_nat (length bs) = 1 + 32 * length l.
Proof.
  intros [Hl Hu] Hs E. unfold c_keyV in E. rewrite put_c_list in E by done. destruct (put_all c_key l) as [b|] eqn:Eb; [|done]. cbn in E. simplify_eq.
  rewrite length_app, length_small_varint by lia. assert (Hb : length b = (length l * 32)%nat); [|lia].
  pose proof (get_n_put key_ok 32 (fun _ => True) c_key l b [] Hl Eb) as G. rewrite app_nil_r in G.
  apply (get_n_fixed 32) in G as [H1 H2]; [|apply fixed_blob]. apply (f_equal length) in H2. rewrite length_drop in H2. cbn in H2. lia.
Qed.

Lemma put_key_length k bs : key_ok k -> put c_key k = Some bs -> Z.of_nat (length bs) = 32.
Proof. intros Hk E. by rewrite (fixed_put key_ok 32 (fun _ => True) c_key 32 k bs (fixed_blob 32) Hk E). Qed.

(** Take a saved structure apart and measure its pieces. *)
Ltac measure :=
  repeat match goal with
  | H : put (c_dep _ _) (_, _) = Some _ |- _ => apply put_dep_inv in H as (? & ? & ? & H & ->); cbn [fst snd] in *
  | H : put c_key ?k = Some ?b |- _ => apply put_key_length in H; [|done]
  | H : put c_keyV ?k = Some ?b |- _ => apply length_keyV in H; [|done|lia]
  end; rewrite ?length_app; lia.

Lemma lr_ok_length l r : lr_ok l r = true -> Z.of_nat (length l) = length r.
Proof. unfold lr_ok. destruct (bool_decide _); [done|]. cbn [orb]. rewrite negb_involutive. intros ?%Nat.eqb_eq. lia. Qed.

Lemma length_bpp p bs : bpp_ok p -> length (bpp_L p) < 128 -> put c_bulletproof_plus p = Some bs -> Z.of_nat (length bs) = 32 * (6 + 2 * length (bpp_L p)) + 2.
Proof.
  intros (_ & HF & HL & HR & Hlr) Hs E. pose proof (lr_ok_length _ _ Hlr).
  unfold put in E. cbn [c_bulletproof_plus c_check] in E. rewrite Hlr in E. unfold put in E. cbn [c_map] in E.
  rewrite !Forall_cons in HF. destruct HF as (? & ? & ? & ? & ? & ? & _).
  measure.
Qed.

Lemma length_bp p bs : bp_ok p -> length (bp_L p) < 128 -> put c_bulletproof p = Some bs -> Z.of_nat (length bs) = 32 * (9 + 2 * length (bp_L p)) + 2.
Proof.
  intros (_ & HF & HL & HR & Hlr) Hs E. pose proof (lr_ok_length _ _ Hlr).
  unfold put in E. cbn [c_bulletproof c_check] in E. rewrite Hlr in E. unfold put in E. cbn [c_map] in E.
  rewrite !Forall_cons in HF. destruct HF as (? & ? & ? & ? & ? & ? & ? & ? & ? & _).
  measure.
Qed.

(** One proof behind a one-byte count. *)
Lemma put_one_proof {A} (c : codec A) outputs min p bs :
  put (c_proofs (serialize_varint 32) outputs min c) [p] = Some bs -> exists b, put c p = Some b /\ Z.of_nat (length bs) = 1 + length b.
Proof.
  unfold put at 1. cbn [c_proofs length]. intros E. change (u32 1%nat) with 1 in E.
  change (put (serialize_varint 32) 1) with (Some (write_varint 1)) in E. cbn [mbind option_bind] in E. destruct (_ <? 1); [done|].
  change (Z.to_nat 1) with 1%nat in E. cbn [take put_all] in E. destruct (put c p) as [b|] eqn:Eb; [|done]. cbn in E. simplify_eq.
  exists b. split; [done|]. rewrite !length_app, length_small_varint by lia. cbn. lia.
Qed.

(** The single range proof of the transaction has the smallest size that covers its outputs. *)
Definition canonical_proof (tx : transaction) : Prop :=
  let nrl := padding_log (length (tx_vout tx)) in
  if is_rct_bulletproof_plus (rct_type (tx_rct tx))
  then exists p, p_bulletproofs_plus (tx_rct_p tx) = [p] /\ Z.of_nat (length (bpp_L p)) = 6 + nrl
  else exists p, p_bulletproofs (tx_rct_p tx) = [p] /\ Z.of_nat (length (bp_L p)) = 6 + nrl.

Lemma first_mixin_ring a o k vin :
  length o <= MAX_TOTAL_KEY_OFFSETS -> first_mixin (txin_to_key a o k :: vin) < 0xffffffff -> first_mixin (txin_to_key a o k :: vin) + 1 = length o.
Proof.
  cbn. change MAX_TOTAL_KEY_OFFSETS with 31250. intros Hl H. destruct o as [|x o]; [by vm_compute in H|].
  rewrite wrap_small by (unfold is_uint; cbn [length] in *; lia). lia.
Qed.

Lemma put_prunable_parts type inputs outputs mixin p bs :
  type <> RCTTypeNull -> put (serialize_rctsig_prunable type inputs outputs mixin) p = Some bs ->
  exists u1 u2 u3, bs = u1 ++ u2 ++ u3 /\
    put (range_proofs type outputs) (p_rangeSigs p, (p_bulletproofs p, p_bulletproofs_plus p)) = Some u1 /\
    put (ring_sigs type inputs (Z.to_nat mixin)) (p_MGs p, p_CLSAGs p) = Some u2 /\
    put (if has_prunable_pseudo_outs type then c_vec inputs 32 c_key else c_pure []) (p_pseudoOuts p) = Some u3.
Proof.
  intros Hn E. unfold serialize_rctsig_prunable in E. do 3 (destruct (_ <=? _); [done|]). destruct (Z.eqb_spec type RCTTypeNull); [done|].
  destruct (negb _); [done|]. unfold put in E at 1. cbn [c_map] in E. apply put_dep_inv in E as (u1 & u & E1 & E & ->). apply put_dep_inv in E as (u2 & u3 & E2 & E3 & ->).
  by exists u1, u2, u3.
Qed.

(** The size of a single range proof of [l] rounds, count included. *)
Lemma range_proofs_length type (outputs : nat) p bs :
  type = 4 \/ type = 5 \/ type = 6 -> range_proofs_ok type outputs p ->
  (if is_rct_bulletproof_plus type then exists q, p_bulletproofs_plus p = [q] /\ length (bpp_L q) < 128
   else exists q, p_bulletproofs p = [q] /\ length (bp_L q) < 128) ->
  put (range_proofs type outputs) (p_rangeSigs p, (p_bulletproofs p, p_bulletproofs_plus p)) = Some bs ->
  exists l, (if is_rct_bulletproof_plus type then exists q, p_bulletproofs_plus p = [q] /\ l = Z.of_nat (length (bpp_L q))
             else exists q, p_bulletproofs p = [q] /\ l = Z.of_nat (length (bp_L q))) /\
    Z.of_nat (length bs) = 1 + (32 * (proof_keys (is_rct_bulletproof_plus type) + 2 * l) + 2).
Proof.
  intros Ht Hok Hc E. unfold range_proofs_ok, range_proofs, is_rct_bulletproof_plus in *. unfold RCTTypeBulletproofPlus in *. destruct (Z.eqb_spec type 6) as [->|Hn].
  - destruct Hc as (q & Eq & Hl). exists (length (bpp_L q)). split; [by exists q|]. destruct Hok as (_ & _ & Hf & _). rewrite Eq in *. apply Forall_cons in Hf as [Hq _].
    unfold put in E at 1. cbn [c_map snd] in E. unfold put in E at 1. cbn [c_check] in E. destruct (negb _); [|done].
    apply put_one_proof in E as (b & Eb & ->). apply length_bpp in Eb; [|done..]. cbn [proof_keys]. lia.
  - assert ((type =? RCTTypeBulletproof) || (type =? RCTTypeBulletproof2) || (type =? RCTTypeCLSAG) = true) as Eb by (destruct Ht as [-> | [-> | ->]]; done). rewrite Eb in *.
    assert ((type =? RCTTypeBulletproof2) || (type =? RCTTypeCLSAG) = true) as Ev by (destruct Ht as [-> | [-> | ->]]; done). rewrite Ev in *.
    destruct Hc as (q & Eq & Hl). exists (length (bp_L q)). split; [by exists q|]. destruct Hok as (_ & _ & Hf & _). rewrite Eq in *. apply Forall_cons in Hf as [Hq _].
    unfold put in E at 1. cbn [c_map fst snd] in E. unfold put in E at 1. cbn [c_check] in E. destruct (negb _); [|done].
    apply put_one_proof in E as (b & Ebb & ->). apply length_bp in Ebb; [|done..]. cbn [proof_keys]. lia.
Qed.

Lemma ring_sigs_length type inputs mixin p bs :
  type = 4 \/ type = 5 \/ type = 6 -> ring_sigs_ok type inputs mixin p -> put (ring_sigs type inputs mixin) (p_MGs p, p_CLSAGs p) = Some bs ->
  length bs = (if is_rct_clsag type then inputs * ((mixin + 1) * 32 + 64) else inputs * ((mixin + 1) * 64 + 32))%nat.
Proof.
  intros Ht Hok E. unfold ring_sigs_ok, ring_sigs, is_rct_clsag in *. destruct (_ || _) eqn:Ec.
  - destruct Hok as (_ & Hl & Hf). unfold put in E at 1. cbn [c_map snd] in E.
    apply (fixed_put _ _ _ _ (Lawful0 := lawful_vec _ _ _ _ (L := lawful_clsag mixin) inputs 96 ltac:(lia))
      _ _ _ (fixed_vec _ _ inputs 96 (fixed_clsag mixin)) (conj Hl Hf)) in E. lia.
  - assert (mg_simple type = true) as Es by (destruct Ht as [-> | [-> | ->]]; done). rewrite Es in *.
    destruct Hok as (_ & Hl & Hf). unfold put in E at 1. cbn [c_map fst] in E.
    pose proof (fixed_mg type inputs mixin) as Fm. rewrite Es in Fm. pose proof (lawful_mg type inputs mixin) as Lm. rewrite Es in Lm.
    apply (fixed_put _ _ _ _ (Lawful0 := lawful_vec _ _ _ _ (L := Lm) inputs 64 ltac:(lia)) _ _ _ (fixed_vec _ _ inputs 64 Fm) (conj Hl Hf)) in E. lia.
Qed.

Lemma padding_log_pos n : 0 <= padding_log n.
Proof.
  unfold padding_log. generalize 32%nat. intros f. assert (H : forall m, 0 <= m -> 0 <= padding_loop f m n); [|by apply H].
  induction f as [|f IH]; intros m Hm; cbn [padding_loop]; [done|]. destruct (_ <? _); [apply IH|]; lia.
Qed.

(** The running total of the pruned weight does not overflow. *)
Lemma sum_no_wrap {A} (u v : list A) (a b c : Z) :
  Z.of_nat (length v) = 1 + a + b + c -> 0 <= a -> 0 <= b -> 0 <= c -> length (u ++ v) < 2 ^ 32 -> length u ⊞ 1 ⊞ a ⊞ b ⊞ c = length (u ++ v).
Proof.
  intros Hw Ha Hb Hc. rewrite length_app, Nat2Z.inj_add. intros Hl.
  rewrite (wrap_small 64 (length u + 1)), (wrap_small 64 (length u + 1 + a)), (wrap_small 64 (length u + 1 + a + b)), wrap_small by (unfold is_uint; lia). lia.
Qed.

Definition blob_below_2_32 (tx : transaction) : Prop := Z.of_nat (length (default [] (tx_to_blob tx))) < 2 ^ 32.

Section weight.
Context (tx : transaction) (a : Z) (o k : list Z) (vin : list txin_v).
Context (Hok : tx_ok tx) (Hvin : tx_vin tx = txin_to_key a o k :: vin) (Hver : tx_version tx <> 1).
Context (Htype : (rct_type (tx_rct tx) =? RCTTypeBulletproof2) || (rct_type (tx_rct tx) =? RCTTypeCLSAG) || (rct_type (tx_rct tx) =? RCTTypeBulletproofPlus) = true).
Context (Hcan : canonical_proof tx).

Lemma weight_type : rct_type (tx_rct tx) = 4 \/ rct_type (tx_rct tx) = 5 \/ rct_type (tx_rct tx) = 6.
Proof using Htype. repeat (apply orb_true_iff in Htype as [Htype|Htype]); apply Z.eqb_eq in Htype; tauto. Qed.

Lemma weight_vin : tx_vin tx <> [].
Proof using Hvin. by rewrite Hvin. Qed.

Lemma weight_prunable_ok :
  prunable_ok (rct_type (tx_rct tx)) (length (tx_vin tx)) (length (tx_vout tx)) (first_mixin (tx_vin tx)) (tx_rct_p tx).
Proof using Hok Hver Hvin Htype.
  destruct (tx_ok_rct tx Hok Hver weight_vin) as (_ & _ & Hr). destruct (Z.eqb_spec (rct_type (tx_rct tx)) RCTTypeNull) as [E|]; [|done].
  exfalso. unfold RCTTypeNull in E. destruct weight_type as [?|[?|?]]; lia.
Qed.

Lemma weight_mixin : first_mixin (tx_vin tx) + 1 = length o.
Proof using Hok Hver Hvin Htype.
  pose proof weight_prunable_ok as (Hmax & _). rewrite Hvin in *. apply first_mixin_ring; [|lia].
  destruct Hok as ((_ & _ & (Hin & _) & _) & _). rewrite Hvin in Hin. apply Forall_cons in Hin as [(_ & (_ & H) & _) _]. done.
Qed.

(** A proof that covers the outputs and has the canonical size covers exactly the padded number. *)
Lemma canonical_amounts (l r n : Z) :
  0 <= n -> l = 6 + padding_log n -> l = r -> n <= sum_max_amounts [n_bulletproof_max_amounts_base l r 16] 0 ->
  sum_max_amounts [n_bulletproof_max_amounts_base l r 16] 0 = Z.shiftl 1 (padding_log n) /\ n <= Z.shiftl 1 (padding_log n) /\ padding_log n < 5.
Proof using.
  intros Hn Hl <- Hmax. destruct (Z.eq_dec n 0) as [->|Hn0]; [change (padding_log 0) with 0 in *; subst l; by split_and!|].
  unfold n_bulletproof_max_amounts_base in *. destruct (6 <=? l) eqn:E6; [|change (n <= 0) in Hmax; lia]. rewrite Z.eqb_refl in *. cbn [negb Z.shiftl Z.eqb Pos.eqb] in *.
  change (Z.shiftl 1 4 =? 16) with true in *. cbn [negb] in *. destruct (l <=? 6 + 4) eqn:E10; [|change (n <= 0) in Hmax; lia]. cbn [negb] in *. bcase_hyps.
  replace (l - 6) with (padding_log n) in * by lia. assert (Hr : 0 <= padding_log n < 5) by lia.
  assert (E : sum_max_amounts [Z.shiftl 1 (padding_log n)] 0 = Z.shiftl 1 (padding_log n)) by (clear -Hr; zcases (padding_log n) 5; done).
  rewrite E in *. split_and!; [done|lia|lia].
Qed.

Lemma canonical_full :
  (if is_rct_bulletproof_plus (rct_type (tx_rct tx)) then n_bulletproof_plus_max_amounts (p_bulletproofs_plus (tx_rct_p tx))
   else n_bulletproof_max_amounts (p_bulletproofs (tx_rct_p tx))) = Z.shiftl 1 (padding_log (length (tx_vout tx))) /\
  length (tx_vout tx) <= Z.shiftl 1 (padding_log (length (tx_vout tx))) /\ padding_log (length (tx_vout tx)) < 5.
Proof using Hok Hver Hvin Htype Hcan.
  pose proof weight_type as Ht. pose proof Hcan as Hc.
  pose proof weight_prunable_ok as (_ & [[E _]|(_ & Hr & _)]); [unfold RCTTypeNull in E; destruct Ht as [?|[?|?]]; lia|].
  unfold range_proofs_ok, canonical_proof, is_rct_bulletproof_plus in Hr, Hc |- *. destruct (_ =? RCTTypeBulletproofPlus) eqn:E6.
  - destruct Hc as (q & Eq & El). rewrite Eq in Hr |- *. destruct Hr as (_ & _ & Hf & Hlen). apply Forall_cons in Hf as [(_ & _ & _ & _ & Hlr) _].
    apply (canonical_amounts _ (length (bpp_R q))); [lia|done|by apply lr_ok_length in Hlr|apply Hlen].
  - assert ((rct_type (tx_rct tx) =? RCTTypeBulletproof) || (rct_type (tx_rct tx) =? RCTTypeBulletproof2) || (rct_type (tx_rct tx) =? RCTTypeCLSAG) = true) as E3
      by (destruct Ht as [E | [E | E]]; rewrite E in E6 |- *; done). rewrite E3 in Hr.
    destruct Hc as (q & Eq & El). rewrite Eq in Hr |- *. destruct Hr as (_ & _ & Hf & Hlen). apply Forall_cons in Hf as [(_ & _ & _ & _ & Hlr) _].
    apply (canonical_amounts _ (length (bp_R q))); [lia|done|by apply lr_ok_length in Hlr|apply Hlen].
Qed.

Lemma canonical_small : 6 + padding_log (length (tx_vout tx)) < 128.
Proof using Hok Hver Hvin Htype Hcan. destruct canonical_full as (_ & _ & ?). lia. Qed.

Definition ring_bytes : Z :=
  if is_rct_clsag (rct_type (tx_rct tx)) then length (tx_vin tx) * (length o + 2) * 32 else length (tx_vin tx) * (length o * (1 + 1) * 32 + 32).

Lemma prunable_length :
  Z.of_nat (length (prunable_part tx)) =
    1 + (32 * (proof_keys (is_rct_bulletproof_plus (rct_type (tx_rct tx))) + 2 * (padding_log (length (tx_vout tx)) + 6)) + 2) + ring_bytes + 32 * length (tx_vin tx).
Proof using Hok Hver Hvin Htype Hcan.
  pose proof weight_type as Ht. pose proof Hcan as Hc. pose proof weight_prunable_ok as Hp. pose proof weight_mixin as Hmix. destruct (rct_parts tx Hok Hver weight_vin) as (_ & _ & Er & _).
  assert (Hn : rct_type (tx_rct tx) <> RCTTypeNull) by (unfold RCTTypeNull; destruct Ht as [?|[?|?]]; lia). specialize (Er Hn).
  destruct Hp as (Hmax & [[? _]|(Hk & Hrange & Hring & Hps)]); [done|].
  destruct (put_prunable_parts _ _ _ _ _ _ Hn Er) as (u1 & u2 & u3 & -> & E1 & E2 & E3).
  assert (Hl : exists l, (if is_rct_bulletproof_plus (rct_type (tx_rct tx)) then exists q, p_bulletproofs_plus (tx_rct_p tx) = [q] /\ l = Z.of_nat (length (bpp_L q))
             else exists q, p_bulletproofs (tx_rct_p tx) = [q] /\ l = Z.of_nat (length (bp_L q))) /\
    Z.of_nat (length u1) = 1 + (32 * (proof_keys (is_rct_bulletproof_plus (rct_type (tx_rct tx))) + 2 * l) + 2)).
  { apply (range_proofs_length _ _ _ _ Ht Hrange); [|done]. pose proof canonical_small as Hs. unfold canonical_proof in Hc. destruct (is_rct_bulletproof_plus _).
    - destruct Hc as (q & Eq & El). exists q. split; [done|]. lia.
    - destruct Hc as (q & Eq & El). exists q. split; [done|]. lia. }
  destruct Hl as (l & Hq & Hu1). assert (El : l = 6 + padding_log (length (tx_vout tx))).
  { unfold canonical_proof in Hc. destruct (is_rct_bulletproof_plus _); destruct Hq as (q & Eq & ->), Hc as (q' & Eq' & <-); by rewrite Eq in Eq'; simplify_eq. }
  pose proof (ring_sigs_length _ _ _ _ _ Ht Hring E2) as Hu2.
  assert (Hh : has_prunable_pseudo_outs (rct_type (tx_rct tx)) = true) by (destruct Ht as [-> | [-> | ->]]; done). rewrite Hh in E3, Hps.
  apply (fixed_put _ _ _ _ _ _ _ (fixed_vec 32 c_key _ 32 (fixed_blob 32)) Hps) in E3.
  assert (Hm0 : 0 <= first_mixin (tx_vin tx)) by (rewrite Hvin; apply wrap_range; lia).
  rewrite !length_app, !Nat2Z.inj_add, Hu1, Hu2, E3. unfold ring_bytes. destruct (is_rct_clsag _); rewrite ?Nat2Z.inj_mul, ?Nat2Z.inj_add, ?Nat2Z.inj_mul, ?Nat2Z.inj_add, Z2Nat.id by lia;
    rewrite <- Hmix; lia.
Qed.

Lemma canonical_clawback :
  exists c, get_transaction_weight_clawback tx (Z.shiftl 1 (padding_log (length (tx_vout tx)))) = Some c /\ 0 <= c < 2 ^ 32.
Proof using Hok Hver Hvin Htype Hcan.
  destruct canonical_full as (_ & Hn & H5). pose proof (padding_log_pos (length (tx_vout tx))) as H0. unfold get_transaction_weight_clawback.
  generalize dependent (padding_log (length (tx_vout tx))). intros m Hm H5 H0. destruct (_ =? RCTTypeBulletproofPlus).
  all: assert (Hb : length (tx_vout tx) <= 16) by (clear -Hm H0 H5; assert (Z.shiftl 1 m <= 16) by (zcases m 5; done); lia).
  all: unfold BULLETPROOF_MAX_OUTPUTS; btrue (length (tx_vout tx) <=? 16); clear -H5 H0; zcases m 5; (eexists; split; [reflexivity|done]).
Qed.

Lemma put_base_of : put c_transaction (base_of tx) = Some (prefix_bytes tx ++ base_bytes tx).
Proof using Hok Hver Hvin.
  destruct (rct_parts tx Hok Hver weight_vin) as (Ep & Eb & _). unfold put at 1. cbn [c_transaction base_of tx_pruned]. unfold tx_fields, base_of. cbn [tx_prefix tx_signatures tx_rct tx_rct_p].
  apply put_dep; [done|]. unfold signature_fields. rewrite (proj2 (Z.eqb_neq (tx_version tx) 1)) by done.
  rewrite bool_decide_false by (intros ?%length_zero_iff_nil; by apply weight_vin). unfold put at 1. cbn [c_map snd].
  rewrite <- (app_nil_r (base_bytes tx)). by apply put_dep.
Qed.

Lemma pruned_weight_agrees :
  blob_below_2_32 tx -> exists w, get_pruned_transaction_weight (base_of tx) = Some w /\ get_transaction_weight_of tx None = Some w.
Proof using Hok Hver Hvin Htype Hcan.
  intros Hsize. destruct (rct_parts tx Hok Hver weight_vin) as (_ & _ & _ & Eblob). unfold blob_below_2_32 in Hsize. rewrite Eblob in Hsize. cbn in Hsize.
  unfold get_transaction_weight_of. unfold tx_to_blob in Eblob. rewrite Eblob. cbn [fmap option_fmap option_map mbind option_bind].
  assert (Hv2 : 2 <= tx_version tx) by (destruct Hok as ((Hv & _) & _); lia). pose proof weight_type as Ht.
  unfold get_pruned_transaction_weight, get_transaction_weight. change (tx_pruned (base_of tx)) with true. change (tx_rct (base_of tx)) with (tx_rct tx).
  change (tx_prefix (base_of tx)) with (tx_prefix tx). destruct Hok as (_ & Hpr & _). rewrite Hpr. cbn [negb].
  bfalse (tx_version tx <? 2). btrue (2 <=? tx_version tx). rewrite Htype, Hvin. cbn [negb]. unfold dump_binary. rewrite put_base_of. cbn [mbind option_bind].
  replace (negb (is_rct_bulletproof _) && _) with false by (destruct Ht as [-> | [-> | ->]]; done). rewrite (proj1 canonical_full).
  pose proof prunable_length as Hl. rewrite Hvin in Hl. unfold ring_bytes in Hl. rewrite Hvin in Hl. 
  change (get_transaction_weight_clawback (base_of tx)) with (get_transaction_weight_clawback tx).
  rewrite app_assoc in Hsize |- *.
  rewrite (sum_no_wrap _ _ _ _ _ Hl); [| | | |done]; cycle 1; [destruct (is_rct_bulletproof_plus _); cbn [proof_keys]; pose proof (padding_log_pos (length (tx_vout tx)))|destruct (is_rct_clsag _)| |]; [lia..|].
  destruct canonical_clawback as (c & -> & Hc). cbn [mbind option_bind]. unfold compose. btrue (c <=? UINT64_MAX - length ((prefix_bytes tx ++ base_bytes tx) ++ prunable_part tx)). by eexists.
Qed.
End weight.

(** ** Properties *)

(** a node that holds only the unprunable part of a transaction (types Bulletproof2,
    CLSAG and Bulletproof+, spending key inputs, with one range proof of the smallest
    size for its outputs) computes for it exactly the weight that a node with the whole
    transaction computes from its blob, and neither computation throws. *)
Theorem pruned_weight_correct tx a o k vin :
  tx_ok tx -> tx_vin tx = txin_to_key a o k :: vin -> tx_version tx <> 1 ->
  (rct_type (tx_rct tx) =? RCTTypeBulletproof2) || (rct_type (tx_rct tx) =? RCTTypeCLSAG) || (rct_type (tx_rct tx) =? RCTTypeBulletproofPlus) = true ->
  canonical_proof tx -> blob_below_2_32 tx ->
  exists w, get_pruned_transaction_weight (base_of tx) = Some w /\ get_transaction_weight_of tx None = Some w.
Proof. apply pruned_weight_agrees. Qed.

Lemma sample_v2_ok : tx_ok sample_v2.
Proof. exact (proj1 (parse_binary_inv _ _ _ c_transaction _ _ sample_v2_bytes sample_v2_parses)). Qed.

Lemma sample_v2_canonical : canonical_proof sample_v2.
Proof. eexists. split; [reflexivity|]. reflexivity. Qed.

Lemma pruned_weight_correct_witness :
  exists w, get_pruned_transaction_weight (base_of sample_v2) = Some w /\ get_transaction_weight_of sample_v2 None = Some w.
Proof.
  exact (pruned_weight_correct sample_v2 0 [3; 300] (sample_k 1) [] sample_v2_ok eq_refl ltac:(done) eq_refl sample_v2_canonical ltac:(by vm_compute)).
Defined.
