(* ===== verification/RollingMedian.v ===== *)
(** * RollingMedian: the median of a sliding window

    Models contrib/epee/include/rolling_median.h and the functions [get_mid] and
    [median] of contrib/epee/include/misc_language.h, at the item type
    [uint64_t].  The single allocation of the source is three lists: [data], the
    circular queue, [pos], the place of each queue entry in the heap, and [heap],
    whose index 0 is the middle of the list. *)
From S2P Require Import Prelude.

(** ** Definitions *)

(** The two halves and the two remainders never overflow. *)
Definition get_mid (a b : Z) : Z := u64 (u64 (a / 2 + b / 2) + u64 (u64 (a - u64 (2 * (a / 2))) + u64 (b - u64 (2 * (b / 2)))) / 2).

Definition zsort (v : list Z) : list Z := merge_sort Z.le v.

(** [misc_utils::median], which sorts; 0 on an empty vector. *)
Definition median (v : list Z) : Z :=
  if (length v =? 0)%nat then 0
  else if (length v =? 1)%nat then nth 0 v 0
  else
    let n := (length v / 2)%nat in
    let v := zsort v in
    if (length v mod 2 =? 1)%nat then nth n v 0
    else get_mid (nth (n - 1) v 0) (nth n v 0).

Record rolling_median := mk_rm {
  rm_data : list Z;
  rm_pos : list Z;
  rm_heap : list Z;
  rm_N : Z;
  rm_idx : Z;
  rm_minCt : Z;
  rm_maxCt : Z;
  rm_sz : Z;
}.

Definition set_pos_heap (s : rolling_median) (pos heap : list Z) : rolling_median :=
  mk_rm (rm_data s) pos heap (rm_N s) (rm_idx s) (rm_minCt s) (rm_maxCt s) (rm_sz s).

Definition set_counts (s : rolling_median) (minCt maxCt : Z) : rolling_median :=
  mk_rm (rm_data s) (rm_pos s) (rm_heap s) (rm_N s) (rm_idx s) minCt maxCt (rm_sz s).

(** [heap] points to the middle of its storage. *)
Definition hix (N i : Z) : nat := Z.to_nat (i + N / 2).
Definition heap_at (s : rolling_median) (i : Z) : Z := nth (hix (rm_N s) i) (rm_heap s) 0.
Definition data_at (s : rolling_median) (k : Z) : Z := nth (Z.to_nat k) (rm_data s) 0.
Definition pos_at (s : rolling_median) (k : Z) : Z := nth (Z.to_nat k) (rm_pos s) 0.

Definition mmless (s : rolling_median) (i j : Z) : bool := data_at s (heap_at s i) <? data_at s (heap_at s j).

Definition mmexchange (i j : Z) (s : rolling_median) : rolling_median :=
  let t := heap_at s i in
  let heap := <[hix (rm_N s) i := heap_at s j]> (rm_heap s) in
  let heap := <[hix (rm_N s) j := t]> heap in
  let pos := <[Z.to_nat (nth (hix (rm_N s) i) heap 0) := i]> (rm_pos s) in
  let pos := <[Z.to_nat (nth (hix (rm_N s) j) heap 0) := j]> pos in
  set_pos_heap s pos heap.

Definition mmCmpExch (i j : Z) (s : rolling_median) : rolling_median * bool :=
  if mmless s i j then (mmexchange i j s, true) else (s, false).

(** The loops double or halve an [int]: 31 rounds are enough. *)
Definition sort_fuel : nat := 31.

Fixpoint minSortDown_loop (fuel : nat) (i : Z) (s : rolling_median) : rolling_median :=
  match fuel with
  | O => s
  | S fuel' =>
      if i <=? rm_minCt s then
        let i := if (i <? rm_minCt s) && mmless s (i + 1) i then i + 1 else i in
        let '(s, exchanged) := mmCmpExch i (Z.quot i 2) s in
        if negb exchanged then s else minSortDown_loop fuel' (i * 2) s
      else s
  end.
Definition minSortDown (i : Z) (s : rolling_median) : rolling_median := minSortDown_loop sort_fuel (i * 2) s.

Fixpoint maxSortDown_loop (fuel : nat) (i : Z) (s : rolling_median) : rolling_median :=
  match fuel with
  | O => s
  | S fuel' =>
      if - rm_maxCt s <=? i then
        let i := if (- rm_maxCt s <? i) && mmless s i (i - 1) then i - 1 else i in
        let '(s, exchanged) := mmCmpExch (Z.quot i 2) i s in
        if negb exchanged then s else maxSortDown_loop fuel' (i * 2) s
      else s
  end.
Definition maxSortDown (i : Z) (s : rolling_median) : rolling_median := maxSortDown_loop sort_fuel (i * 2) s.

Fixpoint minSortUp_loop (fuel : nat) (i : Z) (s : rolling_median) : rolling_median * bool :=
  match fuel with
  | O => (s, i =? 0)
  | S fuel' =>
      if 0 <? i then
        let '(s, exchanged) := mmCmpExch i (Z.quot i 2) s in
        if exchanged then minSortUp_loop fuel' (Z.quot i 2) s else (s, i =? 0)
      else (s, i =? 0)
  end.
Definition minSortUp (i : Z) (s : rolling_median) : rolling_median * bool := minSortUp_loop sort_fuel i s.

Fixpoint maxSortUp_loop (fuel : nat) (i : Z) (s : rolling_median) : rolling_median * bool :=
  match fuel with
  | O => (s, i =? 0)
  | S fuel' =>
      if i <? 0 then
        let '(s, exchanged) := mmCmpExch (Z.quot i 2) i s in
        if exchanged then maxSortUp_loop fuel' (Z.quot i 2) s else (s, i =? 0)
      else (s, i =? 0)
  end.
Definition maxSortUp (i : Z) (s : rolling_median) : rolling_median * bool := maxSortUp_loop sort_fuel i s.

(** The fill pattern of [clear]: median, max, min, max, ... *)
Definition fill_pos (k : Z) : Z := ((k + 1) / 2) * (if Z.land k 1 =? 0 then 1 else -1).

Definition clear_step (s : rolling_median) (k : nat) : rolling_median :=
  set_pos_heap s (<[k := fill_pos k]> (rm_pos s)) (<[hix (rm_N s) (fill_pos k) := Z.of_nat k]> (rm_heap s)).

Definition clear (s : rolling_median) : rolling_median :=
  let s := mk_rm (rm_data s) (rm_pos s) (rm_heap s) (rm_N s) 0 0 0 0 in
  foldl clear_step s (reverse (seq 0 (Z.to_nat (rm_N s)))).

(** The constructor; [data], [pos] and [heap] are the contents of the memory
    [malloc] returned. *)
Definition new_rolling_median (data pos heap : list Z) (N : Z) : rolling_median := clear (mk_rm data pos heap N 0 0 0 0).

(** The moved object and what is left of its source. *)
Definition consume_from (m : rolling_median) : rolling_median * rolling_median := (m, mk_rm [] [] [] 0 0 0 0 0).

Definition size (s : rolling_median) : Z := rm_sz s.

(** The tests after the new item is in place, in each part of the heap. *)
Definition insert_min (p v old : Z) (s : rolling_median) : rolling_median :=
  let grow := rm_minCt s <? (rm_N s - 1) / 2 in
  let s := if grow then set_counts s (rm_minCt s + 1) (rm_maxCt s) else s in
  if negb grow && (old <? v) then minSortDown p s
  else
    let '(s, top) := minSortUp p s in
    if top then let '(s, exchanged) := mmCmpExch 0 (-1) s in if exchanged then maxSortDown (-1) s else s
    else s.

Definition insert_max (p v old : Z) (s : rolling_median) : rolling_median :=
  let grow := rm_maxCt s <? rm_N s / 2 in
  let s := if grow then set_counts s (rm_minCt s) (rm_maxCt s + 1) else s in
  if negb grow && (v <? old) then maxSortDown p s
  else
    let '(s, top) := maxSortUp p s in
    if top && negb (rm_minCt s =? 0) then
      let '(s, exchanged) := mmCmpExch 1 0 s in if exchanged then minSortDown 1 s else s
    else s.

Definition insert_mid (s : rolling_median) : rolling_median :=
  let s :=
    if negb (rm_maxCt s =? 0) then let '(s, top) := maxSortUp (-1) s in if top then maxSortDown (-1) s else s
    else s in
  if negb (rm_minCt s =? 0) then let '(s, top) := minSortUp 1 s in if top then minSortDown 1 s else s
  else s.

Definition insert (v : Z) (s : rolling_median) : rolling_median :=
  let p := pos_at s (rm_idx s) in
  let old := data_at s (rm_idx s) in
  let s := mk_rm (<[Z.to_nat (rm_idx s) := v]> (rm_data s)) (rm_pos s) (rm_heap s) (rm_N s)
             (Z.rem (rm_idx s + 1) (rm_N s)) (rm_minCt s) (rm_maxCt s) (Z.min (rm_sz s + 1) (rm_N s)) in
  if 0 <? p then insert_min p v old s else if p <? 0 then insert_max p v old s else insert_mid s.

(** The method [median]. *)
Definition rm_median (s : rolling_median) : Z :=
  let v := data_at s (heap_at s 0) in
  if rm_minCt s <? rm_maxCt s then get_mid v (data_at s (heap_at s (-1))) else v.

(** ** Lemmas *)

(** *** Exchanges *)

Definition lo (s : rolling_median) : Z := - (rm_N s / 2).
Definition hi (s : rolling_median) : Z := (rm_N s - 1) / 2.

(** [pos] and [heap] are inverse to each other. *)
Record wf (s : rolling_median) : Prop := {
  wf_N : 1 <= rm_N s < 2 ^ 27;
  wf_data : Z.of_nat (length (rm_data s)) = rm_N s;
  wf_pos : Z.of_nat (length (rm_pos s)) = rm_N s;
  wf_heap : Z.of_nat (length (rm_heap s)) = rm_N s;
  wf_pos_heap : forall k, 0 <= k < rm_N s -> lo s <= pos_at s k <= hi s /\ heap_at s (pos_at s k) = k;
  wf_heap_pos : forall i, lo s <= i <= hi s -> 0 <= heap_at s i < rm_N s /\ pos_at s (heap_at s i) = i;
}.

(** The value at a heap position. *)
Definition val (s : rolling_median) (i : Z) : Z := data_at s (heap_at s i).

Definition swapz (i j k : Z) : Z := if k =? i then j else if k =? j then i else k.

Lemma nth_insert_Z (l : list Z) (i j : nat) x : (i < length l)%nat -> nth j (<[i := x]> l) 0 = if bool_decide (i = j) then x else nth j l 0.
Proof.
  intros Hi. rewrite !nth_lookup. case_bool_decide; subst; [by rewrite list_lookup_insert_eq|by rewrite list_lookup_insert_ne].
Qed.

Lemma hix_eqb s i k : wf s -> lo s <= i <= hi s -> lo s <= k <= hi s -> bool_decide (hix (rm_N s) i = hix (rm_N s) k) = (k =? i).
Proof. intros [] Hi Hj. unfold hix, lo, hi in *. case_bool_decide; destruct (Z.eqb_spec k i); zlia || done. Qed.

Lemma hix_lt s i : wf s -> lo s <= i <= hi s -> (hix (rm_N s) i < length (rm_heap s))%nat.
Proof. intros [] Hi. unfold hix, lo, hi in *. zlia. Qed.

Lemma heap_inj s i j : wf s -> lo s <= i <= hi s -> lo s <= j <= hi s -> heap_at s i = heap_at s j -> i = j.
Proof.
  intros Hw Hi Hj E. destruct (wf_heap_pos s Hw i Hi) as [_ <-]. destruct (wf_heap_pos s Hw j Hj) as [_ <-]. by rewrite E.
Qed.

Lemma pos_eqb s i k : wf s -> lo s <= i <= hi s -> 0 <= k < rm_N s -> bool_decide (Z.to_nat (heap_at s i) = Z.to_nat k) = (pos_at s k =? i).
Proof.
  intros Hw Hi Hk. destruct (wf_heap_pos s Hw i Hi) as [Hri Hpi]. destruct (wf_pos_heap s Hw k Hk) as [Hrk Hpk].
  case_bool_decide as E; destruct (Z.eqb_spec (pos_at s k) i) as [E'|E']; try done.
  - apply Z2Nat.inj in E; [|lia..]. congruence.
  - congruence.
Qed.

Lemma exchange_heap s i j k :
  wf s -> lo s <= i <= hi s -> lo s <= j <= hi s -> lo s <= k <= hi s -> heap_at (mmexchange i j s) k = heap_at s (swapz i j k).
Proof.
  intros Hw Hi Hj Hk. unfold heap_at at 1. cbn [mmexchange set_pos_heap rm_N rm_heap].
  pose proof (hix_lt s i Hw Hi). pose proof (hix_lt s j Hw Hj).
  rewrite !nth_insert_Z by (rewrite ?length_insert; done). rewrite !(hix_eqb s) by done. unfold swapz.
  destruct (Z.eqb_spec k j), (Z.eqb_spec k i); subst; done.
Qed.

Lemma exchange_pos s i j k :
  wf s -> lo s <= i <= hi s -> lo s <= j <= hi s -> 0 <= k < rm_N s -> pos_at (mmexchange i j s) k = swapz i j (pos_at s k).
Proof.
  intros Hw Hi Hj Hk. pose proof (exchange_heap s i j i Hw Hi Hj Hi) as Ei. pose proof (exchange_heap s i j j Hw Hi Hj Hj) as Ej.
  unfold heap_at at 1 in Ei. unfold heap_at at 1 in Ej. cbn [mmexchange set_pos_heap rm_N rm_heap] in Ei, Ej.
  unfold pos_at at 1. cbn [mmexchange set_pos_heap rm_pos]. rewrite Ei, Ej. unfold swapz at 1 2. rewrite !Z.eqb_refl.
  destruct (wf_heap_pos s Hw i Hi) as [Hri Hpi]. destruct (wf_heap_pos s Hw j Hj) as [Hrj Hpj]. pose proof (wf_pos s Hw) as Hlp.
  assert ((if j =? i then j else i) = i) as -> by (destruct (Z.eqb_spec j i); lia).
  rewrite !nth_insert_Z by (rewrite ?length_insert; lia). rewrite !pos_eqb by done. unfold swapz, pos_at.
  set (p := nth (Z.to_nat k) (rm_pos s) 0). destruct (Z.eqb_spec p i), (Z.eqb_spec p j); lia.
Qed.

Lemma swapz_range s i j k : lo s <= i <= hi s -> lo s <= j <= hi s -> lo s <= k <= hi s -> lo s <= swapz i j k <= hi s.
Proof. intros. unfold swapz. destruct (k =? i), (k =? j); done. Qed.

Lemma swapz_invol i j k : swapz i j (swapz i j k) = k.
Proof. unfold swapz. destruct (Z.eqb_spec k i), (Z.eqb_spec k j); subst; rewrite ?Z.eqb_refl; try done; repeat case_match; lia. Qed.

Lemma exchange_wf s i j : wf s -> lo s <= i <= hi s -> lo s <= j <= hi s -> wf (mmexchange i j s).
Proof.
  intros Hw Hi Hj. split; cbn [mmexchange set_pos_heap rm_N rm_data rm_pos rm_heap]; rewrite ?length_insert; try apply Hw.
  - intros k Hk. change (lo (mmexchange i j s)) with (lo s). change (hi (mmexchange i j s)) with (hi s).
    destruct (wf_pos_heap s Hw k Hk) as [Hr Hp]. rewrite exchange_pos by done. pose proof (swapz_range s i j _ Hi Hj Hr).
    split; [done|]. rewrite exchange_heap by done. by rewrite swapz_invol.
  - intros k. change (lo (mmexchange i j s)) with (lo s). change (hi (mmexchange i j s)) with (hi s). intros Hk.
    pose proof (swapz_range s i j _ Hi Hj Hk) as Hs. destruct (wf_heap_pos s Hw _ Hs) as [Hr Hp]. rewrite exchange_heap by done.
    split; [done|]. rewrite exchange_pos by done. rewrite Hp. apply swapz_invol.
Qed.

Lemma exchange_val s i j k :
  wf s -> lo s <= i <= hi s -> lo s <= j <= hi s -> lo s <= k <= hi s -> val (mmexchange i j s) k = val s (swapz i j k).
Proof. intros. unfold val. by rewrite exchange_heap. Qed.

(** The positions in use, and the states reached by exchanging them. *)
Definition active (s : rolling_median) (i : Z) : Prop := - rm_maxCt s <= i <= rm_minCt s.
Definition counts_ok (s : rolling_median) : Prop := 0 <= rm_maxCt s <= - lo s /\ 0 <= rm_minCt s <= hi s.

Inductive xch (s : rolling_median) : rolling_median -> Prop :=
  | xch_refl : xch s s
  | xch_step s' i j : xch s s' -> active s i -> active s j -> xch s (mmexchange i j s').

Lemma active_range s i : counts_ok s -> active s i -> lo s <= i <= hi s.
Proof. unfold counts_ok, active. lia. Qed.

Lemma xch_frame s s' :
  xch s s' -> rm_data s' = rm_data s /\ rm_N s' = rm_N s /\ rm_idx s' = rm_idx s /\ rm_minCt s' = rm_minCt s /\
              rm_maxCt s' = rm_maxCt s /\ rm_sz s' = rm_sz s.
Proof. by induction 1. Qed.

Lemma xch_bounds s s' : xch s s' -> lo s' = lo s /\ hi s' = hi s.
Proof. intros H. destruct (xch_frame _ _ H) as (_ & E & _). unfold lo, hi. by rewrite E. Qed.

Lemma xch_active s s' i : xch s s' -> active s' i <-> active s i.
Proof. intros H. destruct (xch_frame _ _ H) as (_ & _ & _ & E1 & E2 & _). unfold active. by rewrite E1, E2. Qed.

Lemma xch_counts s s' : xch s s' -> counts_ok s -> counts_ok s'.
Proof.
  intros H. destruct (xch_frame _ _ H) as (_ & _ & _ & E1 & E2 & _). destruct (xch_bounds _ _ H) as [E3 E4].
  unfold counts_ok. by rewrite E1, E2, E3, E4.
Qed.

Lemma xch_trans s1 s2 s3 : xch s1 s2 -> xch s2 s3 -> xch s1 s3.
Proof.
  intros H12. induction 1 as [|s3 i j _ IH Hi Hj]; [done|]. rewrite (xch_active s1 s2) in Hi, Hj by done. by apply xch_step.
Qed.

Lemma xch_one s i j : active s i -> active s j -> xch s (mmexchange i j s).
Proof. intros. apply xch_step; [constructor|done..]. Qed.

Lemma xch_wf s s' : wf s -> counts_ok s -> xch s s' -> wf s'.
Proof.
  intros Hw Hc. induction 1 as [|s' i j Hx IH Hi Hj]; [done|]. destruct (xch_bounds _ _ Hx) as [El Eh].
  apply exchange_wf; [done|rewrite El, Eh; by apply active_range..].
Qed.

Lemma xch_pos s s' k :
  wf s -> counts_ok s -> xch s s' -> 0 <= k < rm_N s ->
  (active s (pos_at s k) -> active s (pos_at s' k)) /\ (~ active s (pos_at s k) -> pos_at s' k = pos_at s k).
Proof.
  intros Hw Hc Hx Hk. induction Hx as [|s' i j Hx IH Hi Hj]; [done|]. destruct (xch_bounds _ _ Hx) as [El Eh].
  destruct (xch_frame _ _ Hx) as (_ & EN & _). destruct IH as [IH1 IH2].
  rewrite exchange_pos; [|by apply (xch_wf s)|rewrite El, Eh; by apply active_range..|by rewrite EN].
  unfold swapz. split.
  - intros Ha. destruct (_ =? i); [done|]. destruct (_ =? j); [done|]. by apply IH1.
  - intros Ha. rewrite IH2 by done. destruct (Z.eqb_spec (pos_at s k) i) as [E|]; [by rewrite E in Ha|].
    destruct (Z.eqb_spec (pos_at s k) j) as [E|]; [by rewrite E in Ha|done].
Qed.

(** *** One side of the heap

    Both sides are min-heaps with the median as their top, the max side with
    positions and values negated. *)
Definition w (b : bool) (s : rolling_median) (i : Z) : Z := if b then val s i else - val s (- i).
Definition cnt (b : bool) (s : rolling_median) : Z := if b then rm_minCt s else rm_maxCt s.
Definition exch (b : bool) (i j : Z) (s : rolling_median) : rolling_median :=
  if b then mmexchange i j s else mmexchange (- j) (- i) s.

(** The order of a side, the order with one position that may be too large for
    its children, and with one that may be too small for its parent. *)
Definition ordered (n : Z) (f : Z -> Z) : Prop := forall k, 1 <= k <= n -> f (k / 2) <= f k.
Definition down_hole (n i : Z) (f : Z -> Z) : Prop :=
  (forall k, 1 <= k <= n -> k / 2 <> i -> f (k / 2) <= f k) /\ (forall c, 1 <= c <= n -> c / 2 = i -> f (i / 2) <= f c).
Definition up_hole (n i : Z) (f : Z -> Z) : Prop :=
  (forall k, 1 <= k <= n -> k <> i -> f (k / 2) <= f k) /\ (forall c, 1 <= c <= n -> c / 2 = i -> 1 <= i -> f (i / 2) <= f c).

Lemma down_hole_ext n i f g : 1 <= i -> (forall k, 0 <= k <= n -> f k = g k) -> down_hole n i f -> down_hole n i g.
Proof.
  intros Hi E [H1 H2]. split; intros k Hk Hk2.
  - rewrite <- !E by zlia. by apply H1.
  - rewrite <- !E by zlia. by apply H2.
Qed.

Lemma up_hole_ext n i f g : (forall k, 0 <= k <= n -> f k = g k) -> up_hole n i f -> up_hole n i g.
Proof.
  intros E [H1 H2]. split; [intros k Hk Hk2|intros c Hk Hk2 Hi].
  - rewrite <- !E by zlia. by apply H1.
  - rewrite <- !E by zlia. by apply H2.
Qed.

Lemma down_hole_step n i c f :
  1 <= i -> c / 2 = i -> c <= n -> (forall k, 1 <= k <= n -> k / 2 = i -> f c <= f k) -> f c < f i ->
  down_hole n i f -> down_hole n c (fun k => f (swapz c i k)).
Proof.
  intros Hi Hc Hcn Hmin Hlt [H1 H2]. unfold swapz. split.
  - intros k Hk Hkc. destruct (Z.eqb_spec (k / 2) c); [lia|]. destruct (Z.eqb_spec k c) as [->|Hne].
    + btrue (c / 2 =? i). lia.
    + destruct (Z.eqb_spec (k / 2) i) as [E|Hni].
      * bfalse (k =? i). by apply Hmin.
      * destruct (Z.eqb_spec k i) as [->|]; [apply H2; zlia|by apply H1].
  - intros k Hk Hkc. btrue (c / 2 =? i). bfalse (c / 2 =? c). bfalse (k =? c). bfalse (k =? i). rewrite <- Hkc at 1. apply H1; zlia.
Qed.

Lemma down_hole_done n i f : (forall k, 1 <= k <= n -> k / 2 = i -> f i <= f k) -> down_hole n i f -> ordered n f.
Proof. intros H [H1 _] k Hk. destruct (Z.eq_dec (k / 2) i) as [E|]; [rewrite E; by apply H|by apply H1]. Qed.

Lemma up_hole_step n i f :
  1 <= i <= n -> f i < f (i / 2) -> up_hole n i f -> up_hole n (i / 2) (fun k => f (swapz i (i / 2) k)).
Proof.
  intros Hi Hlt [H1 H2]. unfold swapz. split.
  - intros k Hk Hki. destruct (Z.eqb_spec k i) as [->|Hne].
    + bfalse (i / 2 =? i). rewrite Z.eqb_refl. lia.
    + bfalse (k =? i / 2). destruct (Z.eqb_spec (k / 2) i) as [E|Hn2].
      * by apply H2; [| |lia].
      * destruct (Z.eqb_spec (k / 2) (i / 2)) as [E|]; [|by apply H1]. etrans; [|apply (H1 k); done]. rewrite E. lia.
  - intros c Hc Hci Hi2. bfalse (i / 2 / 2 =? i). bfalse (i / 2 / 2 =? i / 2).
    assert (Hup : f (i / 2 / 2) <= f (i / 2)) by (apply H1; zlia).
    destruct (Z.eqb_spec c i) as [->|]; [done|]. bfalse (c =? i / 2). etrans; [exact Hup|]. rewrite <- Hci. apply H1; done.
Qed.

Fixpoint sort_down (b : bool) (fuel : nat) (i : Z) (s : rolling_median) : rolling_median :=
  match fuel with
  | O => s
  | S fuel' =>
      if i <=? cnt b s then
        let c := if (i <? cnt b s) && (w b s (i + 1) <? w b s i) then i + 1 else i in
        if w b s c <? w b s (c / 2) then sort_down b fuel' (c * 2) (exch b c (c / 2) s) else s
      else s
  end.

Fixpoint sort_up (b : bool) (fuel : nat) (i : Z) (s : rolling_median) : rolling_median * bool :=
  match fuel with
  | O => (s, i =? 0)
  | S fuel' =>
      if 0 <? i then if w b s i <? w b s (i / 2) then sort_up b fuel' (i / 2) (exch b i (i / 2) s) else (s, i =? 0)
      else (s, i =? 0)
  end.

Lemma quot_half i : 0 <= i -> Z.quot i 2 = i / 2 /\ Z.quot (- i) 2 = - (i / 2).
Proof. intros Hi. rewrite Z.quot_opp_l, Z.quot_div_nonneg by lia. done. Qed.

Lemma mmCmpExch_eq i j s : mmCmpExch i j s = if val s i <? val s j then (mmexchange i j s, true) else (s, false).
Proof. done. Qed.

Lemma ltb_opp x y : (- x <? - y) = (y <? x).
Proof. destruct (Z.ltb_spec (- x) (- y)), (Z.ltb_spec y x); lia || done. Qed.

Lemma minSortDown_eq fuel : forall i s, 0 <= i -> minSortDown_loop fuel i s = sort_down true fuel i s.
Proof.
  induction fuel as [|fuel IH]; intros i s Hi; [done|]. cbn [minSortDown_loop sort_down cnt w]. unfold mmless. fold (val s (i + 1)). fold (val s i).
  destruct (i <=? rm_minCt s); [|done]. destruct (_ && _); [rewrite (proj1 (quot_half (i + 1) ltac:(lia)))|rewrite (proj1 (quot_half i Hi))]; rewrite mmCmpExch_eq;
    destruct (_ <? _); cbn [negb]; rewrite ?IH by lia; done.
Qed.

Lemma maxSortDown_eq fuel : forall i s, 0 <= i -> maxSortDown_loop fuel (- i) s = sort_down false fuel i s.
Proof.
  induction fuel as [|fuel IH]; intros i s Hi; [done|]. cbn [maxSortDown_loop sort_down cnt w]. unfold mmless.
  fold (val s (- i)). fold (val s (- i - 1)). rewrite !ltb_opp. replace (- i - 1) with (- (i + 1)) by lia.
  replace (- rm_maxCt s <=? - i) with (i <=? rm_maxCt s) by (destruct (Z.leb_spec i (rm_maxCt s)); symmetry; [apply Z.leb_le|apply Z.leb_gt]; lia).
  destruct (i <=? rm_maxCt s); [|done].
  destruct (_ && _); [rewrite (proj2 (quot_half (i + 1) ltac:(lia)))|rewrite (proj2 (quot_half i Hi))]; rewrite mmCmpExch_eq, ?ltb_opp; destruct (_ <? _); cbn [negb]; try done;
    rewrite <- IH by lia; f_equal; lia.
Qed.

Lemma minSortUp_eq fuel : forall i s, 0 <= i -> minSortUp_loop fuel i s = sort_up true fuel i s.
Proof.
  induction fuel as [|fuel IH]; intros i s Hi; [done|]. cbn [minSortUp_loop sort_up w]. destruct (0 <? i); [|done].
  rewrite (proj1 (quot_half i Hi)), mmCmpExch_eq. destruct (_ <? _); [|done]. by rewrite IH by zlia.
Qed.

Lemma maxSortUp_eq fuel : forall i s, 0 <= i -> maxSortUp_loop fuel (- i) s = sort_up false fuel i s.
Proof.
  assert (E0 : forall i, (- i =? 0) = (i =? 0)) by (intros i; destruct (Z.eqb_spec (- i) 0), (Z.eqb_spec i 0); lia || done).
  induction fuel as [|fuel IH]; intros i s Hi; cbn [maxSortUp_loop sort_up w]; rewrite E0; [done|].
  replace (- i <? 0) with (0 <? i) by (destruct (Z.ltb_spec 0 i), (Z.ltb_spec (- i) 0); lia || done). destruct (0 <? i); [|done].
  rewrite (proj2 (quot_half i Hi)), mmCmpExch_eq, ltb_opp. destruct (_ <? _); [|done]. by rewrite IH by zlia.
Qed.

(** The range of positions seen from a side. *)
Definition rng (b : bool) (s : rolling_median) (k : Z) : Prop := if b then lo s <= k <= hi s else lo s <= - k <= hi s.

Lemma cnt_rng b s k : counts_ok s -> 0 <= k <= cnt b s -> rng b s k.
Proof. unfold counts_ok, rng, cnt. destruct b; intros; unfold lo, hi in *; zlia. Qed.

Lemma cnt_active b s k : counts_ok s -> 0 <= k <= cnt b s -> active s (if b then k else - k).
Proof. unfold counts_ok, active, cnt. destruct b; lia. Qed.

Lemma exch_w b s i j k : wf s -> rng b s i -> rng b s j -> rng b s k -> w b (exch b i j s) k = w b s (swapz i j k).
Proof.
  intros Hw Hi Hj Hk. unfold rng, w, exch in *. destruct b; rewrite exchange_val by done; [done|]. do 2 f_equal. unfold swapz.
  destruct (Z.eqb_spec (- k) (- j)), (Z.eqb_spec (- k) (- i)), (Z.eqb_spec k i), (Z.eqb_spec k j); lia.
Qed.

Lemma exch_xch b s i j : counts_ok s -> 0 <= i <= cnt b s -> 0 <= j <= cnt b s -> xch s (exch b i j s).
Proof.
  intros Hc Hi Hj. pose proof (cnt_active b s i Hc Hi). pose proof (cnt_active b s j Hc Hj). unfold exch. by destruct b; apply xch_one.
Qed.

Lemma xch_cnt b s s' : xch s s' -> cnt b s' = cnt b s.
Proof. intros H. destruct (xch_frame _ _ H) as (_ & _ & _ & E1 & E2 & _). by destruct b. Qed.

Lemma xch_rng b s s' k : xch s s' -> rng b s' k <-> rng b s k.
Proof. intros H. destruct (xch_bounds _ _ H) as [E1 E2]. unfold rng. by rewrite E1, E2. Qed.

Definition side (b : bool) (s : rolling_median) : Prop := ordered (cnt b s) (w b s).

(** The smaller of the children at [2i] and [2i + 1]. *)
Lemma min_child n i f :
  1 <= i -> i * 2 <= n ->
  let c := if (i * 2 <? n) && (f (i * 2 + 1) <? f (i * 2)) then i * 2 + 1 else i * 2 in
  c / 2 = i /\ c <= n /\ i * 2 <= c /\ forall k, 1 <= k <= n -> k / 2 = i -> f c <= f k.
Proof.
  intros Hi Hn. cbv zeta. destruct (Z.ltb_spec (i * 2) n), (Z.ltb_spec (f (i * 2 + 1)) (f (i * 2))); cbn [andb];
    (split_and!; [zlia|lia|lia|]); intros k Hk Hki; assert (k = i * 2 \/ k = i * 2 + 1) as [-> | ->] by zlia; lia.
Qed.

(** Sifting down repairs a side and leaves the positions before [i] alone. *)
Lemma sort_down_ok b : forall (fuel : nat) i s,
  wf s -> counts_ok s -> 1 <= i -> cnt b s < i * 2 * 2 ^ fuel -> down_hole (cnt b s) i (w b s) ->
  let s' := sort_down b fuel (i * 2) s in
  xch s s' /\ side b s' /\ forall k, rng b s k -> k < i -> w b s' k = w b s k.
Proof.
  induction fuel as [|fuel IH]; intros i s Hw Hc Hi Hf Hh; cbv zeta; cbn [sort_down].
  { split_and!; [constructor| |done]. apply (down_hole_done _ i); [|done]. intros k Hk Hki. simpl in Hf. zlia. }
  destruct (Z.leb_spec (i * 2) (cnt b s)) as [Hle|Hgt].
  2:{ split_and!; [constructor| |done]. apply (down_hole_done _ i); [|done]. intros k Hk Hki. zlia. }
  destruct (min_child (cnt b s) i (w b s) Hi Hle) as (Hci & Hcn & Hc2 & Hmin).
  set (c := if (i * 2 <? cnt b s) && _ then i * 2 + 1 else i * 2) in *. rewrite Hci. destruct (Z.ltb_spec (w b s c) (w b s i)) as [Hlt|Hge].
  2:{ split_and!; [constructor| |done]. apply (down_hole_done _ i); [|done]. intros k Hk Hki. etrans; [exact Hge|by apply Hmin]. }
  pose proof (exch_xch b s c i Hc ltac:(lia) ltac:(lia)) as Hx. set (s1 := exch b c i s) in *.
  assert (Hw1 : forall k, rng b s k -> w b s1 k = w b s (swapz c i k)).
  { intros k Hk. apply exch_w; [done|apply cnt_rng; [done|lia]..|done]. }
  pose proof (xch_cnt b s s1 Hx) as En.
  destruct (IH c s1) as (Hx2 & Hs2 & Hk2); [by apply (xch_wf s)|by apply (xch_counts s)|lia| | |].
  - rewrite En. rewrite Nat2Z.inj_succ, Z.pow_succ_r in Hf by lia. pose proof (Z.pow_pos_nonneg 2 fuel). nia.
  - rewrite En. eapply (down_hole_ext _ c); [lia| |by apply (down_hole_step _ i)]. intros k Hk. symmetry. apply Hw1. by apply cnt_rng.
  - split_and!; [by apply (xch_trans _ s1)|done|]. intros k Hk Hki. rewrite Hk2 by (rewrite ?(xch_rng b s s1); done || lia).
    rewrite Hw1 by done. unfold swapz. bfalse (k =? c). bfalse (k =? i). done.
Qed.

(** Everything but a possible hole is at least the top. *)
Lemma up_hole_top n i f : 0 <= i -> up_hole n i f -> forall k, 0 <= k <= n -> k <> i -> f 0 <= f k \/ i = 0.
Proof.
  intros Hi [H1 H2]. destruct (Z.eq_dec i 0) as [|Hi0]; [by right|].
  assert (H : forall m : nat, forall k, k <= m -> 0 <= k <= n -> k <> i -> f 0 <= f k).
  { induction m as [|m IH]; intros k Hm Hk Hki; [assert (k = 0) as -> by lia; lia|].
    destruct (Z.eq_dec k 0) as [->|]; [lia|]. destruct (Z.eq_dec (k / 2) i) as [E|].
    - transitivity (f (i / 2)); [apply IH; zlia|apply (H2 k); [lia|done|lia]].
    - transitivity (f (k / 2)); [apply IH; [zlia|zlia|done]|apply H1; [lia|done]]. }
  intros k Hk Hki. left. apply (H (Z.to_nat k)); [lia|done..].
Qed.

(** Sifting up repairs a side; either the top is not reached and no other
    position than those of the side changes, or the item is now the top and all
    others are at least the old top. *)
Lemma sort_up_ok b : forall (fuel : nat) i s m,
  wf s -> counts_ok s -> 0 <= i <= cnt b s -> i < 2 ^ fuel -> up_hole (cnt b s) i (w b s) ->
  (forall k, 0 <= k <= cnt b s -> k <> i -> m <= w b s k) ->
  let '(s', top) := sort_up b fuel i s in
  xch s s' /\ side b s' /\ (forall k, rng b s k -> k < 0 -> w b s' k = w b s k) /\
  if top then w b s' 0 = w b s i /\ (forall k, 1 <= k <= cnt b s -> m <= w b s' k) else w b s' 0 = w b s 0 /\ 1 <= i.
Proof.
  induction fuel as [|fuel IH]; intros i s m Hw Hc Hi Hf Hh Hm; cbn [sort_up].
  { assert (i = 0) as -> by (simpl in Hf; lia). change (0 =? 0) with true. cbv iota beta. split_and!; [constructor| |done|done|].
    - intros k Hk. apply (proj1 Hh); lia.
    - intros k Hk. apply Hm; lia. }
  destruct (Z.ltb_spec 0 i) as [Hpos|Hz].
  2:{ assert (i = 0) as -> by lia. change (0 =? 0) with true. cbv iota beta. split_and!; [constructor| |done|done|].
    - intros k Hk. apply (proj1 Hh); lia.
    - intros k Hk. apply Hm; lia. }
  destruct (Z.ltb_spec (w b s i) (w b s (i / 2))) as [Hlt|Hge].
  2:{ bfalse (i =? 0). cbv iota beta. split_and!; [constructor| |done|done|lia]. intros k Hk. destruct (Z.eq_dec k i) as [->|]; [done|by apply (proj1 Hh)]. }
  assert (Hhalf : 0 <= i / 2 <= cnt b s) by zlia.
  pose proof (exch_xch b s i (i / 2) Hc ltac:(lia) Hhalf) as Hx. set (s1 := exch b i (i / 2) s) in *.
  assert (Hw1 : forall k, rng b s k -> w b s1 k = w b s (swapz i (i / 2) k)).
  { intros k Hk. apply exch_w; [done|apply cnt_rng; [done|lia]..|done]. }
  pose proof (xch_cnt b s s1 Hx) as En.
  assert (Hself : w b s1 (i / 2) = w b s i).
  { rewrite Hw1 by (by apply cnt_rng). unfold swapz. rewrite Z.eqb_refl. by destruct (Z.eqb_spec (i / 2) i) as [->|]. }
  specialize (IH (i / 2) s1 m). destruct (sort_up b fuel (i / 2) s1) as [s' top]. destruct IH as (Hx2 & Hs2 & Hk2 & Ht).
  - by apply (xch_wf s).
  - by apply (xch_counts s).
  - by rewrite En.
  - rewrite Nat2Z.inj_succ, Z.pow_succ_r in Hf by lia. zlia.
  - rewrite En. eapply up_hole_ext; [|apply up_hole_step; [lia|done..]]. intros k Hk. symmetry. apply Hw1. by apply cnt_rng.
  - rewrite En. intros k Hk Hki. rewrite Hw1 by (by apply cnt_rng). unfold swapz. destruct (Z.eqb_spec k i); [apply Hm; zlia|].
    bfalse (k =? i / 2). by apply Hm.
  - split_and!; [by apply (xch_trans _ s1)|done| |].
    + intros k Hk Hk0. rewrite Hk2 by (rewrite ?(xch_rng b s s1); done). rewrite Hw1 by done. unfold swapz. bfalse (k =? i). by bfalse (k =? i / 2).
    + rewrite En in Ht. destruct top; [by rewrite <- Hself|]. destruct Ht as [Ht Hi1]. split; [|lia]. rewrite Ht, Hw1 by (apply cnt_rng; [done|lia]).
      unfold swapz. bfalse (0 =? i). by bfalse (0 =? i / 2).
Qed.

(** *** The top of both sides *)

(** The order of a side below its first position. *)
Definition rest (b : bool) (s : rolling_median) : Prop := forall k, 2 <= k <= cnt b s -> w b s (k / 2) <= w b s k.

Lemma w_flip b s k : w (negb b) s k = - w b s (- k).
Proof. destruct b; cbn [negb w]; by rewrite ?Z.opp_involutive. Qed.

Lemma rng_flip b s k : rng (negb b) s k <-> rng b s (- k).
Proof. destruct b; cbn [negb rng]; [done|]. by rewrite Z.opp_involutive. Qed.

Lemma side_rest b s : side b s <-> rest b s /\ (1 <= cnt b s -> w b s 0 <= w b s 1).
Proof.
  split.
  - intros H. split; [intros k Hk; apply H; lia|]. intros H1. apply (H 1). lia.
  - intros [H1 H2] k Hk. destruct (Z.eq_dec k 1) as [->|]; [by apply H2; lia|]. apply H1. lia.
Qed.

(** Exchange the median with the first position of a side if they are out of
    order, and sift it down there. *)
Definition top_fix (b : bool) (s : rolling_median) : rolling_median :=
  if w b s 1 <? w b s 0 then sort_down b sort_fuel 2 (exch b 1 0 s) else s.

Lemma cnt_lt_fuel b s : wf s -> counts_ok s -> 0 <= cnt b s < 2 ^ 27.
Proof. intros [] [H1 H2]. unfold cnt, lo, hi in *. destruct b; zlia. Qed.

(** Agreement of the other side when only non-negative positions of [b] change. *)
Lemma other_rest b s s' :
  xch s s' -> counts_ok s -> (forall k, rng b s k -> k < 0 -> w b s' k = w b s k) -> rest (negb b) s -> rest (negb b) s'.
Proof.
  intros Hx Hc Hw H k Hk. rewrite (xch_cnt _ s s') in Hk by done. specialize (H k Hk). rewrite !w_flip in H |- *.
  rewrite !Hw; [done| |zlia| |zlia]; apply rng_flip, cnt_rng; done || zlia.
Qed.

Lemma top_fix_ok b s :
  wf s -> counts_ok s -> 1 <= cnt b s -> rest b s -> rest (negb b) s ->
  (1 <= cnt (negb b) s -> - w b s 1 <= w (negb b) s 1) ->
  let s' := top_fix b s in
  xch s s' /\ side b s' /\ rest (negb b) s' /\ (1 <= cnt (negb b) s -> - w b s' 1 <= w (negb b) s' 1) /\
  (side (negb b) s -> side (negb b) s').
Proof.
  intros Hw Hc H1 Hr Hr' Ha. cbv zeta. unfold top_fix. destruct (Z.ltb_spec (w b s 1) (w b s 0)) as [Hlt|Hge].
  2:{ split_and!; [constructor| |done..]. apply side_rest. done. }
  pose proof (exch_xch b s 1 0 Hc ltac:(lia) ltac:(lia)) as Hx. set (s1 := exch b 1 0 s) in *.
  assert (Hw1 : forall k, rng b s k -> w b s1 k = w b s (swapz 1 0 k)).
  { intros k Hk. apply exch_w; [done|apply cnt_rng; [done|lia]..|done]. }
  pose proof (xch_cnt b s s1 Hx) as En. pose proof (cnt_lt_fuel b s Hw Hc).
  destruct (sort_down_ok b sort_fuel 1 s1) as (Hx2 & Hs2 & Hk2); [by apply (xch_wf s)|by apply (xch_counts s)|lia|rewrite En; change (1 * 2 * 2 ^ sort_fuel) with (2 ^ 32); lia| |].
  { rewrite En. split.
    - intros k Hk Hk2. rewrite !Hw1 by (apply cnt_rng; done || zlia).
      destruct (Z.eq_dec k 1) as [->|]; [change (swapz 1 0 (1 / 2)) with 1; change (swapz 1 0 1) with 0; lia|].
      unfold swapz. bfalse (k =? 1). bfalse (k =? 0). bfalse (k / 2 =? 1). bfalse (k / 2 =? 0). apply Hr. lia.
    - intros c Hcn Hc2. rewrite !Hw1 by (apply cnt_rng; done || zlia). unfold swapz. bfalse (c =? 1). bfalse (c =? 0).
      change (1 / 2 =? 1) with false. change (1 / 2 =? 0) with true. cbv iota. rewrite <- Hc2. apply Hr. zlia. }
  change (1 * 2) with 2 in *. set (s' := sort_down b sort_fuel 2 s1) in *.
  assert (Hx' : xch s s') by (by apply (xch_trans _ s1)). assert (Hrng0 : rng b s 0) by (apply cnt_rng; [done|lia]).
  assert (Hneg : forall k, rng b s k -> k < 0 -> w b s' k = w b s k).
  { intros k Hk Hk0. rewrite Hk2 by (rewrite ?(xch_rng b s s1); done || lia). rewrite Hw1 by done. unfold swapz. bfalse (k =? 1). by bfalse (k =? 0). }
  assert (Htop : w b s' 0 = w b s 1).
  { rewrite Hk2 by (rewrite ?(xch_rng b s s1); done || lia). by rewrite Hw1. }
  pose proof (other_rest b s s' Hx' Hc Hneg Hr') as Hro.
  assert (Hfst : 1 <= cnt (negb b) s -> w (negb b) s' 1 = w (negb b) s 1).
  { intros Hn. rewrite !w_flip. rewrite Hneg; [done| |lia]. apply rng_flip, cnt_rng; done. }
  split_and!; [done|done|done| |].
  - intros Hn. rewrite Hfst by done. pose proof (Hs2 1) as H01. rewrite (xch_cnt b s s') in H01 by done. change (1 / 2) with 0 in H01.
    specialize (Ha Hn). lia.
  - intros Hsn. apply side_rest. split; [done|]. rewrite (xch_cnt _ s s') by done. intros Hn. rewrite Hfst by done.
    rewrite w_flip. change (- 0) with 0. rewrite Htop. by apply Ha.
Qed.

(** The other side is unchanged when the median and all positions beyond it are. *)
Lemma other_side b s s' :
  xch s s' -> counts_ok s -> (forall k, rng b s k -> k < 1 -> w b s' k = w b s k) -> side (negb b) s -> side (negb b) s'.
Proof.
  intros Hx Hc Hw H k Hk. rewrite (xch_cnt _ s s') in Hk by done. specialize (H k Hk). rewrite !w_flip in H |- *.
  rewrite !Hw; [done| |zlia| |zlia]; apply rng_flip, cnt_rng; done || zlia.
Qed.

Definition insert_side (b : bool) (i : Z) (up : bool) (s : rolling_median) : rolling_median :=
  if up then
    let '(s, top) := sort_up b sort_fuel i s in
    if top && negb (cnt (negb b) s =? 0) then top_fix (negb b) s else s
  else sort_down b sort_fuel (i * 2) s.

Lemma insert_side_ok b i (up : bool) s :
  wf s -> counts_ok s -> 1 <= i <= cnt b s -> side (negb b) s ->
  (if up then up_hole (cnt b s) i (w b s) else down_hole (cnt b s) i (w b s)) ->
  let s' := insert_side b i up s in xch s s' /\ side b s' /\ side (negb b) s'.
Proof.
  intros Hw Hc Hi Hn Hh. cbv zeta. unfold insert_side. pose proof (cnt_lt_fuel b s Hw Hc) as Hb. destruct up.
  - pose proof (sort_up_ok b sort_fuel i s (w b s 0) Hw Hc ltac:(lia)) as Hup.
    specialize (Hup ltac:(change (2 ^ sort_fuel) with (2 ^ 31); lia) Hh).
    destruct (sort_up b sort_fuel i s) as [s1 top]. destruct Hup as (Hx & Hs & Hneg & Ht).
    { intros k Hk Hki. destruct (up_hole_top _ i _ ltac:(lia) Hh k Hk Hki); lia. }
    assert (Hfst : 1 <= cnt (negb b) s -> w (negb b) s1 1 = w (negb b) s 1).
    { intros H1. rewrite !w_flip. rewrite Hneg; [done| |lia]. apply rng_flip, cnt_rng; done. }
    rewrite (xch_cnt (negb b) s s1) by done. destruct top; cbn [andb].
    + destruct Ht as [Ht0 Ht1]. pose proof (cnt_lt_fuel (negb b) s Hw Hc) as Hbn. destruct (Z.eqb_spec (cnt (negb b) s) 0) as [E0|Hne]; cbn [negb].
      { split_and!; [done..|]. intros k Hk. rewrite (xch_cnt _ s s1), E0 in Hk by done. lia. }
      assert (Hr : rest (negb b) s1) by (apply (other_rest b s); [done..|]; by apply side_rest).
      destruct (top_fix_ok (negb b) s1) as (Hx2 & Hs2 & _ & _ & Hs3); rewrite ?negb_involutive in *.
      * by apply (xch_wf s).
      * by apply (xch_counts s).
      * rewrite (xch_cnt _ s s1) by done. lia.
      * done.
      * by apply side_rest.
      * intros _. rewrite Hfst by lia. etrans; [|apply Ht1; lia]. apply side_rest in Hn as [_ Hn]. specialize (Hn ltac:(lia)).
        rewrite w_flip in Hn at 1. change (- 0) with 0 in Hn. lia.
      * split_and!; [by apply (xch_trans _ s1)|by apply Hs3|done].
    + destruct Ht as [Ht0 _]. split_and!; [done..|]. apply (other_side b s); [done..| |done]. intros k Hk Hk1.
      destruct (Z.eq_dec k 0) as [->|]; [done|apply Hneg; done || lia].
  - destruct (sort_down_ok b sort_fuel i s) as (Hx & Hs & Hk); [done|done|lia|change (2 ^ sort_fuel) with (2 ^ 31); nia|done|].
    split_and!; [done..|]. apply (other_side b s); [done..| |done]. intros k Hk1 Hk2. apply Hk; [done|lia].
Qed.

Lemma top_fix_false s : top_fix false s = let '(s, exchanged) := mmCmpExch 0 (-1) s in if exchanged then maxSortDown (-1) s else s.
Proof.
  rewrite mmCmpExch_eq. unfold top_fix, maxSortDown. cbn [w exch]. rewrite ltb_opp. change (- 0) with 0. change (- (1)) with (-1).
  destruct (val s 0 <? val s (-1)); [|done]. by rewrite <- (maxSortDown_eq sort_fuel 2) by lia.
Qed.

Lemma top_fix_true s : top_fix true s = let '(s, exchanged) := mmCmpExch 1 0 s in if exchanged then minSortDown 1 s else s.
Proof.
  rewrite mmCmpExch_eq. unfold top_fix, minSortDown. cbn [w exch].
  destruct (val s 1 <? val s 0); [|done]. by rewrite <- (minSortDown_eq sort_fuel 2) by lia.
Qed.

Lemma sort_up_cnt b c fuel : forall i s, cnt c (fst (sort_up b fuel i s)) = cnt c s.
Proof.
  induction fuel as [|fuel IH]; intros i s; cbn [sort_up]; [done|]. destruct (0 <? i); [|done]. destruct (_ <? _); [|done].
  rewrite IH. unfold exch. by destruct b.
Qed.

Lemma insert_min_eq p v old s :
  1 <= p -> 1 <= rm_maxCt s -> let grow := rm_minCt s <? (rm_N s - 1) / 2 in
  insert_min p v old s =
  insert_side true p (grow || negb (old <? v)) (if grow then set_counts s (rm_minCt s + 1) (rm_maxCt s) else s).
Proof.
  intros Hp Hm grow. unfold insert_min, insert_side, minSortUp, minSortDown. fold grow. set (s1 := if grow then _ else s).
  assert (Em : rm_maxCt s1 = rm_maxCt s) by (unfold s1; by destruct grow).
  replace (negb grow && (old <? v)) with (negb (grow || negb (old <? v))) by (by destruct grow, (old <? v)).
  destruct (grow || negb (old <? v)); cbn [negb]; [|apply minSortDown_eq; lia]. rewrite minSortUp_eq by lia.
  pose proof (sort_up_cnt true false sort_fuel p s1) as Ec. destruct (sort_up true sort_fuel p s1) as [s2 top]. cbn [cnt fst negb] in Ec |- *.
  bfalse (rm_maxCt s2 =? 0). rewrite top_fix_false. by destruct top.
Qed.

Lemma insert_max_eq p v old s :
  1 <= p -> let grow := rm_maxCt s <? rm_N s / 2 in
  insert_max (- p) v old s =
  insert_side false p (grow || negb (v <? old)) (if grow then set_counts s (rm_minCt s) (rm_maxCt s + 1) else s).
Proof.
  intros Hp grow. unfold insert_max, insert_side, maxSortUp, maxSortDown. fold grow. set (s1 := if grow then _ else s).
  replace (negb grow && (v <? old)) with (negb (grow || negb (v <? old))) by (by destruct grow, (v <? old)).
  destruct (grow || negb (v <? old)); cbn [negb]; [|replace (- p * 2) with (- (p * 2)) by lia; apply maxSortDown_eq; lia].
  rewrite maxSortUp_eq by lia. destruct (sort_up false sort_fuel p s1) as [s2 top]. by rewrite top_fix_true.
Qed.

(** A single step up from the first position is the top fix. *)
Lemma up_one_false s : (let '(s, top) := maxSortUp (-1) s in if top then maxSortDown (-1) s else s) = top_fix false s.
Proof.
  rewrite top_fix_false. change (maxSortUp (-1) s) with (let '(s, ex) := mmCmpExch 0 (-1) s in if ex then (s, true) else (s, false)).
  rewrite mmCmpExch_eq. by destruct (val s 0 <? val s (-1)).
Qed.

Lemma up_one_true s : (let '(s, top) := minSortUp 1 s in if top then minSortDown 1 s else s) = top_fix true s.
Proof.
  rewrite top_fix_true. change (minSortUp 1 s) with (let '(s, ex) := mmCmpExch 1 0 s in if ex then (s, true) else (s, false)).
  rewrite mmCmpExch_eq. by destruct (val s 1 <? val s 0).
Qed.

Lemma insert_mid_ok s :
  wf s -> counts_ok s -> rm_minCt s <= rm_maxCt s -> rest true s -> rest false s -> (1 <= rm_minCt s -> val s (-1) <= val s 1) ->
  xch s (insert_mid s) /\ side true (insert_mid s) /\ side false (insert_mid s).
Proof.
  intros Hw Hc Hle Hrt Hrf Hm. unfold insert_mid. rewrite up_one_false. pose proof Hc as [Hc1 Hc2].
  destruct (Z.eqb_spec (rm_maxCt s) 0) as [E0|Hne]; cbn [negb].
  { btrue (rm_minCt s =? 0). cbn [negb]. split_and!; [constructor|intros k Hk; unfold cnt in Hk; lia..]. }
  destruct (top_fix_ok false s Hw Hc ltac:(simpl; lia) Hrf Hrt) as (Hx & Hs & Hr & Hedge & _).
  { cbn [cnt negb w]. change (- (1)) with (-1). intros H1. specialize (Hm H1). lia. }
  set (s1 := top_fix false s) in *. rewrite up_one_true. destruct (xch_frame _ _ Hx) as (_ & _ & _ & Em & EM & _). rewrite Em.
  destruct (Z.eqb_spec (rm_minCt s) 0) as [E1|Hne1]; cbn [negb].
  { split_and!; [done| |done]. intros k Hk. unfold cnt in Hk. lia. }
  destruct (top_fix_ok true s1) as (Hx2 & Hs2 & _ & _ & Hs3); [by apply (xch_wf s)|by apply (xch_counts s)|simpl; lia|done|by apply side_rest| |].
  - cbn [negb cnt] in *. intros _. specialize (Hedge ltac:(lia)). lia.
  - split_and!; [by apply (xch_trans _ s1)|done|by apply Hs3].
Qed.

(** *** The invariant of the structure *)

Lemma fill_pos_eq k : 0 <= k -> fill_pos k = if k mod 2 =? 0 then k / 2 else - ((k + 1) / 2).
Proof.
  intros Hk. unfold fill_pos. assert (Z.land k 1 = k mod 2) as -> by exact (Z.land_ones k 1 ltac:(lia)).
  destruct (Z.eqb_spec (k mod 2) 0); zlia.
Qed.

(** [vs] are the items inserted since the last [clear]. *)
Record inv (s : rolling_median) (vs : list Z) : Prop := {
  inv_wf : wf s;
  inv_sz : rm_sz s = Z.min (rm_N s) (length vs);
  inv_idx : rm_idx s = length vs mod rm_N s;
  inv_max : rm_maxCt s = rm_sz s / 2;
  inv_min : rm_minCt s = Z.max 0 ((rm_sz s - 1) / 2);
  inv_fill : forall k, rm_sz s <= k < rm_N s -> pos_at s k = fill_pos k;
  inv_act : forall k, 0 <= k < rm_sz s -> active s (pos_at s k);
  inv_true : side true s;
  inv_false : side false s;
  inv_data : forall j : nat, (j < length vs)%nat -> length vs <= j + rm_N s -> data_at s (j mod rm_N s) = nth j vs 0;
}.

Lemma inv_counts s vs : inv s vs -> counts_ok s.
Proof.
  intros [Hw Hsz _ Hmax Hmin _ _ _ _ _]. pose proof (wf_N s Hw). unfold counts_ok, lo, hi. rewrite Hmax, Hmin, Hsz. zlia.
Qed.

Lemma inv_idx_range s vs : inv s vs -> 0 <= rm_idx s < rm_N s.
Proof. intros H. pose proof (wf_N s (inv_wf _ _ H)). rewrite (inv_idx _ _ H). apply Z.mod_pos_bound. lia. Qed.

(** The item is written before the heap is repaired. *)
Definition put (v : Z) (s : rolling_median) : rolling_median :=
  mk_rm (<[Z.to_nat (rm_idx s) := v]> (rm_data s)) (rm_pos s) (rm_heap s) (rm_N s)
    (Z.rem (rm_idx s + 1) (rm_N s)) (rm_minCt s) (rm_maxCt s) (Z.min (rm_sz s + 1) (rm_N s)).

Lemma put_wf v s : wf s -> wf (put v s).
Proof. intros []. split; cbn [put rm_N rm_data rm_pos rm_heap]; rewrite ?length_insert; done. Qed.

Lemma counts_wf s m M : wf s -> wf (set_counts s m M).
Proof. by intros []. Qed.

Lemma put_val v s i :
  wf s -> 0 <= rm_idx s < rm_N s -> lo s <= i <= hi s -> val (put v s) i = if i =? pos_at s (rm_idx s) then v else val s i.
Proof.
  intros Hw Hidx Hi. unfold val, data_at at 1. change (heap_at (put v s) i) with (heap_at s i). cbn [put rm_data].
  destruct (wf_heap_pos s Hw i Hi) as [Hr Hp]. pose proof (wf_data s Hw).
  rewrite nth_insert_Z by lia.
  rewrite (bool_decide_ext _ (Z.to_nat (heap_at s i) = Z.to_nat (rm_idx s))) by done. rewrite pos_eqb, Z.eqb_sym by done. done.
Qed.

Lemma counts_val s m M i : val (set_counts s m M) i = val s i.
Proof. done. Qed.

(** The side [b] without the new item: the item is a hole of it, at its end when
    the side grows. *)
Lemma grow_hole n f g : ordered n f -> 0 <= n -> (forall k, 0 <= k <= n -> g k = f k) -> up_hole (n + 1) (n + 1) g.
Proof. intros H Hn E. split; [|intros; zlia]. intros k Hk Hne. rewrite !E by zlia. apply H. lia. Qed.

Lemma ordered_ext n f g : (forall k, 0 <= k <= n -> g k = f k) -> ordered n f -> ordered n g.
Proof. intros E H k Hk. rewrite !E by zlia. by apply H. Qed.

Lemma replace_hole n i f g :
  1 <= i <= n -> ordered n f -> (forall k, 0 <= k <= n -> k <> i -> g k = f k) ->
  (g i <= f i -> up_hole n i g) /\ (f i <= g i -> down_hole n i g).
Proof.
  intros Hi H E. split; intros Hv.
  - split.
    + intros k Hk Hne. rewrite (E k) by lia. destruct (Z.eq_dec (k / 2) i) as [Ei|]; [|rewrite E by zlia; by apply H].
      rewrite Ei. etrans; [exact Hv|]. rewrite <- Ei. by apply H.
    + intros c Hc Hci _. rewrite (E c), (E (i / 2)) by zlia. transitivity (f i); [apply H; lia|]. rewrite <- Hci. by apply H.
  - split.
    + intros k Hk Hne. rewrite (E (k / 2)) by zlia. destruct (Z.eq_dec k i) as [->|]; [|rewrite E by lia; by apply H].
      etrans; [by apply H|done].
    + intros c Hc Hci. rewrite (E c), (E (i / 2)) by zlia. transitivity (f i); [apply H; lia|]. rewrite <- Hci. by apply H.
Qed.

Definition grown (b : bool) (s : rolling_median) : rolling_median :=
  if b then set_counts s (rm_minCt s + 1) (rm_maxCt s) else set_counts s (rm_minCt s) (rm_maxCt s + 1).

(** The state with the item in place and its side grown if there was room. *)
Definition placed (b grow : bool) (v : Z) (s : rolling_median) : rolling_median := if grow then grown b (put v s) else put v s.

Lemma placed_w (b c grow : bool) i v s k :
  wf s -> 0 <= rm_idx s < rm_N s -> pos_at s (rm_idx s) = (if b then i else - i) -> rng c s k ->
  w c (placed b grow v s) k = if k =? (if Bool.eqb b c then i else - i) then (if c then v else - v) else w c s k.
Proof.
  intros Hw Hidx Hp Hk. assert (E : w c (placed b grow v s) k = w c (put v s) k) by (unfold placed, grown, w; by destruct grow, b). rewrite E.
  unfold w. unfold rng in Hk. destruct c; rewrite put_val, Hp by done; destruct b; cbn [Bool.eqb]; try done.
  - destruct (Z.eqb_spec (- k) i), (Z.eqb_spec k (- i)); lia || done.
  - destruct (Z.eqb_spec (- k) (- i)), (Z.eqb_spec k i); lia || done.
Qed.

Lemma placed_ok (b grow up : bool) i v s vs :
  inv s vs -> 1 <= i -> pos_at s (rm_idx s) = (if b then i else - i) ->
  (if grow then i = cnt b s + 1 /\ up = true else
     i <= cnt b s /\ if up then (if b then v else - v) <= w b s i else w b s i <= (if b then v else - v)) ->
  let s1 := placed b grow v s in let s' := insert_side b i up s1 in
  wf s1 /\ counts_ok s1 /\ xch s1 s' /\ side b s' /\ side (negb b) s'.
Proof.
  intros Hv Hi Hp Hcase. cbv zeta. pose proof (inv_wf _ _ Hv) as Hw. pose proof (inv_counts _ _ Hv) as Hc. pose proof (inv_idx_range _ _ Hv) as Hidx.
  assert (Hw1 : wf (placed b grow v s)).
  { unfold placed, grown. pose proof (put_wf v s Hw). destruct grow, b; by try apply counts_wf. }
  destruct (wf_pos_heap s Hw _ Hidx) as [Hr _]. rewrite Hp in Hr.
  assert (Hcnt : cnt b (placed b grow v s) = if grow then i else cnt b s).
  { unfold placed, grown. destruct grow, b; cbn [cnt set_counts put rm_minCt rm_maxCt] in *; lia. }
  assert (Hcnt' : cnt (negb b) (placed b grow v s) = cnt (negb b) s) by (unfold placed, grown; by destruct grow, b).
  assert (Hc1 : counts_ok (placed b grow v s)).
  { unfold counts_ok in *. destruct grow; [|done]. unfold placed, grown. destruct b, Hcase as [Hcase _];
      cbn [cnt set_counts put rm_minCt rm_maxCt] in *; unfold lo, hi in *; cbn [set_counts put rm_N]; lia. }
  assert (Hb : forall k, 0 <= k <= cnt b s -> k <> i -> w b (placed b grow v s) k = w b s k).
  { intros k Hk Hki. rewrite (placed_w b b grow i) by (done || by apply cnt_rng). rewrite Bool.eqb_reflx. by bfalse (k =? i). }
  assert (Hoth : side (negb b) (placed b grow v s)).
  { unfold side. rewrite Hcnt'. apply (ordered_ext _ (w (negb b) s)).
    - intros k Hk. rewrite (placed_w b (negb b) grow i) by (done || by apply cnt_rng). rewrite Bool.eqb_negb2. bfalse (k =? - i). done.
    - destruct b; [apply (inv_false _ _ Hv)|apply (inv_true _ _ Hv)]. }
  assert (Hside : ordered (cnt b s) (w b s)) by (destruct b; [apply (inv_true _ _ Hv)|apply (inv_false _ _ Hv)]).
  assert (Hself : w b (placed b grow v s) i = if b then v else - v).
  { rewrite (placed_w b b grow i) by (done || (unfold rng; destruct b; lia)). by rewrite Bool.eqb_reflx, Z.eqb_refl. }
  pose proof (cnt_lt_fuel b s Hw Hc) as Hcb. split; [done|]. split; [done|]. apply insert_side_ok; [done|done| |done|].
  - rewrite Hcnt. destruct grow; lia.
  - rewrite Hcnt. destruct grow.
    + destruct Hcase as [-> ->]. apply (grow_hole _ (w b s)); [done|lia|]. intros k Hk. apply Hb; lia.
    + destruct Hcase as [Hin Hup]. destruct (replace_hole (cnt b s) i (w b s) (w b (placed b false v s))) as [H1 H2]; [lia|done..|].
      destruct up; [apply H1|apply H2]; by rewrite Hself.
Qed.

(** [insert] is a placement followed by exchanges that restore both sides. *)
Record repaired (v : Z) (s s1 s' : rolling_median) : Prop := {
  rp_wf : wf s1;
  rp_counts : counts_ok s1;
  rp_xch : xch s1 s';
  rp_true : side true s';
  rp_false : side false s';
  rp_pos : rm_pos s1 = rm_pos s;
  rp_put : rm_data s1 = rm_data (put v s) /\ rm_N s1 = rm_N s /\ rm_idx s1 = rm_idx (put v s) /\ rm_sz s1 = rm_sz (put v s);
  rp_max : rm_maxCt s1 = rm_sz (put v s) / 2;
  rp_min : rm_minCt s1 = Z.max 0 ((rm_sz (put v s) - 1) / 2);
}.

Lemma insert_unfold v s :
  insert v s = let p := pos_at s (rm_idx s) in let old := data_at s (rm_idx s) in
    if 0 <? p then insert_min p v old (put v s) else if p <? 0 then insert_max p v old (put v s) else insert_mid (put v s).
Proof. done. Qed.

(** The value replaced by a full structure. *)
Lemma old_val s vs : inv s vs -> data_at s (rm_idx s) = val s (pos_at s (rm_idx s)).
Proof. intros H. unfold val. by rewrite (proj2 (wf_pos_heap s (inv_wf _ _ H) _ (inv_idx_range _ _ H))). Qed.

(** Where the next item goes. *)
Lemma next_pos s vs :
  inv s vs -> let p := pos_at s (rm_idx s) in
  (rm_sz s < rm_N s /\ rm_idx s = rm_sz s /\ p = fill_pos (rm_sz s)) \/ (rm_sz s = rm_N s /\ active s p).
Proof.
  intros H. cbv zeta. pose proof (inv_wf _ _ H) as Hw. pose proof (wf_N s Hw) as HN. pose proof (inv_sz _ _ H) as Hsz. pose proof (inv_idx _ _ H) as Hidx.
  destruct (Z.lt_ge_cases (rm_sz s) (rm_N s)) as [Hlt|Hge].
  - left. assert (Hi : rm_idx s = rm_sz s) by (rewrite Hidx, Hsz, Z.mod_small; lia). split_and!; [done..|]. rewrite Hi. apply (inv_fill _ _ H). lia.
  - right. split; [lia|]. apply (inv_act _ _ H). pose proof (inv_idx_range _ _ H). lia.
Qed.

Lemma repaired_min v s vs : inv s vs -> 0 < pos_at s (rm_idx s) -> exists s1, repaired v s s1 (insert v s).
Proof.
  intros H Hp. pose proof (inv_wf _ _ H) as Hw. pose proof (wf_N s Hw) as HN. pose proof (inv_max _ _ H) as HM. pose proof (inv_min _ _ H) as Hm.
  pose proof (inv_sz _ _ H) as Hsz. rewrite insert_unfold. cbv zeta. btrue (0 <? pos_at s (rm_idx s)). rewrite (old_val s vs H).
  set (p := pos_at s (rm_idx s)) in *. set (grow := rm_minCt s <? (rm_N s - 1) / 2).
  assert (Hcase : (rm_sz s < rm_N s /\ grow = true /\ p = rm_minCt s + 1 /\ rm_sz s mod 2 = 0 /\ 2 <= rm_sz s) \/
                  (rm_sz s = rm_N s /\ grow = false /\ p <= rm_minCt s)).
  { unfold grow. destruct (next_pos s vs H) as [(Hlt & Hi & E)|(E & Ha)]; fold p in E || fold p in Ha.
    - left. rewrite fill_pos_eq in E by lia. destruct (Z.eqb_spec (rm_sz s mod 2) 0); [|zlia]. split_and!; [lia|apply Z.ltb_lt; zlia|zlia|done|zlia].
    - right. unfold active in Ha. split_and!; [lia|apply Z.ltb_ge; zlia|lia]. }
  assert (HM1 : 1 <= rm_maxCt s) by (unfold grow in Hcase; destruct Hcase as [Hcase|(E & Hg & Hle)]; zlia).
  exists (placed true grow v s). rewrite insert_min_eq by (done || lia). change (rm_minCt (put v s) <? (rm_N (put v s) - 1) / 2) with grow.
  change (if grow then set_counts (put v s) (rm_minCt (put v s) + 1) (rm_maxCt (put v s)) else put v s) with (placed true grow v s).
  destruct (placed_ok true grow (grow || negb (val s p <? v)) p v s vs H) as (H1 & H2 & H3 & H4 & H5); [lia|done| |].
  { destruct Hcase as [(_ & -> & E & _)|(_ & -> & Hle)]; [done|]. split; [done|]. cbn [orb w]. destruct (Z.ltb_spec (val s p) v); cbn [negb]; lia. }
  split; try done; unfold placed, grown; destruct grow; try done; cbn [set_counts put rm_minCt rm_maxCt rm_sz]; destruct Hcase as [Hcase|Hcase]; zlia.
Qed.

Lemma repaired_max v s vs : inv s vs -> pos_at s (rm_idx s) < 0 -> exists s1, repaired v s s1 (insert v s).
Proof.
  intros H Hp. pose proof (inv_wf _ _ H) as Hw. pose proof (wf_N s Hw) as HN. pose proof (inv_max _ _ H) as HM. pose proof (inv_min _ _ H) as Hm.
  pose proof (inv_sz _ _ H) as Hsz. rewrite insert_unfold. cbv zeta. bfalse (0 <? pos_at s (rm_idx s)). btrue (pos_at s (rm_idx s) <? 0). rewrite (old_val s vs H).
  remember (- pos_at s (rm_idx s)) as p eqn:Ep. assert (Ep' : pos_at s (rm_idx s) = - p) by lia. rewrite Ep'. set (grow := rm_maxCt s <? rm_N s / 2).
  assert (Hcase : (rm_sz s < rm_N s /\ grow = true /\ p = rm_maxCt s + 1 /\ rm_sz s mod 2 = 1) \/
                  (rm_sz s = rm_N s /\ grow = false /\ p <= rm_maxCt s)).
  { unfold grow. destruct (next_pos s vs H) as [(Hlt & Hi & E)|(E & Ha)]; rewrite Ep' in *.
    - left. rewrite fill_pos_eq in E by lia. destruct (Z.eqb_spec (rm_sz s mod 2) 0); [zlia|]. split_and!; [lia|apply Z.ltb_lt; zlia|zlia|zlia].
    - right. unfold active in Ha. split_and!; [lia|apply Z.ltb_ge; zlia|lia]. }
  exists (placed false grow v s). rewrite insert_max_eq by lia. change (rm_maxCt (put v s) <? rm_N (put v s) / 2) with grow.
  change (if grow then set_counts (put v s) (rm_minCt (put v s)) (rm_maxCt (put v s) + 1) else put v s) with (placed false grow v s).
  destruct (placed_ok false grow (grow || negb (v <? val s (- p))) p v s vs H) as (H1 & H2 & H3 & H4 & H5); [lia|done| |].
  { destruct Hcase as [(_ & -> & E & _)|(_ & -> & Hle)]; [done|]. split; [done|]. cbn [orb w]. destruct (Z.ltb_spec v (val s (- p))); cbn [negb]; lia. }
  split; try done; unfold placed, grown; destruct grow; try done; cbn [set_counts put rm_minCt rm_maxCt rm_sz]; destruct Hcase as [Hcase|Hcase]; zlia.
Qed.

Lemma repaired_mid v s vs : inv s vs -> pos_at s (rm_idx s) = 0 -> exists s1, repaired v s s1 (insert v s).
Proof.
  intros H Hp. pose proof (inv_wf _ _ H) as Hw. pose proof (wf_N s Hw) as HN. pose proof (inv_max _ _ H) as HM. pose proof (inv_min _ _ H) as Hm.
  pose proof (inv_sz _ _ H) as Hsz. rewrite insert_unfold. cbv zeta. rewrite Hp. change (0 <? 0) with false. cbv iota. exists (put v s).
  pose proof (inv_counts _ _ H) as Hc. assert (Hc0 : counts_ok (put v s)) by done.
  assert (Hv : forall b k, 1 <= k <= cnt b s -> w b (put v s) k = w b s k).
  { intros b k Hk. change (put v s) with (placed true false v s). rewrite (placed_w true b false 0); [|done|by apply (inv_idx_range s vs)|done|apply cnt_rng; [done|lia]].
    destruct b; cbn [Bool.eqb]; change (- 0) with 0; by bfalse (k =? 0). }
  assert (Hrest : forall b, side b s -> rest b (put v s)).
  { intros b Hb k Hk. change (cnt b (put v s)) with (cnt b s) in Hk. rewrite !Hv by zlia. apply Hb. lia. }
  destruct (insert_mid_ok (put v s)) as (H3 & H4 & H5).
  - by apply put_wf.
  - done.
  - cbn [put rm_minCt rm_maxCt]. zlia.
  - apply Hrest, H.
  - apply Hrest, H.
  - cbn [put rm_minCt]. intros H1. pose proof (Hv true 1) as E1. pose proof (Hv false 1) as E2. cbn [w cnt] in E1, E2. change (- (1)) with (-1) in E2.
    pose proof (inv_true _ _ H 1) as T. pose proof (inv_false _ _ H 1) as F. cbn [w cnt] in T, F. change (1 / 2) with 0 in *. change (- (1)) with (-1) in F. change (- 0) with 0 in F.
    assert (1 <= rm_maxCt s) by zlia. lia.
  - assert (Hcase : rm_sz s = 0 \/ rm_sz s = rm_N s).
    { destruct (next_pos s vs H) as [(Hlt & Hi & E)|(E & _)]; [|by right]. rewrite Hp, fill_pos_eq in E by lia. destruct (Z.eqb_spec (rm_sz s mod 2) 0); zlia. }
    split; try done; [by apply put_wf|cbn [put rm_maxCt rm_sz]; zlia|cbn [put rm_minCt rm_sz]; zlia].
Qed.

Lemma mod_window N a b : 0 < N -> 0 < a - b < N -> a mod N <> b mod N.
Proof.
  intros HN Hab E. assert (H : (a - b) mod N = 0) by (rewrite Zminus_mod, E, Z.sub_diag; apply Z.mod_0_l; lia).
  rewrite Z.mod_small in H by lia. lia.
Qed.

Lemma put_data v s vs (j : nat) :
  inv s vs -> (j < length (vs ++ [v]))%nat -> length (vs ++ [v]) <= j + rm_N s ->
  nth (Z.to_nat (j mod rm_N s)) (rm_data (put v s)) 0 = nth j (vs ++ [v]) 0.
Proof.
  intros H Hj HjN. rewrite length_app in Hj, HjN. simpl in Hj, HjN. pose proof (wf_N s (inv_wf _ _ H)) as HN. pose proof (wf_data s (inv_wf _ _ H)).
  pose proof (inv_idx_range _ _ H) as Hi. pose proof (Z.mod_pos_bound j (rm_N s) ltac:(lia)).
  cbn [put rm_data]. rewrite nth_insert_Z by lia. rewrite (inv_idx _ _ H) in *. destruct (Nat.eq_dec j (length vs)) as [->|Hne].
  - rewrite bool_decide_true by done. by rewrite nth_middle.
  - rewrite bool_decide_false by (intros E; apply Z2Nat.inj in E; [|lia..]; revert E; apply mod_window; lia).
    rewrite app_nth1 by lia. apply (inv_data _ _ H); lia.
Qed.

Lemma inv_insert v s vs : inv s vs -> inv (insert v s) (vs ++ [v]) /\ rm_N (insert v s) = rm_N s.
Proof.
  intros H. assert (exists s1, repaired v s s1 (insert v s)) as [s1 R].
  { destruct (Z.lt_total (pos_at s (rm_idx s)) 0) as [|[|]]; [by apply (repaired_max v s vs)|by apply (repaired_mid v s vs)|by apply (repaired_min v s vs)]. }
  destruct R as [Hw1 Hc1 Hx Ht Hf Epos (Edata & EN & Eidx & Esz) EM Em]. set (s' := insert v s) in *.
  destruct (xch_frame _ _ Hx) as (Fd & FN & Fi & Fm & FM & Fs). pose proof (inv_wf _ _ H) as Hw. pose proof (wf_N s Hw) as HN.
  pose proof (inv_sz _ _ H) as Hsz. pose proof (inv_max _ _ H) as HM. pose proof (inv_min _ _ H) as Hm. pose proof (inv_idx_range _ _ H) as Hi.
  assert (Epk : forall k, pos_at s1 k = pos_at s k) by (intros k; unfold pos_at; by rewrite Epos).
  assert (Esz' : rm_sz (put v s) = Z.min (rm_sz s + 1) (rm_N s)) by done. rewrite Esz' in *.
  assert (Hlen : Z.of_nat (length (vs ++ [v])) = length vs + 1) by (rewrite length_app; simpl; lia).
  split; [|congruence]. split; rewrite ?FN, ?EN, ?Fs, ?Esz, ?FM, ?Fm, ?Fi, ?Eidx, ?Hlen; try done.
  - by apply (xch_wf s1).
  - lia.
  - cbn [put rm_idx]. rewrite Z.rem_mod_nonneg by lia. rewrite (inv_idx _ _ H). rewrite Zplus_mod_idemp_l. done.
  - intros k Hk. assert (Hna : ~ active s1 (pos_at s1 k)).
    { rewrite Epk, (inv_fill _ _ H) by lia. rewrite fill_pos_eq by lia. unfold active. rewrite EM, Em. destruct (Z.eqb_spec (k mod 2) 0); zlia. }
    rewrite (proj2 (xch_pos s1 s' k Hw1 Hc1 Hx ltac:(lia))) by done. rewrite Epk. apply (inv_fill _ _ H). lia.
  - intros k Hk. apply (xch_active s1 s'); [done|]. apply (xch_pos s1 s' k Hw1 Hc1 Hx ltac:(lia)). rewrite Epk.
    destruct (Z.lt_ge_cases k (rm_sz s)) as [Hlt|Hge].
    + pose proof (inv_act _ _ H k ltac:(lia)) as Ha. unfold active in *. rewrite EM, Em. zlia.
    + rewrite (inv_fill _ _ H), fill_pos_eq by lia. unfold active. rewrite EM, Em. destruct (Z.eqb_spec (k mod 2) 0); zlia.
  - intros j Hj HjN. unfold data_at. rewrite Fd, Edata. apply put_data; [done|done|lia].
Qed.

(** *** The empty structure *)

Lemma clear_frame l s : let s' := foldl clear_step s l in
  rm_data s' = rm_data s /\ rm_N s' = rm_N s /\ rm_idx s' = rm_idx s /\ rm_minCt s' = rm_minCt s /\ rm_maxCt s' = rm_maxCt s /\ rm_sz s' = rm_sz s /\
  length (rm_pos s') = length (rm_pos s) /\ length (rm_heap s') = length (rm_heap s).
Proof.
  cbv zeta. revert s. induction l as [|k l IH]; intros s; [done|]. cbn [foldl]. destruct (IH (clear_step s k)) as (-> & -> & -> & -> & -> & -> & -> & ->).
  cbn [clear_step set_pos_heap rm_data rm_pos rm_heap rm_N rm_idx rm_minCt rm_maxCt rm_sz]. by rewrite !length_insert.
Qed.

Lemma fill_range N k : 1 <= N -> 0 <= k < N -> - (N / 2) <= fill_pos k <= (N - 1) / 2.
Proof. intros HN Hk. rewrite fill_pos_eq by lia. destruct (Z.eqb_spec (k mod 2) 0); zlia. Qed.

Lemma fill_inj k k' : 0 <= k -> 0 <= k' -> fill_pos k = fill_pos k' -> k = k'.
Proof. intros Hk Hk'. rewrite !fill_pos_eq by lia. destruct (Z.eqb_spec (k mod 2) 0), (Z.eqb_spec (k' mod 2) 0); zlia. Qed.

Lemma clear_entries (n : nat) s (l : list nat) :
  Z.of_nat n = rm_N s -> (1 <= n)%nat -> length (rm_pos s) = n -> length (rm_heap s) = n -> Forall (fun k => (k < n)%nat) l -> NoDup l ->
  let s' := foldl clear_step s l in
  forall k : nat, k ∈ l -> pos_at s' k = fill_pos k /\ heap_at s' (fill_pos k) = k.
Proof.
  intros HN Hn Hp Hh. revert s HN Hp Hh. induction l as [|k0 l IH] using rev_ind; intros s HN Hp Hh HF Hnd; [intros s' k Hk; by apply not_elem_of_nil in Hk|].
  apply Forall_app in HF as [HF HF0]. apply Forall_cons in HF0 as [Hk0 _]. apply NoDup_app in Hnd as (Hnd & Hdis & _).
  cbv zeta. rewrite foldl_app. cbn [foldl]. destruct (clear_frame l s) as (_ & EN & _ & _ & _ & _ & Elp & Elh). specialize (IH s HN Hp Hh HF Hnd). cbv zeta in IH.
  set (s1 := foldl clear_step s l) in *. intros k Hk. unfold pos_at, heap_at. cbn [clear_step set_pos_heap rm_pos rm_heap rm_N].
  assert (Hkn : (k < n)%nat) by (apply elem_of_app in Hk as [Hk|Hk]; [rewrite Forall_forall in HF; by apply HF|apply list_elem_of_singleton in Hk; by subst]).
  pose proof (fill_range (rm_N s1) k ltac:(lia) ltac:(lia)) as Hr. pose proof (fill_range (rm_N s1) k0 ltac:(lia) ltac:(lia)) as Hr0.
  assert (Hb : (hix (rm_N s1) (fill_pos k0) < length (rm_heap s1))%nat) by (unfold hix; zlia).
  rewrite !nth_insert_Z by (done || lia). rewrite Nat2Z.id. destruct (Nat.eq_dec k0 k) as [<-|Hne].
  - by rewrite !bool_decide_true.
  - rewrite !bool_decide_false.
    + specialize (IH k). unfold pos_at, heap_at in IH. rewrite Nat2Z.id in IH. apply IH. apply elem_of_app in Hk as [|Hk]; [done|]. by apply list_elem_of_singleton in Hk.
    + intros E. apply Hne. apply Nat2Z.inj, fill_inj; [lia|lia|]. unfold hix in E. zlia.
    + done.
Qed.

(** Memory of the right size for [N] items. *)
Definition allocated (s : rolling_median) : Prop :=
  1 <= rm_N s < 2 ^ 27 /\ Z.of_nat (length (rm_data s)) = rm_N s /\ Z.of_nat (length (rm_pos s)) = rm_N s /\ Z.of_nat (length (rm_heap s)) = rm_N s.

Lemma wf_allocated s : wf s -> allocated s.
Proof. by intros []. Qed.

(** Every heap position is the fill position of one queue entry. *)
Lemma fill_surj N i : 1 <= N -> - (N / 2) <= i <= (N - 1) / 2 -> exists k, 0 <= k < N /\ fill_pos k = i.
Proof.
  intros HN Hi. destruct (Z.le_gt_cases 0 i) as [H0|H0].
  - exists (2 * i). split; [zlia|]. rewrite fill_pos_eq by lia. btrue (2 * i mod 2 =? 0). zlia.
  - exists (- 2 * i - 1). split; [zlia|]. rewrite fill_pos_eq by lia. bfalse ((- 2 * i - 1) mod 2 =? 0). zlia.
Qed.

Lemma inv_clear s : allocated s -> inv (clear s) [].
Proof.
  intros (HN & Hd & Hp & Hh). unfold clear. cbn [rm_N]. set (s0 := mk_rm _ _ _ _ 0 0 0 0). set (l := reverse (seq 0 (Z.to_nat (rm_N s)))).
  destruct (clear_frame l s0) as (Ed & EN & Ei & Em & EM & Es & Elp & Elh). set (s' := foldl clear_step s0 l) in *.
  change (rm_N s0) with (rm_N s) in EN. change (rm_data s0) with (rm_data s) in Ed. change (rm_idx s0) with 0 in Ei. change (rm_minCt s0) with 0 in Em.
  change (rm_maxCt s0) with 0 in EM. change (rm_sz s0) with 0 in Es. change (rm_pos s0) with (rm_pos s) in Elp. change (rm_heap s0) with (rm_heap s) in Elh.
  assert (He : forall k, 0 <= k < rm_N s -> pos_at s' k = fill_pos k /\ heap_at s' (fill_pos k) = k).
  { intros k Hk. rewrite <- (Z2Nat.id k) by lia. apply (clear_entries (Z.to_nat (rm_N s)) s0 l); unfold l; cbn [s0 rm_N rm_pos rm_heap]; try lia.
    - apply Forall_forall. intros x Hx. apply elem_of_reverse, elem_of_seq in Hx. lia.
    - rewrite reverse_Permutation. apply NoDup_seq.
    - apply elem_of_reverse, elem_of_seq. lia. }
  split; rewrite ?EN, ?Es, ?Ei, ?Em, ?EM; cbn [length]; try done; try (intros; lia).
  - split; rewrite ?EN, ?Ed, ?Elp, ?Elh; try done; unfold lo, hi; rewrite EN.
    + intros k Hk. destruct (He k Hk) as [-> Hk']. split; [apply fill_range; lia|done].
    + intros i Hi. destruct (fill_surj (rm_N s) i ltac:(lia) Hi) as (k & Hk & <-). destruct (He k Hk) as [Hk1 Hk2]. rewrite Hk2. done.
  - intros k Hk. apply He. lia.
  - intros k Hk. cbn [cnt] in Hk. lia.
  - intros k Hk. cbn [cnt] in Hk. lia.
Qed.

(** *** The median *)

(** The queue entries in use, read off the heap and off the inserted items. *)
Lemma active_perm s vs : inv s vs -> 1 <= rm_sz s -> map (heap_at s) (seqZ (- rm_maxCt s) (rm_sz s)) ≡ₚ seqZ 0 (rm_sz s).
Proof.
  intros H Hs. pose proof (inv_wf _ _ H) as Hw. pose proof (inv_counts _ _ H) as Hc. pose proof (wf_N s Hw). pose proof (inv_sz _ _ H) as Hsz.
  pose proof (inv_max _ _ H) as HM. pose proof (inv_min _ _ H) as Hm.
  assert (Hact : forall i, i ∈ seqZ (- rm_maxCt s) (rm_sz s) <-> active s i) by (intros i; rewrite elem_of_seqZ; unfold active; zlia).
  apply NoDup_Permutation.
  - apply NoDup_fmap_2_strong; [|apply NoDup_seqZ]. intros i j Hi Hj. apply heap_inj; [done|apply active_range; [done|by apply Hact]..].
  - apply NoDup_seqZ.
  - intros k. rewrite list_elem_of_fmap, elem_of_seqZ. split.
    + intros (i & -> & Hi). apply Hact in Hi. destruct (wf_heap_pos s Hw i (active_range s i Hc Hi)) as [Hr Hp]. split; [lia|].
      destruct (Z.lt_ge_cases (heap_at s i) (0 + rm_sz s)) as [|Hge]; [done|]. exfalso.
      pose proof (inv_fill _ _ H (heap_at s i) ltac:(lia)) as E. rewrite Hp, fill_pos_eq in E by lia. unfold active in Hi.
      destruct (Z.eqb_spec (heap_at s i mod 2) 0); zlia.
    + intros Hk. exists (pos_at s k). pose proof (inv_act _ _ H k ltac:(lia)) as Ha. rewrite Hact. split; [|done].
      symmetry. apply (wf_pos_heap s Hw). lia.
Qed.

Lemma window_perm (n N : Z) : 0 < N -> 0 <= n -> map (fun j => j mod N) (seqZ (n - Z.min N n) (Z.min N n)) ≡ₚ seqZ 0 (Z.min N n).
Proof.
  intros HN Hn. apply NoDup_Permutation.
  - apply NoDup_fmap_2_strong; [|apply NoDup_seqZ]. intros i j Hi Hj E. apply elem_of_seqZ in Hi, Hj.
    destruct (Z.lt_total i j) as [Hlt|[|Hlt]]; [|done|].
    + destruct (mod_window N j i); [lia..|done].
    + destruct (mod_window N i j); [lia..|done].
  - apply NoDup_seqZ.
  - intros k. rewrite list_elem_of_fmap, elem_of_seqZ. split.
    + intros (j & -> & Hj). apply elem_of_seqZ in Hj. pose proof (Z.mod_pos_bound j N HN). destruct (Z.le_gt_cases N n); [lia|]. rewrite Z.mod_small by lia. lia.
    + intros Hk. destruct (Z.le_gt_cases n N) as [Hle|Hgt].
      * exists k. rewrite elem_of_seqZ, Z.mod_small by lia. split; [done|lia].
      * exists (n - N + (k - (n - N)) mod N). rewrite elem_of_seqZ. pose proof (Z.mod_pos_bound (k - (n - N)) N HN). split; [|lia].
        rewrite Zplus_mod_idemp_r. replace (n - N + (k - (n - N))) with k by lia. by rewrite Z.mod_small by lia.
Qed.

Lemma lastn_seqZ (vs : list Z) N : 0 < N -> let sz := Z.min N (length vs) in
  lastn (Z.to_nat N) vs = map (fun j => nth (Z.to_nat j) vs 0) (seqZ (length vs - sz) sz).
Proof.
  intros HN. cbv zeta. apply list_eq. intros i. unfold lastn. rewrite list_lookup_fmap.
  destruct (Z.lt_ge_cases i (Z.min N (length vs))) as [Hlt|Hge].
  - rewrite (lookup_seqZ_lt _ _ i) by done. cbn [fmap option_fmap option_map]. rewrite lookup_drop.
    replace (Z.to_nat (length vs - Z.min N (length vs) + i)) with (length vs - Z.to_nat N + i)%nat by lia.
    destruct (nth_lookup_or_length vs (length vs - Z.to_nat N + i) 0); [done|lia].
  - rewrite lookup_seqZ_ge by done. apply lookup_ge_None_2. rewrite length_drop. lia.
Qed.

Lemma values_perm s vs : inv s vs -> 1 <= rm_sz s -> map (val s) (seqZ (- rm_maxCt s) (rm_sz s)) ≡ₚ lastn (Z.to_nat (rm_N s)) vs.
Proof.
  intros H Hs. pose proof (wf_N s (inv_wf _ _ H)) as HN. pose proof (inv_sz _ _ H) as Hsz.
  transitivity (map (data_at s) (seqZ 0 (rm_sz s))).
  { rewrite <- (active_perm s vs H Hs). by rewrite map_map. }
  rewrite Hsz, <- (window_perm (length vs) (rm_N s)) by lia. rewrite map_map, lastn_seqZ by lia. apply reflexive_eq, map_ext_in.
  intros j Hj. apply list_elem_of_In, elem_of_seqZ in Hj. rewrite <- (Z2Nat.id j) at 1 by lia. apply (inv_data _ _ H); lia.
Qed.

Lemma zsort_sorted v : StronglySorted Z.le (zsort v).
Proof. apply (StronglySorted_merge_sort Z.le). Qed.

Lemma zsort_unique v l : StronglySorted Z.le l -> v ≡ₚ l -> zsort v = l.
Proof.
  intros Hl Hp. apply (StronglySorted_unique Z.le); [apply zsort_sorted|done|]. unfold zsort. by rewrite merge_sort_Permutation.
Qed.

Lemma sorted_split L x U :
  StronglySorted Z.le L -> StronglySorted Z.le U -> Forall (fun y => y <= x) L -> Forall (fun y => x <= y) U -> StronglySorted Z.le (L ++ x :: U).
Proof.
  intros HL HU HxL HxU. induction HL as [|y L HL IH HF]; [by constructor|]. apply Forall_cons in HxL as [Hy HxL]. cbn [app]. constructor; [by apply IH|].
  apply Forall_app. split; [done|]. constructor; [done|]. eapply Forall_impl; [exact HxU|]. intros z Hz. simpl in *. lia.
Qed.

Lemma zsort_split v L x U :
  v ≡ₚ L ++ x :: U -> Forall (fun y => y <= x) L -> Forall (fun y => x <= y) U -> zsort v = zsort L ++ x :: zsort U.
Proof.
  intros Hp HL HU. assert (Hs : forall l, zsort l ≡ₚ l) by (intros l; apply merge_sort_Permutation). apply zsort_unique.
  - apply sorted_split; [apply zsort_sorted..| |]; by rewrite Hs.
  - by rewrite !Hs.
Qed.

Lemma length_zsort v : length (zsort v) = length v.
Proof. apply Permutation_length, merge_sort_Permutation. Qed.

(** The last entry of a sorted list is its greatest one. *)
Lemma zsort_last L m : m ∈ L -> Forall (fun y => y <= m) L -> nth (length L - 1) (zsort L) 0 = m.
Proof.
  intros Hm HF. assert (Hs : zsort L ≡ₚ L) by apply merge_sort_Permutation. rewrite <- Hs in Hm, HF. rewrite <- length_zsort. pose proof (zsort_sorted L) as HS.
  destruct (zsort L) as [|y l _] using rev_ind; [by apply not_elem_of_nil in Hm|]. rewrite length_app, Nat.add_sub, nth_middle.
  apply Forall_app in HF as [_ HF]. apply Forall_cons in HF as [Hy _]. apply elem_of_app in Hm as [Hm|Hm]; [|by apply list_elem_of_singleton in Hm].
  apply list_elem_of_lookup in Hm as [i Hi]. pose proof (lookup_lt_Some _ _ _ Hi).
  enough (m <= y) by lia. apply (strongly_sorted_lookup Z.le (l ++ [y]) i (length l) m y HS); [done|by apply lookup_app_l_Some|].
  by rewrite lookup_app_r, Nat.sub_diag.
Qed.

Lemma get_mid_comm a b : get_mid a b = get_mid b a.
Proof. unfold get_mid. f_equal. f_equal; [f_equal; lia|]. f_equal. f_equal. lia. Qed.

Lemma median_split v L x U :
  v ≡ₚ L ++ x :: U -> Forall (fun y => y <= x) L -> Forall (fun y => x <= y) U -> (length U <= length L <= length U + 1)%nat ->
  median v = if (length U <? length L)%nat then get_mid x (nth (length L - 1) (zsort L) 0) else x.
Proof.
  intros Hp HL HU Hlen. pose proof (Permutation_length Hp) as Hv. rewrite length_app in Hv. cbn [length] in Hv.
  pose proof (zsort_split v L x U Hp HL HU) as Es. unfold median.
  replace (length v =? 0)%nat with false by (symmetry; apply Nat.eqb_neq; lia).
  destruct (Nat.eqb_spec (length v) 1) as [E1|Hn1].
  { assert (L = [] /\ U = []) as [-> ->] by (split; apply nil_length_inv; lia). symmetry in Hp. apply Permutation_singleton_l in Hp. by subst v. }
  rewrite length_zsort, Es. pose proof (length_zsort L) as HlL. destruct (Nat.ltb_spec (length U) (length L)) as [Hlt|Hge].
  - assert (Hd : (length v / 2)%nat = length L) by (rewrite Hv; symmetry; apply (Nat.div_unique _ 2 _ 0); lia).
    replace (length v mod 2 =? 1)%nat with false by (symmetry; apply Nat.eqb_neq; rewrite Nat.Div0.mod_eq, Hd; lia).
    rewrite Hd, <- HlL, nth_middle, app_nth1, HlL by lia. apply get_mid_comm.
  - assert (Hd : (length v / 2)%nat = length L) by (rewrite Hv; symmetry; apply (Nat.div_unique _ 2 _ 1); lia).
    replace (length v mod 2 =? 1)%nat with true by (symmetry; apply Nat.eqb_eq; rewrite Nat.Div0.mod_eq, Hd; lia).
    by rewrite Hd, <- HlL, nth_middle.
Qed.

(** The top of a side is its least value. *)
Lemma ordered_top n f : ordered n f -> forall k, 0 <= k <= n -> f 0 <= f k.
Proof.
  intros H. assert (Hh : up_hole n (n + 1) f) by (split; [intros; by apply H|intros; zlia]).
  intros k Hk. destruct (up_hole_top n (n + 1) f ltac:(lia) Hh k Hk); lia.
Qed.

Lemma ordered_top1 n f : ordered n f -> forall k, 1 <= k <= n -> f 1 <= f k.
Proof.
  intros H. assert (Hm : forall m : nat, forall k, k <= m -> 1 <= k <= n -> f 1 <= f k).
  { induction m as [|m IH]; intros k Hm Hk; [lia|]. destruct (Z.eq_dec k 1) as [->|]; [lia|].
    transitivity (f (k / 2)); [apply IH; zlia|by apply H]. }
  intros k Hk. apply (Hm (Z.to_nat k)); lia.
Qed.

Lemma inv_median s vs : inv s vs -> vs <> [] -> rm_median s = median (lastn (Z.to_nat (rm_N s)) vs).
Proof.
  intros H Hne. pose proof (wf_N s (inv_wf _ _ H)) as HN. pose proof (inv_sz _ _ H) as Hsz.
  pose proof (inv_max _ _ H) as HM. pose proof (inv_min _ _ H) as Hm.
  assert (Hlen : 1 <= length vs) by (destruct vs; [done|simpl; lia]). assert (Hs : 1 <= rm_sz s) by lia.
  pose proof (values_perm s vs H Hs) as Hp. pose proof (inv_true _ _ H) as HT. pose proof (inv_false _ _ H) as HF.
  replace (rm_sz s) with (rm_maxCt s + (1 + rm_minCt s)) in Hp by zlia. rewrite seqZ_app, map_app in Hp by zlia.
  replace (- rm_maxCt s + rm_maxCt s) with 0 in Hp by lia. rewrite (seqZ_app 0 1) in Hp by zlia. cbn [map] in Hp.
  change (seqZ 0 1) with [0] in Hp. cbn [map app] in Hp. symmetry in Hp.
  rewrite (median_split _ _ _ _ Hp), !length_map, !length_seqZ.
  - unfold rm_median. fold (val s 0). fold (val s (-1)). destruct (Z.ltb_spec (rm_minCt s) (rm_maxCt s)).
    + replace (Z.to_nat (rm_minCt s) <? Z.to_nat (rm_maxCt s))%nat with true by (symmetry; apply Nat.ltb_lt; lia). f_equal. symmetry.
      set (L := map (val s) _). replace (Z.to_nat (rm_maxCt s) - 1)%nat with (length L - 1)%nat by (unfold L; by rewrite length_map, length_seqZ).
      apply zsort_last.
      * apply list_elem_of_fmap. exists (-1). split; [done|]. apply elem_of_seqZ. lia.
      * apply Forall_fmap, Forall_forall. intros i Hi. apply elem_of_seqZ in Hi. cbn [compose].
        pose proof (ordered_top1 _ _ HF (- i)) as Ht. cbn [w cnt] in Ht. rewrite Z.opp_involutive in Ht. change (- (1)) with (-1) in Ht. lia.
    + by replace (Z.to_nat (rm_minCt s) <? Z.to_nat (rm_maxCt s))%nat with false by (symmetry; apply Nat.ltb_ge; lia).
  - apply Forall_fmap, Forall_forall. intros i Hi. apply elem_of_seqZ in Hi. cbn [compose].
    pose proof (ordered_top _ _ HF (- i)) as Ht. cbn [w cnt] in Ht. rewrite Z.opp_involutive in Ht. change (- 0) with 0 in Ht. lia.
  - apply Forall_fmap, Forall_forall. intros i Hi. apply elem_of_seqZ in Hi. cbn [compose]. apply (ordered_top _ _ HT i). cbn [cnt]. lia.
  - rewrite !length_map, !length_seqZ. zlia.
Qed.

Definition inserts (vs : list Z) (s : rolling_median) : rolling_median := foldl (fun s v => insert v s) s vs.

Lemma inv_inserts vs : forall s us, inv s us -> inv (inserts vs s) (us ++ vs) /\ rm_N (inserts vs s) = rm_N s.
Proof.
  induction vs as [|v vs IH]; intros s us H; [by rewrite app_nil_r|]. cbn [inserts foldl]. rewrite cons_middle, app_assoc.
  destruct (inv_insert v s us H) as [H1 E1]. destruct (IH (insert v s) _ H1) as [H2 E2]. split; [done|]. unfold inserts in E2; congruence.
Qed.

Lemma clear_N s : rm_N (clear s) = rm_N s.
Proof. unfold clear. cbn [rm_N]. set (s0 := mk_rm _ _ _ _ _ _ _ _). by destruct (clear_frame (reverse (seq 0 (Z.to_nat (rm_N s)))) s0) as (_ & -> & _). Qed.

(** ** Properties *)

(** C21: after any sequence of insertions into a structure for [N] items
    (1 to 2^27 - 1), made by the constructor on any memory, [size] is the number of
    items in the window and [median] is the sorting [misc_utils::median] of the
    last [N] items. *)
Theorem rolling_median_correct data pos heap N vs :
  1 <= N < 2 ^ 27 -> length data = Z.to_nat N -> length pos = Z.to_nat N -> length heap = Z.to_nat N -> vs <> [] ->
  let s := foldl (fun s v => insert v s) (new_rolling_median data pos heap N) vs in
  size s = Z.min N (length vs) /\ rm_median s = median (lastn (Z.to_nat N) vs).
Proof.
  intros HN Hd Hp Hh Hne s. destruct (inv_inserts vs (new_rolling_median data pos heap N) []) as [H EN].
  { apply inv_clear. unfold allocated. cbn [rm_N rm_data rm_pos rm_heap]. lia. }
  unfold new_rolling_median in EN. rewrite clear_N in EN. cbn [rm_N] in EN. change (inserts vs _) with s in H, EN.
  rewrite <- EN. split; [apply (inv_sz _ _ H)|by apply inv_median].
Qed.

(** ** Witnesses *)

Lemma rolling_median_correct_witness :
  size (foldl (fun s v => insert v s) (new_rolling_median [9; 9; 9] [9; 9; 9] [9; 9; 9] 3) [50; 10; 40; 20]) = 3 /\
  rm_median (foldl (fun s v => insert v s) (new_rolling_median [9; 9; 9] [9; 9; 9] [9; 9; 9] 3) [50; 10; 40; 20]) = median [10; 40; 20].
Proof. apply (rolling_median_correct [9; 9; 9] [9; 9; 9] [9; 9; 9] 3 [50; 10; 40; 20]); [lia|reflexivity..|discriminate]. Defined.
