(* ===== verification/BlockWeight.v ===== *)
(** * BlockWeight: block weight medians and limits

    Models the weight part of [Blockchain] in src/cryptonote_core/blockchain.cpp:
    [get_last_n_blocks_weights], [get_long_term_block_weight_median] with its
    cache, [get_next_long_term_block_weight] and
    [update_next_cumulative_weight_limit].  The database is the list of its blocks
    by height; [None] is a thrown exception. *)
From S2P Require Import Prelude Config Reward RollingMedian.
#[local] Open Scope mach_scope.

(** ** Definitions *)

(** What the database stores for a block, as far as it is used here. *)
Record block_info := mk_bi {
  bi_hash : list Z;
  bi_timestamp : Z;
  bi_weight : Z;
  bi_long_term_weight : Z;
  bi_coins : Z;
}.

(** The members of [Blockchain] the functions read and write. *)
Record blockchain := mk_bc {
  m_db : list block_info;
  m_current_version : Z;
  m_long_term_block_weights_window : Z;
  m_cache_tip_hash : list Z;
  m_cache_rolling_median : rolling_median;
  m_current_block_cumul_weight_median : Z;
  m_current_block_cumul_weight_limit : Z;
  m_long_term_effective_median_block_weight : Z;
}.

Definition set_cache (bc : blockchain) (tip : list Z) (rm : rolling_median) : blockchain :=
  mk_bc (m_db bc) (m_current_version bc) (m_long_term_block_weights_window bc) tip rm
    (m_current_block_cumul_weight_median bc) (m_current_block_cumul_weight_limit bc) (m_long_term_effective_median_block_weight bc).

Definition set_limits (bc : blockchain) (med lim lt : Z) : blockchain :=
  mk_bc (m_db bc) (m_current_version bc) (m_long_term_block_weights_window bc) (m_cache_tip_hash bc) (m_cache_rolling_median bc) med lim lt.

Definition db_height (bc : blockchain) : Z := length (m_db bc).

(** A field of up to [count] blocks from [start] on; throws when [start] is not in
    the chain. *)
Definition get_block_info_64bit_fields (f : block_info -> Z) (bc : blockchain) (start count : Z) : option (list Z) :=
  if db_height bc <=? start then None else Some (take (Z.to_nat count) (drop (Z.to_nat start) (map f (m_db bc)))).

Definition get_block_hash_from_height (bc : blockchain) (h : Z) : option (list Z) := bi_hash <$> m_db bc !! Z.to_nat h.
Definition get_block_long_term_weight (bc : blockchain) (h : Z) : option Z := bi_long_term_weight <$> m_db bc !! Z.to_nat h.

Definition get_last_n_blocks_weights (bc : blockchain) (count : Z) : option (list Z) :=
  let h := db_height bc in
  if h =? 0 then Some []
  else get_block_info_64bit_fields bi_weight bc (h ⊟ Z.min h count) count.

(** The window moved up by one block. *)
Definition incremental (bc : blockchain) (tip_height count : Z) (tip_hash : list Z) : option (option (Z * blockchain)) :=
  if (0 <? tip_height) && (tip_height <? db_height bc) then
    let rmsize := size (m_cache_rolling_median bc) in
    if (count =? rmsize) || ((count =? rmsize + 1) && (rmsize <? CRYPTONOTE_LONG_TERM_BLOCK_WEIGHT_WINDOW_SIZE)) then
      old_tip_hash ← get_block_hash_from_height bc (tip_height - 1);
      if bool_decide (old_tip_hash = m_cache_tip_hash bc) then
        lw ← get_block_long_term_weight bc tip_height;
        let rm := insert lw (m_cache_rolling_median bc) in
        Some (Some (rm_median rm, set_cache bc tip_hash rm))
      else Some None
    else Some None
  else Some None.

Definition get_long_term_block_weight_median (bc : blockchain) (start_height count : Z) : option (Z * blockchain) :=
  if negb (0 <? count) then None
  else
    let tip_height := start_height ⊞ count ⊟ 1 in
    tip_hash ← (if tip_height <? db_height bc then get_block_hash_from_height bc tip_height else Some null_hash);
    let cached := (tip_height <? db_height bc) && (count =? size (m_cache_rolling_median bc)) &&
                  bool_decide (tip_hash = m_cache_tip_hash bc) in
    if cached then Some (rm_median (m_cache_rolling_median bc), bc)
    else
      inc ← incremental bc tip_height count tip_hash;
      match inc with
      | Some r => Some r
      | None =>
          weights ← get_block_info_64bit_fields bi_long_term_weight bc start_height count;
          let rm := foldl (fun s w => insert w s) (clear (m_cache_rolling_median bc)) weights in
          Some (rm_median rm, set_cache bc tip_hash rm)
      end.

Definition get_next_long_term_block_weight (bc : blockchain) (block_weight : Z) : option (Z * blockchain) :=
  let h := db_height bc in
  let nblocks := Z.min (m_long_term_block_weights_window bc) h in
  let hf_version := m_current_version bc in
  if hf_version <? HF_VERSION_LONG_TERM_BLOCK_WEIGHT then Some (block_weight, bc)
  else
    '(long_term_median, bc) ← get_long_term_block_weight_median bc (h ⊟ nblocks) nblocks;
    let lt := Z.max CRYPTONOTE_BLOCK_GRANTED_FULL_REWARD_ZONE_V5 long_term_median in
    let '(block_weight, short_term_constraint) :=
      if HF_VERSION_2021_SCALING <=? hf_version
      then (Z.max block_weight (lt ⊠ 10 / 17), lt ⊞ lt ⊠ 7 / 10)
      else (block_weight, lt ⊞ lt ⊠ 2 / 5) in
    Some (Z.min block_weight short_term_constraint, bc).

(** The new median, with the long-term one. *)
Definition next_medians (bc : blockchain) : option (Z * Z * blockchain) :=
  let h := db_height bc in
  let hf_version := m_current_version bc in
  if hf_version <? HF_VERSION_LONG_TERM_BLOCK_WEIGHT then
    weights ← get_last_n_blocks_weights bc CRYPTONOTE_REWARD_BLOCKS_WINDOW;
    Some (median weights, m_long_term_effective_median_block_weight bc, bc)
  else
    let nblocks := Z.min (m_long_term_block_weights_window bc) h in
    '(long_term_median, bc) ← get_long_term_block_weight_median bc (h ⊟ nblocks) nblocks;
    let lt := Z.max CRYPTONOTE_BLOCK_GRANTED_FULL_REWARD_ZONE_V5 long_term_median in
    weights ← get_last_n_blocks_weights bc CRYPTONOTE_REWARD_BLOCKS_WINDOW;
    let short_term_median := median weights in
    let effective :=
      if HF_VERSION_2021_SCALING <=? hf_version
      then Z.min (Z.max lt short_term_median) (CRYPTONOTE_SHORT_TERM_BLOCK_WEIGHT_SURGE_FACTOR ⊠ lt)
      else Z.min (Z.max CRYPTONOTE_BLOCK_GRANTED_FULL_REWARD_ZONE_V5 short_term_median)
             (CRYPTONOTE_SHORT_TERM_BLOCK_WEIGHT_SURGE_FACTOR ⊠ lt) in
    Some (effective, lt, bc).

Definition update_next_cumulative_weight_limit (bc : blockchain) : option blockchain :=
  let full_reward_zone := get_min_block_weight (m_current_version bc) in
  '(med, lt, bc) ← next_medians bc;
  let med := if med <=? full_reward_zone then full_reward_zone else med in
  Some (set_limits bc med (med ⊠ 2) lt).

(** ** Lemmas *)

(** The constructor: an empty cache for the window, over any memory. *)
Definition initial (db : list block_info) (version window : Z) (mem : list Z) : blockchain :=
  mk_bc db version window null_hash (new_rolling_median mem mem mem window) 0 0 0.

Definition with_db (bc : blockchain) (db : list block_info) : blockchain :=
  mk_bc db (m_current_version bc) (m_long_term_block_weights_window bc) (m_cache_tip_hash bc) (m_cache_rolling_median bc)
    (m_current_block_cumul_weight_median bc) (m_current_block_cumul_weight_limit bc) (m_long_term_effective_median_block_weight bc).

(** The query both callers make: the window of the whole chain. *)
Definition window_median (bc : blockchain) : option (Z * blockchain) :=
  let nblocks := Z.min (m_long_term_block_weights_window bc) (db_height bc) in
  get_long_term_block_weight_median bc (db_height bc ⊟ nblocks) nblocks.

(** What the median of a chain should be. *)
Definition long_term_median (window : Z) (db : list block_info) : Z := median (lastn (Z.to_nat window) (map bi_long_term_weight db)).

Section cache.
(** Block hashes identify chains: [history] gives the long-term weights of the
    chain that ends with the block of a hash. *)
Variable history : list Z -> list Z.

Definition chain_ok (db : list block_info) : Prop :=
  db <> [] /\ length db < 2 ^ 63 /\
  forall h b, db !! h = Some b -> bi_hash b <> null_hash /\ history (bi_hash b) = take (S h) (map bi_long_term_weight db).

Definition cache_ok (bc : blockchain) : Prop :=
  let rm := m_cache_rolling_median bc in let N := m_long_term_block_weights_window bc in
  1 <= N < 2 ^ 27 /\ rm_N rm = N /\ exists vs, inv rm vs /\
  (m_cache_tip_hash bc <> null_hash -> vs <> [] /\ lastn (Z.to_nat N) vs = lastn (Z.to_nat N) (history (m_cache_tip_hash bc))).

Lemma chain_tip db : chain_ok db -> exists b, db !! (length db - 1)%nat = Some b /\ bi_hash b <> null_hash /\
  history (bi_hash b) = map bi_long_term_weight db.
Proof.
  intros (Hne & _ & Hh). assert (Hl : (0 < length db)%nat) by (destruct db; [done|simpl; lia]).
  destruct (lookup_lt_is_Some_2 db (length db - 1) ltac:(lia)) as [b Hb]. exists b. destruct (Hh _ _ Hb) as [H1 H2].
  split_and!; [done..|]. rewrite H2. apply take_ge. rewrite length_map. lia.
Qed.

(** A cache whose contents end like the weights [l] answers for [l]. *)
Lemma cache_set bc tip rm vs l b :
  1 <= m_long_term_block_weights_window bc < 2 ^ 27 -> rm_N rm = m_long_term_block_weights_window bc -> inv rm vs -> vs <> [] ->
  tip = bi_hash b -> history (bi_hash b) = l -> lastn (Z.to_nat (m_long_term_block_weights_window bc)) vs = lastn (Z.to_nat (m_long_term_block_weights_window bc)) l ->
  rm_median rm = median (lastn (Z.to_nat (m_long_term_block_weights_window bc)) l) /\ cache_ok (set_cache bc tip rm).
Proof.
  intros HN EN Hv Hne -> Hl E. split; [by rewrite (inv_median rm vs), EN, E|]. split; [done|]. split; [done|].
  exists vs. split; [done|]. intros _. cbn [set_cache m_cache_tip_hash m_long_term_block_weights_window]. by rewrite Hl.
Qed.

Lemma lastn_snoc_eq {A} n (l l' : list A) x : (1 <= n)%nat -> lastn n l = lastn n l' -> lastn n (l ++ [x]) = lastn n (l' ++ [x]).
Proof.
  intros Hn E. destruct n as [|n]; [lia|]. rewrite !lastn_snoc. f_equal.
  rewrite <- (lastn_lastn n (S n) l), <- (lastn_lastn n (S n) l') by lia. by rewrite E.
Qed.

Lemma incremental_ok bc tip :
  chain_ok (m_db bc) -> cache_ok bc -> m_db bc !! (length (m_db bc) - 1)%nat = Some tip ->
  forall count, incremental bc (db_height bc - 1) count (bi_hash tip) = Some None \/
  exists rm, incremental bc (db_height bc - 1) count (bi_hash tip) =
    Some (Some (long_term_median (m_long_term_block_weights_window bc) (m_db bc), set_cache bc (bi_hash tip) rm)) /\
    cache_ok (set_cache bc (bi_hash tip) rm).
Proof.
  intros Hch (HN & EN & vs & Hv & Hc) Htip count. unfold incremental. destruct (_ && _) eqn:Eg; [|by left].
  apply andb_true_iff in Eg as [Hpos _]. apply Z.ltb_lt in Hpos. unfold db_height in *. destruct (_ || _); [|by left].
  pose proof Hch as (Hne & Hlen & Hh). replace (Z.to_nat (length (m_db bc) - 1 - 1)) with (length (m_db bc) - 2)%nat by lia.
  destruct (lookup_lt_is_Some_2 (m_db bc) (length (m_db bc) - 2) ltac:(lia)) as [old Hold].
  unfold get_block_hash_from_height, get_block_long_term_weight.
  replace (Z.to_nat (length (m_db bc) - 1 - 1)) with (length (m_db bc) - 2)%nat by lia. rewrite Hold.
  replace (Z.to_nat (length (m_db bc) - 1)) with (length (m_db bc) - 1)%nat by lia. rewrite Htip.
  cbn [fmap option_fmap option_map mbind option_bind]. case_bool_decide as Eold; [|by left]. right. cbv zeta.
  destruct (Hh _ _ Hold) as [Hn Hho]. rewrite Eold in Hn, Hho. destruct (Hc Hn) as [Hvne Hvs].
  destruct (inv_insert (bi_long_term_weight tip) _ _ Hv) as [Hv' EN'].
  destruct (chain_tip _ Hch) as (tip' & Htip' & Hnt & Hht). rewrite Htip in Htip'. injection Htip' as <-.
  set (lts := map bi_long_term_weight (m_db bc)) in *.
  assert (Elts : lts = take (length (m_db bc) - 1) lts ++ [bi_long_term_weight tip]).
  { rewrite <- (take_S_r lts) by (unfold lts; by rewrite list_lookup_fmap, Htip). rewrite take_ge; [done|]. unfold lts. rewrite length_map. lia. }
  destruct (cache_set bc (bi_hash tip) (insert (bi_long_term_weight tip) (m_cache_rolling_median bc)) (vs ++ [bi_long_term_weight tip]) lts tip) as [Hm Hok].
  - done.
  - congruence.
  - done.
  - by destruct vs.
  - done.
  - done.
  - rewrite Elts at 1. apply lastn_snoc_eq; [lia|]. rewrite Hvs, Hho. f_equal. f_equal. lia.
  - eexists. split; [by rewrite Hm|]. done.
Qed.

Lemma window_median_ok bc :
  chain_ok (m_db bc) -> cache_ok bc ->
  exists tip rm, window_median bc = Some (long_term_median (m_long_term_block_weights_window bc) (m_db bc), set_cache bc tip rm) /\
    cache_ok (set_cache bc tip rm).
Proof.
  intros Hch Hok. pose proof Hok as (HN & EN & vs & Hv & Hc). pose proof Hch as (Hne & Hlen & Hh).
  destruct (chain_tip _ Hch) as (tip & Htip & Hnt & Hht). assert (Hl : (0 < length (m_db bc))%nat) by (destruct (m_db bc); [done|simpl; lia]).
  unfold window_median, get_long_term_block_weight_median. cbv zeta. unfold db_height. set (N := m_long_term_block_weights_window bc) in *.
  set (count := Z.min N (length (m_db bc))). btrue (0 <? count). cbn [negb].
  rewrite !(wrap_small 64 (length (m_db bc) - count)) by (unfold is_uint; lia).
  rewrite (wrap_small 64 (length (m_db bc) - count + count)) by (unfold is_uint; lia).
  rewrite (wrap_small 64 (length (m_db bc) - count + count - 1)) by (unfold is_uint; lia).
  replace (length (m_db bc) - count + count - 1) with (length (m_db bc) - 1) by lia.
  btrue (length (m_db bc) - 1 <? length (m_db bc)). unfold get_block_hash_from_height at 1.
  replace (Z.to_nat (length (m_db bc) - 1)) with (length (m_db bc) - 1)%nat by lia. rewrite Htip. cbn [fmap option_fmap option_map mbind option_bind andb].
  destruct ((count =? _) && bool_decide _) eqn:Ecached.
  { apply andb_true_iff in Ecached as [_ Et]. apply bool_decide_eq_true in Et. exists (m_cache_tip_hash bc), (m_cache_rolling_median bc).
    rewrite Et in Hnt, Hht. destruct (Hc Hnt) as [Hvne Hvs]. split; [|by destruct bc].
    rewrite (inv_median _ vs) by done. rewrite EN, Hvs, Hht. by destruct bc. }
  change (Z.of_nat (length (m_db bc)) - 1) with (db_height bc - 1).
  destruct (incremental_ok bc tip Hch Hok Htip count) as [-> | (rm & -> & Hok')]; cbn [mbind option_bind]; [|by exists (bi_hash tip), rm].
  unfold get_block_info_64bit_fields, db_height. bfalse (length (m_db bc) <=? length (m_db bc) - count). cbn [mbind option_bind].
  set (lts := map bi_long_term_weight (m_db bc)) in *. assert (Hll : length lts = length (m_db bc)) by apply length_map.
  assert (Ew : take (Z.to_nat count) (drop (Z.to_nat (length (m_db bc) - count)) lts) = lastn (Z.to_nat N) lts).
  { unfold lastn. rewrite take_ge by (rewrite length_drop; lia). f_equal. lia. }
  rewrite Ew. fold (inserts (lastn (Z.to_nat N) lts) (clear (m_cache_rolling_median bc))).
  destruct (inv_inserts (lastn (Z.to_nat N) lts) (clear (m_cache_rolling_median bc)) []) as [Hv' EN'].
  { apply inv_clear, wf_allocated, Hv. }
  rewrite clear_N in EN'. cbn [app] in Hv'.
  destruct (cache_set bc (bi_hash tip) (inserts (lastn (Z.to_nat N) lts) (clear (m_cache_rolling_median bc))) (lastn (Z.to_nat N) lts) lts tip) as [Hm Hok'];
    [done|by rewrite EN'|done| |done|done|by rewrite lastn_lastn|].
  - intros E. apply (f_equal length) in E. rewrite length_lastn in E. simpl in E. lia.
  - exists (bi_hash tip). eexists. split; [by rewrite Hm|done].
Qed.

(** The answers for a sequence of states of the chain. *)
Fixpoint queries (bc : blockchain) (dbs : list (list block_info)) : option (list Z) :=
  match dbs with
  | [] => Some []
  | db :: dbs' => '(m, bc) ← window_median (with_db bc db); ms ← queries bc dbs'; Some (m :: ms)
  end.

Lemma queries_ok dbs : forall bc, Forall chain_ok dbs -> cache_ok bc ->
  queries bc dbs = Some (map (long_term_median (m_long_term_block_weights_window bc)) dbs).
Proof.
  induction dbs as [|db dbs IH]; intros bc HF Hok; [done|]. apply Forall_cons in HF as [Hdb HF]. cbn [queries map].
  destruct (window_median_ok (with_db bc db) Hdb Hok) as (tip & rm & -> & Hok'). cbn [mbind option_bind].
  rewrite (IH (set_cache (with_db bc db) tip rm) HF Hok'). done.
Qed.

Lemma initial_ok db version window mem :
  1 <= window < 2 ^ 27 -> length mem = Z.to_nat window -> cache_ok (initial db version window mem).
Proof.
  intros Hw Hm. unfold cache_ok, initial, new_rolling_median. cbn [m_cache_rolling_median m_long_term_block_weights_window m_cache_tip_hash].
  split; [done|]. split; [by rewrite clear_N|]. exists []. split; [|done]. apply inv_clear. unfold allocated. cbn [rm_N rm_data rm_pos rm_heap]. lia.
Qed.

End cache.

(** *** Medians of bounded values *)

Lemma get_mid_avg a b : is_u64 a -> is_u64 b -> get_mid a b = (a + b) / 2.
Proof.
  unfold is_uint. intros Ha Hb. unfold get_mid. pose proof (Z.div_mod a 2 ltac:(lia)). pose proof (Z.div_mod b 2 ltac:(lia)).
  pose proof (Z.mod_pos_bound a 2 ltac:(lia)). pose proof (Z.mod_pos_bound b 2 ltac:(lia)).
  rewrite (wrap_small 64 (2 * (a / 2))), (wrap_small 64 (2 * (b / 2))) by (unfold is_uint; lia).
  rewrite (wrap_small 64 (a - _)), (wrap_small 64 (b - _)), (wrap_small 64 (a / 2 + b / 2)) by (unfold is_uint; lia).
  rewrite (wrap_small 64 (_ - _ + (_ - _))) by (unfold is_uint; lia). rewrite wrap_small by (unfold is_uint; zlia). zlia.
Qed.

Lemma median_bounds lo hi v : 0 <= lo <= hi -> hi < 2 ^ 64 -> v <> [] -> Forall (fun x => lo <= x <= hi) v -> lo <= median v <= hi.
Proof.
  intros Hlo Hhi Hne HF. assert (Hnth : forall i, (i < length v)%nat -> lo <= nth i (zsort v) 0 <= hi).
  { intros i Hi. assert (HF' : Forall (fun x => lo <= x <= hi) (zsort v)) by (unfold zsort; by rewrite merge_sort_Permutation).
    rewrite Forall_forall in HF'. apply HF', list_elem_of_In, nth_In. by rewrite length_zsort. }
  assert (Hl : (0 < length v)%nat) by (destruct v; [done|simpl; lia]). unfold median.
  replace (length v =? 0)%nat with false by (symmetry; apply Nat.eqb_neq; lia). destruct (Nat.eqb_spec (length v) 1).
  { rewrite Forall_forall in HF. apply HF, list_elem_of_In, nth_In. done. }
  assert (Hd : (length v / 2 < length v)%nat) by (apply Nat.div_lt; lia). destruct (_ =? 1)%nat; [by apply Hnth|].
  pose proof (Hnth (length v / 2)%nat Hd). pose proof (Hnth (length v / 2 - 1)%nat ltac:(lia)).
  rewrite get_mid_avg by (unfold is_uint; lia). zlia.
Qed.

Lemma last_weights_ok bc : m_db bc <> [] -> length (m_db bc) < 2 ^ 63 ->
  get_last_n_blocks_weights bc CRYPTONOTE_REWARD_BLOCKS_WINDOW = Some (lastn 100 (map bi_weight (m_db bc))).
Proof.
  intros Hne Hlen. assert (Hl : (0 < length (m_db bc))%nat) by (destruct (m_db bc); [done|simpl; lia]).
  unfold get_last_n_blocks_weights, db_height, CRYPTONOTE_REWARD_BLOCKS_WINDOW. bfalse (length (m_db bc) =? 0). cbv zeta.
  rewrite wrap_small by (unfold is_uint; lia). unfold get_block_info_64bit_fields, db_height.
  bfalse (length (m_db bc) <=? length (m_db bc) - Z.min (length (m_db bc)) 100). f_equal. unfold lastn.
  rewrite take_ge by (rewrite length_drop, length_map; lia). rewrite length_map. f_equal. lia.
Qed.

(** Weights far below the 64-bit limit. *)
Definition weights_ok (db : list block_info) : Prop := Forall (fun b => 0 <= bi_weight b <= 2 ^ 50 /\ 0 <= bi_long_term_weight b <= 2 ^ 50) db.

Lemma long_term_median_range window db : 1 <= window -> db <> [] -> weights_ok db -> 0 <= long_term_median window db <= 2 ^ 50.
Proof.
  intros Hw Hne HF. apply median_bounds; [lia|lia| |].
  - intros E. apply (f_equal length) in E. rewrite length_lastn, length_map in E. destruct db; [done|]. simpl in E. lia.
  - unfold lastn. apply Forall_drop, Forall_fmap. eapply Forall_impl; [exact HF|]. simpl. tauto.
Qed.

(** ** Properties *)

(** C30: the cache is invisible: from a fresh cache, whatever sequence of chains the
    function is asked about (grown, popped or reorganised), it returns for each the
    median of the long-term weights of the last [window] blocks of that chain,
    provided block hashes identify their chain. *)
Theorem long_term_median_cached history version window mem dbs :
  1 <= window < 2 ^ 27 -> length mem = Z.to_nat window -> Forall (chain_ok history) dbs ->
  queries (initial [] version window mem) dbs = Some (map (long_term_median window) dbs).
Proof. intros Hw Hm HF. apply (queries_ok history); [done|]. by apply initial_ok. Qed.

(** from fork 10 on, [update_next_cumulative_weight_limit] sets the effective
    median to the median weight of the last 100 blocks, clamped from below by the
    long-term median (by the minimum zone before fork 15) and from above by 50
    times the long-term median, and the block weight limit to twice that. *)
Theorem next_weight_limit history bc :
  chain_ok history (m_db bc) -> cache_ok history bc -> weights_ok (m_db bc) -> 10 <= m_current_version bc ->
  let lt := Z.max 300000 (long_term_median (m_long_term_block_weights_window bc) (m_db bc)) in
  let short := median (lastn 100 (map bi_weight (m_db bc))) in
  let med := Z.min (Z.max (if 15 <=? m_current_version bc then lt else 300000) short) (50 * lt) in
  exists bc', update_next_cumulative_weight_limit bc = Some bc' /\ cache_ok history bc' /\ m_db bc' = m_db bc /\
    m_long_term_effective_median_block_weight bc' = lt /\ m_current_block_cumul_weight_median bc' = med /\
    m_current_block_cumul_weight_limit bc' = 2 * med /\ 300000 <= med <= 50 * lt.
Proof.
  intros Hch Hok Hwt Hv. cbv zeta. pose proof Hch as (Hne & Hlen & _). pose proof Hok as (HN & _).
  destruct (window_median_ok history bc Hch Hok) as (tip & rm & E & Hok'). set (W := m_long_term_block_weights_window bc) in *.
  pose proof (long_term_median_range W (m_db bc) ltac:(lia) Hne Hwt) as Hr. set (lm := long_term_median W (m_db bc)) in *.
  unfold update_next_cumulative_weight_limit, next_medians. unfold HF_VERSION_LONG_TERM_BLOCK_WEIGHT, HF_VERSION_2021_SCALING.
  bfalse (m_current_version bc <? 10). unfold window_median in E. cbv zeta in E |- *. rewrite E. cbn [mbind option_bind].
  rewrite last_weights_ok by done. cbn [mbind option_bind set_cache m_db]. unfold CRYPTONOTE_BLOCK_GRANTED_FULL_REWARD_ZONE_V5, CRYPTONOTE_SHORT_TERM_BLOCK_WEIGHT_SURGE_FACTOR.
  set (short := median (lastn 100 (map bi_weight (m_db bc)))). set (lt := Z.max 300000 lm) in *.
  rewrite !(wrap_small 64 (50 * lt)) by (unfold is_uint; lia).
  assert (Ez : get_min_block_weight (m_current_version bc) = 300000) by (unfold get_min_block_weight; bfalse (m_current_version bc <? 2); by bfalse (m_current_version bc <? 5)).
  rewrite Ez.
  assert (Hcl : (if 15 <=? m_current_version bc then Z.min (Z.max lt short) (50 * lt) else Z.min (Z.max 300000 short) (50 * lt)) =
    Z.min (Z.max (if 15 <=? m_current_version bc then lt else 300000) short) (50 * lt)) by (by destruct (15 <=? _)).
  rewrite Hcl. set (med := Z.min (Z.max _ short) (50 * lt)). assert (Hmed : 300000 <= med <= 50 * lt) by (unfold med; destruct (15 <=? _); lia).
  assert ((if med <=? 300000 then 300000 else med) = med) as -> by (destruct (Z.leb_spec med 300000); lia).
  rewrite (wrap_small 64 (med * 2)) by (unfold is_uint; lia). rewrite Z.mul_comm.
  eexists. split; [done|]. by split_and!; try apply Hmed.
Qed.

(** from fork 15 on, the long-term weight recorded for a block is its weight
    clamped to [10/17, 17/10] of the effective long-term median; between forks 10
    and 14 it is only capped at 7/5 of it. *)
Theorem next_long_term_weight history bc weight :
  chain_ok history (m_db bc) -> cache_ok history bc -> weights_ok (m_db bc) -> 10 <= m_current_version bc -> 0 <= weight ->
  let lt := Z.max 300000 (long_term_median (m_long_term_block_weights_window bc) (m_db bc)) in
  exists r bc', get_next_long_term_block_weight bc weight = Some (r, bc') /\ cache_ok history bc' /\
    r = (if 15 <=? m_current_version bc then Z.min (Z.max weight (10 * lt / 17)) (17 * lt / 10) else Z.min weight (7 * lt / 5)) /\
    (15 <= m_current_version bc -> 10 * lt / 17 <= r <= 17 * lt / 10).
Proof.
  intros Hch Hok Hwt Hv Hw. cbv zeta. pose proof Hch as (Hne & Hlen & _). pose proof Hok as (HN & _).
  destruct (window_median_ok history bc Hch Hok) as (tip & rm & E & Hok'). set (W := m_long_term_block_weights_window bc) in *.
  pose proof (long_term_median_range W (m_db bc) ltac:(lia) Hne Hwt) as Hr. set (lm := long_term_median W (m_db bc)) in *.
  unfold get_next_long_term_block_weight. unfold HF_VERSION_LONG_TERM_BLOCK_WEIGHT, HF_VERSION_2021_SCALING.
  bfalse (m_current_version bc <? 10). unfold window_median in E. cbv zeta in E |- *. rewrite E. cbn [mbind option_bind].
  unfold CRYPTONOTE_BLOCK_GRANTED_FULL_REWARD_ZONE_V5. set (lt := Z.max 300000 lm) in *.
  rewrite (wrap_small 64 (lt * 10)), (wrap_small 64 (lt * 7)), (wrap_small 64 (lt * 2)) by (unfold is_uint; lia).
  rewrite (wrap_small 64 (lt + lt * 7 / 10)), (wrap_small 64 (lt + lt * 2 / 5)) by (unfold is_uint; zlia).
  assert (E7 : lt + lt * 7 / 10 = 17 * lt / 10) by zlia. assert (E5 : lt + lt * 2 / 5 = 7 * lt / 5) by zlia. rewrite E7, E5, (Z.mul_comm lt 10).
  destruct (Z.leb_spec 15 (m_current_version bc)); eexists _, _; (split; [done|]); split_and!; try done; try lia. intros _. zlia.
Qed.

(** ** Witnesses *)

(** A chain, a reorganisation of its last block, and a block on top of it. *)
Definition blk (h w lw : Z) : block_info := mk_bi [h] 0 w lw 0.
Definition chain_a : list block_info := [blk 1 100 300000; blk 2 500000 500000].
Definition chain_b : list block_info := [blk 1 100 300000; blk 3 700000 510000].
Definition chain_c : list block_info := chain_b ++ [blk 4 900000 400000].
Definition sample_history (h : list Z) : list Z :=
  match h with
  | [1] => [300000]
  | [2] => [300000; 500000]
  | [3] => [300000; 510000]
  | [4] => [300000; 510000; 400000]
  | _ => []
  end.
Definition sample_bc : blockchain := with_db (initial [] 16 2 [7; 7]) chain_c.

Lemma chain_ok_dec history db :
  db <> [] -> length db < 2 ^ 63 ->
  forallb (fun h => match db !! h with Some b => bool_decide (bi_hash b <> null_hash /\ history (bi_hash b) = take (S h) (map bi_long_term_weight db)) | None => true end)
    (seq 0 (length db)) = true -> chain_ok history db.
Proof.
  intros Hne Hl HF. split; [done|]. split; [done|]. intros h b Hb. rewrite forallb_forall in HF.
  specialize (HF h). rewrite Hb in HF. apply bool_decide_eq_true in HF; [done|]. apply in_seq. pose proof (lookup_lt_Some _ _ _ Hb). lia.
Qed.

Lemma sample_chain_ok : chain_ok sample_history chain_c.
Proof. apply chain_ok_dec; [done|simpl; lia|vm_compute; reflexivity]. Qed.

Lemma sample_cache_ok : cache_ok sample_history sample_bc.
Proof. apply (initial_ok sample_history [] 16 2 [7; 7]); [lia|done]. Qed.

Lemma sample_weights_ok : weights_ok chain_c.
Proof. repeat constructor; simpl; lia. Qed.

Lemma long_term_median_cached_witness :
  queries (initial [] 16 2 [7; 7]) [chain_a; chain_b; chain_c] = Some [400000; 405000; 455000].
Proof.
  apply (long_term_median_cached sample_history 16 2 [7; 7] [chain_a; chain_b; chain_c]); [lia|reflexivity|].
  repeat (apply Forall_cons; split; [apply chain_ok_dec; [discriminate|simpl; lia|vm_compute; reflexivity]|]). apply Forall_nil. exact I.
Defined.

Lemma next_weight_limit_witness :
  let lt := Z.max 300000 (long_term_median 2 chain_c) in
  let med := Z.min (Z.max (if 15 <=? 16 then lt else 300000) (median (lastn 100 (map bi_weight chain_c)))) (50 * lt) in
  exists bc', update_next_cumulative_weight_limit sample_bc = Some bc' /\ cache_ok sample_history bc' /\ m_db bc' = chain_c /\
    m_long_term_effective_median_block_weight bc' = lt /\ m_current_block_cumul_weight_median bc' = med /\
    m_current_block_cumul_weight_limit bc' = 2 * med /\ 300000 <= med <= 50 * lt.
Proof. apply (next_weight_limit sample_history sample_bc sample_chain_ok sample_cache_ok sample_weights_ok). cbn. lia. Defined.

Lemma next_long_term_weight_witness :
  let lt := Z.max 300000 (long_term_median 2 chain_c) in
  exists r bc', get_next_long_term_block_weight sample_bc 900000 = Some (r, bc') /\ cache_ok sample_history bc' /\
    r = Z.min (Z.max 900000 (10 * lt / 17)) (17 * lt / 10) /\ (15 <= 16 -> 10 * lt / 17 <= r <= 17 * lt / 10).
Proof. apply (next_long_term_weight sample_history sample_bc 900000 sample_chain_ok sample_cache_ok sample_weights_ok); cbn; lia. Defined.
