(* ===== verification/Money.v ===== *)
(** * Money: amounts and their text

    Models the amount functions of src/cryptonote_basic/cryptonote_format_utils.cpp
    and .h: [print_money], [parse_amount], [round_money_up],
    [decompose_amount_into_digits], [is_valid_decomposed_amount] and the overflow
    checks on sums of amounts.  Strings are lists of character codes. *)
From S2P Require Import Prelude Hex.
#[local] Open Scope mach_scope.

(** ** Definitions *)

(** *** Decimal text *)

Fixpoint dec_len (fuel : nat) (z : Z) : nat :=
  match fuel with
  | O => 1%nat
  | S fuel' => if z <? 10 then 1%nat else S (dec_len fuel' (z / 10))
  end.

(** [std::to_string]; a 64-bit number has at most 20 digits. *)
Definition to_string (amount : Z) : list Z := map (Z.add 48) (digits 10 (dec_len 20 amount) amount).

(** Valid display units. *)
Definition set_default_decimal_point (decimal_point : Z) : option Z :=
  if bool_decide (decimal_point ∈ [12; 9; 6; 3; 0]) then Some decimal_point else None.

Definition get_unit (decimal_point : Z) : option string :=
  if decimal_point =? 12 then Some "monero"%string
  else if decimal_point =? 9 then Some "millinero"%string
  else if decimal_point =? 6 then Some "micronero"%string
  else if decimal_point =? 3 then Some "nanonero"%string
  else if decimal_point =? 0 then Some "piconero"%string
  else None.

Definition insert_money_decimal_point (s : list Z) (decimal_point : nat) : list Z :=
  let s := if (length s <? decimal_point + 1)%nat then replicate (decimal_point + 1 - length s) 48 ++ s else s in
  if (0 <? decimal_point)%nat
  then take (length s - decimal_point) s ++ 46 :: drop (length s - decimal_point) s
  else s.

Definition print_money (amount : Z) (decimal_point : nat) : list Z := insert_money_decimal_point (to_string amount) decimal_point.

(** *** Reading an amount *)

Definition find_point (s : list Z) : option nat := fst <$> list_find (fun c => c = 46) s.

(** Drop zeros at the end while the fraction is too long; returns the string and
    the size of its fraction. *)
Fixpoint strip_zeros (fuel : nat) (dp : nat) (s : list Z) (fraction_size : nat) : list Z * nat :=
  match fuel with
  | O => (s, fraction_size)
  | S fuel' =>
      if (dp <? fraction_size)%nat && (default 0 (last s) =? 48)
      then strip_zeros fuel' dp (take (length s - 1) s) (fraction_size - 1)
      else (s, fraction_size)
  end.

Section parse.
(** [boost::algorithm::trim] and [boost::lexical_cast<uint64_t>]. *)
Variable trim : list Z -> list Z.
Variable lexical_cast : list Z -> option Z.

(** [string_tools::get_xtype_from_string] at [uint64_t]. *)
Definition get_xtype_from_string (s : list Z) : option Z :=
  if forallb isdigit s then lexical_cast s else None.

Definition parse_amount (default_decimal_point : nat) (str_amount : list Z) : option Z :=
  let s := trim str_amount in
  r ← match find_point s with
      | Some point_index =>
          let fraction_size := (length s - point_index - 1)%nat in
          let '(s, fraction_size) := strip_zeros fraction_size default_decimal_point s fraction_size in
          if (default_decimal_point <? fraction_size)%nat then None
          else Some (take point_index s ++ drop (point_index + 1) s, fraction_size)
      | None => Some (s, O)
      end;
  let '(s, fraction_size) := r in
  if (length s =? 0)%nat then None
  else
    let s := if (fraction_size <? default_decimal_point)%nat then s ++ replicate (default_decimal_point - fraction_size) 48 else s in
    get_xtype_from_string s.
End parse.

(** *** Rounding up *)

(** Zero the digits past the significant ones; tells whether one was not zero. *)
Fixpoint zero_tail (l : list Z) : list Z * bool :=
  match l with
  | [] => ([], false)
  | c :: l' => let '(l'', bump) := zero_tail l' in (48 :: l'', bump || negb (c =? 48))
  end.

(** Add one to the digits, given last digit first; [true] is a carry out. *)
Fixpoint bump_digits (l : list Z) : list Z * bool :=
  match l with
  | [] => ([], true)
  | c :: l' => if c =? 57 then let '(l'', bump) := bump_digits l' in (48 :: l'', bump) else (c + 1 :: l', false)
  end.

(** [strtoull], which saturates with [errno] set. *)
Definition strtoull (buf : list Z) : Z * bool :=
  let v := be_val 10 (map (fun c => c - 48) buf) in
  if UINT64_MAX <? v then (UINT64_MAX, true) else (v, false).

(** [None] is a thrown exception. *)
Definition round_money_up (amount : Z) (significant_digits : nat) : option Z :=
  if negb (0 <? significant_digits)%nat then None
  else
    let buf := to_string amount in
    let buf :=
      if (significant_digits <? length buf)%nat then
        let '(tail, bump) := zero_tail (drop significant_digits buf) in
        let '(front, bump) := if bump then bump_digits (reverse (take significant_digits buf)) else (reverse (take significant_digits buf), false) in
        let buf := reverse front ++ tail in
        if bump then 49 :: buf else buf
      else buf in
    let '(ull, erange) := strtoull buf in
    if (ull =? UINT64_MAX) && erange then None
    else if (ull =? 0) && negb (amount =? 0) then None
    else Some ull.

(** *** Decomposition *)

Inductive piece := chunk (amount : Z) | dust (amount : Z).

(** The pieces handed to the two handlers, in order; 20 digits at most. *)
Fixpoint decompose_loop (fuel : nat) (amount order d dust_threshold : Z) (is_dust_handled : bool) : list piece :=
  match fuel with
  | O => []
  | S fuel' =>
      if amount =? 0 then (if negb is_dust_handled && negb (d =? 0) then [dust d] else [])
      else
        let c := (amount mod 10) ⊠ order in
        let amount := amount / 10 in
        let order := order ⊠ 10 in
        if d ⊞ c <=? dust_threshold then decompose_loop fuel' amount order (d ⊞ c) dust_threshold is_dust_handled
        else
          let first := negb is_dust_handled && negb (d =? 0) in
          (if first then [dust d] else []) ++ (if negb (c =? 0) then [chunk c] else []) ++
          decompose_loop fuel' amount order d dust_threshold (is_dust_handled || first)
  end.

Definition decompose_amount_into_digits (amount dust_threshold : Z) : list piece :=
  if amount =? 0 then [] else decompose_loop 21 amount 1 0 dust_threshold false.

(** A non-zero 64-bit number has at most 19 zeros at its end. *)
Fixpoint strip_decimal_zeros (fuel : nat) (amount : Z) : Z :=
  match fuel with
  | O => amount
  | S fuel' => if amount mod 10 =? 0 then strip_decimal_zeros fuel' (amount / 10) else amount
  end.

Definition is_valid_decomposed_amount (amount : Z) : bool :=
  if amount =? 0 then false else strip_decimal_zeros 20 amount <? 10.

(** *** Sums *)

(** The loop shared by the two overflow checks. *)
Fixpoint overflow_free (amounts : list Z) (money : Z) : bool :=
  match amounts with
  | [] => true
  | a :: amounts' => if a ⊞ money <? money then false else overflow_free amounts' (money ⊞ a)
  end.

Definition check_outs_overflow (vout : list Z) : bool := overflow_free vout 0.

(** Inputs that are not to-key inputs fail the check. *)
Fixpoint check_inputs_loop (vin : list (option Z)) (money : Z) : bool :=
  match vin with
  | [] => true
  | None :: _ => false
  | Some a :: vin' => if a ⊞ money <? money then false else check_inputs_loop vin' (money ⊞ a)
  end.
Definition check_inputs_overflow (vin : list (option Z)) : bool := check_inputs_loop vin 0.

Definition check_money_overflow (vin : list (option Z)) (vout : list Z) : bool := check_inputs_overflow vin && check_outs_overflow vout.

Definition get_outs_money_amount (vout : list Z) : Z := foldl (fun m a => m ⊞ a) 0 vout.

(** ** Lemmas *)

Definition dec_digit (d : Z) : Prop := 0 <= d < 10.
Definition dval (s : list Z) : Z := be_val 10 (map (fun c => c - 48) s).

Lemma dec_len_spec fuel : forall z, 0 <= z < 10 ^ (S fuel) ->
  (1 <= dec_len fuel z)%nat /\ z < 10 ^ dec_len fuel z /\ ((1 < dec_len fuel z)%nat -> 10 ^ (dec_len fuel z - 1) <= z).
Proof.
  induction fuel as [|fuel IH]; intros z Hz; cbn [dec_len]; [simpl in *; split_and!; lia|].
  destruct (Z.ltb_spec z 10) as [Hlt|Hge]; [split_and!; simpl; lia|].
  rewrite (Nat2Z.inj_succ (S fuel)), Z.pow_succ_r in Hz by lia. destruct (IH (z / 10)) as (H1 & H2 & H3); [zlia|].
  set (n := dec_len fuel (z / 10)) in *. split_and!; [lia| |].
  - rewrite Nat2Z.inj_succ, Z.pow_succ_r by lia. zlia.
  - intros _. destruct (Nat.eq_dec n 1%nat) as [E|]; [rewrite E; simpl; lia|].
    assert (Hn : (1 < n)%nat) by lia. apply H3 in Hn. replace (S n - 1) with (Z.succ (n - 1)) by lia. rewrite Z.pow_succ_r by lia. zlia.
Qed.

Lemma map_sub_add l : map (fun c => c - 48) (map (Z.add 48) l) = l.
Proof. rewrite map_map. rewrite <- (map_id l) at 2. apply map_ext. intros; lia. Qed.

Definition dec_text (s : list Z) : Prop := Forall (fun c => 48 <= c <= 57) s.

Lemma dec_text_digits s : dec_text s -> Forall (fun d => 0 <= d < 10) (map (fun c => c - 48) s).
Proof. intros H. apply Forall_fmap. eapply Forall_impl; [exact H|]. simpl. lia. Qed.

Lemma dval_range s : dec_text s -> 0 <= dval s < 10 ^ length s.
Proof. intros H. unfold dval. rewrite <- (length_map (fun c => c - 48) s). apply be_val_range; [lia|by apply dec_text_digits]. Qed.

Lemma dval_app s t : dval (s ++ t) = dval s * 10 ^ length t + dval t.
Proof. unfold dval. by rewrite map_app, be_val_app, length_map. Qed.

Lemma dval_zeros n : dval (replicate n 48) = 0.
Proof. unfold dval. induction n as [|n IH]; [done|]. cbn [replicate map]. rewrite be_val_cons, IH. lia. Qed.

Lemma dval_zeros_inv s : dec_text s -> dval s = 0 -> s = replicate (length s) 48.
Proof.
  intros H. induction H as [|c s Hc Hs IH]; [done|]. cbn [length replicate]. change (c :: s) with ([c] ++ s). rewrite dval_app.
  pose proof (dval_range s Hs). pose proof (Z.pow_pos_nonneg 10 (length s)). assert (Ed : dval [c] = c - 48) by (unfold dval, be_val; simpl; lia). rewrite Ed. intros E.
  assert (c = 48) as -> by nia. f_equal. apply IH. nia.
Qed.

Lemma to_string_spec a : is_u64 a ->
  dec_text (to_string a) /\ dval (to_string a) = a /\ (1 <= length (to_string a))%nat /\
  ((1 < length (to_string a))%nat -> 10 ^ (length (to_string a) - 1) <= a).
Proof.
  intros Ha. unfold is_uint in Ha. destruct (dec_len_spec 20 a) as (H1 & H2 & H3); [change (10 ^ 21%nat) with 1000000000000000000000; lia|].
  unfold to_string. rewrite length_map, length_digits. split_and!; [|unfold dval; rewrite map_sub_add; apply be_val_digits; lia|done|done].
  apply Forall_fmap. eapply Forall_impl; [apply digits_range; lia|]. simpl. lia.
Qed.

Lemma dec_isdigit s : dec_text s -> forallb isdigit s = true.
Proof.
  intros H. apply forallb_forall. intros c Hc. unfold dec_text in H. rewrite Forall_forall in H. apply list_elem_of_In, H in Hc.
  replace c with (48 + (c - 48)) by lia. assert (Hd : 0 <= c - 48 < 10) by lia. set (d := c - 48) in *. clearbody d. clear c Hc H.
  zcases d 10; vm_compute; reflexivity.
Qed.

(** *** Reading *)

Lemma find_point_dec ip fp : dec_text ip -> find_point (ip ++ 46 :: fp) = Some (length ip).
Proof.
  intros H. unfold find_point. rewrite (proj2 (list_find_Some _ _ (length ip) 46)); [done|]. split_and!.
  - by rewrite lookup_app_r, Nat.sub_diag.
  - done.
  - intros j y Hj Hlt -> . rewrite lookup_app_l in Hj by done. unfold dec_text in H. rewrite Forall_lookup in H. specialize (H _ _ Hj). simpl in H. lia.
Qed.

Lemma find_point_none ip : dec_text ip -> find_point ip = None.
Proof.
  intros H. unfold find_point. rewrite (proj2 (list_find_None _ _)); [done|]. eapply Forall_impl; [exact H|]. simpl. lia.
Qed.

Lemma strip_zeros_spec dp pre : forall fuel fp, (length fp <= fuel)%nat ->
  exists fp' k, fp = fp' ++ replicate k 48 /\ strip_zeros fuel dp (pre ++ fp) (length fp) = (pre ++ fp', length fp') /\
    ((length fp' <= dp)%nat \/ exists c fp'', fp' = fp'' ++ [c] /\ c <> 48).
Proof.
  induction fuel as [|fuel IH]; intros fp Hf; cbn [strip_zeros].
  { exists fp, O. rewrite app_nil_r. split_and!; [done..|]. left. lia. }
  destruct (Nat.ltb_spec dp (length fp)) as [Hlt|Hge]; cbn [andb].
  2:{ exists fp, O. rewrite app_nil_r. split_and!; [done..|]. by left. }
  destruct fp as [|c fp _] using rev_ind; [simpl in Hlt; lia|]. rewrite app_assoc, last_snoc. cbn [default]. unfold id.
  rewrite length_app in Hf. cbn [length] in Hf. destruct (Z.eqb_spec c 48) as [->|Hne].
  - rewrite (length_app (pre ++ fp)). cbn [length]. rewrite Nat.add_sub, take_app_length, (length_app fp). cbn [length]. rewrite Nat.add_sub.
    destruct (IH fp ltac:(lia)) as (fp' & k & -> & E & Hc). exists fp', (S k). split_and!; [|done|done].
    rewrite <- app_assoc. f_equal. symmetry. apply replicate_cons_app.
  - exists (fp ++ [c]), O. rewrite app_nil_r. split_and!; [done|by rewrite app_assoc|]. right. by exists c, fp.
Qed.

Section parse_lemmas.
Variable trim : list Z -> list Z.
Variable lexical_cast : list Z -> option Z.
(** [trim] only removes white space, and the cast reads decimal digits and fails
    on overflow. *)
Hypothesis trim_graphic : forall s, Forall (fun c => 33 <= c <= 126) s -> trim s = s.
Hypothesis cast_dec : forall s, s <> [] -> dec_text s -> lexical_cast s = if dval s <? 2 ^ 64 then Some (dval s) else None.

Lemma dec_graphic s : dec_text s -> Forall (fun c => 33 <= c <= 126) s.
Proof. intros H. eapply Forall_impl; [exact H|]. simpl. lia. Qed.

Lemma cast_padded s k n : s <> [] -> dec_text s ->
  get_xtype_from_string lexical_cast (s ++ replicate k 48) = Some n <-> n = dval s * 10 ^ k /\ n < 2 ^ 64.
Proof.
  intros Hne H. assert (Hd : dec_text (s ++ replicate k 48)).
  { apply Forall_app. split; [done|]. apply Forall_replicate. lia. }
  unfold get_xtype_from_string. rewrite dec_isdigit, cast_dec by (done || by destruct s). rewrite dval_app, dval_zeros, length_replicate, Z.add_0_r.
  bcase; split; intros Hs; [simplify_eq; lia|destruct Hs; subst; done|done|lia].
Qed.

Lemma parse_fraction dp ip fp n : dec_text ip -> dec_text fp -> ip <> [] ->
  parse_amount trim lexical_cast dp (ip ++ 46 :: fp) = Some n <-> n * 10 ^ length fp = dval (ip ++ fp) * 10 ^ dp /\ n < 2 ^ 64.
Proof.
  intros Hi Hf Hne. unfold parse_amount. rewrite trim_graphic, find_point_dec by (done || (apply Forall_app; split; [by apply dec_graphic|constructor; [lia|by apply dec_graphic]])).
  replace (length (ip ++ 46%Z :: fp) - length ip - 1)%nat with (length fp) by (rewrite length_app; simpl; lia).
  destruct (strip_zeros_spec dp (ip ++ [46]) (length fp) fp ltac:(lia)) as (fp' & k & -> & E & Hcase).
  rewrite <- !app_assoc in E. cbn [app] in E. rewrite E. apply Forall_app in Hf as [Hf _].
  assert (Hd : dec_text (ip ++ fp')) by (by apply Forall_app). pose proof (dval_range _ Hd) as Hr.
  assert (Ev : dval (ip ++ fp' ++ replicate k 48) = dval (ip ++ fp') * 10 ^ k) by (rewrite app_assoc, dval_app, dval_zeros, length_replicate; lia).
  rewrite Ev, length_app, length_replicate, Nat2Z.inj_add, Z.pow_add_r by lia. pose proof (Z.pow_pos_nonneg 10 k ltac:(lia) ltac:(lia)).
  destruct (Nat.ltb_spec dp (length fp')) as [Hlt|Hge].
  - split; [done|]. intros [Heq _]. exfalso. destruct Hcase as [|(c & fp'' & -> & Hc)]; [lia|].
    assert (Hc' : 48 <= c <= 57) by (apply Forall_app in Hf as [_ Hf]; apply Forall_cons in Hf as [Hf _]; done).
    rewrite app_assoc, dval_app in Heq. cbn [length] in Heq. rewrite length_app in Heq, Hlt. cbn [length] in Heq, Hlt.
    assert (Ec : dval [c] = c - 48) by (unfold dval, be_val; simpl; lia). rewrite Ec in Heq.
    replace (Z.of_nat (length fp'' + 1)) with (dp + Z.succ (length fp'' - dp)) in Heq by lia. rewrite Z.pow_add_r, Z.pow_succ_r in Heq by lia.
    change (10 ^ 1%nat) with 10 in Heq. pose proof (Z.pow_pos_nonneg 10 dp ltac:(lia) ltac:(lia)).
    set (P := 10 ^ dp) in *. set (K := 10 ^ k) in *. set (Q := 10 ^ (length fp'' - dp)) in *. set (v := dval (ip ++ fp'')) in *. clearbody P K Q v.
    assert (Hq : n * (10 * Q) = v * 10 + (c - 48)) by nia. assert (c - 48 = 10 * (n * Q - v)) by lia. lia.
  - cbn [mbind option_bind]. rewrite take_app_length, drop_app_ge by lia.
    replace (length ip + 1 - length ip)%nat with 1%nat by lia. change (drop 1 (46 :: fp')) with fp'.
    replace (length (ip ++ fp') =? 0)%nat with false by (symmetry; apply Nat.eqb_neq; destruct ip; [done|simpl; lia]).
    assert (Epad : (if (length fp' <? dp)%nat then (ip ++ fp') ++ replicate (dp - length fp') 48 else ip ++ fp') = (ip ++ fp') ++ replicate (dp - length fp') 48).
    { destruct (Nat.ltb_spec (length fp') dp); [done|]. replace (dp - length fp')%nat with O by lia. by rewrite app_nil_r. }
    rewrite Epad, cast_padded by (done || by destruct ip). replace (Z.of_nat dp) with (length fp' + (dp - length fp')%nat) by lia.
    rewrite Z.pow_add_r by lia. pose proof (Z.pow_pos_nonneg 10 (length fp') ltac:(lia) ltac:(lia)).
    set (A := 10 ^ length fp') in *. set (B := 10 ^ (dp - length fp')%nat). set (K := 10 ^ k) in *. clearbody A B K. split; intros [H1 H2]; (split; [|done]); [subst n; ring|]. apply (Z.mul_reg_r _ _ (A * K)); [nia|]. rewrite H1. ring.
Qed.

Lemma parse_whole dp ip n : dec_text ip -> ip <> [] ->
  parse_amount trim lexical_cast dp ip = Some n <-> n = dval ip * 10 ^ dp /\ n < 2 ^ 64.
Proof.
  intros Hi Hne. unfold parse_amount. rewrite trim_graphic, find_point_none by (done || by apply dec_graphic). cbn [mbind option_bind].
  replace (length ip =? 0)%nat with false by (symmetry; apply Nat.eqb_neq; destruct ip; [done|simpl; lia]).
  assert (Epad : (if (0 <? dp)%nat then ip ++ replicate (dp - 0) 48 else ip) = ip ++ replicate dp 48).
  { rewrite Nat.sub_0_r. destruct dp; [by rewrite app_nil_r|done]. }
  by rewrite Epad, cast_padded.
Qed.
End parse_lemmas.

(** *** Printing *)

Lemma print_money_shape a dp : is_u64 a ->
  exists ip fp, dec_text ip /\ dec_text fp /\ ip <> [] /\ length fp = dp /\ dval (ip ++ fp) = a /\
    print_money a dp = if (0 <? dp)%nat then ip ++ 46 :: fp else ip.
Proof.
  intros Ha. destruct (to_string_spec a Ha) as (Hd & Hv & Hl & _). unfold print_money, insert_money_decimal_point.
  set (t := to_string a) in *. set (s := if (length t <? dp + 1)%nat then _ else t).
  assert (Hs : dec_text s /\ dval s = a /\ (dp + 1 <= length s)%nat).
  { unfold s. destruct (Nat.ltb_spec (length t) (dp + 1)); [|split_and!; done || lia]. split_and!.
    - apply Forall_app. split; [apply Forall_replicate; lia|done].
    - rewrite dval_app, dval_zeros. lia.
    - rewrite length_app, length_replicate. lia. }
  destruct Hs as (Hds & Hvs & Hls). exists (take (length s - dp) s), (drop (length s - dp) s). rewrite take_drop. split_and!; try done.
  - by apply Forall_take.
  - by apply Forall_drop.
  - intros E. apply (f_equal length) in E. rewrite length_take in E. simpl in E. lia.
  - rewrite length_drop. lia.
  - destruct dp; [|done]. rewrite Nat.sub_0_r, firstn_all. done.
Qed.

(** *** Rounding *)

Lemma zero_tail_spec l : dec_text l -> zero_tail l = (replicate (length l) 48, negb (dval l =? 0)).
Proof.
  induction 1 as [|c l Hc Hl IH]; [done|]. cbn [zero_tail length replicate]. rewrite IH. f_equal.
  change (c :: l) with ([c] ++ l). rewrite dval_app. assert (Ed : dval [c] = c - 48) by (unfold dval, be_val; simpl; lia). rewrite Ed.
  pose proof (dval_range l Hl). pose proof (Z.pow_pos_nonneg 10 (length l) ltac:(lia) ltac:(lia)).
  destruct (Z.eqb_spec (dval l) 0) as [E|E], (Z.eqb_spec c 48) as [E'|E']; cbn [negb orb]; symmetry.
  - subst. apply negb_false_iff, Z.eqb_eq. lia.
  - apply negb_true_iff, Z.eqb_neq. nia.
  - apply negb_true_iff, Z.eqb_neq. nia.
  - apply negb_true_iff, Z.eqb_neq. nia.
Qed.

Lemma bump_digits_spec l : dec_text l ->
  let '(l', carry) := bump_digits l in
  dec_text l' /\ length l' = length l /\ dval (reverse l') + (if carry then 10 ^ length l else 0) = dval (reverse l) + 1.
Proof.
  induction 1 as [|c l Hc Hl IH]; [split_and!; [constructor|done|done]|]. cbn [bump_digits]. assert (Ed : forall c, dval [c] = c - 48) by (intros; unfold dval, be_val; simpl; lia).
  destruct (Z.eqb_spec c 57) as [->|Hne].
  - destruct (bump_digits l) as [l' carry]. destruct IH as (H1 & H2 & H3). cbn [length]. rewrite !reverse_cons, !dval_app, !Ed. cbn [length].
    split_and!; [by constructor; [lia|]|lia|]. change (10 ^ 1%nat) with 10. rewrite Nat2Z.inj_succ, Z.pow_succ_r by lia. destruct carry; lia.
  - cbn [length]. rewrite !reverse_cons, !dval_app, !Ed. cbn [length]. split_and!; [constructor; [lia|done]|done|lia].
Qed.

(** The text after rounding denotes the rounded-up amount. *)
Lemma round_buf k s : dec_text s -> (k < length s)%nat ->
  let '(tail, bump) := zero_tail (drop k s) in
  let '(front, bump) := if bump then bump_digits (reverse (take k s)) else (reverse (take k s), false) in
  let buf := if bump then 49 :: reverse front ++ tail else reverse front ++ tail in
  let p := 10 ^ (length s - k)%nat in
  dval buf = (dval s + p - 1) / p * p.
Proof.
  intros Hs Hk. assert (Ht : dec_text (drop k s)) by (by apply Forall_drop). assert (Hf : dec_text (take k s)) by (by apply Forall_take).
  rewrite (zero_tail_spec _ Ht). rewrite length_drop. set (p := 10 ^ (length s - k)%nat).
  assert (Hv : dval s = dval (take k s) * p + dval (drop k s)) by (rewrite <- (take_drop k s) at 1; by rewrite dval_app, length_drop).
  pose proof (dval_range _ Ht) as Hr. rewrite length_drop in Hr. fold p in Hr. rewrite Hv. assert (Hp : 0 < p) by (apply Z.pow_pos_nonneg; lia).
  assert (Ed : dval [49] = 1) by done. destruct (Z.eqb_spec (dval (drop k s)) 0) as [E0|E0]; cbn [negb].
  - rewrite reverse_involutive, dval_app, dval_zeros, length_replicate. fold p. rewrite E0. f_equal.
    replace (dval (take k s) * p + 0 + p - 1) with (dval (take k s) * p + (p - 1)) by lia. rewrite Z.div_add_l, Z.div_small by lia. lia.
  - assert (Hrf : dec_text (reverse (take k s))) by (by apply Forall_reverse). pose proof (bump_digits_spec _ Hrf) as Hb.
    destruct (bump_digits (reverse (take k s))) as [front carry]. destruct Hb as (Hb1 & Hb2 & Hb3). rewrite reverse_involutive, length_reverse in Hb3.
    rewrite length_reverse in Hb2.
    replace (dval (take k s) * p + dval (drop k s) + p - 1) with ((dval (take k s) + 1) * p + (dval (drop k s) - 1)) by lia.
    rewrite Z.div_add_l, (Z.div_small (_ - 1)), Z.add_0_r by lia. rewrite <- Hb3. destruct carry.
    + change (49 :: reverse front ++ replicate (length s - k) 48) with ([49] ++ reverse front ++ replicate (length s - k) 48).
      rewrite !dval_app, Ed, dval_zeros, length_app, length_replicate, length_reverse, Hb2, Nat2Z.inj_add, Z.pow_add_r by lia. fold p. lia.
    + rewrite dval_app, dval_zeros, length_replicate. fold p. lia.
Qed.

(** Numbers with at most [k] significant digits. *)
Definition significant (k : nat) (n : Z) : Prop := exists m e, 0 <= m < 10 ^ k /\ 0 <= e /\ n = m * 10 ^ e.

Lemma ceil_least a (k e : nat) : (1 <= k)%nat -> (1 <= e)%nat -> 10 ^ (k + e - 1) <= a < 10 ^ (k + e) ->
  let p := 10 ^ e in let r := (a + p - 1) / p * p in
  a <= r /\ significant k r /\ forall n, a <= n -> significant k n -> r <= n.
Proof.
  intros Hk He Hr. cbv zeta. set (p := 10 ^ e). assert (Hp : 0 < p) by (apply Z.pow_pos_nonneg; lia).
  assert (HpL : 10 ^ (k + e) = 10 ^ k * p) by (rewrite Z.pow_add_r; lia). assert (Hlow : 0 < 10 ^ (k + e - 1)) by (apply Z.pow_pos_nonneg; lia).
  pose proof (Z.div_mod (a + p - 1) p ltac:(lia)) as Hdm. pose proof (Z.mod_pos_bound (a + p - 1) p Hp) as Hmod. set (q := (a + p - 1) / p) in *.
  assert (Hq : 0 <= q <= 10 ^ k) by nia. split; [nia|]. split.
  - destruct (Z.eq_dec q (10 ^ k)) as [E|].
    + exists 1, (k + e). split_and!; [lia| |lia|rewrite E; lia]. pose proof (Z.pow_gt_1 10 k). lia.
    + exists q, e. split_and!; [lia..|done].
  - intros n Hn (m & e' & Hm & He' & ->). destruct (Z.le_gt_cases e e') as [Hle|Hgt].
    + replace e' with (e + (e' - e)) in * by lia. rewrite Z.pow_add_r in * by lia. fold p in Hn |- *. set (B := 10 ^ (e' - e)) in *.
      replace (m * (p * B)) with (m * B * p) in * by ring. set (x := m * B) in *. clearbody x. apply Z.mul_le_mono_nonneg_r; [lia|].
      destruct (Z.le_gt_cases q x) as [|Hgt]; [done|]. exfalso. nia.
    + exfalso. assert (m * 10 ^ e' < 10 ^ (k + e - 1)); [|lia].
      apply Z.lt_le_trans with (10 ^ k * 10 ^ e').
      * apply Z.mul_lt_mono_pos_r; [apply Z.pow_pos_nonneg; lia|lia].
      * rewrite <- Z.pow_add_r by lia. apply Z.pow_le_mono_r; lia.
Qed.

Lemma round_money_up_spec a k : is_u64 a -> (1 <= k)%nat ->
  exists r, a <= r /\ significant k r /\ (forall n, a <= n -> significant k n -> r <= n) /\
    round_money_up a k = if r <? 2 ^ 64 then Some r else None.
Proof.
  intros Ha Hk. destruct (to_string_spec a Ha) as (Hd & Hv & Hl & Hlow). unfold round_money_up.
  replace (0 <? k)%nat with true by (symmetry; apply Nat.ltb_lt; lia). cbn [negb]. set (t := to_string a) in *.
  pose proof (dval_range t Hd) as Hr. rewrite Hv in Hr. unfold is_uint in Ha.
  assert (Hfin : forall buf r, dval buf = r -> a <= r ->
    (let '(ull, erange) := strtoull buf in if (ull =? UINT64_MAX) && erange then None else if (ull =? 0) && negb (a =? 0) then None else Some ull) =
    if r <? 2 ^ 64 then Some r else None).
  { intros buf r <- Hge. unfold strtoull. fold (dval buf). unfold UINT64_MAX. change (2 ^ 64 - 1) with 18446744073709551615. bcase; try done; try lia. }
  destruct (Nat.ltb_spec k (length t)) as [Hlt|Hge].
  - pose proof (round_buf k t Hd Hlt) as Hb. destruct (zero_tail (drop k t)) as [tail bump]. destruct (if bump then _ else _) as [front carry]. cbv zeta in Hb |- *.
    rewrite Hv in Hb. set (e := (length t - k)%nat) in *. destruct (ceil_least a k e) as (H1 & H2 & H3); [done|lia| |].
    { replace (k + e) with (Z.of_nat (length t)) by lia. split; [apply Hlow; lia|lia]. }
    exists ((a + 10 ^ e - 1) / 10 ^ e * 10 ^ e). split_and!; [done..|]. apply Hfin; [|done]. rewrite <- Hb. by destruct carry.
  - exists a. split_and!; [lia| |done|by apply Hfin]. exists a, 0. split_and!; [lia| |lia|lia].
    apply Z.lt_le_trans with (10 ^ length t); [lia|]. apply Z.pow_le_mono_r; lia.
Qed.

(** *** Decomposition *)

(** A digit followed by zeros. *)
Definition one_digit (a : Z) : Prop := exists d e, 1 <= d <= 9 /\ 0 <= e /\ a = d * 10 ^ e.

Lemma strip_decimal_zeros_spec (fuel : nat) : forall a, 0 < a < 10 ^ fuel ->
  exists e, 0 <= e /\ a = strip_decimal_zeros fuel a * 10 ^ e /\ strip_decimal_zeros fuel a mod 10 <> 0.
Proof.
  induction fuel as [|fuel IH]; intros a Ha; cbn [strip_decimal_zeros]; [simpl in Ha; lia|].
  rewrite Nat2Z.inj_succ, Z.pow_succ_r in Ha by lia. destruct (Z.eqb_spec (a mod 10) 0) as [E|]; [|exists 0; split_and!; lia].
  destruct (IH (a / 10)) as (e & He & E1 & E2); [zlia|]. exists (Z.succ e). split_and!; [lia| |done]. rewrite Z.pow_succ_r by lia. zlia.
Qed.

Lemma valid_decomposed_spec a : is_u64 a -> is_valid_decomposed_amount a = true <-> one_digit a.
Proof.
  unfold is_uint. intros Ha. unfold is_valid_decomposed_amount. destruct (Z.eqb_spec a 0) as [->|Hne].
  { split; [done|]. intros (d & e & Hd & He & E). pose proof (Z.pow_pos_nonneg 10 e). nia. }
  destruct (strip_decimal_zeros_spec 20 a) as (e & He & E & Hm); [change (10 ^ 20%nat) with 100000000000000000000; lia|].
  set (s := strip_decimal_zeros 20 a) in *. pose proof (Z.pow_pos_nonneg 10 e ltac:(lia) He). rewrite Z.ltb_lt. split.
  - intros Hs. exists s, e. split_and!; [nia|nia|done..].
  - intros (d & e' & Hd & He' & E'). rewrite E in E'. destruct (Z.lt_total e e') as [Hlt|[->|Hgt]].
    + replace e' with (e + Z.succ (e' - e - 1)) in E' by lia. rewrite Z.pow_add_r, Z.pow_succ_r in E' by lia.
      assert (Es : s = d * 10 ^ (e' - e - 1) * 10) by (apply (Z.mul_reg_r _ _ (10 ^ e)); [lia|]; rewrite E'; ring).
      rewrite Es, Z.mod_mul in Hm by lia. done.
    + nia.
    + replace e with (e' + Z.succ (e - e' - 1)) in E' by lia. rewrite Z.pow_add_r, Z.pow_succ_r in E' by lia.
      assert (Es : d = s * 10 ^ (e - e' - 1) * 10).
      { pose proof (Z.pow_pos_nonneg 10 e'). apply (Z.mul_reg_r _ _ (10 ^ e')); [lia|]. rewrite <- E'. ring. }
      assert (d mod 10 = 0) by (rewrite Es; apply Z.mod_mul; lia). zlia.
Qed.

Definition piece_amount (p : piece) : Z := match p with chunk a => a | dust a => a end.
Definition pieces_sum (l : list piece) : Z := foldr (fun p acc => piece_amount p + acc) 0 l.
Definition piece_ok (thr : Z) (p : piece) : Prop := match p with chunk a => one_digit a | dust a => 0 < a <= thr end.
Definition dust_count (l : list piece) : nat := foldr (fun p n => match p with dust _ => S n | chunk _ => n end) O l.

Lemma pieces_sum_app l1 l2 : pieces_sum (l1 ++ l2) = pieces_sum l1 + pieces_sum l2.
Proof. induction l1 as [|p l1 IH]; [done|]. cbn [app pieces_sum foldr]. fold (pieces_sum (l1 ++ l2)). fold (pieces_sum l1). lia. Qed.

Lemma dust_count_app l1 l2 : dust_count (l1 ++ l2) = (dust_count l1 + dust_count l2)%nat.
Proof. induction l1 as [|[a|a] l1 IH]; [done|..]; cbn [app dust_count foldr]; fold (dust_count (l1 ++ l2)); fold (dust_count l1); lia. Qed.

Lemma decompose_loop_ok thr : 0 <= thr -> forall (fuel i : nat) amount order d handled,
  0 <= amount < 10 ^ fuel -> 0 <= d <= thr -> (amount <> 0 -> order = 10 ^ i /\ d < order /\ amount * order + d < 2 ^ 64) ->
  (handled = true -> amount <> 0 -> thr < d + order) ->
  let l := decompose_loop (S fuel) amount order d thr handled in
  pieces_sum l = amount * order + (if handled then 0 else d) /\ Forall (piece_ok thr) l /\
  (dust_count l <= (if handled then 0 else 1))%nat.
Proof.
  intros Hthr. induction fuel as [|fuel IH]; intros i amount order d handled Ha Hd Ho Hh; cbv zeta.
  all: cbn [decompose_loop]; destruct (Z.eqb_spec amount 0) as [->|Hne].
  1, 3: destruct handled, (Z.eqb_spec d 0) as [->|]; cbn [negb andb]; split_and!; repeat constructor; cbn; lia.
  { simpl in Ha. lia. }
  rewrite Nat2Z.inj_succ, Z.pow_succ_r in Ha by lia. destruct (Ho Hne) as (Eo & Hdo & Hsum). specialize (fun H => Hh H Hne).
  assert (Hop : 0 < order) by (rewrite Eo; apply Z.pow_pos_nonneg; lia). pose proof (Z.div_mod amount 10 ltac:(lia)) as Hdm.
  pose proof (Z.mod_pos_bound amount 10 ltac:(lia)) as Hmod. set (m := amount mod 10) in *. set (q := amount / 10) in *.
  assert (Hq : 0 <= q) by (apply Z.div_pos; lia). cbv zeta.
  rewrite !(wrap_small 64 (m * order)) by (unfold is_uint; nia). rewrite (wrap_small 64 (d + m * order)) by (unfold is_uint; nia).
  assert (Hord : q <> 0 -> wrap 64 (order * 10) = 10 ^ S i).
  { intros Hqn. rewrite Nat2Z.inj_succ, Z.pow_succ_r, <- Eo by lia. rewrite wrap_small by (unfold is_uint; nia). lia. }
  assert (Hqord : q * wrap 64 (order * 10) = q * (order * 10)).
  { destruct (Z.eq_dec q 0) as [->|Hqn]; [lia|]. rewrite Hord by done. rewrite Nat2Z.inj_succ, Z.pow_succ_r, <- Eo by lia. lia. }
  assert (Hsuc : 10 ^ S i = order * 10) by (rewrite Nat2Z.inj_succ, Z.pow_succ_r, <- Eo by lia; lia).
  destruct (Z.leb_spec (d + m * order) thr) as [Hle|Hgt].
  - destruct (IH (S i) q (wrap 64 (order * 10)) (d + m * order) handled) as (H1 & H2 & H3); [lia|nia| | |].
    + intros Hqn. rewrite Hord, Hsuc by done. split_and!; [done|nia|nia].
    + intros Hh1 Hqn. rewrite Hord, Hsuc by done. specialize (Hh Hh1). nia.
    + cbn [decompose_loop] in H1, H2, H3. rewrite H1, Hqord. split_and!; [|done|done]. destruct handled; [|nia].
      specialize (Hh eq_refl). assert (m = 0) by nia. nia.
  - assert (Hm : m <> 0) by nia. bfalse (m * order =? 0). cbn [negb].
    destruct (IH (S i) q (wrap 64 (order * 10)) d (handled || (negb handled && negb (d =? 0)))) as (H1 & H2 & H3); [lia|lia| | |].
    + intros Hqn. rewrite Hord, Hsuc by done. split_and!; [done|nia|nia].
    + intros _ Hqn. rewrite Hord, Hsuc by done. nia.
    + cbn [decompose_loop] in H1, H2, H3. rewrite !pieces_sum_app, H1, Hqord. split_and!.
      * destruct handled, (Z.eqb_spec d 0); cbn [negb andb orb pieces_sum foldr piece_amount]; nia.
      * apply Forall_app. split; [destruct handled, (Z.eqb_spec d 0); cbn [negb andb]; repeat constructor; cbn; lia|].
        constructor; [|done]. cbn [piece_ok]. exists m, i. rewrite <- Eo. split_and!; [lia..|done].
      * rewrite !dust_count_app. change (dust_count [chunk (m * order)]) with O.
        destruct handled, (Z.eqb_spec d 0); cbn [negb andb orb] in *; [..|change (dust_count [dust d]) with 1%nat]; change (dust_count []) with O; lia.
Qed.

(** *** Sums *)

Definition zsum (l : list Z) : Z := foldr Z.add 0 l.

Lemma zsum_nonneg l : Forall is_u64 l -> 0 <= zsum l.
Proof. induction 1 as [|a l Ha _ IH]; [done|]. cbn [zsum foldr]. fold (zsum l). unfold is_uint in Ha. lia. Qed.

Lemma overflow_free_spec l : forall money, Forall is_u64 l -> is_u64 money -> overflow_free l money = true <-> money + zsum l < 2 ^ 64.
Proof.
  induction l as [|a l IH]; intros money HF Hm; [cbn; unfold is_uint in Hm; split; [lia|done]|].
  apply Forall_cons in HF as [Ha HF]. cbn [overflow_free zsum foldr]. fold (zsum l). pose proof (zsum_nonneg l HF). unfold is_uint in *.
  destruct (Z.lt_ge_cases (money + a) (2 ^ 64)) as [Hlt|Hge].
  - rewrite (wrap_small 64 (a + money)), (wrap_small 64 (money + a)) by (unfold is_uint; lia). bfalse (a + money <? money). rewrite IH by (done || lia). lia.
  - assert (E : wrap 64 (a + money) = a + money - 2 ^ 64) by (symmetry; apply (Z.mod_unique _ _ 1); lia). rewrite E.
    btrue (a + money - 2 ^ 64 <? money). split; [done|lia].
Qed.

Lemma foldl_sum_wrap l : forall m, 0 <= m < 2 ^ 64 -> Forall is_u64 l -> foldl (fun m a => m ⊞ a) m l = wrap 64 (m + zsum l).
Proof.
  induction l as [|a l IH]; intros m Hm HF; [cbn; rewrite Z.add_0_r; symmetry; by apply wrap_small|].
  apply Forall_cons in HF as [Ha HF]. cbn [foldl zsum foldr]. fold (zsum l). rewrite IH; [|apply Z.mod_pos_bound; lia|done].
  unfold wrap. rewrite Zplus_mod_idemp_l. f_equal. lia.
Qed.

Lemma outs_sum_exact vout : Forall is_u64 vout -> check_outs_overflow vout = true -> get_outs_money_amount vout = zsum vout /\ zsum vout < 2 ^ 64.
Proof.
  intros HF Hc. apply overflow_free_spec in Hc; [|done|unfold is_uint; lia]. pose proof (zsum_nonneg vout HF).
  split; [|lia]. unfold get_outs_money_amount. rewrite foldl_sum_wrap by (done || lia). apply wrap_small. unfold is_uint. lia.
Qed.

(** ** Properties *)

(** the amount parser is exact: a numeral with at least one digit before the
    point is accepted as [n] precisely when it denotes [n] atomic units, that is
    [n * 10^(fraction size) = digits * 10^(decimal point)], and [n] fits 64 bits;
    and every amount printed by [print_money] is read back.  [trim] and the
    integer cast are those of Boost. *)
Theorem amount_text_exact trim lexical_cast dp ip fp n :
  (forall s, Forall (fun c => 33 <= c <= 126) s -> trim s = s) ->
  (forall s, s <> [] -> dec_text s -> lexical_cast s = if dval s <? 2 ^ 64 then Some (dval s) else None) ->
  dec_text ip -> dec_text fp -> ip <> [] ->
  (parse_amount trim lexical_cast dp (ip ++ 46 :: fp) = Some n <-> n * 10 ^ length fp = dval (ip ++ fp) * 10 ^ dp /\ n < 2 ^ 64) /\
  (parse_amount trim lexical_cast dp ip = Some n <-> n = dval ip * 10 ^ dp /\ n < 2 ^ 64) /\
  forall a, is_u64 a -> parse_amount trim lexical_cast dp (print_money a dp) = Some a.
Proof.
  intros Ht Hc Hi Hf Hne. split_and!; [by apply parse_fraction|by apply parse_whole|]. intros a Ha.
  destruct (print_money_shape a dp Ha) as (ip' & fp' & Hi' & Hf' & Hne' & Hl & Hv & ->). unfold is_uint in Ha.
  destruct (Nat.ltb_spec 0 dp) as [Hlt|Hge].
  - apply parse_fraction; try done. rewrite Hl, Hv. split; [done|lia].
  - assert (dp = O) as -> by lia. apply nil_length_inv in Hl as ->. rewrite app_nil_r in Hv. apply parse_whole; try done. rewrite Hv. simpl. lia.
Qed.

(** [round_money_up] returns the least amount with at most [k] significant
    digits that is not below the given one, and throws exactly when that amount
    does not fit 64 bits. *)
Theorem round_money_up_least a k :
  is_u64 a -> (1 <= k)%nat ->
  match round_money_up a k with
  | Some r => a <= r < 2 ^ 64 /\ significant k r /\ forall n, a <= n -> significant k n -> r <= n
  | None => forall n, a <= n -> significant k n -> 2 ^ 64 <= n
  end.
Proof.
  intros Ha Hk. destruct (round_money_up_spec a k Ha Hk) as (r & H1 & H2 & H3 & ->). destruct (Z.ltb_spec r (2 ^ 64)).
  - split_and!; done.
  - intros n Hn Hs. specialize (H3 n Hn Hs). lia.
Qed.

(** decomposing an amount gives pieces that sum up to it: chunks that are valid
    decomposed amounts (one digit followed by zeros) and at most one dust amount,
    not above the threshold. *)
Theorem decompose_amount_correct a thr :
  is_u64 a -> 0 <= thr ->
  let l := decompose_amount_into_digits a thr in
  pieces_sum l = a /\ (dust_count l <= 1)%nat /\
  Forall (fun p => match p with chunk c => is_valid_decomposed_amount c = true | dust d => 0 < d <= thr end) l.
Proof.
  intros Ha Ht. cbv zeta. unfold is_uint in Ha. unfold decompose_amount_into_digits. destruct (Z.eqb_spec a 0) as [->|Hne].
  { split_and!; [done|simpl; lia|constructor]. }
  destruct (decompose_loop_ok thr Ht 20 0 a 1 0 false) as (H1 & H2 & H3); [change (10 ^ 20%nat) with 100000000000000000000; lia|lia| |done|].
  { intros _. simpl. lia. }
  set (l := decompose_loop 21 a 1 0 thr false) in *. split_and!; [lia|done|].
  assert (Hu : Forall (fun p => 0 <= piece_amount p) l).
  { eapply Forall_impl; [exact H2|]. intros [c|d]; cbn; [|lia]. intros (x & e & Hx & He & ->). pose proof (Z.pow_pos_nonneg 10 e). nia. }
  assert (Hle : Forall (fun p => piece_amount p <= pieces_sum l) l).
  { clear -Hu. induction Hu as [|p l Hp Hu IH]; [constructor|]. cbn [pieces_sum foldr]. fold (pieces_sum l).
    assert (0 <= pieces_sum l) by (clear -Hu; induction Hu as [|q l Hq _ IHl]; [done|]; cbn [pieces_sum foldr]; fold (pieces_sum l); lia).
    constructor; [lia|]. eapply Forall_impl; [exact IH|]. simpl. lia. }
  rewrite Forall_forall in *. intros p Hp. specialize (H2 p Hp). specialize (Hu p Hp). specialize (Hle p Hp).
  destruct p as [c|d]; cbn [piece_ok piece_amount] in *; [|done]. apply valid_decomposed_spec; [unfold is_uint; lia|done].
Qed.

(** ** Witnesses *)

(** Boost's functions on the text used here. *)
Definition sample_cast (s : list Z) : option Z := if dval s <? 2 ^ 64 then Some (dval s) else None.

Lemma amount_text_exact_witness :
  (parse_amount id sample_cast 12 (str_bytes "1" ++ 46 :: str_bytes "50") = Some 1500000000000 <->
     1500000000000 * 10 ^ 2%nat = dval (str_bytes "150") * 10 ^ 12%nat /\ 1500000000000 < 2 ^ 64) /\
  (parse_amount id sample_cast 12 (str_bytes "1") = Some 1500000000000 <-> 1500000000000 = dval (str_bytes "1") * 10 ^ 12%nat /\ 1500000000000 < 2 ^ 64) /\
  forall a, is_u64 a -> parse_amount id sample_cast 12 (print_money a 12) = Some a.
Proof.
  apply (amount_text_exact id sample_cast 12 (str_bytes "1") (str_bytes "50") 1500000000000); [done|done| | |done]; repeat constructor; cbn; lia.
Defined.

Lemma round_money_up_least_witness :
  round_money_up 12345 2 = Some 13000 /\ 12345 <= 13000 < 2 ^ 64 /\ significant 2 13000 /\ forall n, 12345 <= n -> significant 2 n -> 13000 <= n.
Proof. split; [reflexivity|]. apply (round_money_up_least 12345 2); [unfold is_uint|]; lia. Defined.

Lemma decompose_amount_correct_witness :
  decompose_amount_into_digits 62387455827 500000 =
    [dust 455827; chunk 7000000; chunk 80000000; chunk 300000000; chunk 2000000000; chunk 60000000000] /\
  pieces_sum (decompose_amount_into_digits 62387455827 500000) = 62387455827.
Proof. split; [reflexivity|]. apply (decompose_amount_correct 62387455827 500000); [unfold is_uint|]; lia. Defined.
