(* ===== verification/MinerTx.v ===== *)
(** * MinerTx: coinbase transactions and the coin supply

    Models [prevalidate_miner_transaction], [validate_miner_transaction] and the
    supply accounting of [handle_block_to_main_chain] in
    src/cryptonote_core/blockchain.cpp, with [check_output_types] of
    src/cryptonote_basic/cryptonote_format_utils.cpp. *)
From S2P Require Import Prelude Archive Config TxFormat RctFormat Transaction Reward RollingMedian BlockWeight Money.
#[local] Open Scope mach_scope.

(** ** Definitions *)

(** [typeid]: which alternative of the variant a target holds. *)
Definition target_is_key (t : txout_target_v) : bool := match t with txout_to_key _ => true | _ => false end.
Definition target_is_tagged_key (t : txout_target_v) : bool := match t with txout_to_tagged_key _ _ => true | _ => false end.

(** The body of the loop over outputs, [first] the target of output 0. *)
Definition output_type_ok (hf_version : Z) (first t : txout_target_v) : bool :=
  if HF_VERSION_VIEW_TAGS <? hf_version then target_is_tagged_key t
  else if hf_version <? HF_VERSION_VIEW_TAGS then target_is_key t
  else (target_is_key t || target_is_tagged_key t) && (txout_tag t =? txout_tag first).

Definition check_output_types (tx : transaction) (hf_version : Z) : bool :=
  match tx_vout tx with
  | [] => true
  | o :: _ => forallb (fun o' => output_type_ok hf_version (out_target o) (out_target o')) (tx_vout tx)
  end.

Definition prevalidate_miner_transaction (tx : transaction) (height hf_version : Z) : bool :=
  match tx_vin tx with
  | [txin_gen h] =>
      if negb ((1 <? tx_version tx) || (hf_version <? HF_VERSION_MIN_V2_COINBASE_TX)) then false
      else if (HF_VERSION_REJECT_SIGS_IN_COINBASE <=? hf_version) && (2 <=? tx_version tx) && negb (rct_type (tx_rct tx) =? RCTTypeNull) then false
      else if negb (h =? height) then false
      else if negb (tx_unlock_time tx =? height ⊞ CRYPTONOTE_MINED_MONEY_UNLOCK_WINDOW) then false
      else if negb (check_outs_overflow (map out_amount (tx_vout tx))) then false
      else check_output_types tx hf_version
  | _ => false
  end.

(** The median the reward is computed with. *)
Definition reward_median (bc : blockchain) (version : Z) : option Z :=
  if HF_VERSION_EFFECTIVE_SHORT_TERM_MEDIAN_IN_PENALTY <=? version then Some (m_current_block_cumul_weight_median bc)
  else weights ← get_last_n_blocks_weights bc CRYPTONOTE_REWARD_BLOCKS_WINDOW; Some (median weights).

(** [Some (base_reward, partial_block_reward)] is a [true] return. *)
Definition validate_miner_transaction (bc : blockchain) (tx : transaction) (cumulative_block_weight fee already_generated_coins version : Z) : option (Z * bool) :=
  let money_in_use := get_outs_money_amount (map out_amount (tx_vout tx)) in
  if (version =? 3) && negb (forallb (fun o => is_valid_decomposed_amount (out_amount o)) (tx_vout tx)) then None
  else
    median_weight ← reward_median bc version;
    match get_block_reward median_weight cumulative_block_weight already_generated_coins version with
    | reward_ok base_reward =>
        if base_reward ⊞ fee <? money_in_use then None
        else if (version <? 2) || (HF_VERSION_EXACT_COINBASE <=? version) then
          if negb (base_reward ⊞ fee =? money_in_use) then None else Some (base_reward, false)
        else if negb (money_in_use ⊟ fee <=? base_reward) then None
        else Some (money_in_use ⊟ fee, negb (base_reward ⊞ fee =? money_in_use))
    | _ => None
    end.

(** A block as the supply sees it, and the coins recorded after accepting it. *)
Record mined := mk_mined { mb_tx : transaction; mb_weight : Z; mb_fee : Z; mb_version : Z }.

Definition accept_coinbase (bc : blockchain) (coins : Z) (b : mined) : option (Z * Z) :=
  if negb (prevalidate_miner_transaction (mb_tx b) (db_height bc) (mb_version b)) then None
  else
    '(base_reward, _) ← validate_miner_transaction bc (mb_tx b) (mb_weight b) (mb_fee b) coins (mb_version b);
    Some (base_reward, cap_generated_coins coins base_reward).

(** ** Lemmas *)

Definition outs_sum (tx : transaction) : Z := zsum (map out_amount (tx_vout tx)).
Definition outs_u64 (tx : transaction) : Prop := Forall is_u64 (map out_amount (tx_vout tx)).

Lemma prevalidate_sum tx height v :
  outs_u64 tx -> prevalidate_miner_transaction tx height v = true ->
  get_outs_money_amount (map out_amount (tx_vout tx)) = outs_sum tx /\ 0 <= outs_sum tx < 2 ^ 64.
Proof.
  intros Hu H. assert (Ho : check_outs_overflow (map out_amount (tx_vout tx)) = true).
  { unfold prevalidate_miner_transaction in H. destruct (check_outs_overflow _); [done|]. cbn [negb] in H. by repeat case_match. }
  destruct (outs_sum_exact _ Hu Ho) as [E Hlt]. split; [done|]. split; [by apply zsum_nonneg|done].
Qed.

Lemma reward_small m w coins v r : is_u64 coins -> effective_median m v < 2 ^ 32 -> get_block_reward m w coins v = reward_ok r -> 0 <= r <= get_base_reward coins v.
Proof.
  intros Hc Hm E. pose proof (get_base_reward_range coins v Hc) as Hb. destruct (Z.le_gt_cases w (effective_median m v)) as [Hle|Hgt].
  - unfold get_block_reward in E. rewrite effective_median_if in E. cbv zeta in E. destruct (Z.leb_spec w (effective_median m v)); [|lia]. simplify_eq. lia.
  - destruct (Z.le_gt_cases w (2 * effective_median m v)) as [Hle|Hgt2].
    + destruct (block_reward_range m w coins v Hc Hm ltac:(lia)) as (r' & E' & _ & Hr). rewrite E in E'. simplify_eq. lia.
    + exfalso. unfold get_block_reward in E. rewrite effective_median_if in E. cbv zeta in E. pose proof (min_block_weight_pos v). unfold effective_median in *.
      destruct (Z.leb_spec w (Z.max m (get_min_block_weight v))); [lia|]. rewrite (wrap_small 64 (2 * _)) in E by (unfold is_uint; lia).
      destruct (Z.ltb_spec (2 * Z.max m (get_min_block_weight v)) w); [done|lia].
Qed.

(** The rule on what a coinbase may claim, in plain arithmetic. *)
Definition claim_rule (tx : transaction) (subsidy fee version r : Z) (partial : bool) : Prop :=
  if (version <? 2) || (13 <=? version) then outs_sum tx = subsidy + fee /\ r = subsidy /\ partial = false
  else fee <= outs_sum tx <= subsidy + fee /\ r = outs_sum tx - fee /\ partial = negb (subsidy + fee =? outs_sum tx).

Lemma sub_wrap_le a b c : is_u64 a -> is_u64 b -> 0 <= c < 2 ^ 64 - b -> (a ⊟ b <=? c) = (b <=? a) && (a - b <=? c).
Proof.
  unfold is_uint. intros Ha Hb Hc. destruct (Z.le_gt_cases b a) as [Hle|Hgt].
  - rewrite wrap_small by (unfold is_uint; lia). by btrue (b <=? a).
  - assert (E : wrap 64 (a - b) = a - b + 2 ^ 64) by (symmetry; apply (Z.mod_unique _ _ (-1)); lia). rewrite E.
    bfalse (b <=? a). apply Z.leb_gt. lia.
Qed.

Lemma validate_iff bc tx h w fee coins v m r partial :
  outs_u64 tx -> prevalidate_miner_transaction tx h v = true -> is_u64 coins -> 0 <= fee < 2 ^ 63 ->
  reward_median bc v = Some m -> effective_median m v < 2 ^ 32 ->
  validate_miner_transaction bc tx w fee coins v = Some (r, partial) <->
  (v = 3 -> forallb (fun o => is_valid_decomposed_amount (out_amount o)) (tx_vout tx) = true) /\
  exists subsidy, get_block_reward m w coins v = reward_ok subsidy /\ claim_rule tx subsidy fee v r partial.
Proof.
  intros Hu Hp Hc Hfee Hm Hmed. destruct (prevalidate_sum tx h v Hu Hp) as [Es Hs]. unfold validate_miner_transaction. rewrite Es, Hm. cbn [mbind option_bind]. cbv zeta.
  set (dec := forallb (fun o => is_valid_decomposed_amount (out_amount o)) (tx_vout tx)).
  destruct ((v =? 3) && negb dec) eqn:Ed.
  { apply andb_true_iff in Ed as [E3 Edec]. apply Z.eqb_eq in E3. split; [done|]. intros [H _]. by rewrite (H E3) in Edec. }
  assert (Hok : v = 3 -> dec = true) by (intros ->; by destruct dec).
  destruct (get_block_reward m w coins v) as [subsidy| |] eqn:Er; [|split; [done|]; by intros (_ & ? & ? & _)..].
  pose proof (reward_small _ _ _ _ _ Hc Hmed Er) as Hr. pose proof (get_base_reward_range coins v Hc). unfold is_uint in *.
  rewrite !(wrap_small 64 (subsidy + fee)) by (unfold is_uint; lia).
  transitivity (claim_rule tx subsidy fee v r partial);
    [|split; [intros H'; split; [done|by exists subsidy]|intros (_ & s & Hsub & H'); injection Hsub as <-; done]].
  unfold claim_rule, HF_VERSION_EXACT_COINBASE. rewrite sub_wrap_le by (unfold is_uint; lia).
  destruct (Z.ltb_spec (subsidy + fee) (outs_sum tx)); [split; [done|]; destruct (_ || _); lia|]. destruct (_ || _).
  - destruct (Z.eqb_spec (subsidy + fee) (outs_sum tx)); cbn [negb]; split; intros H'; [by simplify_eq|destruct H' as (_ & -> & ->); done|done|lia].
  - destruct (Z.leb_spec fee (outs_sum tx)); cbn [andb negb]; [|split; [done|lia]]. destruct (Z.leb_spec (outs_sum tx - fee) subsidy); cbn [negb]; [|split; [done|lia]].
    rewrite (wrap_small 64 (outs_sum tx - fee)) by (unfold is_uint; lia). split; intros H'; [simplify_eq; split_and!; done || lia|].
    destruct H' as (_ & -> & ->). done.
Qed.

(** Blocks accepted one after the other, each against the chain of its time:
    total coins recorded, and the coins created by each block. *)
Fixpoint accept_all (coins : Z) (bs : list (blockchain * mined)) : option (Z * list Z) :=
  match bs with
  | [] => Some (coins, [])
  | (bc, b) :: bs' =>
      '(r, coins) ← accept_coinbase bc coins b;
      '(coins, rs) ← accept_all coins bs';
      Some (coins, r :: rs)
  end.

(** Inputs the database and the transaction parser can produce. *)
Definition mined_ok (p : blockchain * mined) : Prop :=
  outs_u64 (mb_tx p.2) /\ 0 <= mb_fee p.2 < 2 ^ 63 /\
  exists m, reward_median p.1 (mb_version p.2) = Some m /\ effective_median m (mb_version p.2) < 2 ^ 32.

Lemma accept_coinbase_ok bc coins b r coins' :
  mined_ok (bc, b) -> is_u64 coins -> accept_coinbase bc coins b = Some (r, coins') ->
  outs_sum (mb_tx b) = r + mb_fee b /\ 0 <= r <= get_base_reward coins (mb_version b) /\ coins' = Z.min MONEY_SUPPLY (coins + r) /\ is_u64 coins'.
Proof.
  intros (Hu & Hf & m & Hm & Hmed) Hc. cbn [fst snd] in *. unfold accept_coinbase. destruct (prevalidate_miner_transaction _ _ _) eqn:Hp; [|done]. cbn [negb].
  destruct (validate_miner_transaction _ _ _ _ _ _) as [[r0 partial]|] eqn:Ev; [|done]. cbn [mbind option_bind]. intros [= <- <-].
  apply (validate_iff _ _ (db_height bc) _ _ _ _ m) in Ev; [|done..]. destruct Ev as (_ & subsidy & Er & Hrule).
  pose proof (reward_small _ _ _ _ _ Hc Hmed Er) as Hr. pose proof (get_base_reward_range coins (mb_version b) Hc).
  assert (H1 : outs_sum (mb_tx b) = r0 + mb_fee b /\ 0 <= r0 <= subsidy) by (unfold claim_rule in Hrule; destruct (_ || _); lia).
  rewrite cap_generated_coins_spec by (unfold is_uint; lia || done). unfold is_uint, MONEY_SUPPLY, UINT64_MAX in *. split_and!; lia.
Qed.

(** ** Properties *)

(** C31: a coinbase that passes [prevalidate_miner_transaction] is accepted with
    created coins [r] precisely when its outputs claim, in exact arithmetic, the
    subsidy plus the fees (before fork 2 and from fork 13 on), or at least the fees
    and at most subsidy plus fees (in between), [r] being the claim less the fees,
    and under fork 3 all outputs are single digits followed by zeros. *)
Theorem coinbase_claim bc tx h w fee coins v m r partial :
  outs_u64 tx -> prevalidate_miner_transaction tx h v = true -> is_u64 coins -> 0 <= fee < 2 ^ 63 ->
  reward_median bc v = Some m -> effective_median m v < 2 ^ 32 ->
  validate_miner_transaction bc tx w fee coins v = Some (r, partial) <->
  (v = 3 -> forallb (fun o => is_valid_decomposed_amount (out_amount o)) (tx_vout tx) = true) /\
  exists subsidy, get_block_reward m w coins v = reward_ok subsidy /\ claim_rule tx subsidy fee v r partial.
Proof. apply validate_iff. Qed.

(** C7: no coins appear from nowhere: over any sequence of accepted blocks, each
    validated against its own chain state, the coinbase outputs are exactly the
    fees plus the coins the blocks create, each block creates between 0 and 2^45
    atomic units, and the recorded total is the initial one plus all of them,
    saturated at [MONEY_SUPPLY]. *)
Theorem supply_accounting coins bs coins' rs :
  is_u64 coins -> Forall mined_ok bs -> accept_all coins bs = Some (coins', rs) ->
  zsum (map (fun p => outs_sum (mb_tx p.2)) bs) = zsum rs + zsum (map (fun p => mb_fee p.2) bs) /\
  Forall (fun r => 0 <= r < 2 ^ 45) rs /\ length rs = length bs /\ coins' = Z.min MONEY_SUPPLY (coins + zsum rs).
Proof.
  intros Hc HF. revert coins coins' rs Hc. induction HF as [|[bc b] bs Hb HF IH]; intros coins coins' rs Hc; cbn [accept_all].
  { intros [= <- <-]. unfold is_uint, MONEY_SUPPLY, UINT64_MAX in *. split_and!; [done|constructor|done|cbn; lia]. }
  destruct (accept_coinbase bc coins b) as [[r c1]|] eqn:E1; [|done]. cbn [mbind option_bind].
  destruct (accept_all c1 bs) as [[c2 rs']|] eqn:E2; [|done]. cbn [mbind option_bind]. intros [= <- <-].
  destruct (accept_coinbase_ok _ _ _ _ _ Hb Hc E1) as (H1 & H2 & H3 & H4). destruct (IH _ _ _ H4 E2) as (I1 & I2 & I3 & I4).
  pose proof (get_base_reward_range coins (mb_version b) Hc). cbn [map zsum foldr snd length]. fold (zsum rs').
  fold (zsum (map (fun p : blockchain * mined => outs_sum (mb_tx p.2)) bs)). fold (zsum (map (fun p : blockchain * mined => mb_fee p.2) bs)).
  assert (0 <= zsum rs') by (clear -I2; induction I2 as [|x l Hx _ IH]; [done|]; cbn [zsum foldr]; fold (zsum l); lia).
  split_and!; [lia|constructor; [lia|done]|lia|]. rewrite I4, H3. unfold is_uint in Hc. lia.
Qed.

(** ** Witnesses *)

Definition sample_chain : blockchain := set_limits sample_bc 300000 600000 300000.
Definition sample_coinbase (amount : Z) : transaction := mk_tx (mk_prefix 2 63 [txin_gen 3] [mk_out amount (txout_to_tagged_key (replicate 32 7) [9])] []) [] null_base null_prunable false.
Definition sample_mined (amount : Z) : blockchain * mined := (sample_chain, mk_mined (sample_coinbase amount) 2000 1000 16).

Lemma sample_outs amount : 0 <= amount < 2 ^ 64 -> outs_u64 (sample_coinbase amount).
Proof. intros. constructor; [unfold is_uint; cbn; lia|constructor]. Qed.

Lemma coinbase_claim_witness :
  validate_miner_transaction sample_chain (sample_coinbase 17592186045415) 2000 1000 (2 ^ 63) 16 = Some (17592186044415, false).
Proof.
  apply (coinbase_claim sample_chain (sample_coinbase 17592186045415) 3 2000 1000 (2 ^ 63) 16 300000).
  - apply sample_outs. lia.
  - reflexivity.
  - unfold is_uint. lia.
  - lia.
  - reflexivity.
  - vm_compute. reflexivity.
  - split; [discriminate|]. exists 17592186044415. split; vm_compute; [reflexivity|auto].
Defined.

Lemma supply_accounting_witness :
  let bs := [sample_mined 17592186045415; sample_mined 17592152490984] in
  exists coins' rs, accept_all (2 ^ 63) bs = Some (coins', rs) /\
  zsum (map (fun p => outs_sum (mb_tx p.2)) bs) = zsum rs + zsum (map (fun p => mb_fee p.2) bs) /\
  Forall (fun r => 0 <= r < 2 ^ 45) rs /\ length rs = length bs /\ coins' = Z.min MONEY_SUPPLY (2 ^ 63 + zsum rs).
Proof.
  assert (E : accept_all (2 ^ 63) [sample_mined 17592186045415; sample_mined 17592152490984] =
    Some (9223407221193310207, [17592186044415; 17592152489984])) by (vm_compute; reflexivity).
  exists 9223407221193310207, [17592186044415; 17592152489984]. split; [exact E|].
  apply (supply_accounting (2 ^ 63) [sample_mined 17592186045415; sample_mined 17592152490984] _ _); [unfold is_uint; lia| |exact E].
  repeat constructor; try (unfold is_uint; cbn; lia); cbn; try lia; exists 300000; split; reflexivity.
Defined.
