(* ===== verification/TxVerify.v ===== *)
(** * TxVerify: consensus rules on transactions

    Models the rules that need no chain data: [core::check_tx_semantic] of
    src/cryptonote_core/cryptonote_core.cpp, [Blockchain::check_tx_outputs] and
    [Blockchain::expand_transaction_2] of blockchain.cpp, and all of
    tx_verification_utils.cpp, with the cache of verified inputs.

    The elliptic curve checks are section variables of which nothing is assumed. *)
From S2P Require Import Prelude Varint Archive Config Keccak Reward TxFormat RctFormat Transaction TxParse TreeHash Hex TxHash TxWeight Money MinerTx.
#[local] Open Scope mach_scope.
#[local] Arguments put : simpl never.
#[local] Arguments get : simpl never.

(** ** Definitions *)

(** The flags of [tx_verification_context]; a context is the list of
    flags set so far. *)
Inductive tvc_flag :=
  | m_verifivation_failed | m_no_drop_offense | m_verifivation_impossible | m_added_to_pool | m_low_mixin | m_double_spend | m_invalid_input | m_invalid_output
  | m_too_big | m_overspend | m_fee_too_low | m_too_few_outputs | m_tx_extra_too_big | m_nonzero_unlock_time.
#[global] Instance tvc_flag_eq_dec : EqDecision tvc_flag.
Proof. solve_decision. Defined.
Abbreviation tvc_t := (list tvc_flag).

(** A check with its context: [true], or [false] with more flags set. *)
Definition reject (flags : list tvc_flag) (tvc : tvc_t) : bool * tvc_t := (false, flags ++ tvc).

(** *** Amounts and inputs *)

Definition vin_amount (i : txin_v) : option Z := match i with txin_to_key amount _ _ => Some amount | _ => None end.
Definition vin_key_image (i : txin_v) : option (list Z) := match i with txin_to_key _ _ k => Some k | _ => None end.

(** The sum so far is left in [money] when an input of another type is met. *)
Fixpoint get_inputs_money_amount (vin : list txin_v) (money : Z) : bool * Z :=
  match vin with
  | [] => (true, money)
  | txin_to_key amount _ _ :: vin => get_inputs_money_amount vin (money ⊞ amount)
  | _ => (false, money)
  end.

Definition input_is_key (i : txin_v) : bool := match i with txin_to_key _ _ _ => true | _ => false end.
Definition check_inputs_types_supported (tx : transaction) : bool := forallb input_is_key (tx_vin tx).

(** [ki], the key images seen so far. *)
Fixpoint keyimages_diff_loop (vin : list txin_v) (ki : list (list Z)) : bool :=
  match vin with
  | [] => true
  | txin_to_key _ _ k :: vin => if bool_decide (k ∈ ki) then false else keyimages_diff_loop vin (k :: ki)
  | _ => false
  end.
Definition check_tx_inputs_keyimages_diff (tx : transaction) : bool := keyimages_diff_loop (tx_vin tx) [].

Definition ring_members_diff (i : txin_v) : bool :=
  match i with txin_to_key _ key_offsets _ => forallb (fun o => negb (o =? 0)) (tail key_offsets) | _ => false end.
Definition check_tx_inputs_ring_members_diff (tx : transaction) (hf_version : Z) : bool :=
  if 6 <=? hf_version then forallb ring_members_diff (tx_vin tx) else true.

Section curve.
(** [crypto::check_key], [ki == identity()] and [scalarmultKey(ki, curveOrder()) == identity()]. *)
Context (check_key is_identity in_subgroup : list Z -> bool).

Definition check_outs_valid (tx : transaction) : bool :=
  forallb (fun out => match get_output_public_key out with
                      | Some key => (if tx_version tx =? 1 then 0 <? out_amount out else true) && check_key key
                      | None => false
                      end) (tx_vout tx).

Definition check_tx_inputs_keyimages_domain (tx : transaction) : bool :=
  forallb (fun i => match vin_key_image i with Some k => negb (is_identity k) && in_subgroup k | None => false end) (tx_vin tx).

Definition check_tx_semantic (tx : transaction) (hf_version : Z) (tvc : tvc_t) : bool * tvc_t :=
  if bool_decide (tx_vin tx = []) then reject [m_verifivation_failed; m_invalid_input] tvc
  else if negb (check_inputs_types_supported tx) then reject [m_verifivation_failed; m_invalid_input] tvc
  else if negb (check_outs_valid tx) then reject [m_verifivation_failed; m_invalid_output] tvc
  else if (1 <? tx_version tx) && negb (length (rct_outPk (tx_rct tx)) =? length (tx_vout tx))%nat then reject [m_verifivation_failed; m_invalid_output] tvc
  else if negb (check_money_overflow (map vin_amount (tx_vin tx)) (map out_amount (tx_vout tx))) then reject [m_verifivation_failed; m_overspend] tvc
  else if (tx_version tx =? 1) && ((get_inputs_money_amount (tx_vin tx) 0).2 <=? get_outs_money_amount (map out_amount (tx_vout tx)))
    then reject [m_verifivation_failed; m_overspend] tvc
  else if negb (check_tx_inputs_keyimages_diff tx) then reject [m_verifivation_failed; m_invalid_input] tvc
  else if negb (check_tx_inputs_ring_members_diff tx hf_version) then reject [m_verifivation_failed; m_invalid_input] tvc
  else if negb (check_tx_inputs_keyimages_domain tx) then reject [m_verifivation_failed; m_invalid_input] tvc
  else if negb (check_output_types tx hf_version) then reject [m_verifivation_failed; m_invalid_output] tvc
  else (true, tvc).

End curve.

(** *** Outputs and proof types by fork *)

Definition grandfathered : list (list Z) :=
  [str_bytes "c5151944f0583097ba0c88cd0f43e7fabb3881278aa2f73b3b0a007c5d34e910";
   str_bytes "6f2f117cde6fbcf8d4a6ef8974fcac744726574ac38cf25d3322c996b21edd4c"].

(** The comparison of [get_transaction_hash(tx)] with the two hashes; the throw
    when no hash can be computed counts as a rejection. *)
Definition is_grandfathered (tx : transaction) : bool :=
  match calculate_transaction_hash tx 0 with
  | Some h => existsb (fun g => bool_decide (hex_to_pod 32 g = Some h)) grandfathered
  | None => false
  end.

Definition check_tx_outputs (tx : transaction) (hf_version : Z) (tvc : tvc_t) : bool * tvc_t :=
  let type := rct_type (tx_rct tx) in
  let v2 := 2 <=? tx_version tx in
  let bad := reject [m_invalid_output] tvc in
  if (2 <=? hf_version) && negb (forallb (fun o => negb (tx_version tx =? 1) || is_valid_decomposed_amount (out_amount o)) (tx_vout tx)) then bad
  else if (3 <=? hf_version) && v2 && negb (forallb (fun o => out_amount o =? 0) (tx_vout tx)) then bad
  else if (hf_version <? 8) && v2 && (is_rct_bulletproof type || negb (bool_decide (p_bulletproofs (tx_rct_p tx) = []))) then bad
  else if (8 <? hf_version) && v2 && is_rct_borromean type then bad
  else if (hf_version <? HF_VERSION_SMALLER_BP) && v2 && (type =? RCTTypeBulletproof2) then bad
  else if (HF_VERSION_SMALLER_BP <? hf_version) && v2 && (type =? RCTTypeBulletproof) then bad
  else if (hf_version <? HF_VERSION_CLSAG) && v2 && (type =? RCTTypeCLSAG) then bad
  else if (HF_VERSION_CLSAG <? hf_version) && v2 && (type <=? RCTTypeBulletproof2) && negb (is_grandfathered tx) then bad
  else if (hf_version <? HF_VERSION_BULLETPROOF_PLUS) && v2 && (is_rct_bulletproof_plus type || negb (bool_decide (p_bulletproofs_plus (tx_rct_p tx) = []))) then bad
  else if (HF_VERSION_BULLETPROOF_PLUS <? hf_version) && v2 && is_rct_bulletproof type then bad
  else if negb (check_output_types tx hf_version) then bad
  else (true, tvc).

(** *** Expanding RingCT signatures *)

(** [rct::rctSig] with the members that are not serialized: the message, the rings
    and the key images [II] of each MLSAG. *)
Record rctSig := mk_rctSig {
  rv_base : rctSigBase;
  rv_message : list Z;
  rv_mixRing : list (list ctkey);
  rv_p : rctSigPrunable;
  rv_II : list (list (list Z));
}.

Definition set_clsag_I (c : clsag) (I : list Z) : clsag := mk_clsag (cl_s c) (cl_c1 c) I (cl_D c).
Definition set_MGs (p : rctSigPrunable) (l : list mgSig) : rctSigPrunable :=
  mk_prunable (p_rangeSigs p) (p_bulletproofs p) (p_bulletproofs_plus p) l (p_CLSAGs p) (p_pseudoOuts p).
Definition set_CLSAGs (p : rctSigPrunable) (l : list clsag) : rctSigPrunable :=
  mk_prunable (p_rangeSigs p) (p_bulletproofs p) (p_bulletproofs_plus p) (p_MGs p) l (p_pseudoOuts p).

(** Full signatures store the rings column by column. *)
Definition ring_columns (pubkeys : list (list ctkey)) (width : nat) : list (list ctkey) :=
  map (fun m => omap (fun ring : list ctkey => ring !! m) pubkeys) (seq 0 width).

Definition expand_mix_ring (type : Z) (pubkeys : list (list ctkey)) : option (list (list ctkey)) :=
  match pubkeys with
  | (k :: ring) :: _ =>
      if type =? RCTTypeFull then
        if forallb (fun r => (length r <=? length (k :: ring))%nat) pubkeys then Some (ring_columns pubkeys (length (k :: ring))) else None
      else if (type =? RCTTypeSimple) || (type =? RCTTypeBulletproof) || (type =? RCTTypeBulletproof2) || (type =? RCTTypeCLSAG) || (type =? RCTTypeBulletproofPlus)
        then Some pubkeys
      else None
  | _ => None
  end.

(** [resize(1)]. *)
Definition first_MG (l : list mgSig) : list mgSig := match l with m :: _ => [m] | [] => [mk_mg [] zero_key] end.

(** The key images of the inputs go where the type of signature keeps them;
    [boost::get] throws on other inputs. *)
Definition expand_key_images (tx : transaction) : option (rctSigPrunable * list (list (list Z))) :=
  let type := rct_type (tx_rct tx) in
  let p := tx_rct_p tx in
  let unset := map (fun _ => []) (p_MGs p) in
  if type =? RCTTypeFull then
    if tx_pruned tx then Some (p, unset)
    else images ← mapM vin_key_image (tx_vin tx); Some (set_MGs p (first_MG (p_MGs p)), [images])
  else if (type =? RCTTypeSimple) || (type =? RCTTypeBulletproof) || (type =? RCTTypeBulletproof2) then
    if tx_pruned tx then Some (p, unset)
    else if negb (length (p_MGs p) =? length (tx_vin tx))%nat then None
    else images ← mapM vin_key_image (tx_vin tx); Some (p, map (fun k => [k]) images)
  else if (type =? RCTTypeCLSAG) || (type =? RCTTypeBulletproofPlus) then
    if tx_pruned tx then Some (p, unset)
    else if negb (length (p_CLSAGs p) =? length (tx_vin tx))%nat then None
    else images ← mapM vin_key_image (tx_vin tx); Some (set_CLSAGs p (zip_with set_clsag_I (p_CLSAGs p) images), unset)
  else None.

Definition expand_transaction_2 (tx : transaction) (tx_prefix_hash : list Z) (pubkeys : list (list ctkey)) : option rctSig :=
  if negb (tx_version tx =? 2) then None
  else
    mixRing ← expand_mix_ring (rct_type (tx_rct tx)) pubkeys;
    '(p, II) ← expand_key_images tx;
    Some (mk_rctSig (tx_rct tx) tx_prefix_hash mixRing p II).

(** *** Verifying the inputs *)

#[global] Instance ctkey_eq_dec : EqDecision ctkey.
Proof. solve_decision. Defined.

Section proofs.
(** [rct::verRctNonSemanticsSimple], [rct::verRct(_, false)] and [crypto::check_ring_signature]. *)
Context (verRctNonSemanticsSimple verRct_non_sem : rctSig -> bool).
Context (check_ring_signature : list Z -> list Z -> list (list Z) -> list (list Z) -> bool).

Definition expand_tx_and_ver_rct_non_sem (tx : transaction) (mix_ring : list (list ctkey)) : bool :=
  if tx_pruned tx then false
  else match (tx_prefix_hash ← get_transaction_prefix_hash tx; expand_transaction_2 tx tx_prefix_hash mix_ring) with
  | None => false
  | Some rv =>
      let clsag := is_rct_clsag (rct_type (rv_base rv)) in
      if negb (bool_decide (rv_mixRing rv = mix_ring)) then false
      else if negb ((if clsag then length (p_CLSAGs (rv_p rv)) else length (p_MGs (rv_p rv))) =? length (tx_vin tx))%nat then false
      else if negb (if clsag then bool_decide (map (Some ∘ cl_I) (p_CLSAGs (rv_p rv)) = map vin_key_image (tx_vin tx))
                    else bool_decide (map head (rv_II rv) = map vin_key_image (tx_vin tx))) then false
      else verRctNonSemanticsSimple rv
  end.

(** Every ring member is found where the signature has it. *)
Definition columns_match (mix_ring mixRing : list (list ctkey)) : bool :=
  forallb (fun '(n, ring) => forallb (fun '(m, k) => bool_decide ((column ← mixRing !! m; column !! n) = Some k)) (zip (seq 0 (length ring)) ring))
    (zip (seq 0 (length mix_ring)) mix_ring).

Definition expand_tx_and_ver_full_rct_non_sem (tx : transaction) (mix_ring : list (list ctkey)) : bool :=
  if tx_pruned tx then false
  else if negb (rct_type (tx_rct tx) =? RCTTypeFull) then false
  else match (tx_prefix_hash ← get_transaction_prefix_hash tx; expand_transaction_2 tx tx_prefix_hash mix_ring) with
  | None => false
  | Some rv =>
      let size_matches := forallb (fun r => (length r =? length (rv_mixRing rv))%nat) mix_ring && forallb (fun c => (length mix_ring =? length c)%nat) (rv_mixRing rv) in
      if negb size_matches then false
      else if negb (columns_match mix_ring (rv_mixRing rv)) then false
      else if negb (length (p_MGs (rv_p rv)) =? 1)%nat then false
      else if negb (bool_decide (map Some (default [] (head (rv_II rv))) = map vin_key_image (tx_vin tx))) then false
      else verRct_non_sem rv
  end.

(** One job per input; whether all of them succeed does not depend on the order. *)
Definition ring_signature_job (tx_prefix_hash : list Z) (input : txin_v) (ring : list ctkey) (sigs : list (list Z)) : bool :=
  match input with
  | txin_to_key _ key_offsets k_image =>
      if negb (length key_offsets =? length sigs)%nat then false else check_ring_signature tx_prefix_hash k_image (map ct_dest ring) sigs
  | _ => false
  end.

Definition tx_ver_legacy_ring_sigs (tx : transaction) (mix_ring : list (list ctkey)) : bool :=
  if tx_pruned tx then false
  else if negb (tx_version tx =? 1) then false
  else if negb (length (tx_signatures tx) =? length mix_ring)%nat then false
  else if negb (length (tx_signatures tx) =? length (tx_vin tx))%nat then false
  else match get_transaction_prefix_hash tx with
  | None => false
  | Some h => forallb (fun '(i, (r, s)) => ring_signature_job h i r s) (zip (tx_vin tx) (zip mix_ring (tx_signatures tx)))
  end.

Definition ver_input_proofs_rings (tx : transaction) (dereferenced_mix_ring : list (list ctkey)) : bool :=
  let type := rct_type (tx_rct tx) in
  if (2 <? tx_version tx) || (RCTTypeBulletproofPlus <? type) then false
  else if tx_version tx =? 1 then tx_ver_legacy_ring_sigs tx dereferenced_mix_ring
  else if tx_version tx =? 2 then
    if type =? RCTTypeNull then false
    else if type =? RCTTypeFull then expand_tx_and_ver_full_rct_non_sem tx dereferenced_mix_ring
    else if is_rct_simple type then expand_tx_and_ver_rct_non_sem tx dereferenced_mix_ring
    else false
  else false.

(** *** The cache of verified inputs *)

Definition HASH_KEY_TXHASH_AND_MIXRING : list Z := str_bytes "txhash_and_mixring".

Definition c_ctkey : codec ctkey := c_map (fun '(d, m) => mk_ctkey d m) (fun k => (ct_dest k, ct_mask k)) (c_seq c_key c_key).

Definition make_input_verification_id (tx_hash : list Z) (dereferenced_mix_ring : list (list ctkey)) : list Z :=
  get_blob_hash (HASH_KEY_TXHASH_AND_MIXRING ++ tx_hash ++ default [] (put (c_list (c_list c_ctkey)) dereferenced_mix_ring)).

(** The end of [check_tx_inputs]: the verdict and the id left in
    [valid_input_verification_id_inout]; a throw counts as a rejection. *)
Definition verify_inputs_cached (tx : transaction) (pubkeys : list (list ctkey)) (valid_id : list Z) : bool * list Z :=
  match calculate_transaction_hash tx 0 with
  | None => (false, valid_id)
  | Some tx_hash =>
      let calculated := if negb (bool_decide (valid_id = null_hash)) then make_input_verification_id tx_hash pubkeys else null_hash in
      if negb (bool_decide (valid_id = null_hash)) && bool_decide (calculated = valid_id) then (true, valid_id)
      else if negb (ver_input_proofs_rings tx pubkeys) then (false, null_hash)
      else (true, if bool_decide (calculated = null_hash) then make_input_verification_id tx_hash pubkeys else calculated)
  end.

End proofs.

(** *** Semantics of RingCT signatures, in batches *)

Definition is_canonical_bulletproof_layout (proofs : list Bulletproof) : bool :=
  match proofs with
  | [p] => negb ((Z.of_nat (length (bp_V p)) =? 0) || (BULLETPROOF_MAX_OUTPUTS <? length (bp_V p)))
  | _ => false
  end.

Definition is_canonical_bulletproof_plus_layout (proofs : list BulletproofPlus) : bool :=
  match proofs with
  | [p] => negb ((Z.of_nat (length (bpp_V p)) =? 0) || (BULLETPROOF_PLUS_MAX_OUTPUTS <? length (bpp_V p)))
  | _ => false
  end.

Section semantics.
(** [rct::verRctSemanticsSimple] of one signature and of a batch, and [rct::verRct(_, true)]. *)
Context (verRctSemanticsSimple1 verRct_sem : rctSig -> bool) (verRctSemanticsSimple : list rctSig -> bool).

(** [Some true] is a signature left for the batch, [None] a [false] return. *)
Definition check_one_rv (rv : rctSig) : option bool :=
  let type := rct_type (rv_base rv) in
  if type =? RCTTypeNull then None
  else if type =? RCTTypeSimple then if verRctSemanticsSimple1 rv then Some false else None
  else if type =? RCTTypeFull then if verRct_sem rv then Some false else None
  else if (type =? RCTTypeBulletproof) || (type =? RCTTypeBulletproof2) || (type =? RCTTypeCLSAG)
    then if is_canonical_bulletproof_layout (p_bulletproofs (rv_p rv)) then Some true else None
  else if type =? RCTTypeBulletproofPlus
    then if is_canonical_bulletproof_plus_layout (p_bulletproofs_plus (rv_p rv)) then Some true else None
  else None.

(** The loop moves the signatures for the batch to the front of the vector it
    runs over; [i] is the index, [n] the rounds left. *)
Fixpoint mixed_loop (n i : nat) (rvv : list rctSig) (batch_rv_size : nat) : option (list rctSig * nat) :=
  match n with
  | O => Some (rvv, batch_rv_size)
  | S n' =>
      rv ← rvv !! i;
      is_batchable ← check_one_rv rv;
      if is_batchable : bool then mixed_loop n' (S i) (<[batch_rv_size := rv]> rvv) (S batch_rv_size)
      else mixed_loop n' (S i) rvv batch_rv_size
  end.

Definition ver_mixed_rct_semantics (rvv : list rctSig) : bool :=
  match mixed_loop (length rvv) 0 rvv 0 with
  | None => false
  | Some (rvv, batch_rv_size) =>
      if (batch_rv_size =? 0)%nat then true else verRctSemanticsSimple (take batch_rv_size rvv)
  end.

(** *** All rules that need no chain data *)

Definition get_transaction_weight_limit (hf_version : Z) : Z :=
  if HF_VERSION_PER_BYTE_FEE <=? hf_version then get_min_block_weight hf_version / 2 ⊟ CRYPTONOTE_COINBASE_BLOB_RESERVED_SIZE
  else get_min_block_weight hf_version ⊟ CRYPTONOTE_COINBASE_BLOB_RESERVED_SIZE.

Context (check_key is_identity in_subgroup : list Z -> bool).

(** The RingCT members of a transaction as loaded. *)
Definition loaded_rv (tx : transaction) : rctSig := mk_rctSig (tx_rct tx) null_hash [] (tx_rct_p tx) (map (fun _ => []) (p_MGs (tx_rct_p tx))).

(** The loop over transactions, with the signatures collected in order; [None] is
    the throw of [get_transaction_weight]. *)
Fixpoint non_input_loop (txs : list transaction) (hf_version : Z) (tvc : tvc_t) (rvv : list rctSig) : option (bool * tvc_t * list rctSig) :=
  match txs with
  | [] => Some (true, tvc, rvv)
  | tx :: txs =>
      blob ← tx_to_blob tx;
      let blob_size := Z.of_nat (length blob) in
      if get_max_tx_size <? blob_size then Some (false, [m_verifivation_failed; m_too_big] ++ tvc, rvv)
      else if (tx_version tx =? 0) || ((if hf_version <? HF_VERSION_DYNAMIC_FEE then 1 else 2) <? tx_version tx)
        then Some (false, [m_verifivation_failed] ++ tvc, rvv)
      else
        tx_weight ← get_transaction_weight tx blob_size;
        if (HF_VERSION_PER_BYTE_FEE <=? hf_version) && (get_transaction_weight_limit hf_version <? tx_weight)
          then Some (false, [m_verifivation_failed; m_too_big] ++ tvc, rvv)
        else
          let '(r, tvc) := check_tx_semantic check_key is_identity in_subgroup tx hf_version tvc in
          if negb r then Some (false, tvc, rvv)
          else
            let '(r, tvc) := check_tx_outputs tx hf_version tvc in
            if negb r || bool_decide (m_verifivation_failed ∈ tvc) then Some (false, tvc, rvv)
            else non_input_loop txs hf_version tvc (if 2 <=? tx_version tx then rvv ++ [loaded_rv tx] else rvv)
  end.

Definition ver_non_input_consensus (txs : list transaction) (hf_version : Z) (tvc : tvc_t) : option (bool * tvc_t) :=
  '(r, tvc, rvv) ← non_input_loop txs hf_version tvc [];
  if negb r then Some (false, tvc)
  else if negb (ver_mixed_rct_semantics rvv) then Some (false, [m_verifivation_failed; m_invalid_input] ++ tvc)
  else Some (true, tvc).

End semantics.

(** ** Lemmas *)

(** *** Batches *)

Section batches.
Context (verRctSemanticsSimple1 verRct_sem : rctSig -> bool) (verRctSemanticsSimple : list rctSig -> bool).
Abbreviation check_rv := (check_one_rv verRctSemanticsSimple1 verRct_sem).

(** The signatures left for the batch. *)
Definition batchable (rv : rctSig) : bool := is_rct_bulletproof (rct_type (rv_base rv)) || is_rct_bulletproof_plus (rct_type (rv_base rv)).
Definition batch_of (rvv : list rctSig) : list rctSig := filter (fun rv => batchable rv = true) rvv.

Lemma check_rv_batchable rv b : check_rv rv = Some b -> b = batchable rv.
Proof.
  unfold check_one_rv, batchable, is_rct_bulletproof, is_rct_bulletproof_plus. set (t := rct_type (rv_base rv)).
  destruct (Z.eqb_spec t RCTTypeNull); [done|]. destruct (Z.eqb_spec t RCTTypeSimple) as [->|]; [by destruct (verRctSemanticsSimple1 rv); intros [= <-]|].
  destruct (Z.eqb_spec t RCTTypeFull) as [->|]; [by destruct (verRct_sem rv); intros [= <-]|].
  destruct (_ || _ || _); [by destruct (is_canonical_bulletproof_layout _); intros [= <-]|].
  destruct (t =? RCTTypeBulletproofPlus); [by destruct (is_canonical_bulletproof_plus_layout _); intros [= <-]|done].
Qed.

Lemma mixed_loop_spec rest : forall v k i,
  drop i v = rest -> (i + length rest = length v)%nat -> (k <= i)%nat ->
  match mixed_loop verRctSemanticsSimple1 verRct_sem (length rest) i v k with
  | Some (v', k') => Forall (fun rv => is_Some (check_rv rv)) rest /\ take k' v' = take k v ++ batch_of rest /\ k' = (k + length (batch_of rest))%nat
  | None => ~ Forall (fun rv => is_Some (check_rv rv)) rest
  end.
Proof.
  induction rest as [|rv rest IH]; intros v k i Hd Hl Hk; cbn [mixed_loop length].
  { split; [constructor|]. by rewrite app_nil_r, Nat.add_0_r. }
  assert (Hi : v !! i = Some rv) by (rewrite <- (Nat.add_0_r i), <- lookup_drop, Hd; done). rewrite Hi. cbn [mbind option_bind].
  assert (Hd' : drop (S i) v = rest) by (rewrite <- Nat.add_1_r, <- drop_drop, Hd; done).
  destruct (check_rv rv) as [b|] eqn:Ec; cbn [mbind option_bind]; [|intros [[? ?] _]%Forall_cons; congruence].
  rewrite (check_rv_batchable _ _ Ec). cbn [length] in Hl. unfold batch_of. destruct (batchable rv) eqn:Eb.
  - specialize (IH (<[k:=rv]> v) (S k) (S i)). destruct (mixed_loop _ _ _ _ _ _) as [[v' k']|].
    + destruct IH as (HF & Ht & ->); [by rewrite drop_insert_lt by lia|rewrite length_insert; lia|lia|]. split; [by constructor|].
      rewrite Ht, filter_cons_True by done. rewrite (take_S_r _ _ rv) by (apply list_lookup_insert_eq; lia). rewrite take_insert_ge by lia. rewrite <- app_assoc. unfold batch_of. split; [done|]. cbn [length]. lia.
    + intros [_ HF]%Forall_cons. apply IH; [by rewrite drop_insert_lt by lia|rewrite length_insert; lia|lia|done].
  - specialize (IH v k (S i) Hd' ltac:(lia) ltac:(lia)). destruct (mixed_loop _ _ _ _ _ _) as [[v' k']|].
    + destruct IH as (HF & -> & ->). split; [by constructor|]. by rewrite filter_cons_False by (by rewrite Eb).
    + by intros [_ HF]%Forall_cons.
Qed.

Lemma ver_mixed_iff rvv :
  ver_mixed_rct_semantics verRctSemanticsSimple1 verRct_sem verRctSemanticsSimple rvv = true <->
  Forall (fun rv => is_Some (check_rv rv)) rvv /\ (batch_of rvv = [] \/ verRctSemanticsSimple (batch_of rvv) = true).
Proof.
  unfold ver_mixed_rct_semantics. pose proof (mixed_loop_spec rvv rvv 0 0 eq_refl eq_refl (le_n _)) as H.
  destruct (mixed_loop _ _ _ _ _ _) as [[v k]|]; [|split; [done|by intros [? _]]]. destruct H as (HF & Ht & Ek). cbn [take app Nat.add] in Ht, Ek.
  destruct (Nat.eqb_spec k 0) as [->|Hk]; [split; [|done]; intros _; split; [done|left; by apply length_zero_iff_nil]|]. rewrite Ht. split; [by split; [|right]|].
  intros [_ [E|?]]; [|done]. by rewrite E in Ek.
Qed.

End batches.

(** *** Loaded transactions: what the parser returns, commitments and keys filled in *)

Section loaded.
Context (mul_inv_eight : list Z -> list Z).

Definition same_saved (p tx : transaction) : Prop :=
  tx_prefix tx = tx_prefix p /\ tx_signatures tx = tx_signatures p /\ tx_pruned tx = tx_pruned p /\ rct_type (tx_rct tx) = rct_type (tx_rct p) /\
  (forall i o, put (serialize_rctsig_base i o) (tx_rct tx) = put (serialize_rctsig_base i o) (tx_rct p)) /\
  (forall t i o m, put (serialize_rctsig_prunable t i o m) (tx_rct_p tx) = put (serialize_rctsig_prunable t i o m) (tx_rct_p p)) /\
  (p_bulletproofs (tx_rct_p tx) = [] <-> p_bulletproofs (tx_rct_p p) = []) /\ (p_bulletproofs_plus (tx_rct_p tx) = [] <-> p_bulletproofs_plus (tx_rct_p p) = []).

Lemma fill_dests_masks vout : forall outPk l, fill_dests vout outPk = Some l -> map ct_mask l = map ct_mask outPk.
Proof.
  induction vout as [|o vout IH]; intros [|k outPk] l E; cbn in E; try by simplify_eq.
  destruct (get_output_public_key o); [|done]. cbn in E. destruct (fill_dests vout outPk) as [l'|] eqn:El; [|done]. cbn in E. simplify_eq.
  cbn. f_equal. by apply IH.
Qed.

Lemma put_outPk_masks l l' : map ct_mask l = map ct_mask l' -> put_all c_outPk l = put_all c_outPk l'.
Proof.
  revert l'. induction l as [|k l IH]; intros [|k' l'] E; try done. injection E as E1 E2. cbn [put_all]. rewrite (IH l' E2).
  by replace (put c_outPk k') with (put c_outPk k) by (change (put c_key (ct_mask k) = put c_key (ct_mask k')); congruence).
Qed.

Lemma put_dep_ext {A B} (c1 : codec A) (c2 : A -> codec B) a b b' : put (c2 a) b = put (c2 a) b' -> put (c_dep c1 c2) (a, b) = put (c_dep c1 c2) (a, b').
Proof. intros E. unfold put at 1 2. cbn [c_dep]. by rewrite E. Qed.

Lemma put_dep_fst {A B} (c1 : codec A) (c2 : codec B) a a' b : put c1 a = put c1 a' -> put (c_seq c1 c2) (a, b) = put (c_seq c1 c2) (a', b).
Proof. intros E. unfold put at 1 2. cbn [c_dep]. by rewrite E. Qed.

Lemma put_base_masks i o b l : map ct_mask l = map ct_mask (rct_outPk b) -> put (serialize_rctsig_base i o) (set_outPk b l) = put (serialize_rctsig_base i o) b.
Proof.
  intros E. unfold serialize_rctsig_base. unfold put at 1 2. cbn [c_map set_outPk rct_type rct_txnFee rct_pseudoOuts rct_ecdhInfo rct_outPk].
  apply put_dep_ext. unfold rctsig_base_fields. destruct (_ =? _); [done|]. destruct (negb _); [done|]. do 3 apply put_dep_ext.
  unfold put. cbn [c_vec]. rewrite (put_outPk_masks _ _ E). apply (f_equal length) in E. rewrite !length_map in E. by rewrite E.
Qed.

Lemma put_prunable_V t i o m r :
  (forall proof V, p_bulletproofs_plus r = [proof] -> put (serialize_rctsig_prunable t i o m) (set_bpps r [set_bpp_V V proof]) = put (serialize_rctsig_prunable t i o m) r) /\
  (forall proof V, p_bulletproofs r = [proof] -> put (serialize_rctsig_prunable t i o m) (set_bps r [set_bp_V V proof]) = put (serialize_rctsig_prunable t i o m) r).
Proof.
  destruct r as [rs bps bpps mgs cls ps]. cbn. unfold serialize_rctsig_prunable. split; intros proof V ->.
  all: do 3 (destruct (_ <=? _); [done|]); destruct (_ =? _); [done|]; destruct (negb _); [done|]; unfold put at 1 2; cbn [c_map set_bpps set_bps p_rangeSigs p_bulletproofs p_bulletproofs_plus p_MGs p_CLSAGs p_pseudoOuts].
  all: apply put_dep_fst; unfold range_proofs; destruct (_ =? _); [done|]; by destruct (_ || _).
Qed.

Lemma expand_same p tx : expand_transaction_1 mul_inv_eight p false = Some tx -> same_saved p tx.
Proof.
  unfold expand_transaction_1. destruct (_ && _); [|intros [= <-]; by split_and!]. destruct (_ =? _); [intros [= <-]; by split_and!|]. destruct (negb _); [done|].
  destruct (fill_dests _ _) as [outPk|] eqn:Ed; [|done]. cbn [mbind option_bind]. unfold expand_proofs.
  assert (Hb : forall i o, put (serialize_rctsig_base i o) (set_outPk (tx_rct p) outPk) = put (serialize_rctsig_base i o) (tx_rct p))
    by (intros; by eapply put_base_masks, fill_dests_masks).
  destruct (is_rct_bulletproof_plus _).
  - destruct (p_bulletproofs_plus (tx_rct_p p)) as [|proof []] eqn:Eb; try done. do 2 (destruct (_ <? _); [done|]); destruct (negb _); [done|]. cbn [mbind option_bind]. intros [= <-].
    split_and!; try done; [intros; by apply put_prunable_V|by rewrite Eb].
  - destruct (is_rct_bulletproof _); [|cbn [mbind option_bind]; intros [= <-]; by split_and!].
    destruct (p_bulletproofs (tx_rct_p p)) as [|proof []] eqn:Eb; try done. do 2 (destruct (_ <? _); [done|]); destruct (negb _); [done|]. cbn [mbind option_bind]. intros [= <-].
    split_and!; try done; [intros; by apply put_prunable_V|by rewrite Eb].
Qed.

End loaded.

Section saved.
Context (p tx : transaction) (H : same_saved p tx).

Lemma same_version : tx_version tx = tx_version p.
Proof using H. by rewrite (proj1 H). Qed.

Lemma same_put : put c_transaction tx = put c_transaction p.
Proof using H.
  destruct H as (E1 & E2 & E3 & E4 & E5 & E6 & _). unfold put at 1 2. cbn [c_transaction]. unfold tx_fields. rewrite E1, E2, E3.
  apply put_dep_ext. unfold signature_fields. destruct (_ =? _); [done|]. destruct (bool_decide _); [done|].
  unfold put at 1 2. cbn [c_map snd]. unfold rct_fields, put at 1 2. cbn [c_dep]. rewrite E4, E5. destruct (_ && _); [by rewrite E6|done].
Qed.

Lemma same_hash u : calculate_transaction_hash tx u = calculate_transaction_hash p u.
Proof using H.
  pose proof same_put as Ep. destruct H as (E1 & E2 & E3 & E4 & E5 & E6 & _).
  unfold calculate_transaction_hash, get_transaction_prefix_hash, get_object_hash, tx_to_blob, dump_binary, serialized_sizes, calculate_transaction_prunable_hash.
  by rewrite Ep, E1, E3, E4, !E5, E6.
Qed.
End saved.

(** *** Proof types by fork *)

(** The forks under which each type of RingCT signature is accepted. *)
Definition rct_type_allowed (hf_version type : Z) : Prop :=
  (type = RCTTypeNull /\ hf_version <= 13) \/
  ((type = RCTTypeFull \/ type = RCTTypeSimple) /\ hf_version <= 8) \/
  (type = RCTTypeBulletproof /\ 8 <= hf_version <= 10) \/
  (type = RCTTypeBulletproof2 /\ 10 <= hf_version <= 13) \/
  (type = RCTTypeCLSAG /\ 13 <= hf_version <= 15) \/
  (type = RCTTypeBulletproofPlus /\ 15 <= hf_version).

Lemma if_reject (c : bool) flags tvc (k : bool * tvc_t) : (if c then reject flags tvc else k).1 = negb c && k.1.
Proof. by destruct c. Qed.

Lemma type_cases p : tx_ok p -> tx_version p <> 1 -> tx_vin p <> [] ->
  let t := rct_type (tx_rct p) in
  (t = 0 \/ t = 1 \/ t = 2 \/ t = 3 \/ t = 4 \/ t = 5 \/ t = 6) /\
  (p_bulletproofs (tx_rct_p p) <> [] -> is_rct_bulletproof t = true) /\ (p_bulletproofs_plus (tx_rct_p p) <> [] -> is_rct_bulletproof_plus t = true).
Proof.
  intros Hok Hv Hne t. destruct (tx_ok_rct p Hok Hv Hne) as (_ & Hb & Hr). fold t in Hr. assert (Ht : t = 0 \/ t = 1 \/ t = 2 \/ t = 3 \/ t = 4 \/ t = 5 \/ t = 6).
  { destruct Hb as [E|[Hk _]]; [left; unfold t; by rewrite E|]. right. fold t in Hk. unfold rct_type_known in Hk.
    repeat (apply orb_true_iff in Hk as [Hk|Hk]); apply Z.eqb_eq in Hk; rewrite Hk; auto 10. }
  split; [done|]. destruct (Z.eqb_spec t RCTTypeNull) as [E|Hn]; [by rewrite Hr|]. destruct Hr as (_ & [[? _]|(_ & Hrange & _)]); [done|].
  unfold range_proofs_ok in Hrange. unfold is_rct_bulletproof, is_rct_bulletproof_plus. destruct (t =? RCTTypeBulletproofPlus).
  - destruct Hrange as (_ & -> & _). done.
  - destruct (_ || _ || _); [destruct Hrange as (_ & -> & _)|destruct Hrange as (-> & -> & _)]; done.
Qed.

Lemma orb_absorb (a b : bool) : (b = true -> a = true) -> a || b = a.
Proof. destruct a, b; auto. intros H. by specialize (H eq_refl). Qed.

Lemma schedule_iff mul p tx hf tvc :
  tx_ok p -> expand_transaction_1 mul p false = Some tx -> tx_version p = 2 -> tx_vin p <> [] -> 1 <= hf -> is_grandfathered tx = false ->
  (check_tx_outputs tx hf tvc).1 = true <->
  rct_type_allowed hf (rct_type (tx_rct tx)) /\ (3 <= hf -> Forall (fun o => out_amount o = 0) (tx_vout tx)) /\ check_output_types tx hf = true.
Proof.
  intros Hok He Hv Hne Hhf Hg. pose proof (expand_same _ _ _ He) as Hs. pose proof (same_version _ _ Hs) as Ev. destruct Hs as (_ & _ & _ & Et & _ & _ & Hb & Hbp).
  destruct (type_cases p Hok ltac:(lia) Hne) as (Ht & H1 & H2). cbv zeta in Ht, H1, H2. rewrite <- Et in Ht, H1, H2. set (t := rct_type (tx_rct tx)) in *.
  assert (E1 : is_rct_bulletproof t || negb (bool_decide (p_bulletproofs (tx_rct_p tx) = [])) = is_rct_bulletproof t).
  { apply orb_absorb. intros Hn%negb_true_iff%bool_decide_eq_false. apply H1. by rewrite <- Hb. }
  assert (E2 : is_rct_bulletproof_plus t || negb (bool_decide (p_bulletproofs_plus (tx_rct_p tx) = [])) = is_rct_bulletproof_plus t).
  { apply orb_absorb. intros Hn%negb_true_iff%bool_decide_eq_false. apply H2. by rewrite <- Hbp. }
  unfold check_tx_outputs. cbv zeta. fold t. rewrite E1, E2, Hg, Ev, Hv. clear E1 E2 H1 H2 Hb Hbp. rewrite !if_reject. cbn [fst].
  replace (forallb (fun o => negb (2 =? 1) || _) (tx_vout tx)) with true by (symmetry; by apply forallb_forall).
  assert (Hz : forallb (fun o => out_amount o =? 0) (tx_vout tx) = true <-> Forall (fun o => out_amount o = 0) (tx_vout tx)).
  { apply forallb_spec. intros o. apply Z.eqb_eq. }
  rewrite <- Hz. set (z := forallb _ (tx_vout tx)). set (ot := check_output_types tx hf).
  change HF_VERSION_SMALLER_BP with 10. change HF_VERSION_CLSAG with 13. change HF_VERSION_BULLETPROOF_PLUS with 15. unfold rct_type_allowed.
  destruct Ht as [-> | [-> | [-> | [-> | [-> | [-> | ->]]]]]]; cbn; rewrite ?andb_false_r, ?andb_true_r, !andb_true_iff, ?negb_true_iff, ?andb_false_iff, ?negb_false_iff, ?Z.leb_gt, ?Z.ltb_ge;
    destruct z, ot; unfold RCTTypeNull, RCTTypeFull, RCTTypeSimple, RCTTypeBulletproof, RCTTypeBulletproof2, RCTTypeCLSAG, RCTTypeBulletproofPlus; lia.
Qed.

(** *** The cache of verified inputs *)

Definition ctkey_ok (k : ctkey) : Prop := key_ok (ct_dest k) /\ key_ok (ct_mask k).
Definition ring_ok (r : list ctkey) : Prop := Forall ctkey_ok r /\ is_u64 (length r).
Definition rings_ok (rings : list (list ctkey)) : Prop := Forall ring_ok rings /\ is_u64 (length rings).

#[local] Instance lawful_ctkey : Lawful ctkey_ok 31 (fun _ => True) c_ctkey.
Proof.
  eapply lawful_struct; [apply (lawful_seq key_ok 32 (fun _ => True) c_key key_ok 32 (fun _ => True) c_key); apply _|by intros []| |cbn; lia|by intros ? ? _; split; [|left]].
  intros [d m]. unfold ctkey_ok. cbn. tauto.
Qed.

#[local] Instance lawful_ring : Lawful ring_ok 1 (fun r => r <> []) (c_list c_ctkey).
Proof. eapply lawful_mono; [apply (lawful_c_list ctkey_ok 30 (fun _ => True) c_ctkey _)|done|done|]. intros l _ Hl. split; [done|]. by apply Forall_true. Qed.

#[local] Instance lawful_rings : Lawful rings_ok 1 (fun r => r <> [] /\ Forall (fun r => r <> []) r) (c_list (c_list c_ctkey)).
Proof. eapply lawful_mono; [apply (lawful_c_list ring_ok 0 (fun r => r <> []) (c_list c_ctkey) _)|done|done|done]. Qed.

Definition id_preimage (tx : transaction) (rings : list (list ctkey)) : list Z :=
  HASH_KEY_TXHASH_AND_MIXRING ++ default [] (calculate_transaction_hash tx 0) ++ default [] (put (c_list (c_list c_ctkey)) rings).

(** The inputs hashed on the way to the id of a verification. *)
Definition id_inputs (c : transaction * list (list ctkey)) : list (list Z) := tx_hash_inputs c.1 ++ [id_preimage c.1 c.2].

Section cache.
Context (mul_inv_eight : list Z -> list Z).
Context (verRctNonSemanticsSimple verRct_non_sem : rctSig -> bool) (check_ring_signature : list Z -> list Z -> list (list Z) -> list (list Z) -> bool).
Abbreviation call := (transaction * list (list ctkey))%type.
Abbreviation verify := (verify_inputs_cached verRctNonSemanticsSimple verRct_non_sem check_ring_signature).
Abbreviation ver := (ver_input_proofs_rings verRctNonSemanticsSimple verRct_non_sem check_ring_signature).

(** A loaded transaction and the rings its inputs refer to. *)
Definition call_ok (c : call) : Prop := (exists p, hashable p /\ expand_transaction_1 mul_inv_eight p false = Some c.1) /\ rings_ok c.2.

(** Verifications one after the other, each leaving its id to the next. *)
Fixpoint cached_run (calls : list call) (valid_id : list Z) : list bool :=
  match calls with
  | [] => []
  | c :: calls => let '(r, valid_id) := verify c.1 c.2 valid_id in r :: cached_run calls valid_id
  end.

Lemma same_inputs p tx : same_saved p tx -> tx_hash_inputs tx = tx_hash_inputs p.
Proof.
  intros Hs. pose proof (same_put _ _ Hs) as Ep. destruct Hs as (E1 & E2 & E3 & E4 & E5 & E6 & _).
  unfold tx_hash_inputs, part_hashes, prefix_bytes, base_bytes, prunable_part, tx_to_blob, dump_binary. by rewrite Ep, E1, E4, !E5, !E6.
Qed.

Lemma call_hash c : call_ok c -> exists h, calculate_transaction_hash c.1 0 = Some h /\ length h = 32%nat.
Proof.
  intros ((p & Hp & Ex) & _). rewrite (same_hash _ _ (expand_same _ _ _ Ex)). destruct (tx_hash_total p 0 Hp) as (h & E). exists h. split; [done|]. by eapply length_tx_hash.
Qed.

Lemma id_inj c c' :
  call_ok c -> call_ok c' -> tx_version c.1 = tx_version c'.1 -> cn_fast_hash (id_preimage c.1 c.2) = cn_fast_hash (id_preimage c'.1 c'.2) ->
  c = c' \/ collision_in (id_inputs c) (id_inputs c').
Proof.
  intros Hc Hc' Hv E. destruct (call_hash c Hc) as (h & Eh & Hl), (call_hash c' Hc') as (h' & Eh' & Hl'). destruct c as [tx rings], c' as [tx' rings']. cbn [fst snd] in *.
  unfold id_inputs. cbn [fst snd]. destruct (hash_inj [id_preimage tx rings] [id_preimage tx' rings'] _ _ ltac:(by left) ltac:(by left) E) as [E0|]; [|right; by apply collision_in_app_r].
  unfold id_preimage in E0. rewrite Eh, Eh' in E0. cbn [default] in E0. unfold id in E0. apply app_inv_head, app_inj_1 in E0 as [<- E2]; [|congruence].
  destruct Hc as ((p & Hp & Ex) & Hr), Hc' as ((p' & Hp' & Ex') & Hr'). cbn [fst snd] in *. pose proof (expand_same _ _ _ Ex) as Hs. pose proof (expand_same _ _ _ Ex') as Hs'.
  rewrite (same_hash _ _ Hs) in Eh. rewrite (same_hash _ _ Hs') in Eh'. rewrite (same_version _ _ Hs), (same_version _ _ Hs') in Hv.
  destruct (tx_hash_inj p p' 0 0 h Hp Hp' Hv Eh Eh') as [->|Hcol].
  - left. f_equal; [congruence|]. pose proof (lawful_default rings_ok _ _ (c_list (c_list c_ctkey)) rings Hr) as P. pose proof (lawful_default rings_ok _ _ (c_list (c_list c_ctkey)) rings' Hr') as P'.
    assert (P'' : put (c_list (c_list c_ctkey)) rings' = Some (default [] (put (c_list (c_list c_ctkey)) rings))) by (etransitivity; [exact P'|f_equal; exact (eq_sym E2)]).
    exact (lawful_inj rings_ok _ _ _ _ _ _ Hr Hr' P P'').
  - right. rewrite (same_inputs _ _ Hs), (same_inputs _ _ Hs'). by apply collision_in_app_l.
Qed.

(** The id is null or that of a verification that succeeded. *)
Definition id_from (past : list call) (valid_id : list Z) : Prop :=
  valid_id = null_hash \/ exists c, c ∈ past /\ ver c.1 c.2 = true /\ valid_id = cn_fast_hash (id_preimage c.1 c.2).

Lemma verify_step past valid_id c :
  call_ok c -> Forall (fun c' => call_ok c' /\ tx_version c'.1 = tx_version c.1) past -> id_from past valid_id ->
  forall r valid_id', verify c.1 c.2 valid_id = (r, valid_id') ->
  (r = true -> ver c.1 c.2 = true \/ exists c', c' ∈ past /\ collision_in (id_inputs c') (id_inputs c)) /\
  (r = false -> ver c.1 c.2 = false) /\ id_from (past ++ [c]) valid_id'.
Proof.
  intros Hc Hp Hid r valid_id'. destruct (call_hash c Hc) as (h & Eh & _). unfold verify_inputs_cached. rewrite Eh.
  assert (Eid : make_input_verification_id h c.2 = cn_fast_hash (id_preimage c.1 c.2)) by (unfold id_preimage; by rewrite Eh). rewrite Eid.
  assert (Hnew : ver c.1 c.2 = true -> id_from (past ++ [c]) (cn_fast_hash (id_preimage c.1 c.2))) by (intros V; right; exists c; rewrite elem_of_app, list_elem_of_singleton; auto).
  set (new := cn_fast_hash (id_preimage c.1 c.2)) in *. destruct (decide (valid_id = null_hash)) as [->|Hn].
  - rewrite (bool_decide_true (null_hash = null_hash)) by done. cbn [negb andb]. destruct (ver c.1 c.2) eqn:V; cbn [negb]; intros [= <- <-]; split_and!; try done; [by left|by apply Hnew|by left].
  - rewrite (bool_decide_false (valid_id = null_hash)) by done. cbn [negb andb]. destruct (decide (new = valid_id)) as [<-|Hd].
    + rewrite bool_decide_true by done. intros [= <- <-]. destruct Hid as [?|(c' & Hin & V & E)]; [done|]. rewrite Forall_forall in Hp. destruct (Hp c' Hin) as [Hc' Hv].
      destruct (id_inj c' c Hc' Hc Hv (eq_sym E)) as [Ec|Hcol]; (split; [intros _|split; [done|right; exists c']]); rewrite ?elem_of_app; eauto.
      left. by rewrite <- Ec.
    + rewrite bool_decide_false by done. destruct (ver c.1 c.2) eqn:V; cbn [negb]; intros [= <- <-]; [|split_and!; try done; by left].
      split_and!; [by left|done|]. rewrite bool_decide_decide. destruct (decide (new = null_hash)); by apply Hnew.
Qed.

Lemma cached_run_sound calls : forall past valid_id i c r,
  Forall call_ok (past ++ calls) -> (forall c1 c2 : call, c1 ∈ past ++ calls -> c2 ∈ past ++ calls -> tx_version c1.1 = tx_version c2.1) -> id_from past valid_id ->
  calls !! i = Some c -> cached_run calls valid_id !! i = Some r ->
  (r = true -> ver c.1 c.2 = true \/ exists c', c' ∈ past ++ take i calls /\ collision_in (id_inputs c') (id_inputs c)) /\ (r = false -> ver c.1 c.2 = false).
Proof.
  induction calls as [|c0 calls IH]; intros past valid_id i c r Hok Hv Hid Hi Hr; [by rewrite lookup_nil in Hi|].
  pose proof (verify_step past valid_id c0) as Hs. cbn [cached_run] in Hr. apply Forall_app in Hok as Hok'. destruct Hok' as [Hp [Hc0 Hcs]%Forall_cons].
  assert (Hpast : Forall (fun c' => call_ok c' /\ tx_version c'.1 = tx_version c0.1) past).
  { rewrite Forall_forall in Hp |- *. intros c' Hin. split; [by apply Hp|]. apply Hv; rewrite elem_of_app; [by left|right; by left]. }
  specialize (Hs Hc0 Hpast Hid). destruct (verify c0.1 c0.2 valid_id) as [r0 id0]. destruct (Hs r0 id0 eq_refl) as (H1 & H2 & H3). destruct i as [|i]; cbn in Hi, Hr.
  - simplify_eq. by rewrite app_nil_r.
  - rewrite cons_middle, app_assoc in Hok, Hv. cbn [take]. rewrite cons_middle, app_assoc. by eapply IH.
Qed.

End cache.

(** *** The semantic rules, without machine arithmetic *)

Definition input_amounts (tx : transaction) : list Z := omap vin_amount (tx_vin tx).
Definition key_images (tx : transaction) : list (list Z) := omap vin_key_image (tx_vin tx).
Definition output_amounts (tx : transaction) : list Z := map out_amount (tx_vout tx).
Definition ring_offsets (i : txin_v) : list Z := match i with txin_to_key _ key_offsets _ => key_offsets | _ => [] end.
Definition is_key_input (i : txin_v) : Prop := input_is_key i = true.

Section semantic.
Context (check_key is_identity in_subgroup : list Z -> bool).

Record semantic_rules (tx : transaction) (hf_version : Z) : Prop := {
  sr_inputs : tx_vin tx <> [] /\ Forall is_key_input (tx_vin tx);
  sr_outputs : Forall (fun o => exists key, get_output_public_key o = Some key /\ check_key key = true /\ (tx_version tx = 1 -> 0 < out_amount o)) (tx_vout tx);
  sr_masks : 1 < tx_version tx -> length (rct_outPk (tx_rct tx)) = length (tx_vout tx);
  sr_sums : zsum (input_amounts tx) < 2 ^ 64 /\ zsum (output_amounts tx) < 2 ^ 64;
  sr_balance : tx_version tx = 1 -> zsum (output_amounts tx) < zsum (input_amounts tx);
  sr_images : NoDup (key_images tx) /\ Forall (fun k => is_identity k = false /\ in_subgroup k = true) (key_images tx);
  sr_rings : 6 <= hf_version -> Forall (fun i => Forall (fun o => o <> 0) (tail (ring_offsets i))) (tx_vin tx);
  sr_types : check_output_types tx hf_version = true;
}.

Lemma inputs_loop_spec vin : forall money, Forall is_u64 (omap vin_amount vin) -> is_u64 money ->
  check_inputs_loop (map vin_amount vin) money = true <-> Forall is_key_input vin /\ money + zsum (omap vin_amount vin) < 2 ^ 64.
Proof.
  intros money HF Hm. transitivity (Forall is_key_input vin /\ overflow_free (omap vin_amount vin) money = true); [|by rewrite overflow_free_spec].
  revert money HF Hm. induction vin as [|i vin IH]; intros money HF Hm; cbn; [by split; [split|]|]. rewrite Forall_cons. unfold is_key_input at 1.
  destruct i as [| | |a o k]; cbn [vin_amount input_is_key]; try by split; [|intros [[] _]].
  cbn in HF. apply Forall_cons in HF as [Ha HF]. cbn. destruct (_ <? _); [by split; [|intros [_ ?]]|]. rewrite IH; [tauto|done|by apply wrap_range].
Qed.

Lemma inputs_amount_spec vin : forall money, Forall is_key_input vin -> get_inputs_money_amount vin money = (true, foldl (fun m a => m ⊞ a) money (omap vin_amount vin)).
Proof. induction vin as [|i vin IH]; intros money HF; [done|]. apply Forall_cons in HF as [Hi HF]. destruct i; try done. cbn. by rewrite IH. Qed.

Lemma keyimages_diff_spec vin : forall ki, Forall is_key_input vin ->
  keyimages_diff_loop vin ki = true <-> NoDup (omap vin_key_image vin) /\ Forall (fun k => k ∉ ki) (omap vin_key_image vin).
Proof.
  induction vin as [|i vin IH]; intros ki HF; cbn; [split; [by repeat constructor|done]|]. apply Forall_cons in HF as [Hi HF]. destruct i as [| | |a o k]; try done. cbn.
  rewrite NoDup_cons, Forall_cons. case_bool_decide as Hk; [by split; [|intros [_ [? _]]]|]. rewrite IH by done. rewrite !Forall_forall. setoid_rewrite not_elem_of_cons.
  split; [intros [Hn Ho]; split_and!; [|done..|]|intros [[Hx Hn] [_ Ho]]; split; [done|]]; [intros Hin; by destruct (Ho k Hin)|intros x Hx; by apply Ho|intros x Hin; split; [|by apply Ho]]. by intros ->.
Qed.

Lemma images_domain_spec vin : Forall is_key_input vin ->
  forallb (fun i => match vin_key_image i with Some k => negb (is_identity k) && in_subgroup k | None => false end) vin = true <->
  Forall (fun k => is_identity k = false /\ in_subgroup k = true) (omap vin_key_image vin).
Proof.
  induction vin as [|i vin IH]; intros HF; cbn; [split; [by constructor|done]|]. apply Forall_cons in HF as [Hi HF]. destruct i as [| | |a o k]; try done. cbn.
  by rewrite Forall_cons, andb_true_iff, IH, andb_true_iff, negb_true_iff.
Qed.

Lemma rings_diff_spec vin : Forall is_key_input vin ->
  forallb ring_members_diff vin = true <-> Forall (fun i => Forall (fun o => o <> 0) (tail (ring_offsets i))) vin.
Proof.
  induction vin as [|i vin IH]; intros HF; cbn; [split; [by constructor|done]|]. apply Forall_cons in HF as [Hi HF]. destruct i as [| | |a o k]; try done. cbn.
  rewrite Forall_cons, andb_true_iff, IH by done. by rewrite (forallb_spec _ (fun o => o <> 0)) by (intros x; by rewrite negb_true_iff, Z.eqb_neq).
Qed.

Lemma outs_valid_spec tx : check_outs_valid check_key tx = true <->
  Forall (fun o => exists key, get_output_public_key o = Some key /\ check_key key = true /\ (tx_version tx = 1 -> 0 < out_amount o)) (tx_vout tx).
Proof.
  apply forallb_spec. intros o.
  destruct (get_output_public_key o) as [key|]; [|by split; [|intros (? & ? & _)]]. destruct (Z.eqb_spec (tx_version tx) 1).
  - rewrite andb_true_iff, Z.ltb_lt. split; [intros []; by exists key|]. intros (? & [= <-] & ? & ?). auto.
  - split; [intros ?; by exists key|]. by intros (? & [= <-] & ? & _).
Qed.

Lemma balance_spec (tx : transaction) :
  Forall is_u64 (input_amounts tx) -> Forall is_u64 (output_amounts tx) -> Forall is_key_input (tx_vin tx) ->
  zsum (input_amounts tx) < 2 ^ 64 -> zsum (output_amounts tx) < 2 ^ 64 ->
  (tx_version tx =? 1) && ((get_inputs_money_amount (tx_vin tx) 0).2 <=? get_outs_money_amount (map out_amount (tx_vout tx))) = false <->
  (tx_version tx = 1 -> zsum (output_amounts tx) < zsum (input_amounts tx)).
Proof.
  intros Hin Hout Hk H1 H2. rewrite inputs_amount_spec by done. cbn [snd]. unfold get_outs_money_amount. fold (input_amounts tx). fold (output_amounts tx).
  pose proof (zsum_nonneg _ Hin). pose proof (zsum_nonneg _ Hout). rewrite !foldl_sum_wrap by (done || lia). rewrite !wrap_small by (unfold is_uint; lia).
  destruct (Z.eqb_spec (tx_version tx) 1); cbn [andb]; [rewrite Z.leb_gt; cbn; tauto|tauto].
Qed.

Lemma masks_spec (tx : transaction) : (1 <? tx_version tx) && negb (length (rct_outPk (tx_rct tx)) =? length (tx_vout tx))%nat = false <->
  (1 < tx_version tx -> length (rct_outPk (tx_rct tx)) = length (tx_vout tx)).
Proof. destruct (Z.ltb_spec 1 (tx_version tx)); cbn [andb]; [rewrite negb_false_iff, Nat.eqb_eq; tauto|split; [lia|done]]. Qed.

Lemma ring_rule_spec (tx : transaction) hf : Forall is_key_input (tx_vin tx) -> check_tx_inputs_ring_members_diff tx hf = true <->
  (6 <= hf -> Forall (fun i => Forall (fun o => o <> 0) (tail (ring_offsets i))) (tx_vin tx)).
Proof. intros Hk. unfold check_tx_inputs_ring_members_diff. destruct (Z.leb_spec 6 hf); [rewrite rings_diff_spec by done; tauto|split; [lia|done]]. Qed.

Lemma semantic_iff tx hf tvc :
  Forall is_u64 (input_amounts tx) -> Forall is_u64 (output_amounts tx) ->
  (check_tx_semantic check_key is_identity in_subgroup tx hf tvc).1 = true <-> semantic_rules tx hf.
Proof.
  intros Hin Hout. unfold check_tx_semantic. rewrite !if_reject. cbn [fst]. rewrite !andb_true_iff, !negb_involutive, !negb_true_iff, bool_decide_eq_false.
  assert (Ht : check_inputs_types_supported tx = true <-> Forall is_key_input (tx_vin tx)) by (by apply forallb_spec).
  rewrite Ht, outs_valid_spec. unfold check_money_overflow. rewrite andb_true_iff. unfold check_inputs_overflow, check_outs_overflow.
  rewrite inputs_loop_spec, overflow_free_spec by (done || (unfold is_uint; lia)). rewrite masks_spec, !Z.add_0_l. fold (input_amounts tx). fold (output_amounts tx).
  assert (Hd : Forall is_key_input (tx_vin tx) -> check_tx_inputs_keyimages_diff tx = true <-> NoDup (key_images tx)).
  { intros Hk. unfold check_tx_inputs_keyimages_diff. rewrite keyimages_diff_spec by done. fold (key_images tx). rewrite Forall_forall. by split; [intros []|split; [|intros; apply not_elem_of_nil]]. }
  split.
  - intros (Hne & Hk & Ho & Hm & ((_ & S1) & S2) & B & D & R & I & T & _). rewrite (balance_spec tx) in B by done. apply Hd in D; [|done]. rewrite ring_rule_spec in R by done.
    apply images_domain_spec in I; [|done]. by split.
  - intros [[Hne Hk] Ho Hm [S1 S2] B [D I] R T]. split_and!; try done; [by apply balance_spec|by apply Hd|by apply ring_rule_spec|by apply images_domain_spec].
Qed.

End semantic.

(** *** All rules together *)

Section consensus.
Context (verRctSemanticsSimple1 verRct_sem : rctSig -> bool) (verRctSemanticsSimple : list rctSig -> bool).
Context (check_key is_identity in_subgroup : list Z -> bool).

(** The rules on one transaction. *)
Definition tx_rules (hf_version : Z) (tx : transaction) : Prop :=
  exists blob weight, tx_to_blob tx = Some blob /\ length blob <= get_max_tx_size /\
    1 <= tx_version tx <= (if hf_version <? HF_VERSION_DYNAMIC_FEE then 1 else 2) /\
    get_transaction_weight tx (length blob) = Some weight /\ (HF_VERSION_PER_BYTE_FEE <= hf_version -> weight <= get_transaction_weight_limit hf_version) /\
    semantic_rules check_key is_identity in_subgroup tx hf_version /\ (check_tx_outputs tx hf_version []).1 = true.

(** The RingCT signatures of a block, in order. *)
Definition ringct_of (txs : list transaction) : list rctSig := omap (fun tx : transaction => if 2 <=? tx_version tx then Some (loaded_rv tx) else None) txs.

Definition amounts_ok (tx : transaction) : Prop := 0 <= tx_version tx /\ Forall is_u64 (input_amounts tx) /\ Forall is_u64 (output_amounts tx).

Lemma if_reject_tvc (c : bool) flags tvc (k : bool * tvc_t) : (k.1 = true -> k.2 = tvc) -> (if c then reject flags tvc else k).1 = true -> (if c then reject flags tvc else k).2 = tvc.
Proof. by destruct c. Qed.

Lemma semantic_tvc tx hf tvc : let r := check_tx_semantic check_key is_identity in_subgroup tx hf tvc in r.1 = true -> r.2 = tvc.
Proof. cbv zeta. unfold check_tx_semantic. do 10 apply if_reject_tvc. done. Qed.

Lemma outputs_tvc tx hf tvc : let r := check_tx_outputs tx hf tvc in r.1 = true -> r.2 = tvc.
Proof. cbv zeta. unfold check_tx_outputs. do 11 apply if_reject_tvc. done. Qed.

Lemma outputs_any_tvc tx hf tvc tvc' : (check_tx_outputs tx hf tvc).1 = (check_tx_outputs tx hf tvc').1.
Proof. unfold check_tx_outputs. cbv zeta. by rewrite !if_reject. Qed.

Lemma non_input_loop_spec hf txs : forall rvv tvc' rvv', Forall amounts_ok txs ->
  non_input_loop check_key is_identity in_subgroup txs hf [] rvv = Some (true, tvc', rvv') <->
  Forall (tx_rules hf) txs /\ tvc' = [] /\ rvv' = rvv ++ ringct_of txs.
Proof.
  induction txs as [|tx txs IH]; intros rvv tvc' rvv' HF; cbn [non_input_loop].
  { cbn. rewrite app_nil_r. split; [intros [= <- <-]; by split|by intros (_ & -> & ->)]. }
  apply Forall_cons in HF as [(Hv & Hin & Hout) HF]. rewrite Forall_cons.
  assert (Hre : rvv ++ ringct_of (tx :: txs) = (if 2 <=? tx_version tx then rvv ++ [loaded_rv tx] else rvv) ++ ringct_of txs)
    by (cbn; destruct (2 <=? tx_version tx); by rewrite <- ?app_assoc).
  pose proof (semantic_iff check_key is_identity in_subgroup tx hf [] Hin Hout) as Hsem. pose proof (semantic_tvc tx hf []) as Hst. cbv zeta in Hst. pose proof (outputs_tvc tx hf []) as Hot. cbv zeta in Hot.
  assert (Hbad : forall P : Prop, ~ tx_rules hf tx -> (tx_rules hf tx /\ P) /\ tvc' = [] /\ rvv' = rvv ++ ringct_of (tx :: txs) <-> False) by tauto.
  set (mv := if hf <? HF_VERSION_DYNAMIC_FEE then 1 else 2) in *.
  destruct (tx_to_blob tx) as [blob|] eqn:Eb; cbn [mbind option_bind]; [|rewrite Hbad; [done|intros (? & ? & ? & _); congruence]].
  destruct (Z.ltb_spec get_max_tx_size (length blob)) as [Hsz|Hsz]; [rewrite Hbad; [done|intros (? & ? & ? & ? & _); simplify_eq; lia]|].
  destruct (_ || _) eqn:Ev; [rewrite Hbad; [done|intros (? & ? & _ & _ & Hr & _); fold mv in Hr; apply orb_true_iff in Ev as [Ev|Ev]; bcase_hyps; lia]|].
  destruct (get_transaction_weight tx (length blob)) as [w|] eqn:Ew; cbn [mbind option_bind]; [|rewrite Hbad; [done|intros (? & ? & ? & _ & _ & ? & _); simplify_eq; congruence]].
  destruct (_ && _) eqn:El; [rewrite Hbad; [done|]; apply andb_true_iff in El as [? ?]; bcase_hyps; intros (? & ? & ? & _ & _ & ? & Hl & _); simplify_eq; specialize (Hl ltac:(lia)); lia|].
  destruct (check_tx_semantic _ _ _ tx hf []) as [[] t1]; cbn [fst snd negb] in *; [|rewrite Hbad; [done|intros (? & ? & _ & _ & _ & _ & _ & Hs & _); by apply Hsem in Hs]].
  rewrite (Hst eq_refl) in *. destruct (check_tx_outputs tx hf []) as [[] t2] eqn:Eo; cbn [fst snd negb orb] in *; [|rewrite Hbad; [done|intros (? & ? & _ & _ & _ & _ & _ & _ & Ho); by rewrite Eo in Ho]].
  rewrite (Hot eq_refl). rewrite bool_decide_false by (apply not_elem_of_nil). rewrite IH, Hre by done. assert (tx_rules hf tx); [|tauto].
  exists blob, w. apply orb_false_iff in Ev as [? ?]. apply andb_false_iff in El. bcase_hyps. split; [done|]. split; [lia|]. split; [fold mv; lia|]. split; [done|].
  split; [intros Hp; destruct El; bcase_hyps; lia|]. split; [by apply Hsem|by rewrite Eo].
Qed.

Lemma consensus_iff hf txs : Forall amounts_ok txs ->
  (exists tvc, ver_non_input_consensus verRctSemanticsSimple1 verRct_sem verRctSemanticsSimple check_key is_identity in_subgroup txs hf [] = Some (true, tvc)) <->
  Forall (tx_rules hf) txs /\ Forall (fun rv => is_Some (check_one_rv verRctSemanticsSimple1 verRct_sem rv)) (ringct_of txs) /\
  (batch_of (ringct_of txs) = [] \/ verRctSemanticsSimple (batch_of (ringct_of txs)) = true).
Proof.
  intros HF. unfold ver_non_input_consensus. rewrite <- ver_mixed_iff. pose proof (non_input_loop_spec hf txs []) as Hs. cbn [app] in Hs.
  destruct (non_input_loop _ _ _ _ _ _ _) as [[[[] t] rvv]|]; cbn [mbind option_bind negb].
  - destruct (Hs t rvv HF) as [H1 _]. destruct (H1 eq_refl) as (Hr & -> & ->). destruct (ver_mixed_rct_semantics _ _ _ _); cbn [negb]; [split; [by split|by eauto]|].
    split; [by intros (? & ?)|by intros (_ & ?)].
  - split; [by intros (? & ?)|]. intros (Hr & _). by destruct (Hs [] (ringct_of txs) HF) as [_ H1]; specialize (H1 ltac:(done)).
  - split; [by intros (? & ?)|]. intros (Hr & _). by destruct (Hs [] (ringct_of txs) HF) as [_ H1]; specialize (H1 ltac:(done)).
Qed.

End consensus.

(** ** Properties *)

(** C22: The semantic check accepts a transaction precisely when the rules hold over the
    integers: key inputs only, valid output keys, sums of amounts below 2^64 and for
    version 1 more in than out, distinct key images in the prime-order subgroup, no
    zero offset within a ring.  The 64-bit sums cannot hide an overflow. *)
Theorem semantic_rules_exact check_key is_identity in_subgroup tx hf tvc :
  Forall is_u64 (input_amounts tx) -> Forall is_u64 (output_amounts tx) ->
  (check_tx_semantic check_key is_identity in_subgroup tx hf tvc).1 = true <-> semantic_rules check_key is_identity in_subgroup tx hf.
Proof. apply semantic_iff. Qed.

(** The schedule of RingCT types: a loaded RingCT transaction passes the rules on
    outputs under a fork precisely when its type of signature is in use under that
    fork, hides its amounts from fork 3 on and has outputs of the right type.  Two
    transactions known by their hashes are exempt. *)
Theorem rct_type_schedule mul_inv_eight p tx hf tvc :
  tx_ok p -> expand_transaction_1 mul_inv_eight p false = Some tx -> tx_version p = 2 -> tx_vin p <> [] -> 1 <= hf -> is_grandfathered tx = false ->
  (check_tx_outputs tx hf tvc).1 = true <->
  rct_type_allowed hf (rct_type (tx_rct tx)) /\ (3 <= hf -> Forall (fun o => out_amount o = 0) (tx_vout tx)) /\ check_output_types tx hf = true.
Proof. apply schedule_iff. Qed.

(** C34: The cache of verified inputs is sound: in any sequence of verifications of loaded
    transactions of one version, each given the id the last one left, a verdict is
    what verifying the proofs against the rings would say, unless the hashes of an
    earlier verification and of this one collide; and a rejection is never wrong. *)
Theorem verification_cache_sound mul_inv_eight simple full ring_signature calls i c r :
  Forall (call_ok mul_inv_eight) calls -> (forall c1 c2 : transaction * list (list ctkey), c1 ∈ calls -> c2 ∈ calls -> tx_version c1.1 = tx_version c2.1) ->
  calls !! i = Some c -> cached_run simple full ring_signature calls null_hash !! i = Some r ->
  (r = true -> ver_input_proofs_rings simple full ring_signature c.1 c.2 = true \/
               exists c', c' ∈ take i calls /\ collision_in (id_inputs c') (id_inputs c)) /\
  (r = false -> ver_input_proofs_rings simple full ring_signature c.1 c.2 = false).
Proof. intros Hok Hv Hi Hr. eapply (cached_run_sound mul_inv_eight simple full ring_signature calls [] null_hash); [done..|by left|done|done]. Qed.

(** C23: The rules that need no chain data accept a set of transactions precisely when
    every one of them is within the limits on size, weight and version and obeys the
    semantic and output rules, and every RingCT signature is valid: on its own for
    the first types, in one batch, in order and without loss, for the bulletproof
    ones. *)
Theorem non_input_rules_exact simple1 full simple check_key is_identity in_subgroup hf txs :
  Forall amounts_ok txs ->
  (exists tvc, ver_non_input_consensus simple1 full simple check_key is_identity in_subgroup txs hf [] = Some (true, tvc)) <->
  Forall (tx_rules check_key is_identity in_subgroup hf) txs /\
  Forall (fun rv => is_Some (check_one_rv simple1 full rv)) (ringct_of txs) /\
  (batch_of (ringct_of txs) = [] \/ simple (batch_of (ringct_of txs)) = true).
Proof. apply consensus_iff. Qed.

(** ** Examples *)

Definition sample_loaded : transaction := default sample_v2 (expand_transaction_1 (fun k => k) sample_v2 false).
Definition sample_rings : list (list ctkey) := [[mk_ctkey (sample_k 31) (sample_k 32); mk_ctkey (sample_k 33) (sample_k 34)]].

Lemma sample_loaded_eq : expand_transaction_1 (fun k => k) sample_v2 false = Some sample_loaded.
Proof. by vm_compute. Qed.

Lemma sample_call_ok : call_ok (fun k => k) (sample_loaded, sample_rings).
Proof.
  split; [exists sample_v2; split; [|exact sample_loaded_eq]|].
  - split; [exact sample_v2_ok|]. split; [done|by vm_compute].
  - by apply (bool_decide_unpack (rings_ok sample_rings)); vm_compute.
Qed.

Lemma semantic_rules_exact_witness :
  (Forall is_u64 (input_amounts sample_loaded) /\ Forall is_u64 (output_amounts sample_loaded)) /\
  semantic_rules (fun _ => true) (fun _ => false) (fun _ => true) sample_loaded 16.
Proof.
  assert (H1 : Forall is_u64 (input_amounts sample_loaded)) by (by apply (bool_decide_unpack (Forall is_u64 (input_amounts sample_loaded))); vm_compute).
  assert (H2 : Forall is_u64 (output_amounts sample_loaded)) by (by apply (bool_decide_unpack (Forall is_u64 (output_amounts sample_loaded))); vm_compute).
  split; [by split|]. apply (proj1 (semantic_rules_exact (fun _ => true) (fun _ => false) (fun _ => true) sample_loaded 16 [] H1 H2)). by vm_compute.
Defined.

(** A verification whose proofs hold says so, whatever the id. *)
Lemma cached_true simple full ring_signature tx rings id : is_Some (calculate_transaction_hash tx 0) -> ver_input_proofs_rings simple full ring_signature tx rings = true ->
  (verify_inputs_cached simple full ring_signature tx rings id).1 = true.
Proof. intros [h Hh] Hv. unfold verify_inputs_cached. rewrite Hh, Hv. cbn [negb]. by destruct (_ && _). Qed.

Lemma sample_cached : cached_run (fun _ => true) (fun _ => false) (fun _ _ _ _ => false) [(sample_loaded, sample_rings); (sample_loaded, sample_rings)] null_hash = [true; true].
Proof.
  assert (Hh : is_Some (calculate_transaction_hash sample_loaded 0)) by (unfold calculate_transaction_hash, get_transaction_prefix_hash, calculate_transaction_prunable_hash, get_object_hash, get_blob_hash; generalize cn_fast_hash; intros F; vm_compute; by eexists).
  assert (Hv : ver_input_proofs_rings (fun _ => true) (fun _ => false) (fun _ _ _ _ => false) sample_loaded sample_rings = true) by (unfold ver_input_proofs_rings, expand_tx_and_ver_rct_non_sem, get_transaction_prefix_hash, get_object_hash, get_blob_hash; generalize cn_fast_hash; intros F; by vm_compute).
  assert (H : forall calls id, cached_run (fun _ => true) (fun _ => false) (fun _ _ _ _ => false) ((sample_loaded, sample_rings) :: calls) id = true :: cached_run (fun _ => true) (fun _ => false) (fun _ _ _ _ => false) calls
    (verify_inputs_cached (fun _ => true) (fun _ => false) (fun _ _ _ _ => false) sample_loaded sample_rings id).2).
  { intros calls id. cbn [cached_run fst snd]. pose proof (cached_true _ _ _ sample_loaded sample_rings id Hh Hv) as E. destruct (verify_inputs_cached _ _ _ _ _ _) as [r id']. cbn [fst snd] in *. by rewrite E. }
  by rewrite !H.
Qed.

Lemma verification_cache_sound_witness :
  cached_run (fun _ => true) (fun _ => false) (fun _ _ _ _ => false) [(sample_loaded, sample_rings); (sample_loaded, sample_rings)] null_hash = [true; true] /\
  (ver_input_proofs_rings (fun _ => true) (fun _ => false) (fun _ _ _ _ => false) sample_loaded sample_rings = true \/
   exists c', c' ∈ [(sample_loaded, sample_rings)] /\ collision_in (id_inputs c') (id_inputs (sample_loaded, sample_rings))).
Proof.
  split; [exact sample_cached|]. refine (proj1 (verification_cache_sound (fun k => k) (fun _ => true) (fun _ => false) (fun _ _ _ _ => false) [(sample_loaded, sample_rings); (sample_loaded, sample_rings)] 1
    (sample_loaded, sample_rings) true _ _ eq_refl _) eq_refl); [by apply Forall_cons; split; [|apply Forall_cons; split; [|apply Forall_nil]]; [exact sample_call_ok..|]| |by rewrite sample_cached].
  intros c1 c2 H1 H2. rewrite !elem_of_cons in H1, H2. assert (Hc : forall c : transaction * list (list ctkey), c = (sample_loaded, sample_rings) \/ c = (sample_loaded, sample_rings) \/ c ∈ [] -> c = (sample_loaded, sample_rings)) by (intros c [-> | [-> | []%not_elem_of_nil]]; done).
  by rewrite (Hc c1 H1), (Hc c2 H2).
Defined.

Lemma non_input_rules_exact_witness :
  Forall amounts_ok [sample_loaded; sample_loaded] /\
  Forall (tx_rules (fun _ => true) (fun _ => false) (fun _ => true) 16) [sample_loaded; sample_loaded].
Proof.
  assert (H1 : Forall amounts_ok [sample_loaded; sample_loaded]) by (by apply (bool_decide_unpack (Forall amounts_ok [sample_loaded; sample_loaded])); vm_compute).
  split; [exact H1|].
  refine (proj1 (proj1 (non_input_rules_exact (fun _ => false) (fun _ => false) (fun l => (length l =? 2)%nat) (fun _ => true) (fun _ => false) (fun _ => true) 16 _ H1) _)).
  exists []. by lazy.
Defined.
