(* ===== verification/ChainDb.v ===== *)
(** * ChainDb: the block chain database

    Models the chain tables of BlockchainLMDB (src/blockchain_db/lmdb/db_lmdb.cpp)
    and the operations on them, with the part of BlockchainDB that composes them
    (src/blockchain_db/blockchain_db.cpp): adding and popping blocks, transactions,
    outputs and key images.

    A table of LMDB is a finite map from the key its comparison function looks at: an
    append fails unless the key is above the last one.  The tables of pending
    transactions, of alternative blocks and of fork versions are not part of this
    state (TxPool.v and Blockchain.v have them).  An exception is an [Err]. *)
From stdpp Require Import gmap.
From S2P Require Import Prelude Varint Archive Config Keccak TxFormat RctFormat Transaction TxParse TreeHash TxHash.
#[local] Open Scope mach_scope.
#[local] Arguments put : simpl never.
#[local] Arguments get : simpl never.

(** ** Definitions *)

(** *** Results *)

Inductive db_exception := DB_ERROR | BLOCK_EXISTS | BLOCK_DNE | BLOCK_PARENT_DNE | TX_EXISTS | TX_DNE | OUTPUT_DNE | KEY_IMAGE_EXISTS | RUNTIME_ERROR.

Inductive result (A : Type) := Ok (a : A) | Err (e : db_exception).
Arguments Ok {A} a.
Arguments Err {A} e.

#[global] Instance result_bind : MBind result := fun A B f m => match m with Ok a => f a | Err e => Err e end.
Definition try {A} (e : db_exception) (o : option A) : result A := match o with Some a => Ok a | None => Err e end.
Definition require (b : bool) (e : db_exception) : result unit := if b then Ok tt else Err e.

(** *** Tables *)

(** [MDB_LAST], on the keys. *)
Definition last_key {A} (m : gmap Z A) : option Z := map_fold (fun k _ r => Some (match r with None => k | Some l => Z.max k l end)) None m.

(** [MDB_APPEND] and [MDB_APPENDDUP]. *)
Definition append {A} (m : gmap Z A) (k : Z) (v : A) : option (gmap Z A) :=
  if match last_key m with None => true | Some l => l <? k end then Some (<[k:=v]> m) else None.

(** The entries of a table. *)
Definition ms_entries {A} (m : gmap Z A) : Z := size m.

Record mdb_block_info := mk_block_info {
  bi_timestamp : Z;
  bi_coins : Z;
  bi_weight : Z;
  bi_diff_lo : Z;
  bi_diff_hi : Z;
  bi_hash : list Z;
  bi_cum_rct : Z;
  bi_long_term_block_weight : Z;
}.

Record tx_data_t := mk_tx_data { tx_id : Z; td_unlock_time : Z; block_id : Z }.
Record outtx := mk_outtx { ot_tx_hash : list Z; ot_local_index : Z }.

Record output_data_t := mk_output_data { od_pubkey : list Z; od_unlock_time : Z; od_height : Z; od_commitment : list Z }.

(** Outputs of an amount other than zero are kept without their commitment. *)
Inductive outkey :=
  | rct_outkey (output_id : Z) (data : output_data_t)
  | pre_rct_outkey (output_id : Z) (pubkey : list Z) (unlock_time height : Z).
Definition output_id (ok : outkey) : Z := match ok with rct_outkey i _ => i | pre_rct_outkey i _ _ _ => i end.

Record block_tables := mk_block_tables {
  m_blocks : gmap Z (list Z);
  m_block_info : gmap Z mdb_block_info;
  m_block_heights : gmap (list Z) Z;
}.

Record tx_tables := mk_tx_tables {
  m_txs_pruned : gmap Z (list Z);
  m_txs_prunable : gmap Z (list Z);
  m_txs_prunable_hash : gmap Z (list Z);
  m_txs_prunable_tip : gmap Z Z;
  m_tx_indices : gmap (list Z) tx_data_t;
  m_tx_outputs : gmap Z (list Z);
}.

Record output_tables := mk_output_tables {
  m_output_txs : gmap Z outtx;
  m_output_amounts : gmap Z (gmap Z outkey);
}.

Record db := mk_db {
  d_blocks : block_tables;
  d_txs : tx_tables;
  d_outs : output_tables;
  m_spent_keys : gset (list Z);
  (* the property [pruning_seed], zero when there is none *)
  get_blockchain_pruning_seed : Z;
}.

Definition empty_db (seed : Z) : db :=
  mk_db (mk_block_tables ∅ ∅ ∅) (mk_tx_tables ∅ ∅ ∅ ∅ ∅ ∅) (mk_output_tables ∅ ∅) ∅ seed.

(** The duplicates of a key; a key with none is not in the table. *)
Definition dups {A} (m : gmap Z (gmap Z A)) (k : Z) : gmap Z A := default ∅ (m !! k).
Definition set_dups {A} (m : gmap Z (gmap Z A)) (k : Z) (d : gmap Z A) : gmap Z (gmap Z A) :=
  if bool_decide (d = ∅) then delete k m else <[k:=d]> m.

Definition height (s : db) : Z := ms_entries (m_blocks (d_blocks s)).
Definition get_tx_count (s : db) : Z := ms_entries (m_txs_pruned (d_txs s)).
Definition num_outputs (o : output_tables) : Z := match last_key (m_output_txs o) with None => 0 | Some l => 1 + l end.
Definition get_num_outputs (s : db) (amount : Z) : Z := ms_entries (dups (m_output_amounts (d_outs s)) amount).
Definition has_key_image (s : db) (img : list Z) : bool := bool_decide (img ∈ m_spent_keys s).

Section db.
(** [rct::zeroCommitVartime] and [rct::scalarmultKey(_, INV_EIGHT)], of which nothing is assumed. *)
Context (zeroCommitVartime : Z -> list Z) (mul_inv_eight : list Z -> list Z).

(** *** Outputs *)

Definition get_output_data (amount : Z) (ok : outkey) : option output_data_t :=
  if amount =? 0 then match ok with rct_outkey _ data => Some data | pre_rct_outkey _ _ _ _ => None end
  else match ok with
       | rct_outkey _ data => Some (mk_output_data (od_pubkey data) (od_unlock_time data) (od_height data) (zeroCommitVartime amount))
       | pre_rct_outkey _ pubkey unlock_time height => Some (mk_output_data pubkey unlock_time height (zeroCommitVartime amount))
       end.

Definition get_output_key (s : db) (amount index : Z) : option output_data_t :=
  ok ← dups (m_output_amounts (d_outs s)) amount !! index; get_output_data amount ok.

(** The overload on several offsets of one amount, [allow_partial] set: it stops at
    the first one that is not there. *)
Fixpoint get_output_keys (s : db) (amount : Z) (offsets : list Z) : list output_data_t :=
  match offsets with
  | [] => []
  | i :: offsets => match get_output_key s amount i with Some data => data :: get_output_keys s amount offsets | None => [] end
  end.

(** The hash of its transaction and the index in it. *)
Definition get_output_tx_and_index (s : db) (amount index : Z) : result (list Z * Z) :=
  ok ← try OUTPUT_DNE (dups (m_output_amounts (d_outs s)) amount !! index);
  ot ← try OUTPUT_DNE (m_output_txs (d_outs s) !! output_id ok);
  Ok (ot_tx_hash ot, ot_local_index ot).

Definition add_output (o : output_tables) (height : Z) (tx_hash : list Z) (tx_output : tx_out) (local_index unlock_time : Z) (commitment : option (list Z))
  : result (output_tables * Z) :=
  output_public_key ← try DB_ERROR (get_output_public_key tx_output);
  let amount := out_amount tx_output in
  if (amount =? 0) && bool_decide (commitment = None) then Err DB_ERROR
  else
    let m_num_outputs := num_outputs o in
    output_txs ← try DB_ERROR (append (m_output_txs o) m_num_outputs (mk_outtx tx_hash local_index));
    let amount_index := ms_entries (dups (m_output_amounts o) amount) in
    let ok := if amount =? 0
              then rct_outkey m_num_outputs (mk_output_data output_public_key unlock_time height (default [] commitment))
              else pre_rct_outkey m_num_outputs output_public_key unlock_time height in
    d ← try DB_ERROR (append (dups (m_output_amounts o) amount) amount_index ok);
    Ok (mk_output_tables output_txs (set_dups (m_output_amounts o) amount d), amount_index).

Definition remove_output (o : output_tables) (amount out_index : Z) : result output_tables :=
  ok ← try OUTPUT_DNE (dups (m_output_amounts o) amount !! out_index);
  _ ← try DB_ERROR (m_output_txs o !! output_id ok);
  Ok (mk_output_tables (delete (output_id ok) (m_output_txs o)) (set_dups (m_output_amounts o) amount (delete out_index (dups (m_output_amounts o) amount)))).

(** *** Key images *)

Definition add_spent_key (spent : gset (list Z)) (k_image : list Z) : result (gset (list Z)) :=
  if bool_decide (k_image ∈ spent) then Err KEY_IMAGE_EXISTS else Ok ({[k_image]} ∪ spent).
Definition remove_spent_key (spent : gset (list Z)) (k_image : list Z) : gset (list Z) := spent ∖ {[k_image]}.

(** The loop over the inputs of a transaction: the set, and whether it is a miner
    transaction. *)
Fixpoint add_spent_keys (vin : list txin_v) (miner_tx : bool) (spent : gset (list Z)) : result (gset (list Z) * bool) :=
  match vin with
  | [] => Ok (spent, miner_tx)
  | txin_to_key _ _ k_image :: vin => spent ← add_spent_key spent k_image; add_spent_keys vin miner_tx spent
  | txin_gen _ :: vin => add_spent_keys vin true spent
  | _ => Err RUNTIME_ERROR
  end.

Fixpoint remove_spent_keys (vin : list txin_v) (spent : gset (list Z)) : gset (list Z) :=
  match vin with
  | [] => spent
  | txin_to_key _ _ k_image :: vin => remove_spent_keys vin (remove_spent_key spent k_image)
  | _ :: vin => remove_spent_keys vin spent
  end.

(** *** Transactions *)

(** A transaction with its member [unprunable_size] and its blob. *)
Record tx_entry := mk_tx_entry { te_tx : transaction; te_unprunable_size : Z; te_blob : list Z }.

Definition add_transaction_data (t : tx_tables) (seed m_height : Z) (te : tx_entry) (tx_hash tx_prunable_hash : list Z) : result (tx_tables * Z) :=
  let tx := te_tx te in
  let tx_id := ms_entries (m_txs_pruned t) in
  _ ← require (bool_decide (m_tx_indices t !! tx_hash = None)) TX_EXISTS;
  let tx_indices := <[tx_hash := mk_tx_data tx_id (tx_unlock_time tx) m_height]> (m_tx_indices t) in
  unprunable_size ← (if te_unprunable_size te =? 0 then base ← try DB_ERROR (put serialize_base tx); Ok (Z.of_nat (length base)) else Ok (te_unprunable_size te));
  _ ← require (unprunable_size <=? length (te_blob te)) DB_ERROR;
  pruned ← try DB_ERROR (append (m_txs_pruned t) tx_id (take (Z.to_nat unprunable_size) (te_blob te)));
  prunable ← try DB_ERROR (append (m_txs_prunable t) tx_id (drop (Z.to_nat unprunable_size) (te_blob te)));
  let tip := if negb (seed =? 0) then <[tx_id := m_height]> (m_txs_prunable_tip t) else m_txs_prunable_tip t in
  prunable_hash ← (if 1 <? tx_version tx then try DB_ERROR (append (m_txs_prunable_hash t) tx_id tx_prunable_hash) else Ok (m_txs_prunable_hash t));
  Ok (mk_tx_tables pruned prunable prunable_hash tip tx_indices (m_tx_outputs t), tx_id).

Definition add_tx_amount_output_indices (t : tx_tables) (tx_id : Z) (amount_output_indices : list Z) : result tx_tables :=
  outputs ← try DB_ERROR (append (m_tx_outputs t) tx_id amount_output_indices);
  Ok (mk_tx_tables (m_txs_pruned t) (m_txs_prunable t) (m_txs_prunable_hash t) (m_txs_prunable_tip t) (m_tx_indices t) outputs).

(** The output and the commitment to store: those of a version 2 miner transaction
    are stored as RingCT outputs. *)
Definition stored_output (tx : transaction) (miner_tx : bool) (i : nat) (out : tx_out) : result (tx_out * option (list Z)) :=
  if miner_tx && (tx_version tx =? 2) then Ok (mk_out 0 (out_target out), Some (zeroCommitVartime (out_amount out)))
  else if 1 <? tx_version tx then k ← try DB_ERROR (rct_outPk (tx_rct tx) !! i); Ok (out, Some (ct_mask k))
  else Ok (out, None).

(** The loop over the outputs from the [i]-th on, with the indices returned. *)
Fixpoint add_outputs (tx : transaction) (miner_tx : bool) (height : Z) (tx_hash : list Z) (i : nat) (vout : list tx_out) (o : output_tables)
  : result (output_tables * list Z) :=
  match vout with
  | [] => Ok (o, [])
  | out :: vout =>
      '(out', commitment) ← stored_output tx miner_tx i out;
      '(o, amount_index) ← add_output o height tx_hash out' i (tx_unlock_time tx) commitment;
      '(o, indices) ← add_outputs tx miner_tx height tx_hash (S i) vout o;
      Ok (o, amount_index :: indices)
  end.

(** [tx_hash_ptr] is the hash of the transaction when the caller knows it. *)
Definition add_transaction (s : db) (te : tx_entry) (tx_hash_ptr : option (list Z)) : result db :=
  let tx := te_tx te in
  tx_hash ← try RUNTIME_ERROR (match tx_hash_ptr with Some h => Some h | None => calculate_transaction_hash tx (te_unprunable_size te) end);
  tx_prunable_hash ← try RUNTIME_ERROR (if 2 <=? tx_version tx then calculate_transaction_prunable_hash tx (te_unprunable_size te) (Some (te_blob te)) else Some null_hash);
  '(spent, miner_tx) ← add_spent_keys (tx_vin tx) false (m_spent_keys s);
  '(txs, tx_id) ← add_transaction_data (d_txs s) (get_blockchain_pruning_seed s) (height s) te tx_hash tx_prunable_hash;
  '(outs, amount_output_indices) ← add_outputs tx miner_tx (height s) tx_hash 0 (tx_vout tx) (d_outs s);
  txs ← add_tx_amount_output_indices txs tx_id amount_output_indices;
  Ok (mk_db (d_blocks s) txs outs spent (get_blockchain_pruning_seed s)).

Definition get_pruned_tx_blob (t : tx_tables) (h : list Z) : option (list Z) := ti ← m_tx_indices t !! h; m_txs_pruned t !! tx_id ti.
Definition get_tx_blob (t : tx_tables) (h : list Z) : option (list Z) :=
  ti ← m_tx_indices t !! h; pruned ← m_txs_pruned t !! tx_id ti; prunable ← m_txs_prunable t !! tx_id ti; Some (pruned ++ prunable).

(** [Ok None] is a [false] return. *)
Definition get_tx (t : tx_tables) (h : list Z) : result (option transaction) :=
  match get_tx_blob t h with
  | None => Ok None
  | Some bd => tx ← try DB_ERROR (parse_and_validate_tx_from_blob mul_inv_eight bd false); Ok (Some tx)
  end.
Definition get_pruned_tx (t : tx_tables) (h : list Z) : result (option transaction) :=
  match get_pruned_tx_blob t h with
  | None => Ok None
  | Some bd => tx ← try DB_ERROR (parse_and_validate_tx_base_from_blob mul_inv_eight bd false false); Ok (Some tx)
  end.

(** The outputs go from last to first; [rev_vout] is the list of outputs reversed,
    with their indices. *)
Fixpoint remove_outputs (is_pseudo_rct : bool) (rev_vout : list (tx_out * option Z)) (o : output_tables) : result output_tables :=
  match rev_vout with
  | [] => Ok o
  | (out, index) :: rev_vout =>
      index ← try DB_ERROR index;
      o ← remove_output o (if is_pseudo_rct then 0 else out_amount out) index;
      remove_outputs is_pseudo_rct rev_vout o
  end.

Definition remove_tx_outputs (t : tx_tables) (o : output_tables) (tx_id : Z) (tx : transaction) : result output_tables :=
  amount_output_indices ← try DB_ERROR (m_tx_outputs t !! tx_id);
  if bool_decide (amount_output_indices = []) && negb (bool_decide (tx_vout tx = [])) then Err DB_ERROR
  else
    let is_pseudo_rct := (2 <=? tx_version tx) && is_coinbase tx in
    remove_outputs is_pseudo_rct (reverse (imap (fun i out => (out, amount_output_indices !! i)) (tx_vout tx))) o.

Definition remove_transaction_data (t : tx_tables) (o : output_tables) (tx_hash : list Z) (tx : transaction) : result (tx_tables * output_tables) :=
  ti ← try TX_DNE (m_tx_indices t !! tx_hash);
  let tx_id := tx_id ti in
  _ ← try DB_ERROR (m_txs_pruned t !! tx_id);
  _ ← require (negb (1 <? tx_version tx) || bool_decide (is_Some (m_txs_prunable_hash t !! tx_id))) DB_ERROR;
  o ← remove_tx_outputs t o tx_id tx;
  Ok (mk_tx_tables (delete tx_id (m_txs_pruned t)) (delete tx_id (m_txs_prunable t))
        (if 1 <? tx_version tx then delete tx_id (m_txs_prunable_hash t) else m_txs_prunable_hash t)
        (delete tx_id (m_txs_prunable_tip t)) (delete tx_hash (m_tx_indices t)) (delete tx_id (m_tx_outputs t)), o).

Definition get_pruned_tx_or_throw (t : tx_tables) (h : list Z) : result transaction := tx ← get_pruned_tx t h; try TX_DNE tx.

Definition remove_transaction (s : db) (tx_hash : list Z) : result db :=
  tx ← get_pruned_tx_or_throw (d_txs s) tx_hash;
  let spent := remove_spent_keys (tx_vin (tx : transaction)) (m_spent_keys s) in
  '(txs, outs) ← remove_transaction_data (d_txs s) (d_outs s) tx_hash tx;
  Ok (mk_db (d_blocks s) txs outs spent (get_blockchain_pruning_seed s)).

(** *** Blocks *)

Definition add_block_tables (b : block_tables) (blk : block) (block_weight long_term_block_weight cumulative_difficulty coins_generated num_rct_outs : Z) (blk_hash : list Z)
  : result block_tables :=
  let m_height := ms_entries (m_blocks b) in
  _ ← require (bool_decide (m_block_heights b !! blk_hash = None)) BLOCK_EXISTS;
  _ ← (if 0 <? m_height then
         prev ← try DB_ERROR (m_block_heights b !! prev_id blk);
         require (prev =? m_height - 1) BLOCK_PARENT_DNE
       else Ok tt);
  block_blob ← try DB_ERROR (block_to_blob blk);
  blocks ← try DB_ERROR (append (m_blocks b) m_height block_blob);
  cum_rct ← (if 4 <=? major_version blk then prev ← try BLOCK_DNE (m_block_info b !! (m_height ⊟ 1)); Ok (num_rct_outs ⊞ bi_cum_rct prev) else Ok num_rct_outs);
  let bi := mk_block_info (timestamp blk) coins_generated block_weight (Z.land cumulative_difficulty 0xffffffffffffffff)
              (Z.land (Z.shiftr cumulative_difficulty 64) 0xffffffffffffffff) blk_hash cum_rct long_term_block_weight in
  info ← try DB_ERROR (append (m_block_info b) m_height bi);
  Ok (mk_block_tables blocks info (<[blk_hash := m_height]> (m_block_heights b))).

Definition remove_block (b : block_tables) : result block_tables :=
  let m_height := ms_entries (m_blocks b) in
  if m_height =? 0 then Err BLOCK_DNE
  else
    bi ← try BLOCK_DNE (m_block_info b !! (m_height - 1));
    _ ← try DB_ERROR (m_block_heights b !! bi_hash bi);
    _ ← try DB_ERROR (m_blocks b !! (m_height - 1));
    Ok (mk_block_tables (delete (m_height - 1) (m_blocks b)) (delete (m_height - 1) (m_block_info b)) (delete (bi_hash bi) (m_block_heights b))).

(** What [add_block] is given; [be_miner_unprunable_size] is the member of the
    block's miner transaction. *)
Record block_entry := mk_block_entry {
  be_block : block;
  be_miner_unprunable_size : Z;
  be_txs : list tx_entry;
  be_weight : Z;
  be_long_term_weight : Z;
  be_cumulative_difficulty : Z;
  be_coins : Z;
}.

Fixpoint add_transactions (s : db) (txs : list tx_entry) (hashes : list (list Z)) : result db :=
  match txs, hashes with
  | te :: txs, h :: hashes => s ← add_transaction s te (Some h); add_transactions s txs hashes
  | [], _ => Ok s
  | _ :: _, [] => Err RUNTIME_ERROR
  end.

Definition count_rct_outs (txs : list tx_entry) : Z := Z.of_nat (length (filter (fun o => out_amount o = 0) (mjoin (map (fun te => tx_vout (te_tx te)) txs)))).

Definition miner_entry (be : block_entry) (blob : list Z) : tx_entry := mk_tx_entry (miner_tx (be_block be)) (be_miner_unprunable_size be) blob.

(** [BlockchainDB::add_block]; [m_hardfork->add] is in HardFork. *)
Definition add_block (s : db) (be : block_entry) : result db :=
  let blk := be_block be in
  _ ← require (length (tx_hashes blk) =? length (be_txs be))%nat RUNTIME_ERROR;
  blk_hash ← try RUNTIME_ERROR (calculate_block_hash blk None);
  miner_bd ← try RUNTIME_ERROR (tx_to_blob (miner_tx blk));
  s ← add_transaction s (miner_entry be miner_bd) None;
  s ← add_transactions s (be_txs be) (tx_hashes blk);
  let num_rct_outs := (if tx_version (miner_tx blk) =? 2 then Z.of_nat (length (tx_vout (miner_tx blk))) else 0) + count_rct_outs (be_txs be) in
  b ← add_block_tables (d_blocks s) blk (be_weight be) (be_long_term_weight be) (be_cumulative_difficulty be) (be_coins be) num_rct_outs blk_hash;
  Ok (mk_db b (d_txs s) (d_outs s) (m_spent_keys s) (get_blockchain_pruning_seed s)).

Definition get_block_from_height (s : db) (height : Z) : result block :=
  bd ← try BLOCK_DNE (m_blocks (d_blocks s) !! height); try DB_ERROR (parse_and_validate_block_from_blob bd).

(** The transactions popped are collected last first, whole when they are stored
    whole; [get_top_block] of an empty chain is a default block, and [remove_block]
    then throws. *)
Fixpoint pop_transactions (s : db) (rev_hashes : list (list Z)) : result (db * list transaction) :=
  match rev_hashes with
  | [] => Ok (s, [])
  | h :: rev_hashes =>
      full ← get_tx (d_txs s) h;
      tx ← match full with
           | Some tx => Ok tx
           | None => pruned ← get_pruned_tx (d_txs s) h; try DB_ERROR pruned
           end;
      s ← remove_transaction s h;
      '(s, txs) ← pop_transactions s rev_hashes;
      Ok (s, tx :: txs)
  end.

Definition pop_block (s : db) : result (db * block * list transaction) :=
  if height s =? 0 then Err BLOCK_DNE
  else
    blk ← get_block_from_height s (height s - 1);
    b ← remove_block (d_blocks s);
    let s := mk_db b (d_txs s) (d_outs s) (m_spent_keys s) (get_blockchain_pruning_seed s) in
    '(s, txs) ← pop_transactions s (reverse (tx_hashes blk));
    miner_hash ← try RUNTIME_ERROR (calculate_transaction_hash (miner_tx blk) 0);
    s ← remove_transaction s miner_hash;
    Ok (s, blk, txs).

(** *** Reading *)

Definition get_block_cumulative_difficulty (s : db) (height : Z) : result Z :=
  bi ← try BLOCK_DNE (m_block_info (d_blocks s) !! height); Ok (Z.lor (Z.shiftl (bi_diff_hi bi) 64) (bi_diff_lo bi)).
Definition get_block_difficulty (s : db) (height : Z) : result Z :=
  diff1 ← get_block_cumulative_difficulty s height;
  diff2 ← (if negb (height =? 0) then get_block_cumulative_difficulty s (height - 1) else Ok 0);
  Ok (diff1 - diff2).
Definition get_block_hash_from_height (s : db) (height : Z) : result (list Z) := bi ← try BLOCK_DNE (m_block_info (d_blocks s) !! height); Ok (bi_hash bi).
Definition get_block_height (s : db) (h : list Z) : result Z := try BLOCK_DNE (m_block_heights (d_blocks s) !! h).
Definition block_exists (s : db) (h : list Z) : bool := bool_decide (is_Some (m_block_heights (d_blocks s) !! h)).
Definition get_block_already_generated_coins (s : db) (height : Z) : result Z := bi ← try BLOCK_DNE (m_block_info (d_blocks s) !! height); Ok (bi_coins bi).
Definition get_block_timestamp (s : db) (height : Z) : result Z := bi ← try BLOCK_DNE (m_block_info (d_blocks s) !! height); Ok (bi_timestamp bi).
Definition tx_exists (s : db) (h : list Z) : bool := bool_decide (is_Some (m_tx_indices (d_txs s) !! h)).
Definition get_tx_block_height (s : db) (h : list Z) : result Z := ti ← try TX_DNE (m_tx_indices (d_txs s) !! h); Ok (block_id ti).
Definition get_tx_unlock_time (s : db) (h : list Z) : result Z := ti ← try TX_DNE (m_tx_indices (d_txs s) !! h); Ok (td_unlock_time ti).
Definition get_prunable_tx_hash (s : db) (h : list Z) : option (list Z) := ti ← m_tx_indices (d_txs s) !! h; m_txs_prunable_hash (d_txs s) !! tx_id ti.
Definition get_tx_amount_output_indices (s : db) (id : Z) : result (list Z) := try DB_ERROR (m_tx_outputs (d_txs s) !! id).

End db.

(** ** Lemmas *)

(** *** Tables *)

Lemma last_key_spec {A} (m : gmap Z A) :
  match last_key m with None => m = ∅ | Some l => is_Some (m !! l) /\ forall k, is_Some (m !! k) -> k <= l end.
Proof.
  apply (map_fold_weak_ind (fun r m => match r with None => m = ∅ | Some l => is_Some (m !! l) /\ forall k, is_Some (m !! k) -> k <= l end)); [done|].
  intros k x m' [l|] Hk IH.
  - destruct IH as [Hl Hmax]. split.
    + destruct (Z.max_spec k l) as [[_ ->] | [_ ->]]; [rewrite lookup_insert_ne; [done|by intros ->; destruct Hl; congruence]|by rewrite lookup_insert_eq].
    + intros j [y Hj]. destruct (decide (k = j)) as [->|Hn]; [lia|]. rewrite lookup_insert_ne in Hj by done. specialize (Hmax j ltac:(by eexists)). lia.
  - subst m'. split; [by rewrite lookup_insert_eq|]. intros j [y Hj]. destruct (decide (k = j)) as [->|Hn]; [lia|]. by rewrite lookup_insert_ne in Hj.
Qed.

Lemma append_Some {A} (m m' : gmap Z A) k v : append m k v = Some m' <-> m' = <[k:=v]> m /\ forall j, is_Some (m !! j) -> j < k.
Proof.
  unfold append. pose proof (last_key_spec m) as Hs. destruct (last_key m) as [l|].
  - destruct Hs as [Hl Hmax]. destruct (Z.ltb_spec l k); split; try done; [intros [= <-]|by intros [-> _]|].
    + split; [done|]. intros j Hj. specialize (Hmax j Hj). lia.
    + intros [_ Hj]. specialize (Hj l Hl). lia.
  - subst m. split; [intros [= <-]; split; [done|by intros j []]|by intros [-> _]].
Qed.

Lemma append_fresh {A} (m m' : gmap Z A) k v : append m k v = Some m' -> m !! k = None.
Proof. intros [_ Hk]%append_Some. destruct (m !! k) eqn:E; [|done]. specialize (Hk k ltac:(by eexists)). lia. Qed.

Lemma append_delete {A} (m m' : gmap Z A) k v : append m k v = Some m' -> delete k m' = m.
Proof. intros E. pose proof (append_fresh _ _ _ _ E). apply append_Some in E as [-> _]. by rewrite delete_insert_id. Qed.

Lemma append_lookup {A} (m m' : gmap Z A) k v : append m k v = Some m' -> m' !! k = Some v.
Proof. intros [-> _]%append_Some. by rewrite lookup_insert_eq. Qed.

Lemma append_size {A} (m m' : gmap Z A) k v : append m k v = Some m' -> ms_entries m' = ms_entries m + 1.
Proof. intros E. pose proof (append_fresh _ _ _ _ E). apply append_Some in E as [-> _]. unfold ms_entries. rewrite map_size_insert_None by done. lia. Qed.

Definition no_empty {A} (m : gmap Z (gmap Z A)) : Prop := forall k, m !! k <> Some ∅.

Lemma dups_set {A} (m : gmap Z (gmap Z A)) k d j : dups (set_dups m k d) j = if decide (k = j) then d else dups m j.
Proof.
  unfold dups, set_dups. case_bool_decide as Hd; case_decide as Hj; subst.
  - by rewrite lookup_delete_eq.
  - by rewrite lookup_delete_ne.
  - by rewrite lookup_insert_eq.
  - by rewrite lookup_insert_ne.
Qed.

Lemma no_empty_set {A} (m : gmap Z (gmap Z A)) k d : no_empty m -> no_empty (set_dups m k d).
Proof.
  intros Hm j. unfold set_dups. case_bool_decide as Hd; (destruct (decide (k = j)) as [->|Hn]).
  - by rewrite lookup_delete_eq.
  - by rewrite lookup_delete_ne.
  - rewrite lookup_insert_eq. congruence.
  - by rewrite lookup_insert_ne.
Qed.

Lemma set_dups_back {A} (m : gmap Z (gmap Z A)) k d : no_empty m -> set_dups (set_dups m k d) k (dups m k) = m.
Proof.
  intros Hm. assert (Ed : forall m', set_dups m' k (dups m k) = partial_alter (fun _ => m !! k) k m').
  { intros m'. unfold set_dups, dups. destruct (m !! k) as [x|] eqn:E; cbn; [rewrite bool_decide_false; [done|]; intros ->; by apply (Hm k)|by rewrite bool_decide_true]. }
  rewrite Ed. unfold set_dups. case_bool_decide; apply map_eq; intros j; (destruct (decide (k = j)) as [->|Hn]; [by rewrite lookup_partial_alter_eq|rewrite lookup_partial_alter_ne by done]).
  - by rewrite lookup_delete_ne.
  - by rewrite lookup_insert_ne.
Qed.

(** *** Popping undoes adding: outputs and key images *)

Lemma try_Ok {A} e (o : option A) a : try e o = Ok a <-> o = Some a.
Proof. destruct o; cbn; split; congruence. Qed.
Lemma require_Ok b e u : require b e = Ok u <-> b = true.
Proof. destruct b, u; cbn; split; congruence. Qed.

(** Undo one bind of an operation that succeeded. *)
Ltac step H x E :=
  match type of H with
  | mbind _ ?m = Ok _ => destruct m as [x|] eqn:E; [cbn [mbind result_bind] in H; try (apply try_Ok in E); try (apply require_Ok in E)|discriminate H]
  end.

Definition images_of (vin : list txin_v) : list (list Z) := omap (fun i => match i with txin_to_key _ _ k => Some k | _ => None end) vin.

Lemma remove_spent_keys_sub vin X : remove_spent_keys vin X = X ∖ list_to_set (images_of vin).
Proof.
  revert X. induction vin as [|i vin IH]; intros X; cbn; [set_solver|]. destruct i; rewrite IH; cbn; [done..|]. unfold remove_spent_key. set_solver.
Qed.

(** [l] is new to [X] and [X'] is [X] with it. *)
Definition spends (l : list (list Z)) (X X' : gset (list Z)) : Prop := X' = list_to_set l ∪ X /\ NoDup l /\ list_to_set l ## X.

Lemma spends_nil X : spends [] X X.
Proof. split_and!; [cbn; by rewrite union_empty_l_L|constructor|cbn; apply disjoint_empty_l]. Qed.

Lemma spends_app l l' X X' X'' : spends l X X' -> spends l' X' X'' -> spends (l ++ l') X X''.
Proof.
  intros (-> & Hn & Hd) (-> & Hn' & Hd'). rewrite disjoint_union_r in Hd'. destruct Hd' as [Hd1 Hd2]. split_and!; [rewrite list_to_set_app_L, assoc_L by apply _; f_equal; apply (comm_L _)| |].
  - apply NoDup_app. split_and!; [done| |done]. intros x Hx Hx'. apply (Hd1 x); by apply elem_of_list_to_set.
  - rewrite list_to_set_app_L, disjoint_union_l. done.
Qed.

Lemma add_spent_keys_spec vin : forall miner X X' miner', add_spent_keys vin miner X = Ok (X', miner') ->
  spends (images_of vin) X X' /\ miner' = miner || existsb is_gen vin.
Proof.
  induction vin as [|i vin IH]; intros miner X X' miner' E; cbn in E.
  { simplify_eq. split; [apply spends_nil|]. by rewrite orb_false_r. }
  destruct i as [h| | |a o k]; try done; cbn.
  - destruct (IH _ _ _ _ E) as (Hs & ->). split; [done|]. by destruct miner.
  - step E X1 E1. unfold add_spent_key in E1. case_bool_decide as Hk; [done|]. simplify_eq. destruct (IH _ _ _ _ E) as (Hs & ->). split; [|done].
    apply (spends_app [k] _ X ({[k]} ∪ X)); [|done]. split_and!; [by rewrite list_to_set_singleton_L|apply NoDup_singleton|]. intros x Hx Hx'. rewrite list_to_set_singleton, elem_of_singleton in Hx. by subst.
Qed.

Lemma add_spent_keys_undo vin miner X X' miner' : add_spent_keys vin miner X = Ok (X', miner') -> remove_spent_keys vin X' = X.
Proof. intros ((-> & _ & Hd) & _)%add_spent_keys_spec. rewrite remove_spent_keys_sub. set_solver. Qed.

Section undo.
Context (zeroCommitVartime : Z -> list Z) (mul_inv_eight : list Z -> list Z).

Lemma add_output_undo o m_height tx_hash out i unlock_time commitment o' index :
  no_empty (m_output_amounts o) -> add_output o m_height tx_hash out i unlock_time commitment = Ok (o', index) ->
  no_empty (m_output_amounts o') /\ remove_output o' (out_amount out) index = Ok o.
Proof.
  intros Hn E. unfold add_output in E. step E key E1. destruct (_ && _); [done|]. step E otx E2. step E d E3. simplify_eq.
  split; [by apply no_empty_set|]. unfold remove_output. cbn [m_output_amounts m_output_txs]. rewrite dups_set. rewrite decide_True by done.
  rewrite (append_lookup _ _ _ _ E3). cbn [try mbind result_bind].
  assert (Ho : forall b d1 d2 k, output_id (if b : bool then rct_outkey (num_outputs o) d1 else pre_rct_outkey (num_outputs o) k d2 m_height) = num_outputs o) by (by intros []).
  rewrite Ho, (append_lookup _ _ _ _ E2). cbn [try mbind result_bind]. rewrite (append_delete _ _ _ _ E2), (append_delete _ _ _ _ E3), set_dups_back by done. by destruct o.
Qed.

Lemma stored_output_amount tx miner i out out' c : stored_output zeroCommitVartime tx miner i out = Ok (out', c) -> out_amount out' = if miner && (tx_version tx =? 2) then 0 else out_amount out.
Proof. unfold stored_output. destruct (_ && _); [by intros [= <- <-]|]. destruct (_ <? _); [|by intros [= <- <-]]. intros E. step E k E1. by simplify_eq. Qed.

Lemma remove_outputs_app p l l' o : remove_outputs p (l ++ l') o = (o ← remove_outputs p l o; remove_outputs p l' o).
Proof. revert o. induction l as [|[out i] l IH]; intros o; cbn; [done|]. destruct i as [i|]; cbn; [|done]. destruct (remove_output _ _ _); cbn; [apply IH|done]. Qed.

Lemma add_outputs_undo tx miner m_height tx_hash vout : forall i o o' indices,
  no_empty (m_output_amounts o) -> add_outputs zeroCommitVartime tx miner m_height tx_hash i vout o = Ok (o', indices) ->
  no_empty (m_output_amounts o') /\ length indices = length vout /\
  remove_outputs (miner && (tx_version tx =? 2)) (reverse (imap (fun i out => (out, indices !! i)) vout)) o' = Ok o.
Proof.
  induction vout as [|out vout IH]; intros i o o' indices Hn E; cbn [add_outputs] in E; [by simplify_eq|].
  step E out1 E1. destruct out1 as [out1 c]. step E r1 E2. destruct r1 as [o1 index]. step E r2 E3. destruct r2 as [o2 indices']. simplify_eq.
  destruct (add_output_undo _ _ _ _ _ _ _ _ _ Hn E2) as [Hn1 Hr]. destruct (IH _ _ _ _ Hn1 E3) as (Hn2 & Hl & Hrs).
  split; [done|]. split; [cbn; by rewrite Hl|]. rewrite imap_cons, reverse_cons, remove_outputs_app.
  change (imap (_ ∘ S) vout) with (imap (fun i out => (out, indices' !! i)) vout). rewrite Hrs. cbn. rewrite <- (stored_output_amount _ _ _ _ _ _ E1), Hr. done.
Qed.

(** *** Popping undoes adding: transactions *)

(** The member [unprunable_size] as loading a blob sets it. *)
Definition loaded_base_size (blob : list Z) : Z := match get serialize_base blob with Some (_, rest) => length blob - length rest | None => 0 end.

(** A transaction loaded from its blob, either a miner transaction or one without
    miner inputs. *)
Definition tx_entry_ok (te : tx_entry) : Prop :=
  bytes (te_blob te) /\ te_unprunable_size te = loaded_base_size (te_blob te) /\
  (tx_version (te_tx te) <> 1 -> tx_vin (te_tx te) <> []) /\ existsb is_gen (tx_vin (te_tx te)) = is_coinbase (te_tx te) /\
  exists p, parse_binary c_transaction (te_blob te) = Some p /\ expand_transaction_1 mul_inv_eight p false = Some (te_tx te).

Lemma get_cut {A} ok m t (c : codec A) `{!Lawful ok m t c} w rest a : bytes (w ++ rest) -> get c (w ++ rest) = Some (a, rest) -> get c w = Some (a, []).
Proof.
  intros Hb E. destruct rest as [|x rest]; [by rewrite app_nil_r in E|]. destruct (law_get _ _ _ Hb E) as (Hok & w' & Ew & Hp). apply app_inv_tail in Ew as <-.
  assert (x :: rest <> []) as Hx by done. specialize (Hp (or_intror Hx)). pose proof (law_get_put a w [] Hok Hp) as E'. by rewrite app_nil_r in E'.
Qed.

Lemma expand_prefix p tx : expand_transaction_1 mul_inv_eight p false = Some tx -> tx_prefix tx = tx_prefix p.
Proof.
  unfold expand_transaction_1. destruct (_ && _); [|by intros [= <-]]. destruct (_ =? _); [by intros [= <-]|]. destruct (negb _); [done|].
  destruct (fill_dests _ _); [|done]. cbn [mbind option_bind]. destruct (expand_proofs _ _ _ _ _); [|done]. by intros [= <-].
Qed.

Lemma expand_base p tx : expand_transaction_1 mul_inv_eight p false = Some tx ->
  exists tx', expand_transaction_1 mul_inv_eight (base_of p) true = Some tx' /\ tx_prefix tx' = tx_prefix tx.
Proof.
  intros E. rewrite (expand_prefix _ _ E). revert E. unfold expand_transaction_1. cbn [base_of tx_prefix tx_rct tx_rct_p tx_signatures tx_pruned].
  destruct (_ && _); [|by eauto]. destruct (_ =? _); [by eauto|]. destruct (negb _); [done|].
  destruct (fill_dests _ _); [|done]. cbn [mbind option_bind]. by eauto.
Qed.

Lemma entry_base te : tx_entry_ok te ->
  0 < te_unprunable_size te <= length (te_blob te) /\
  exists tx', parse_and_validate_tx_base_from_blob mul_inv_eight (take (Z.to_nat (te_unprunable_size te)) (te_blob te)) false false = Some tx' /\ tx_prefix tx' = tx_prefix (te_tx te).
Proof.
  intros (Hb & Hu & Hne & _ & p & Ep & Ex). rewrite (expand_prefix _ _ Ex) in Hne. unfold parse_binary in Ep.
  destruct (get c_transaction (te_blob te)) as [[p' [|]]|] eqn:Eg; [|done..]. cbn in Ep. simplify_eq.
  destruct (tx_get_stages _ _ _ Eg Hne) as (q & q' & _ & Es & _). unfold loaded_base_size in Hu. rewrite Es in Hu.
  destruct (get_suffix _ _ _ serialize_base _ _ _ Hb Es) as [w Ew]. rewrite Ew in *. rewrite length_app in Hu.
  assert (w <> []). { intros ->. pose proof (get_cut _ _ _ serialize_base [] q' _ Hb Es) as E0. by rewrite law_empty in E0 by lia. }
  replace (te_unprunable_size te) with (Z.of_nat (length w)) by lia. rewrite length_app. split; [destruct w; [done|cbn [length]; lia]|].
  rewrite Nat2Z.id, take_app_length. destruct (expand_base _ _ Ex) as (tx' & E1 & E2). exists tx'. split; [|done].
  unfold parse_and_validate_tx_base_from_blob, serialize_noeof. cbn [passes_max_size_check negb]. rewrite (get_cut _ _ _ serialize_base w q' _ Hb Es). done.
Qed.

Lemma entry_version te : tx_entry_ok te -> 1 <= tx_version (te_tx te) <= 2.
Proof.
  intros (Hb & _ & _ & _ & p & Ep & Ex). rewrite (expand_prefix _ _ Ex). destruct (parse_binary_inv tx_ok 5 _ c_transaction _ _ Hb Ep) as [((Hv & _) & _) _]. done.
Qed.

Definition tx_tables_ok (t : tx_tables) : Prop := forall k, is_Some (m_txs_prunable_tip t !! k) -> k < ms_entries (m_txs_pruned t).
Definition db_ok (s : db) : Prop := no_empty (m_output_amounts (d_outs s)) /\ tx_tables_ok (d_txs s).
Definition with_blocks (s : db) (b : block_tables) : db := mk_db b (d_txs s) (d_outs s) (m_spent_keys s) (get_blockchain_pruning_seed s).

Lemma bool_decide_andb_nil {A B} (l : list A) (l' : list B) `{!Decision (l = []), !Decision (l' = [])} : length l = length l' -> bool_decide (l = []) && negb (bool_decide (l' = [])) = false.
Proof. intros E. destruct l, l'; try done; [by rewrite (bool_decide_true ([] = [])), andb_true_l, bool_decide_true|by rewrite bool_decide_false]. Qed.

(** What the two steps on the transaction tables leave. *)
Record tx_added (t t' : tx_tables) (te : tx_entry) (h : list Z) (indices : list Z) (seed m_height : Z) (ph : list Z) : Prop := {
  ta_new : m_tx_indices t !! h = None;
  ta_index : m_tx_indices t' = <[h := mk_tx_data (ms_entries (m_txs_pruned t)) (tx_unlock_time (te_tx te)) m_height]> (m_tx_indices t);
  ta_pruned : append (m_txs_pruned t) (ms_entries (m_txs_pruned t)) (take (Z.to_nat (te_unprunable_size te)) (te_blob te)) = Some (m_txs_pruned t');
  ta_prunable : append (m_txs_prunable t) (ms_entries (m_txs_pruned t)) (drop (Z.to_nat (te_unprunable_size te)) (te_blob te)) = Some (m_txs_prunable t');
  ta_tip : m_txs_prunable_tip t' = if negb (seed =? 0) then <[ms_entries (m_txs_pruned t) := m_height]> (m_txs_prunable_tip t) else m_txs_prunable_tip t;
  ta_hash : if 1 <? tx_version (te_tx te) then append (m_txs_prunable_hash t) (ms_entries (m_txs_pruned t)) ph = Some (m_txs_prunable_hash t')
            else m_txs_prunable_hash t' = m_txs_prunable_hash t;
  ta_outputs : append (m_tx_outputs t) (ms_entries (m_txs_pruned t)) indices = Some (m_tx_outputs t');
}.

Lemma tx_data_added t seed m_height te h ph t1 id indices t2 :
  0 < te_unprunable_size te ->
  add_transaction_data t seed m_height te h ph = Ok (t1, id) -> add_tx_amount_output_indices t1 id indices = Ok t2 ->
  id = ms_entries (m_txs_pruned t) /\ tx_added t t2 te h indices seed m_height ph.
Proof.
  intros Hu E E'. unfold add_transaction_data in E. step E u1 E1. rewrite (proj2 (Z.eqb_neq (te_unprunable_size te) 0)) in E by lia. cbn [mbind result_bind] in E.
  step E u2 E2. step E pruned E3. step E prunable E4. step E prunable_hash E5. simplify_eq. split; [done|].
  unfold add_tx_amount_output_indices in E'. step E' outputs E6. simplify_eq. apply bool_decide_eq_true in E1.
  split; cbn; try done. destruct (1 <? tx_version (te_tx te)); [by apply try_Ok in E5|by simplify_eq].
Qed.

Lemma tx_added_ok t t' te h indices seed m_height ph : tx_tables_ok t -> tx_added t t' te h indices seed m_height ph -> tx_tables_ok t'.
Proof.
  intros Hok [_ _ Hp _ Ht _ _] k Hk. rewrite (append_size _ _ _ _ Hp). rewrite Ht in Hk. destruct (negb _); [|specialize (Hok k Hk); lia].
  destruct (decide (ms_entries (m_txs_pruned t) = k)) as [<-|Hn]; [lia|]. rewrite lookup_insert_ne in Hk by done. specialize (Hok k Hk). lia.
Qed.

(** Looking up and removing a transaction just added. *)
Lemma tx_added_lookup t t' te h indices seed m_height ph : tx_added t t' te h indices seed m_height ph ->
  get_tx_blob t' h = Some (te_blob te) /\ get_pruned_tx_blob t' h = Some (take (Z.to_nat (te_unprunable_size te)) (te_blob te)).
Proof.
  intros [_ Hi Hp Hq _ _ _]. unfold get_tx_blob, get_pruned_tx_blob. rewrite Hi, lookup_insert_eq. cbn [mbind option_bind tx_id].
  rewrite (append_lookup _ _ _ _ Hp), (append_lookup _ _ _ _ Hq). cbn. by rewrite take_drop.
Qed.

Lemma tx_added_remove t t' te h indices seed m_height ph o o' tx :
  tx_tables_ok t -> tx_added t t' te h indices seed m_height ph -> tx_prefix tx = tx_prefix (te_tx te) -> length indices = length (tx_vout tx) ->
  remove_outputs ((2 <=? tx_version tx) && is_coinbase tx) (reverse (imap (fun i out => (out, indices !! i)) (tx_vout tx))) o' = Ok o ->
  remove_transaction_data t' o' h tx = Ok (t, o).
Proof.
  intros Hok [Hn Hi Hp Hq Ht Hh Ho] Epre Hlen Hr. unfold remove_transaction_data, remove_tx_outputs. rewrite Hi, lookup_insert_eq. cbn [try mbind result_bind tx_id].
  rewrite (append_lookup _ _ _ _ Hp), (append_lookup _ _ _ _ Ho). cbn [try mbind result_bind]. rewrite (append_delete _ _ _ _ Hp), (append_delete _ _ _ _ Hq), (append_delete _ _ _ _ Ho).
  rewrite Ht, delete_insert_id by done.
  assert (Htip : m_txs_prunable_tip t !! ms_entries (m_txs_pruned t) = None).
  { destruct (m_txs_prunable_tip t !! _) eqn:E; [|done]. specialize (Hok _ ltac:(by eexists)). lia. }
  rewrite bool_decide_andb_nil; [|done]. rewrite Hr, Epre. cbn [mbind result_bind].
  assert (Hd : delete (ms_entries (m_txs_pruned t)) (if negb (seed =? 0) then <[ms_entries (m_txs_pruned t):=m_height]> (m_txs_prunable_tip t) else m_txs_prunable_tip t) = m_txs_prunable_tip t)
    by (destruct (negb _); [by rewrite delete_insert_id|by rewrite delete_id]).
  rewrite Hd. destruct (1 <? tx_version (te_tx te)).
  - rewrite (append_lookup _ _ _ _ Hh), (append_delete _ _ _ _ Hh). cbn. by destruct t.
  - rewrite Hh. cbn. by destruct t.
Qed.

(** What a transaction leaves in the database. *)
Lemma add_transaction_inv s te hp s' : tx_entry_ok te -> add_transaction zeroCommitVartime s te hp = Ok s' ->
  exists h ph miner indices,
    match hp with Some h' => h = h' | None => calculate_transaction_hash (te_tx te) (te_unprunable_size te) = Some h end /\
    d_blocks s' = d_blocks s /\ get_blockchain_pruning_seed s' = get_blockchain_pruning_seed s /\
    add_spent_keys (tx_vin (te_tx te)) false (m_spent_keys s) = Ok (m_spent_keys s', miner) /\ miner = is_coinbase (te_tx te) /\
    tx_added (d_txs s) (d_txs s') te h indices (get_blockchain_pruning_seed s) (height s) ph /\
    add_outputs zeroCommitVartime (te_tx te) miner (height s) h 0 (tx_vout (te_tx te)) (d_outs s) = Ok (d_outs s', indices).
Proof.
  intros Hte E. destruct (entry_base te Hte) as [[Hu _] _]. unfold add_transaction in E. step E h E1. step E ph E2. step E r3 E3. destruct r3 as [spent miner]. step E r4 E4. destruct r4 as [t1 id].
  step E r5 E5. destruct r5 as [outs indices]. step E t2 E6. simplify_eq. destruct (tx_data_added _ _ _ _ _ _ _ _ _ _ Hu E4 E6) as [-> Ha].
  exists h, ph, miner, indices. cbn. split; [by destruct hp; simplify_eq|]. split_and!; try done.
  destruct (add_spent_keys_spec _ _ _ _ _ E3) as (_ & ->). cbn. apply Hte.
Qed.

Lemma add_transaction_undo s te hp s' : db_ok s -> tx_entry_ok te -> add_transaction zeroCommitVartime s te hp = Ok s' ->
  exists h, match hp with Some h' => h = h' | None => calculate_transaction_hash (te_tx te) (te_unprunable_size te) = Some h end /\
    db_ok s' /\ d_blocks s' = d_blocks s /\ (forall b, remove_transaction mul_inv_eight (with_blocks s' b) h = Ok (with_blocks s b)) /\
    get_tx mul_inv_eight (d_txs s') h = Ok (Some (te_tx te)).
Proof.
  intros [Hne Hto] Hte E. destruct (add_transaction_inv _ _ _ _ Hte E) as (h & ph & miner & indices & Hh & Eb & Es & Esp & Em & Ha & Eo). exists h. split; [done|].
  destruct (add_outputs_undo _ _ _ _ _ _ _ _ _ Hne Eo) as (Hne' & Hlen & Hrem). split; [split; [done|by eapply tx_added_ok]|]. split; [done|].
  destruct (tx_added_lookup _ _ _ _ _ _ _ _ Ha) as [Hfull Hpruned]. destruct (entry_base te Hte) as [_ (tx' & Ep & Epre)]. split.
  - intros b. unfold remove_transaction, get_pruned_tx_or_throw, get_pruned_tx. cbn [with_blocks d_txs d_outs d_blocks m_spent_keys get_blockchain_pruning_seed].
    rewrite Hpruned. cbn [mbind result_bind]. rewrite Ep. cbn [try mbind result_bind].
    assert (Hps : (2 <=? tx_version tx') && is_coinbase tx' = miner && (tx_version (te_tx te) =? 2)).
    { rewrite Epre, Em. pose proof (entry_version te Hte). destruct (is_coinbase (te_tx te)); [|by rewrite andb_false_r]. rewrite andb_true_r, andb_true_l.
      destruct (Z.eqb_spec (tx_version (te_tx te)) 2); [by btrue (2 <=? tx_version (te_tx te))|by bfalse (2 <=? tx_version (te_tx te))]. }
    rewrite (tx_added_remove _ _ _ _ _ _ _ _ (d_outs s) (d_outs s') tx' Hto Ha Epre); [|by rewrite Epre|by rewrite Hps, Epre].
    cbn [mbind result_bind]. rewrite Epre, (add_spent_keys_undo _ _ _ _ _ Esp), Es. done.
  - unfold get_tx. rewrite Hfull. destruct Hte as (_ & _ & _ & _ & p & Epp & Ex). unfold parse_and_validate_tx_from_blob. cbn [passes_max_size_check negb]. rewrite Epp. cbn [mbind option_bind]. by rewrite Ex.
Qed.

Lemma pop_transactions_app s l l' : pop_transactions mul_inv_eight s (l ++ l') =
  ('(s, txs) ← pop_transactions mul_inv_eight s l; '(s, txs') ← pop_transactions mul_inv_eight s l'; Ok (s, txs ++ txs')).
Proof.
  revert s. induction l as [|h l IH]; intros s; cbn [app pop_transactions].
  { cbn. by destruct (pop_transactions _ s l') as [[? ?]|]. }
  destruct (get_tx _ _ _) as [full|]; cbn [mbind result_bind]; [|done]. destruct (match full with Some _ => _ | None => _ end); cbn [mbind result_bind]; [|done].
  destruct (remove_transaction _ _ _); cbn [mbind result_bind]; [|done]. rewrite IH. destruct (pop_transactions _ _ l) as [[s1 txs]|]; cbn [mbind result_bind]; [|done].
  by destruct (pop_transactions _ s1 l') as [[? ?]|].
Qed.

Lemma add_transactions_undo tes : forall s hashes s', db_ok s -> Forall tx_entry_ok tes -> length hashes = length tes ->
  add_transactions zeroCommitVartime s tes hashes = Ok s' ->
  db_ok s' /\ d_blocks s' = d_blocks s /\ get_blockchain_pruning_seed s' = get_blockchain_pruning_seed s /\
  forall b, pop_transactions mul_inv_eight (with_blocks s' b) (reverse hashes) = Ok (with_blocks s b, reverse (map te_tx tes)).
Proof.
  induction tes as [|te tes IH]; intros s [|h hashes] s' Hok HF Hl E; try done; cbn [add_transactions] in E; [by simplify_eq|].
  apply Forall_cons in HF as [Hte HF]. step E s1 E1. destruct (add_transaction_undo _ _ _ _ Hok Hte E1) as (h' & <- & Hok1 & Hb & Hrem & Hget).
  destruct (add_transaction_inv _ _ _ _ Hte E1) as (_ & _ & _ & _ & _ & _ & Hseed & _).
  destruct (IH s1 hashes s' Hok1 HF ltac:(by injection Hl) E) as (Hok2 & Hb2 & Hs2 & Hpop). split; [done|]. split; [congruence|]. split; [congruence|]. intros b.
  cbn [map]. rewrite !reverse_cons, pop_transactions_app, Hpop. cbn [mbind result_bind pop_transactions]. change (d_txs (with_blocks s1 b)) with (d_txs s1). rewrite Hget. cbn [mbind result_bind].
  rewrite Hrem. done.
Qed.

(** *** Popping undoes adding: blocks *)

Lemma add_block_tables_undo b blk w ltw cd coins n h b' : add_block_tables b blk w ltw cd coins n h = Ok b' ->
  ms_entries (m_blocks b') = ms_entries (m_blocks b) + 1 /\ remove_block b' = Ok b /\ exists blob, block_to_blob blk = Some blob /\ m_blocks b' !! ms_entries (m_blocks b) = Some blob.
Proof.
  unfold add_block_tables. intros E. step E u1 E1. step E u2 E2. step E blob E3. step E blocks E4. step E cum E5. step E info E6. simplify_eq. cbn [m_blocks].
  rewrite (append_size _ _ _ _ E4). split; [done|]. split; [|exists blob; split; [done|by apply (append_lookup _ _ _ _ E4)]].
  unfold remove_block. cbn [m_blocks m_block_info m_block_heights]. rewrite (append_size _ _ _ _ E4). assert (0 <= ms_entries (m_blocks b)) by (unfold ms_entries; lia).
  bfalse (ms_entries (m_blocks b) + 1 =? 0). rewrite Z.add_simpl_r, (append_lookup _ _ _ _ E6), (append_lookup _ _ _ _ E4). cbn [try mbind result_bind bi_hash].
  rewrite lookup_insert_eq. cbn [try mbind result_bind]. apply bool_decide_eq_true in E1. rewrite (append_delete _ _ _ _ E4), (append_delete _ _ _ _ E6), delete_insert_id by done. by destruct b.
Qed.

(** A loaded block whose miner transaction is one, with its transactions. *)
Definition block_entry_ok (be : block_entry) : Prop :=
  block_ok (be_block be) /\ is_coinbase (miner_tx (be_block be)) = true /\
  be_miner_unprunable_size be = loaded_base_size (default [] (tx_to_blob (miner_tx (be_block be)))) /\ Forall tx_entry_ok (be_txs be).

Lemma miner_entry_ok be bd : block_entry_ok be -> tx_to_blob (miner_tx (be_block be)) = Some bd -> tx_entry_ok (miner_entry be bd).
Proof.
  intros (Hb & Hc & Hu & _) Ebd. rewrite Ebd in Hu. cbn in Hu. destruct Hb as (_ & Hm & _). destruct (parse_dump tx_ok _ _ c_transaction _ Hm) as (bd' & Ed & Hby & Ep).
  unfold tx_to_blob in Ebd. rewrite Ebd in Ed. simplify_eq. unfold is_coinbase in Hc. unfold tx_entry_ok. cbn [miner_entry te_blob te_tx te_unprunable_size]. unfold is_coinbase.
  rewrite Hc. split; [done|]. split; [done|]. destruct (tx_vin (miner_tx (be_block be))) as [|[] [|]] eqn:Ev; try done. split; [done|]. split; [done|].
  exists (miner_tx (be_block be)). split; [done|]. unfold expand_transaction_1, is_coinbase. rewrite Ev. cbn. by rewrite andb_false_r.
Qed.

Lemma hash_any_size (tx : transaction) u u' : tx_vin tx <> [] -> calculate_transaction_hash tx u = calculate_transaction_hash tx u'.
Proof.
  intros Hv. unfold calculate_transaction_hash, serialized_sizes. rewrite (bool_decide_false (length (tx_vin tx) = 0%nat)) by (by intros ?%length_zero_iff_nil). by destruct (tx_version tx =? 1).
Qed.

Lemma add_pop s be s' : db_ok s -> block_entry_ok be -> add_block zeroCommitVartime s be = Ok s' ->
  db_ok s' /\ pop_block mul_inv_eight s' = Ok (s, be_block be, reverse (map te_tx (be_txs be))).
Proof.
  intros Hok Hbe E. unfold add_block in E. step E u1 E1. step E bh E2. step E bd E3. step E s1 E4. step E s2 E5. step E b E6. simplify_eq. apply Nat.eqb_eq in E1.
  pose proof (miner_entry_ok _ _ Hbe E3) as Hm. destruct (add_transaction_undo _ _ _ _ Hok Hm E4) as (mh & Hmh & Hok1 & Hb1 & Hrem & _).
  destruct (add_transaction_inv _ _ _ _ Hm E4) as (_ & _ & _ & _ & _ & _ & Hs1 & _).
  destruct Hbe as (Hbok & Hcb & _ & HF). destruct (add_transactions_undo _ _ _ _ Hok1 HF E1 E5) as (Hok2 & Hb2 & Hs2 & Hpop).
  destruct (add_block_tables_undo _ _ _ _ _ _ _ _ _ E6) as (Hsz & Hrb & blob & Eblob & Hblk). split; [done|].
  unfold pop_block, height. cbn [d_blocks d_txs d_outs m_spent_keys get_blockchain_pruning_seed]. assert (0 <= ms_entries (m_blocks (d_blocks s2))) by (unfold ms_entries; lia).
  rewrite Hsz. bfalse (ms_entries (m_blocks (d_blocks s2)) + 1 =? 0). rewrite Z.add_simpl_r. unfold get_block_from_height. cbn [d_blocks]. rewrite Hblk. cbn [try mbind result_bind].
  destruct (parse_dump block_ok _ _ c_block _ Hbok) as (blob' & Ed & _ & Ep). unfold block_to_blob in Eblob. rewrite Eblob in Ed. simplify_eq.
  unfold parse_and_validate_block_from_blob. rewrite Ep. cbn [try mbind result_bind]. rewrite Hrb. cbn [mbind result_bind].
  change (mk_db ?b (d_txs s2) (d_outs s2) (m_spent_keys s2) (get_blockchain_pruning_seed s2)) with (with_blocks s2 b). rewrite Hpop. cbn [mbind result_bind].
  cbn [miner_entry te_tx te_unprunable_size] in Hmh. rewrite (hash_any_size _ 0 (be_miner_unprunable_size be)), Hmh by (unfold is_coinbase in Hcb; by destruct (tx_vin (miner_tx (be_block be)))). cbn [try mbind result_bind].
  rewrite Hrem. cbn [mbind result_bind]. rewrite Hb2, Hb1. by destruct s.
Qed.

End undo.

(** ** What the database holds *)

Section contents.
Context (zeroCommitVartime : Z -> list Z) (mul_inv_eight : list Z -> list Z).

(** *** The chain, newest block first *)

(** An output of the chain as it is stored. *)
Record stored_out := mk_stored { so_amount : Z; so_data : output_data_t; so_tx_hash : list Z; so_local_index : Z }.

Definition stored_of (m_height : Z) (h : list Z) (tx : transaction) (i : nat) (out : tx_out) : stored_out :=
  let coinbase_rct := is_coinbase tx && (tx_version tx =? 2) in
  let amount := if coinbase_rct then 0 else out_amount out in
  let commitment := if coinbase_rct then zeroCommitVartime (out_amount out)
                    else if amount =? 0 then default [] (ct_mask <$> rct_outPk (tx_rct tx) !! i) else zeroCommitVartime amount in
  mk_stored amount (mk_output_data (default [] (get_output_public_key out)) (tx_unlock_time tx) m_height commitment) h i.
Definition tx_stored (m_height : Z) (h : list Z) (tx : transaction) : list stored_out := imap (stored_of m_height h tx) (tx_vout tx).

Definition miner_hash (be : block_entry) : list Z := default [] (calculate_transaction_hash (miner_tx (be_block be)) (be_miner_unprunable_size be)).

(** The transactions of a block with their hashes, the miner transaction first. *)
Definition block_txs (be : block_entry) : list (list Z * transaction) :=
  (miner_hash be, miner_tx (be_block be)) :: zip (tx_hashes (be_block be)) (map te_tx (be_txs be)).

Definition block_stored (m_height : Z) (be : block_entry) : list stored_out := mjoin (map (fun '(h, tx) => tx_stored m_height h tx) (block_txs be)).

Fixpoint chain_stored (c : list block_entry) : list stored_out :=
  match c with [] => [] | be :: c => chain_stored c ++ block_stored (length c) be end.

Definition block_images (be : block_entry) : list (list Z) := mjoin (map (fun '(_, tx) => images_of (tx_vin (tx : transaction))) (block_txs be)).
Definition chain_images (c : list block_entry) : list (list Z) := mjoin (map block_images c).

(** The states reached by adding and popping blocks. *)
Inductive reach (seed : Z) : db -> list block_entry -> Prop :=
  | reach_empty : reach seed (empty_db seed) []
  | reach_add s c be s' : reach seed s c -> block_entry_ok mul_inv_eight be -> add_block zeroCommitVartime s be = Ok s' -> reach seed s' (be :: c)
  | reach_pop s c s' blk txs : reach seed s c -> pop_block mul_inv_eight s = Ok (s', blk, txs) -> reach seed s' (tail c).

(** Adding the blocks of a chain to an empty database. *)
Definition replay (seed : Z) (c : list block_entry) : result db := foldr (fun be r => s ← r; add_block zeroCommitVartime s be) (Ok (empty_db seed)) c.

Lemma empty_ok seed : db_ok (empty_db seed).
Proof. split; [intros k; cbn; by rewrite lookup_empty|]. intros k Hk. cbn in Hk. rewrite lookup_empty in Hk. by destruct Hk. Qed.

Lemma replay_ok seed c : forall s, Forall (block_entry_ok mul_inv_eight) c -> replay seed c = Ok s -> db_ok s.
Proof.
  induction c as [|be c IH]; intros s HF E; cbn in E; [simplify_eq; apply empty_ok|]. fold (replay seed c) in E. apply Forall_cons in HF as [Hbe HF].
  step E s0 E0. by destruct (add_pop _ _ _ _ _ (IH s0 HF eq_refl) Hbe E).
Qed.

Lemma reach_replay seed s c : reach seed s c -> Forall (block_entry_ok mul_inv_eight) c /\ replay seed c = Ok s.
Proof.
  induction 1 as [|s c be s' _ (HF & Hr) Hbe E|s c s' blk txs _ (HF & Hr) E].
  - by split; [constructor|].
  - split; [by constructor|]. cbn. fold (replay seed c). by rewrite Hr.
  - destruct c as [|be c]; [cbn in Hr; simplify_eq; done|]. cbn [replay foldr] in Hr. fold (replay seed c) in Hr. cbn [tail]. apply Forall_cons in HF as [Hbe HF].
    step Hr s0 E0. pose proof (replay_ok _ _ _ HF E0) as Hok. destruct (add_pop _ _ _ _ _ Hok Hbe Hr) as [_ Hp]. rewrite Hp in E. by simplify_eq.
Qed.

(** *** Key images *)

Definition tx_images (te : tx_entry) : list (list Z) := images_of (tx_vin (te_tx te)).

Lemma add_transaction_images s te hp s' : tx_entry_ok mul_inv_eight te -> add_transaction zeroCommitVartime s te hp = Ok s' ->
  spends (tx_images te) (m_spent_keys s) (m_spent_keys s').
Proof. intros Hte E. destruct (add_transaction_inv _ _ _ _ _ _ Hte E) as (h & ph & miner & ix & _ & _ & _ & Esp & _). by destruct (add_spent_keys_spec _ _ _ _ _ Esp) as (? & _). Qed.

Lemma add_transactions_images tes : forall s hashes s', Forall (tx_entry_ok mul_inv_eight) tes -> add_transactions zeroCommitVartime s tes hashes = Ok s' ->
  spends (mjoin (map tx_images tes)) (m_spent_keys s) (m_spent_keys s').
Proof.
  induction tes as [|te tes IH]; intros s [|h hashes] s' HF E; cbn [add_transactions] in E; try done; try (simplify_eq; apply spends_nil).
  apply Forall_cons in HF as [Hte HF]. step E s1 E1. by eapply spends_app; [apply (add_transaction_images _ _ _ _ Hte E1)|apply (IH _ _ _ HF E)].
Qed.

Lemma block_images_eq be : length (tx_hashes (be_block be)) = length (be_txs be) -> block_images be = images_of (tx_vin (miner_tx (be_block be))) ++ mjoin (map tx_images (be_txs be)).
Proof.
  intros Hl. unfold block_images, block_txs. cbn. f_equal. revert Hl. generalize (tx_hashes (be_block be)) as hs. induction (be_txs be) as [|te tes IH]; intros [|h hs] Hl; try done. cbn. by rewrite IH by (by injection Hl).
Qed.

Lemma add_block_images s be s' : block_entry_ok mul_inv_eight be -> add_block zeroCommitVartime s be = Ok s' -> spends (block_images be) (m_spent_keys s) (m_spent_keys s').
Proof.
  intros Hbe E. unfold add_block in E. step E u1 E1. step E bh E2. step E bd E3. step E s1 E4. step E s2 E5. step E b E6. simplify_eq. apply Nat.eqb_eq in E1. cbn [m_spent_keys].
  rewrite block_images_eq by done. eapply spends_app; [apply (add_transaction_images _ _ _ _ (miner_entry_ok _ _ _ Hbe E3) E4)|]. destruct Hbe as (_ & _ & _ & HF). apply (add_transactions_images _ _ _ _ HF E5).
Qed.

Lemma replay_images seed c : forall s, Forall (block_entry_ok mul_inv_eight) c -> replay seed c = Ok s -> NoDup (chain_images c) /\ m_spent_keys s = list_to_set (chain_images c).
Proof.
  induction c as [|be c IH]; intros s HF E; cbn in E; [simplify_eq; split; [constructor|done]|]. fold (replay seed c) in E. apply Forall_cons in HF as [Hbe HF].
  step E s0 E0. destruct (IH s0 HF eq_refl) as [Hn Hs]. destruct (add_block_images _ _ _ Hbe E) as (H1 & H2 & H3). unfold chain_images. cbn. fold (chain_images c).
  rewrite H1. rewrite Hs in *. split; [|by rewrite list_to_set_app_L]. apply NoDup_app. split_and!; [done| |done]. intros x Hx Hx'. apply (H3 x); by apply elem_of_list_to_set.
Qed.

(** *** Outputs *)

Definition zlookup {A} (l : list A) (i : Z) : option A := if 0 <=? i then l !! Z.to_nat i else None.

(** The outputs of an amount, with their position among all. *)
Definition select (amount : Z) (l : list stored_out) : list (Z * stored_out) := filter (fun p => so_amount p.2 = amount) (imap (fun i r => (Z.of_nat i, r)) l).

Definition outs_rel (o : output_tables) (l : list stored_out) : Prop :=
  (forall g, m_output_txs o !! g = (fun r => mk_outtx (so_tx_hash r) (so_local_index r)) <$> zlookup l g) /\
  (forall amount i, match zlookup (select amount l) i with
                    | Some (g, r) => exists ok, dups (m_output_amounts o) amount !! i = Some ok /\ output_id ok = g /\ get_output_data zeroCommitVartime amount ok = Some (so_data r)
                    | None => dups (m_output_amounts o) amount !! i = None
                    end).

Lemma zlookup_Some {A} (l : list A) i : is_Some (zlookup l i) <-> 0 <= i < length l.
Proof. unfold zlookup. destruct (Z.leb_spec 0 i); [rewrite lookup_lt_is_Some; lia|split; [by intros []|lia]]. Qed.

Lemma zlookup_snoc {A} (l : list A) x i : zlookup (l ++ [x]) i = if decide (i = length l) then Some x else zlookup l i.
Proof.
  unfold zlookup. destruct (Z.leb_spec 0 i); [|by rewrite decide_False by lia]. case_decide as Hi.
  - subst i. by rewrite Nat2Z.id, list_lookup_middle.
  - destruct (Z.lt_ge_cases i (length l)); [by rewrite lookup_app_l by lia|]. rewrite !lookup_ge_None_2; [done|lia|rewrite length_app; cbn; lia].
Qed.

Lemma select_snoc amount l r : select amount (l ++ [r]) = select amount l ++ (if decide (so_amount r = amount) then [(Z.of_nat (length l), r)] else []).
Proof. unfold select. rewrite imap_app, filter_app. f_equal. rewrite imap_cons, imap_nil, filter_cons, filter_nil. cbn. by rewrite Nat.add_0_r. Qed.

Lemma select_lookup amount l i g r : zlookup (select amount l) i = Some (g, r) -> zlookup l g = Some r /\ so_amount r = amount.
Proof.
  unfold zlookup at 1. destruct (0 <=? i); [|done]. intros Hi%list_elem_of_lookup_2. apply list_elem_of_filter in Hi as [Ha Hi]. cbn in Ha. split; [|done].
  apply elem_of_lookup_imap in Hi as (j & x & [= -> ->] & Hj). unfold zlookup. by rewrite (proj2 (Z.leb_le 0 j)), Nat2Z.id by lia.
Qed.

Lemma dense_size {A} (m : gmap Z A) n : 0 <= n -> (forall i, is_Some (m !! i) <-> 0 <= i < n) -> ms_entries m = n.
Proof.
  intros Hn Hd. unfold ms_entries. rewrite <- size_dom. replace (dom m) with (list_to_set (seqZ 0 n) : gset Z).
  - rewrite size_list_to_set by apply NoDup_seqZ. rewrite length_seqZ. lia.
  - apply set_eq. intros i. rewrite elem_of_list_to_set, elem_of_seqZ, elem_of_dom, Hd. lia.
Qed.

Lemma outs_rel_count o l amount : outs_rel o l -> ms_entries (dups (m_output_amounts o) amount) = length (select amount l).
Proof.
  intros [_ H]. apply dense_size; [lia|]. intros i. rewrite <- zlookup_Some. specialize (H amount i). destruct (zlookup _ i) as [[g r]|]; [|by rewrite H; split; intros []].
  destruct H as (ok & -> & _). split; by eexists.
Qed.

Lemma outs_rel_num o l : outs_rel o l -> num_outputs o = length l.
Proof.
  intros [H _]. unfold num_outputs. pose proof (last_key_spec (m_output_txs o)) as Hs.
  assert (Hd : forall g, is_Some (m_output_txs o !! g) <-> 0 <= g < length l) by (intros g; by rewrite H, fmap_is_Some, zlookup_Some).
  destruct (last_key _) as [k|].
  - destruct Hs as [Hk Hmax]. apply Hd in Hk. specialize (Hmax (length l - 1) ltac:(apply Hd; lia)). lia.
  - destruct l as [|r l]; [done|]. specialize (Hd 0). rewrite Hs, lookup_empty in Hd. destruct Hd as [_ Hd]. destruct Hd; [cbn [length]; lia|done].
Qed.

Lemma add_output_rel o l m_height h out i unlock commitment o' index r :
  outs_rel o l -> add_output o m_height h out i unlock commitment = Ok (o', index) ->
  so_amount r = out_amount out -> so_tx_hash r = h -> so_local_index r = i ->
  so_data r = mk_output_data (default [] (get_output_public_key out)) unlock m_height (if out_amount out =? 0 then default [] commitment else zeroCommitVartime (out_amount out)) ->
  outs_rel o' (l ++ [r]).
Proof.
  intros Hrel E Ha Hh Hi Hd. pose proof (outs_rel_num _ _ Hrel) as Hnum. pose proof (outs_rel_count _ _ (out_amount out) Hrel) as Hcnt. destruct Hrel as [H1 H2].
  unfold add_output in E. step E key E1. destruct (_ && _); [done|]. step E otx E2. step E d E3. simplify_eq. rewrite E1 in Hd. cbn [default] in Hd. unfold id in Hd.
  apply append_Some in E2 as [-> _]. apply append_Some in E3 as [-> _]. split; cbn [m_output_txs m_output_amounts].
  - intros g. rewrite Hnum, zlookup_snoc. case_decide as Hg; [subst g; by rewrite lookup_insert_eq|]. by rewrite lookup_insert_ne by done.
  - intros amount j. rewrite dups_set, select_snoc, Ha. specialize (H2 amount j). case_decide as Hj; [|by rewrite app_nil_r].
    subst amount. rewrite zlookup_snoc, <- Hcnt. case_decide as Hk; [|by rewrite lookup_insert_ne].
    subst j. rewrite lookup_insert_eq. eexists. split; [done|]. rewrite Hnum, Hd. unfold get_output_data. by destruct (Z.eqb_spec (out_amount out) 0).
Qed.

Lemma stored_output_rel tx m_height h i out out' c o l o' index :
  outs_rel o l -> stored_output zeroCommitVartime tx (is_coinbase tx) i out = Ok (out', c) -> add_output o m_height h out' i (tx_unlock_time tx) c = Ok (o', index) ->
  outs_rel o' (l ++ [stored_of m_height h tx i out]).
Proof.
  intros Hrel E1 E2. eapply add_output_rel; [exact Hrel|exact E2|unfold stored_of; cbn..].
  - symmetry. by eapply stored_output_amount.
  - done.
  - done.
  - unfold stored_output in E1. destruct (is_coinbase tx && (tx_version tx =? 2)); [by simplify_eq|]. destruct (1 <? tx_version tx).
    + step E1 k Ek. simplify_eq. by rewrite Ek.
    + simplify_eq. unfold add_output in E2. step E2 key Ekey. by destruct (Z.eqb_spec (out_amount out') 0).
Qed.

Lemma add_outputs_rel tx m_height h vout : forall i o o' indices l,
  outs_rel o l -> add_outputs zeroCommitVartime tx (is_coinbase tx) m_height h i vout o = Ok (o', indices) ->
  outs_rel o' (l ++ imap (fun j => stored_of m_height h tx (i + j)) vout).
Proof.
  induction vout as [|out vout IH]; intros i o o' indices l Hrel E; cbn [add_outputs] in E; [simplify_eq; by rewrite app_nil_r|].
  step E out1 E1. destruct out1 as [out1 c]. step E r1 E2. destruct r1 as [o1 index]. step E r2 E3. destruct r2 as [o2 indices']. simplify_eq.
  pose proof (IH _ _ _ _ _ (stored_output_rel _ _ _ _ _ _ _ _ _ _ _ Hrel E1 E2) E3) as H. rewrite <- app_assoc in H. rewrite imap_cons, Nat.add_0_r.
  erewrite imap_ext; [exact H|]. intros j x _. cbn. f_equal. lia.
Qed.

Lemma add_transaction_rel s te hp s' l h : tx_entry_ok mul_inv_eight te -> outs_rel (d_outs s) l -> add_transaction zeroCommitVartime s te hp = Ok s' ->
  match hp with Some h' => h = h' | None => h = default [] (calculate_transaction_hash (te_tx te) (te_unprunable_size te)) end ->
  outs_rel (d_outs s') (l ++ tx_stored (height s) h (te_tx te)).
Proof.
  intros Hte Hrel E Hh. destruct (add_transaction_inv _ _ _ _ _ _ Hte E) as (h' & ph & miner & ix & Hh' & _ & _ & _ & -> & _ & Eo).
  assert (h = h') as -> by (destruct hp; [congruence|by rewrite Hh' in Hh]). exact (add_outputs_rel _ _ _ _ _ _ _ _ _ Hrel Eo).
Qed.

Lemma add_transactions_rel tes : forall s hashes s' l, Forall (tx_entry_ok mul_inv_eight) tes -> length hashes = length tes -> outs_rel (d_outs s) l ->
  add_transactions zeroCommitVartime s tes hashes = Ok s' ->
  outs_rel (d_outs s') (l ++ mjoin (map (fun '(h, tx) => tx_stored (height s) h tx) (zip hashes (map te_tx tes)))).
Proof.
  induction tes as [|te tes IH]; intros s [|h hashes] s' l HF Hl Hrel E; cbn [add_transactions] in E; try done; [simplify_eq; by rewrite app_nil_r|].
  apply Forall_cons in HF as [Hte HF]. step E s1 E1. pose proof (add_transaction_rel _ _ _ _ _ h Hte Hrel E1 eq_refl) as Hr1.
  destruct (add_transaction_inv _ _ _ _ _ _ Hte E1) as (_ & _ & _ & _ & _ & Hb & _).
  pose proof (IH s1 hashes s' _ HF ltac:(by injection Hl) Hr1 E) as Hr2. unfold height in Hr2 |- *. rewrite Hb in Hr2. cbn. by rewrite <- app_assoc in Hr2.
Qed.

Lemma add_transactions_blocks tes : forall s hashes s', Forall (tx_entry_ok mul_inv_eight) tes -> add_transactions zeroCommitVartime s tes hashes = Ok s' -> d_blocks s' = d_blocks s.
Proof.
  induction tes as [|te tes IH]; intros s [|h hs] s' HF E; cbn [add_transactions] in E; try by simplify_eq.
  apply Forall_cons in HF as [Hte HF]. step E s1 E1. rewrite (IH _ _ _ HF E). by destruct (add_transaction_inv _ _ _ _ _ _ Hte E1) as (_ & _ & _ & _ & _ & ? & _).
Qed.

Lemma add_block_rel s be s' l : block_entry_ok mul_inv_eight be -> outs_rel (d_outs s) l -> add_block zeroCommitVartime s be = Ok s' ->
  outs_rel (d_outs s') (l ++ block_stored (height s) be) /\ height s' = height s + 1.
Proof.
  intros Hbe Hrel E. unfold add_block in E. step E u1 E1. step E bh E2. step E bd E3. step E s1 E4. step E s2 E5. step E b E6. simplify_eq. apply Nat.eqb_eq in E1.
  pose proof (miner_entry_ok _ _ _ Hbe E3) as Hm. pose proof (add_transaction_rel _ _ _ _ _ (miner_hash be) Hm Hrel E4 eq_refl) as Hr1. destruct (add_transaction_inv _ _ _ _ _ _ Hm E4) as (_ & _ & _ & _ & _ & Hb1 & _).
  destruct Hbe as (_ & _ & _ & HF). pose proof (add_transactions_rel _ _ _ _ _ HF E1 Hr1 E5) as Hr2. destruct (add_block_tables_undo _ _ _ _ _ _ _ _ _ E6) as (Hsz & _).
  pose proof (add_transactions_blocks _ _ _ _ HF E5) as Hb2.
  cbn [d_outs]. unfold height in *. cbn [d_blocks]. rewrite Hsz, Hb2, Hb1. split; [|done]. rewrite Hb1, <- app_assoc in Hr2. exact Hr2.
Qed.

Lemma outs_rel_get s l amount i : outs_rel (d_outs s) l ->
  get_num_outputs s amount = length (select amount l) /\
  get_output_key zeroCommitVartime s amount i = (fun p => so_data p.2) <$> zlookup (select amount l) i /\
  get_output_tx_and_index s amount i = match zlookup (select amount l) i with Some (_, r) => Ok (so_tx_hash r, so_local_index r) | None => Err OUTPUT_DNE end.
Proof.
  intros Hrel. split; [by apply outs_rel_count|]. destruct Hrel as [H1 H2]. specialize (H2 amount i). unfold get_output_key, get_output_tx_and_index.
  destruct (zlookup (select amount l) i) as [[g r]|] eqn:E; [|by rewrite H2]. destruct H2 as (ok & -> & Hg & Hd). cbn. rewrite Hd, Hg, H1, (proj1 (select_lookup _ _ _ _ _ E)). done.
Qed.

Lemma replay_outputs seed c : forall s, Forall (block_entry_ok mul_inv_eight) c -> replay seed c = Ok s -> outs_rel (d_outs s) (chain_stored c) /\ height s = length c.
Proof.
  induction c as [|be c IH]; intros s HF E; cbn in E.
  { simplify_eq. split; [|done]. split; cbn; [intros g; rewrite lookup_empty; unfold zlookup; by destruct (0 <=? g)|].
    intros amount i. unfold dups. rewrite !lookup_empty. unfold zlookup, select. by destruct (0 <=? i). }
  fold (replay seed c) in E. apply Forall_cons in HF as [Hbe HF]. step E s0 E0. destruct (IH s0 HF eq_refl) as [Hrel Hh].
  destruct (add_block_rel _ _ _ _ Hbe Hrel E) as [Hr Hh']. rewrite Hh in Hr, Hh'. split; [done|]. rewrite Hh'. cbn. lia.
Qed.

(** *** Blocks *)

Definition block_hash_is (be : block_entry) (h : list Z) : Prop := calculate_block_hash (be_block be) None = Some h.

(** The entry of the [i]-th block, of a chain given oldest first. *)
Definition block_at (b : block_tables) (l : list block_entry) (i : nat) (be : block_entry) : Prop :=
  exists h bi blob, block_hash_is be h /\ m_block_info b !! (i : Z) = Some bi /\ bi_hash bi = h /\ m_block_heights b !! h = Some (i : Z) /\
    block_to_blob (be_block be) = Some blob /\ m_blocks b !! (i : Z) = Some blob /\
    (0 <= be_cumulative_difficulty be < 2 ^ 128 -> Z.lor (Z.shiftl (bi_diff_hi bi) 64) (bi_diff_lo bi) = be_cumulative_difficulty be) /\
    bi_coins bi = be_coins be /\ bi_timestamp bi = timestamp (be_block be) /\
    (i <> O -> exists prev, l !! (i - 1)%nat = Some prev /\ block_hash_is prev (prev_id (be_block be))).

Definition blocks_rel (b : block_tables) (l : list block_entry) : Prop :=
  ms_entries (m_blocks b) = length l /\ (forall i be, l !! i = Some be -> block_at b l i be) /\
  (forall h i, m_block_heights b !! h = Some i -> exists be, zlookup l i = Some be /\ block_hash_is be h).

Lemma split_128 d : 0 <= d < 2 ^ 128 -> Z.lor (Z.shiftl (Z.land (Z.shiftr d 64) 0xffffffffffffffff) 64) (Z.land d 0xffffffffffffffff) = d.
Proof.
  intros Hd. change 0xffffffffffffffff with (Z.ones 64). rewrite !Z.land_ones, Z.shiftr_div_pow2 by lia.
  rewrite (Z.mod_small (d / 2 ^ 64)) by (split; [apply Z.div_pos; lia|apply Z.div_lt_upper_bound; lia]).
  rewrite Z.shiftl_mul_pow2, lor_disjoint by (lia || (apply Z.mod_pos_bound; lia)). rewrite Z.mul_comm. symmetry. apply Z.div_mod. lia.
Qed.

Lemma add_block_tables_rel b l be w ltw n h b' :
  blocks_rel b l -> block_hash_is be h -> add_block_tables b (be_block be) w ltw (be_cumulative_difficulty be) (be_coins be) n h = Ok b' -> blocks_rel b' (l ++ [be]).
Proof.
  intros (Hsz & Hat & Hinv) Hh E. pose proof (add_block_tables_undo _ _ _ _ _ _ _ _ _ E) as (Hsz' & _). unfold add_block_tables in E.
  step E u1 E1. step E u2 E2. step E blob E3. step E blocks E4. step E cum E5. step E info E6. simplify_eq. apply bool_decide_eq_true in E1. rewrite Hsz in *.
  apply append_Some in E4 as [-> _]. apply append_Some in E6 as [-> _]. cbn [m_blocks] in Hsz'. split; [cbn [m_blocks]; rewrite Hsz', length_app; cbn; lia|].
  split; cbn [m_blocks m_block_info m_block_heights].
  - intros i x Hi. apply lookup_app_Some in Hi as [Hi|[Hle Hi]].
    + pose proof (lookup_lt_Some _ _ _ Hi) as Hlt. destruct (Hat i x Hi) as (hx & bi & bl & A1 & A2 & A3 & A4 & A5 & A6 & A7 & A8 & A9 & A10). exists hx, bi, bl. cbn [m_blocks m_block_info m_block_heights].
      rewrite !lookup_insert_ne by (lia || congruence). split_and!; try done. intros Hn. destruct (A10 Hn) as (prev & P1 & P2). exists prev. split; [|done]. by rewrite lookup_app_l by lia.
    + apply list_lookup_singleton_Some in Hi as [Hz <-]. assert (i = length l) as -> by lia. exists h. eexists. exists blob. cbn [m_blocks m_block_info m_block_heights]. rewrite !lookup_insert_eq.
      split_and!; try done; [cbn; apply split_128|]. intros Hn. rewrite lookup_app_l by lia. rewrite (proj2 (Z.ltb_lt 0 (length l))) in E2 by lia.
      step E2 prev Ep. apply require_Ok in E2. bcase_hyps. destruct (Hinv _ _ Ep) as (pb & Hpb & Hph). exists pb. split; [|done]. subst prev.
      unfold zlookup in Hpb. rewrite (proj2 (Z.leb_le 0 (length l - 1))) in Hpb by lia. by replace (Z.to_nat (length l - 1)) with (length l - 1)%nat in Hpb by lia.
  - intros h' i. destruct (decide (h = h')) as [<-|Hne]; [rewrite lookup_insert_eq; intros [= <-]; exists be; rewrite zlookup_snoc; by rewrite decide_True|].
    rewrite lookup_insert_ne by done. intros Hi. destruct (Hinv _ _ Hi) as (x & Hx & Hxh). exists x. split; [|done]. rewrite zlookup_snoc. rewrite decide_False; [done|].
    pose proof (proj1 (zlookup_Some l i) ltac:(by eexists)). lia.
Qed.

Lemma replay_blocks seed c : forall s, Forall (block_entry_ok mul_inv_eight) c -> replay seed c = Ok s -> blocks_rel (d_blocks s) (reverse c).
Proof.
  induction c as [|be c IH]; intros s HF E; cbn in E; [simplify_eq; split_and!; [done|by intros [] ?|intros h i; cbn; by rewrite lookup_empty]|].
  fold (replay seed c) in E. apply Forall_cons in HF as [Hbe HF]. step E s0 E0. specialize (IH s0 HF eq_refl). rewrite reverse_cons.
  unfold add_block in E. step E u1 E1. step E bh E2. step E bd E3. step E s1 E4. step E s2 E5. step E b E6. simplify_eq. cbn [d_blocks].
  destruct (add_transaction_inv _ _ _ _ _ _ (miner_entry_ok _ _ _ Hbe E3) E4) as (_ & _ & _ & _ & _ & Hb1 & _). rewrite (add_transactions_blocks _ _ _ _ (proj2 (proj2 (proj2 Hbe))) E5), Hb1 in E6.
  by eapply add_block_tables_rel.
Qed.

(** *** Transactions *)

(** A transaction of the chain: the height of its block, its hash and its entry. *)
Definition chain_tx : Type := Z * list Z * tx_entry.

Definition block_entries (m_height : Z) (be : block_entry) : list chain_tx :=
  (m_height, miner_hash be, miner_entry be (default [] (tx_to_blob (miner_tx (be_block be))))) :: zip_with (fun h te => (m_height, h, te)) (tx_hashes (be_block be)) (be_txs be).
Fixpoint chain_entries (c : list block_entry) : list chain_tx := match c with [] => [] | be :: c => chain_entries c ++ block_entries (length c) be end.

Definition tx_at (t : tx_tables) (j : nat) (e : chain_tx) : Prop :=
  let '(m_height, h, te) := e in
  m_tx_indices t !! h = Some (mk_tx_data j (tx_unlock_time (te_tx te)) m_height) /\ get_tx_blob t h = Some (te_blob te).
Definition txs_rel (t : tx_tables) (l : list chain_tx) : Prop := ms_entries (m_txs_pruned t) = length l /\ forall j e, l !! j = Some e -> tx_at t j e.

Lemma tx_added_rel t t' te h indices seed m_height ph l : txs_rel t l -> tx_added t t' te h indices seed m_height ph -> txs_rel t' (l ++ [(m_height, h, te)]).
Proof.
  intros [Hsz Hat] Ha. destruct (tx_added_lookup _ _ _ _ _ _ _ _ Ha) as [Hblob _]. destruct Ha as [Hn Hi Hp Hq _ _ _]. split; [rewrite (append_size _ _ _ _ Hp), Hsz, length_app; cbn; lia|].
  intros j e He. apply lookup_app_Some in He as [He|[Hle He]].
  - pose proof (lookup_lt_Some _ _ _ He) as Hlt. specialize (Hat j e He). destruct e as [[mh h'] te']. destruct Hat as [H1 H2]. assert (h <> h') by congruence.
    unfold tx_at, get_tx_blob in *. rewrite Hi, lookup_insert_ne by done. split; [done|]. rewrite H1 in *. cbn [mbind option_bind tx_id] in *.
    apply append_Some in Hp as [-> _]. apply append_Some in Hq as [-> _]. rewrite !lookup_insert_ne by lia. done.
  - apply list_lookup_singleton_Some in He as [Hz <-]. assert (j = length l) as -> by lia. split; [|done]. by rewrite Hi, lookup_insert_eq, Hsz.
Qed.

Lemma add_transaction_txs s te hp s' l h : tx_entry_ok mul_inv_eight te -> txs_rel (d_txs s) l -> add_transaction zeroCommitVartime s te hp = Ok s' ->
  match hp with Some h' => h = h' | None => h = default [] (calculate_transaction_hash (te_tx te) (te_unprunable_size te)) end ->
  txs_rel (d_txs s') (l ++ [(height s, h, te)]).
Proof.
  intros Hte Hrel E Hh. destruct (add_transaction_inv _ _ _ _ _ _ Hte E) as (h' & ph & miner & ix & Hh' & _ & _ & _ & -> & Ha & _).
  assert (h = h') as -> by (destruct hp; [congruence|by rewrite Hh' in Hh]). by eapply tx_added_rel.
Qed.

Lemma add_transactions_txs tes : forall s hashes s' l, Forall (tx_entry_ok mul_inv_eight) tes -> length hashes = length tes -> txs_rel (d_txs s) l ->
  add_transactions zeroCommitVartime s tes hashes = Ok s' -> txs_rel (d_txs s') (l ++ zip_with (fun h te => (height s, h, te)) hashes tes).
Proof.
  induction tes as [|te tes IH]; intros s [|h hashes] s' l HF Hl Hrel E; cbn [add_transactions] in E; try done; [simplify_eq; by rewrite app_nil_r|].
  apply Forall_cons in HF as [Hte HF]. step E s1 E1. pose proof (add_transaction_txs _ _ _ _ _ h Hte Hrel E1 eq_refl) as Hr1.
  destruct (add_transaction_inv _ _ _ _ _ _ Hte E1) as (_ & _ & _ & _ & _ & Hb & _).
  pose proof (IH s1 hashes s' _ HF ltac:(by injection Hl) Hr1 E) as Hr2. unfold height in Hr2 |- *. rewrite Hb in Hr2. cbn. by rewrite <- app_assoc in Hr2.
Qed.

Lemma replay_txs seed c : forall s, Forall (block_entry_ok mul_inv_eight) c -> replay seed c = Ok s -> txs_rel (d_txs s) (chain_entries c).
Proof.
  induction c as [|be c IH]; intros s HF E; pose proof E as Er; cbn in E; [simplify_eq; by split|]. fold (replay seed c) in E. apply Forall_cons in HF as [Hbe HF].
  step E s0 E0. specialize (IH s0 HF eq_refl). destruct (replay_outputs _ _ _ HF E0) as [_ Hh].
  unfold add_block in E. step E u1 E1. step E bh E2. step E bd E3. step E s1 E4. step E s2 E5. step E b E6. simplify_eq. apply Nat.eqb_eq in E1. cbn [d_txs chain_entries].
  pose proof (miner_entry_ok _ _ _ Hbe E3) as Hm. pose proof (add_transaction_txs _ _ _ _ _ (miner_hash be) Hm IH E4 eq_refl) as Hr1. destruct (add_transaction_inv _ _ _ _ _ _ Hm E4) as (_ & _ & _ & _ & _ & Hb1 & _).
  pose proof (add_transactions_txs _ _ _ _ _ (proj2 (proj2 (proj2 Hbe))) E1 Hr1 E5) as Hr2. unfold height in Hr2, Hh. rewrite Hb1, Hh, <- app_assoc in Hr2. unfold block_entries. by rewrite E3.
Qed.

End contents.

(** ** Properties *)

(** C10: Popping undoes adding: after a loaded block and its transactions have been
    added, [pop_block] returns the block and its transactions, last first, and leaves
    every table, key images and output indices included, as it was. *)
Theorem pop_undoes_add zeroCommitVartime mul_inv_eight s be s' :
  db_ok s -> block_entry_ok mul_inv_eight be -> add_block zeroCommitVartime s be = Ok s' ->
  pop_block mul_inv_eight s' = Ok (s, be_block be, reverse (map te_tx (be_txs be))).
Proof. intros Hok Hbe E. by destruct (add_pop _ _ _ _ _ Hok Hbe E). Qed.

(** C3: The database is a function of the chain: whatever blocks were added and popped,
    reorganisations included, the tables are those obtained by adding the blocks of
    the current chain to an empty database, and [height] is its length. *)
Theorem database_replay zeroCommitVartime mul_inv_eight seed s c :
  reach zeroCommitVartime mul_inv_eight seed s c -> replay zeroCommitVartime seed c = Ok s /\ height s = length c.
Proof. intros [HF Hr]%reach_replay. split; [done|]. by destruct (replay_outputs _ mul_inv_eight _ _ _ HF Hr). Qed.

(** C12: No key image is spent twice in the chain, and the key images known are those of
    its transactions. *)
Theorem chain_no_double_spend zeroCommitVartime mul_inv_eight seed s c :
  reach zeroCommitVartime mul_inv_eight seed s c -> NoDup (chain_images c) /\ forall k, has_key_image s k = true <-> k ∈ chain_images c.
Proof.
  intros [HF Hr]%reach_replay. destruct (replay_images _ mul_inv_eight _ _ _ HF Hr) as [Hn Hs]. split; [done|]. intros k. unfold has_key_image.
  by rewrite bool_decide_eq_true, Hs, elem_of_list_to_set.
Qed.

(** Outputs are indexed by amount in the order of the chain, without gaps: the
    [i]-th output of an amount, with its key, commitment, unlock time and height, is
    the [i]-th one created in the chain, those of version 2 miner transactions
    counting as RingCT outputs, and its transaction and local index are found from
    it; past [get_num_outputs] there is none. *)
Theorem chain_outputs_indexed zeroCommitVartime mul_inv_eight seed s c amount i :
  reach zeroCommitVartime mul_inv_eight seed s c ->
  let created := select amount (chain_stored zeroCommitVartime c) in
  get_num_outputs s amount = length created /\
  get_output_key zeroCommitVartime s amount i = (fun p => so_data p.2) <$> zlookup created i /\
  get_output_tx_and_index s amount i = match zlookup created i with Some (_, r) => Ok (so_tx_hash r, so_local_index r) | None => Err OUTPUT_DNE end.
Proof. intros [HF Hr]%reach_replay. by apply outs_rel_get, (replay_outputs _ mul_inv_eight seed). Qed.

(** Blocks are found by height and by hash: for the [i]-th block of the chain, the
    block, its hash, its timestamp, the coins generated so far and its cumulative
    difficulty up to 128 bits are the ones added, the hash leads back to [i], and
    every block but the first refers to the one before it. *)
Theorem chain_blocks_indexed zeroCommitVartime mul_inv_eight seed s c (i : nat) be :
  reach zeroCommitVartime mul_inv_eight seed s c -> reverse c !! i = Some be ->
  exists h, calculate_block_hash (be_block be) None = Some h /\ get_block_hash_from_height s i = Ok h /\ get_block_height s h = Ok (i : Z) /\
    get_block_from_height s i = Ok (be_block be) /\ get_block_timestamp s i = Ok (timestamp (be_block be)) /\ get_block_already_generated_coins s i = Ok (be_coins be) /\
    (0 <= be_cumulative_difficulty be < 2 ^ 128 -> get_block_cumulative_difficulty s i = Ok (be_cumulative_difficulty be)) /\
    (i <> O -> get_block_hash_from_height s (i - 1) = Ok (prev_id (be_block be))).
Proof.
  intros [HF Hr]%reach_replay Hi. destruct (replay_blocks _ mul_inv_eight seed _ _ HF Hr) as (_ & Hat & _). pose proof (Hat i be Hi) as (h & bi & blob & Hh & Hbi & Eh & Hhh & Ebl & Hbl & Hd & Hc & Ht & Hp).
  exists h. unfold get_block_hash_from_height, get_block_height, get_block_from_height, get_block_timestamp, get_block_already_generated_coins, get_block_cumulative_difficulty.
  rewrite Hbi, Hhh, Hbl. cbn [try mbind result_bind]. rewrite Eh, Ht, Hc. split_and!; try done.
  - assert (Hbok : block_ok (be_block be)). { rewrite Forall_forall in HF. destruct (HF be) as (? & _); [|done]. apply elem_of_reverse. by apply list_elem_of_lookup_2 in Hi. }
    destruct (parse_dump block_ok _ _ c_block _ Hbok) as (blob' & Ed & _ & Ep). unfold block_to_blob in Ebl. rewrite Ebl in Ed. simplify_eq. unfold parse_and_validate_block_from_blob. by rewrite Ep.
  - intros Hr'. by rewrite Hd.
  - intros Hn. destruct (Hp Hn) as (prev & Hprev & Hph). destruct (Hat _ _ Hprev) as (h' & bi' & ? & Hh' & Hbi' & Eh' & _). replace (i - 1) with (Z.of_nat (i - 1)) by lia.
    rewrite Hbi'. cbn. rewrite Eh'. unfold block_hash_is in *. congruence.
Qed.

(** Transactions are found by hash: every transaction of the chain, miner
    transactions included, is found whole, at the height of its block. *)
Theorem chain_txs_indexed zeroCommitVartime mul_inv_eight seed s c m_height h te :
  reach zeroCommitVartime mul_inv_eight seed s c -> (m_height, h, te) ∈ chain_entries c ->
  tx_exists s h = true /\ get_tx_block_height s h = Ok m_height /\ get_tx_unlock_time s h = Ok (tx_unlock_time (te_tx te)) /\ get_tx_blob (d_txs s) h = Some (te_blob te).
Proof.
  intros [HF Hr]%reach_replay [j Hj]%list_elem_of_lookup_1. destruct (replay_txs _ mul_inv_eight seed _ _ HF Hr) as [_ Hat]. destruct (Hat _ _ Hj) as [H1 H2].
  unfold tx_exists, get_tx_block_height, get_tx_unlock_time. rewrite H1. by split_and!.
Qed.

(** ** Examples *)

(** A first block with one transaction. *)
Definition sample_k_tx : transaction := default sample_v2 (expand_transaction_1 (fun k => k) sample_v2 false).
Definition sample_genesis : block := mk_block (mk_header 1 0 0 null_hash 10000) sample_tx [sample_k 40].
Definition sample_genesis_blob : list Z := default [] (block_to_blob sample_genesis).
Definition sample_be : block_entry :=
  mk_block_entry sample_genesis (loaded_base_size (default [] (tx_to_blob sample_tx))) [mk_tx_entry sample_k_tx (loaded_base_size sample_v2_blob) sample_v2_blob] 2000 2000 (2 ^ 70 + 1) 17592186044415.

Lemma sample_be_ok : block_entry_ok (fun k => k) sample_be.
Proof.
  split; [|split; [done|split; [done|]]].
  - assert (Hb : bytes sample_genesis_blob) by (by apply (bool_decide_unpack (Forall is_u8 sample_genesis_blob)); vm_compute).
    assert (Hp : parse_binary c_block sample_genesis_blob = Some sample_genesis) by (by vm_compute). exact (proj1 (parse_binary_inv block_ok _ _ c_block _ _ Hb Hp)).
  - apply Forall_singleton. split; [exact sample_v2_bytes|]. split; [done|]. split; [by vm_compute|]. split; [by vm_compute|]. exists sample_v2. split; [exact sample_v2_parses|by vm_compute].
Qed.

Definition is_ok {A} (r : result A) : bool := match r with Ok _ => true | Err _ => false end.
Definition or_empty (r : result db) : db := match r with Ok s => s | Err _ => empty_db 0 end.
Definition sample_db : db := or_empty (add_block (fun _ => zero_key) (empty_db 0) sample_be).

Lemma sample_adds : is_ok (add_block (fun _ => zero_key) (empty_db 0) sample_be) = true.
Proof. vm_cast_no_check (@eq_refl bool true). Qed.

Lemma sample_added : add_block (fun _ => zero_key) (empty_db 0) sample_be = Ok sample_db.
Proof. pose proof sample_adds as H. unfold sample_db, or_empty. by destruct (add_block _ _ _). Qed.

Lemma sample_reach : reach (fun _ => zero_key) (fun k => k) 0 sample_db [sample_be].
Proof. exact (reach_add _ _ _ _ _ _ _ (reach_empty _ _ 0) sample_be_ok sample_added). Qed.

Lemma pop_undoes_add_witness :
  (db_ok (empty_db 0) /\ block_entry_ok (fun k => k) sample_be) /\ pop_block (fun k => k) sample_db = Ok (empty_db 0, sample_genesis, [sample_k_tx]).
Proof.
  split; [exact (conj (empty_ok 0) sample_be_ok)|].
  exact (pop_undoes_add (fun _ => zero_key) (fun k => k) (empty_db 0) sample_be sample_db (empty_ok 0) sample_be_ok sample_added).
Defined.

Lemma database_replay_witness : replay (fun _ => zero_key) 0 [sample_be] = Ok sample_db /\ height sample_db = 1.
Proof. exact (database_replay (fun _ => zero_key) (fun k => k) 0 sample_db [sample_be] sample_reach). Defined.

Lemma chain_no_double_spend_witness : NoDup (chain_images [sample_be]) /\ forall k, has_key_image sample_db k = true <-> k ∈ chain_images [sample_be].
Proof. exact (chain_no_double_spend (fun _ => zero_key) (fun k => k) 0 sample_db [sample_be] sample_reach). Defined.

Lemma chain_outputs_indexed_witness : get_num_outputs sample_db 0 = length (select 0 (chain_stored (fun _ => zero_key) [sample_be])).
Proof. exact (proj1 (chain_outputs_indexed (fun _ => zero_key) (fun k => k) 0 sample_db [sample_be] 0 0 sample_reach)). Defined.

Lemma chain_blocks_indexed_witness : exists h, calculate_block_hash sample_genesis None = Some h /\ get_block_hash_from_height sample_db 0 = Ok h.
Proof.
  destruct (chain_blocks_indexed (fun _ => zero_key) (fun k => k) 0 sample_db [sample_be] 0 sample_be sample_reach eq_refl) as (h & H1 & H2 & _). exists h. exact (conj H1 H2).
Defined.

Lemma chain_txs_indexed_witness : tx_exists sample_db (sample_k 40) = true /\ get_tx_blob (d_txs sample_db) (sample_k 40) = Some sample_v2_blob.
Proof.
  destruct (chain_txs_indexed (fun _ => zero_key) (fun k => k) 0 sample_db [sample_be] 0 (sample_k 40) (mk_tx_entry sample_k_tx (loaded_base_size sample_v2_blob) sample_v2_blob) sample_reach) as (H1 & _ & _ & H2).
  - by right; left.
  - exact (conj H1 H2).
Defined.
