(* ===== verification/ChainDifficulty.v ===== *)
(** * ChainDifficulty: the difficulty of the next block and its caches

    The part of [Blockchain] (src/cryptonote_core/blockchain.cpp) that asks the
    database for the timestamps and cumulative difficulties of the last blocks:
    [get_difficulty_for_next_block] with its two caches (the difficulty of the last
    top block seen, and the window of the last 735 blocks, moved by one block when
    the chain grew by one), [get_next_difficulty_for_alternative_chain],
    [check_difficulty_checkpoints] and [recalculate_difficulties], with
    [correct_block_cumulative_difficulties] of src/blockchain_db/lmdb/db_lmdb.cpp.

    The theorems: whatever blocks are added, popped and queried, the caches answer
    what the last 735 blocks determine; an alternative chain is measured by the
    difficulty its blocks would have had on the main chain; and the recalculation
    leaves the cumulative difficulties the rule determines and nothing else. *)
From stdpp Require Import base list gmap relations.
From Stdlib Require Import ZArith Lia.
From S2P Require Import Prelude HardFork Archive Config Keccak TxFormat RctFormat Transaction TxHash Difficulty ChainDb.
#[local] Open Scope Z_scope.
#[local] Open Scope mach_scope.
#[local] Arguments put : simpl never.
#[local] Arguments get : simpl never.

(** ** Definitions *)

Definition top_block_hash (s : db) : result (list Z * Z) :=
  let m_height := height s in
  if negb (m_height =? 0) then h ← get_block_hash_from_height s (m_height ⊟ 1); Ok (h, m_height ⊟ 1)
  else Ok (null_hash, m_height ⊟ 1).

(** The members of [Blockchain] the difficulty uses; [m_fixed_difficulty] is 0
    unless the node was started with a fixed difficulty. *)
Record diff_state := mk_diff {
  m_fixed_difficulty : Z;
  m_timestamps_and_difficulties_height : Z;
  m_reset_timestamps_and_difficulties_height : bool;
  m_timestamps : list Z;
  m_difficulties : list Z;
  m_difficulty_for_next_block_top_hash : list Z;
  m_difficulty_for_next_block : Z;
}.

Definition new_diff_state (fixed_difficulty : Z) : diff_state := mk_diff fixed_difficulty 0 true [] [] null_hash 1.

(** The two assignments at the start of every operation that may rewrite the chain. *)
Definition forget_window (d : diff_state) : diff_state :=
  mk_diff (m_fixed_difficulty d) 0 true (m_timestamps d) (m_difficulties d) (m_difficulty_for_next_block_top_hash d) (m_difficulty_for_next_block d).

(** The end of a batch of incoming blocks. *)
Definition cleanup_difficulty (d : diff_state) : diff_state :=
  if m_reset_timestamps_and_difficulties_height d
  then mk_diff (m_fixed_difficulty d) 0 false (m_timestamps d) (m_difficulties d) (m_difficulty_for_next_block_top_hash d) (m_difficulty_for_next_block d)
  else d.

Definition get_difficulty_target (current_version : Z) : Z := if current_version <? 2 then DIFFICULTY_TARGET_V1 else DIFFICULTY_TARGET_V2.

(** [while (v.size() > DIFFICULTY_BLOCKS_COUNT) v.erase(v.begin())] *)
Fixpoint erase_front (v : list Z) : list Z :=
  match v with
  | [] => []
  | _ :: v' => if DIFFICULTY_BLOCKS_COUNT <? length v then erase_front v' else v
  end.

(** The timestamps and cumulative difficulties of [n] blocks from [offset]. *)
Fixpoint read_blocks (s : db) (offset : Z) (n : nat) : result (list Z * list Z) :=
  match n with
  | O => Ok ([], [])
  | S n' =>
    t ← get_block_timestamp s offset;
    d ← get_block_cumulative_difficulty s offset;
    '(ts, ds) ← read_blocks s (offset + 1) n';
    Ok (t :: ts, d :: ds)
  end.

(** [current_version] is [get_current_hard_fork_version()]. *)
Definition get_difficulty_for_next_block (s : db) (current_version : Z) (d : diff_state) : result (Z * diff_state) :=
  if negb (m_fixed_difficulty d =? 0) then Ok ((if negb (height s =? 0) then m_fixed_difficulty d else 1), d)
  else
    '(top_hash, top_height) ← top_block_hash s;
    if bool_decide (top_hash = m_difficulty_for_next_block_top_hash d) then Ok (m_difficulty_for_next_block d, d)
    else
      let height := top_height ⊞ 1 in
      let cached := if m_reset_timestamps_and_difficulties_height d then 0 else m_timestamps_and_difficulties_height d in
      '(timestamps, difficulties) ←
        (if negb (cached =? 0) && (height ⊟ cached =? 1) && (DIFFICULTY_BLOCKS_COUNT <=? length (m_timestamps d))
         then
           t ← get_block_timestamp s (height ⊟ 1);
           df ← get_block_cumulative_difficulty s (height ⊟ 1);
           Ok (erase_front (m_timestamps d ++ [t]), erase_front (m_difficulties d ++ [df]))
         else
           let offset := height ⊟ Z.min height DIFFICULTY_BLOCKS_COUNT in
           let offset := if offset =? 0 then offset ⊞ 1 else offset in
           read_blocks s offset (Z.to_nat (height - offset)));
      diff ← try RUNTIME_ERROR (next_difficulty timestamps difficulties (get_difficulty_target current_version));
      Ok (diff, mk_diff (m_fixed_difficulty d) height (m_reset_timestamps_and_difficulties_height d) timestamps difficulties top_hash diff).

(** A block of an alternative chain. *)
Record block_extended_info := mk_bei {
  bl : block;
  bei_height : Z;
  block_cumulative_weight : Z;
  cumulative_difficulty : Z;
  already_generated_coins : Z;
}.

(** The loop that fills the two vectors from their ends. *)
Fixpoint fill_back (alts : list block_extended_info) (count : Z) (ts ds : list Z) : list Z * list Z :=
  match alts with
  | [] => (ts, ds)
  | bei :: alts' =>
    let pos := Z.to_nat (DIFFICULTY_BLOCKS_COUNT - 1 - count) in
    let ts := <[pos := timestamp (bl bei)]> ts in
    let ds := <[pos := cumulative_difficulty bei]> ds in
    if DIFFICULTY_BLOCKS_COUNT <=? count + 1 then (ts, ds) else fill_back alts' (count + 1) ts ds
  end.

(** A failed internal check returns [false], the difficulty 0. *)
Definition get_next_difficulty_for_alternative_chain (m_fixed_difficulty : Z) (hf : HardFork) (s : db) (alt_chain : list block_extended_info) (bei : block_extended_info) : result Z :=
  if negb (m_fixed_difficulty =? 0) then Ok (if negb (height s =? 0) then m_fixed_difficulty else 1)
  else
    w ← (if length alt_chain <? DIFFICULTY_BLOCKS_COUNT
         then
           let stop := match alt_chain with front :: _ => bei_height front | [] => bei_height bei end in
           let count := DIFFICULTY_BLOCKS_COUNT ⊟ Z.min DIFFICULTY_BLOCKS_COUNT (length alt_chain) in
           let count := Z.min count stop in
           let start := stop ⊟ count in
           let start := if start =? 0 then start ⊞ 1 else start in
           '(ts, ds) ← read_blocks s start (Z.to_nat (stop - start));
           Ok (if length alt_chain + length ts <=? DIFFICULTY_BLOCKS_COUNT
               then Some (ts ++ map (fun b => timestamp (bl b)) alt_chain, ds ++ map cumulative_difficulty alt_chain) else None)
         else Ok (Some (fill_back (reverse alt_chain) 0 (replicate (Z.to_nat DIFFICULTY_BLOCKS_COUNT) 0) (replicate (Z.to_nat DIFFICULTY_BLOCKS_COUNT) 0))));
    match w with
    | None => Ok 0
    | Some (ts, ds) => try RUNTIME_ERROR (next_difficulty ts ds (if get_ideal_version hf (bei_height bei) <? 2 then DIFFICULTY_TARGET_V1 else DIFFICULTY_TARGET_V2))
    end.

(** [points] is [m_checkpoints.get_difficulty_points()], a map in the order of its heights. *)
Fixpoint check_difficulty_points (s : db) (points : list (Z * Z)) (res : Z) : result (bool * Z) :=
  match points with
  | [] => Ok (true, res)
  | (h, d) :: points' =>
    if height s <=? h then Ok (true, res)
    else
      d' ← get_block_cumulative_difficulty s h;
      if negb (d' =? d) then Ok (false, res) else check_difficulty_points s points' h
  end.
Definition check_difficulty_checkpoints (s : db) (points : list (Z * Z)) : result (bool * Z) := check_difficulty_points s points 0.

(** The last blocks before [start_height], read backwards. *)
Fixpoint read_back (s : db) (height : Z) (n : nat) (ts ds : list Z) : result (list Z * list Z) :=
  match n with
  | O => Ok (ts, ds)
  | S n' =>
    if height =? 0 then Ok (ts, ds)
    else
      t ← get_block_timestamp s height;
      d ← get_block_cumulative_difficulty s height;
      read_back s (height ⊟ 1) n' (t :: ts) (d :: ds)
  end.

(** The loop over the heights; the result is the first height whose difficulty
    drifted (0 when there is none) and the difficulties from it on. *)
Fixpoint recalculate_loop (s : db) (hf : HardFork) (height : Z) (n : nat) (ts ds : list Z) (last_cum_diff drift_start_height : Z) (new_cumulative_difficulties : list Z)
    : result (Z * list Z) :=
  match n with
  | O => Ok (drift_start_height, new_cumulative_difficulties)
  | S n' =>
    let target := if get_ideal_version hf height <? 2 then DIFFICULTY_TARGET_V1 else DIFFICULTY_TARGET_V2 in
    recalculated_diff ← try RUNTIME_ERROR (next_difficulty ts ds target);
    let cum := recalculated_diff + last_cum_diff in
    _ ← require (cum <=? 2 ^ 128 - 1) RUNTIME_ERROR;
    drift ← (if drift_start_height =? 0
             then existing ← get_block_cumulative_difficulty s height; Ok (if negb (cum =? existing) then height else drift_start_height)
             else Ok drift_start_height);
    let new := if 0 <? drift then new_cumulative_difficulties ++ [cum] else new_cumulative_difficulties in
    '(ts, ds) ← (if 0 <? height then t ← get_block_timestamp s height; Ok (ts ++ [t], ds ++ [cum]) else Ok (ts, ds));
    '(ts, ds) ← (if DIFFICULTY_BLOCKS_COUNT <? length ts
                 then _ ← require (length ts =? DIFFICULTY_BLOCKS_COUNT + 1) RUNTIME_ERROR; Ok (tail ts, tail ds)
                 else Ok (ts, ds));
    recalculate_loop s hf (height + 1) n' ts ds cum drift new
  end.

Definition set_diff (bi : mdb_block_info) (d : Z) : mdb_block_info :=
  mk_block_info (bi_timestamp bi) (bi_coins bi) (bi_weight bi) (Z.land d UINT64_MAX) (Z.land (Z.shiftr d 64) UINT64_MAX) (bi_hash bi) (bi_cum_rct bi) (bi_long_term_block_weight bi).

Fixpoint correct_loop (infos : gmap Z mdb_block_info) (height : Z) (new : list Z) : result (gmap Z mdb_block_info) :=
  match new with
  | [] => Ok infos
  | d :: new' => bi ← try BLOCK_DNE (infos !! height); correct_loop (<[height := set_diff bi d]> infos) (height + 1) new'
  end.

Definition correct_block_cumulative_difficulties (s : db) (start_height : Z) (new_cumulative_difficulties : list Z) : result db :=
  _ ← require (start_height + length new_cumulative_difficulties =? height s) DB_ERROR;
  infos ← correct_loop (m_block_info (d_blocks s)) start_height new_cumulative_difficulties;
  Ok (with_blocks s (mk_block_tables (m_blocks (d_blocks s)) infos (m_block_heights (d_blocks s)))).

(** A correction that throws is logged and the write transaction dropped. *)
Definition recalculate_difficulties (s : db) (hf : HardFork) (points : list (Z * Z)) (start_height_opt : option Z) (d : diff_state) : result (Z * db * diff_state) :=
  if negb (m_fixed_difficulty d =? 0) then Ok (0, s, d)
  else
    start_height ← (match start_height_opt with Some h => Ok h | None => '(_, h) ← check_difficulty_checkpoints s points; Ok h end);
    let top_height := height s ⊟ 1 in
    '(ts, ds) ← (if 1 <? start_height then read_back s (start_height - 1) (Z.to_nat DIFFICULTY_BLOCKS_COUNT) [] [] else Ok ([], []));
    last_cum_diff ← (if start_height <=? 1 then Ok start_height else try RUNTIME_ERROR (last ds));
    '(drift_start_height, new) ← recalculate_loop s hf start_height (Z.to_nat (top_height + 1 - start_height)) ts ds last_cum_diff 0 [];
    if 0 <? drift_start_height
    then
      let s' := match correct_block_cumulative_difficulties s drift_start_height new with Ok s' => s' | Err _ => s end in
      Ok (Z.of_nat (length new), s',
          mk_diff (m_fixed_difficulty d) 0 (m_reset_timestamps_and_difficulties_height d) (m_timestamps d) (m_difficulties d) null_hash (m_difficulty_for_next_block d))
    else Ok (Z.of_nat (length new), s, d).

(** ** What the difficulty is computed from *)

(** The timestamp and cumulative difficulty of every block of a database, oldest first. *)
Definition rows_of (s : db) (rows : list (Z * Z)) : Prop :=
  height s = length rows /\
  forall i t d, rows !! i = Some (t, d) -> get_block_timestamp s (Z.of_nat i) = Ok t /\ get_block_cumulative_difficulty s (Z.of_nat i) = Ok d.

(** The window: the last 735 blocks, never the genesis block. *)
Definition diff_window (rows : list (Z * Z)) : list (Z * Z) := lastn (Z.to_nat DIFFICULTY_BLOCKS_COUNT) (tail rows).

Definition rule_difficulty (target : Z) (rows : list (Z * Z)) : option Z := next_difficulty (diff_window rows).*1 (diff_window rows).*2 target.

Definition chain_rows (c : list block_entry) : list (Z * Z) := map (fun be => (timestamp (be_block be), be_cumulative_difficulty be)) (reverse c).

Lemma tail_drop {A} (l : list A) : tail l = drop 1 l.
Proof. by destruct l. Qed.

Lemma read_blocks_rows s rows n : rows_of s rows -> forall off : nat, (off + n <= length rows)%nat ->
  read_blocks s off n = Ok ((take n (drop off rows)).*1, (take n (drop off rows)).*2).
Proof.
  intros [Hh Hr]. induction n as [|n IH]; intros off Hle; [done|].
  destruct (lookup_lt_is_Some_2 rows off ltac:(lia)) as [[t d] E]. destruct (Hr off t d E) as [Et Ed].
  rewrite (drop_S _ _ _ E). cbn [read_blocks take fmap list_fmap]. rewrite Et, Ed. cbn [mbind result_bind].
  replace (off + 1) with (Z.of_nat (S off)) by lia. rewrite IH by lia. done.
Qed.

Lemma erase_front_lastn v : erase_front v = lastn (Z.to_nat DIFFICULTY_BLOCKS_COUNT) v.
Proof.
  induction v as [|x v IH]; [done|]. cbn [erase_front]. destruct (Z.ltb_spec DIFFICULTY_BLOCKS_COUNT (length (x :: v))) as [Hl|Hl].
  - rewrite IH. unfold lastn. cbn [length] in *. replace (S (length v) - Z.to_nat DIFFICULTY_BLOCKS_COUNT)%nat with (S (length v - Z.to_nat DIFFICULTY_BLOCKS_COUNT)) by (unfold DIFFICULTY_BLOCKS_COUNT, DIFFICULTY_WINDOW, DIFFICULTY_LAG in *; lia). done.
  - rewrite lastn_all; [done|]. lia.
Qed.

Lemma lastn_fmap {A B} (f : A -> B) n l : lastn n (f <$> l) = f <$> lastn n l.
Proof. unfold lastn. by rewrite length_fmap, fmap_drop. Qed.

(** The slow path reads the window. *)
Lemma read_window s rows : rows_of s rows -> Z.of_nat (length rows) < 2 ^ 64 ->
  let offset := length rows ⊟ Z.min (length rows) DIFFICULTY_BLOCKS_COUNT in
  let offset := if offset =? 0 then offset ⊞ 1 else offset in
  read_blocks s offset (Z.to_nat (length rows - offset)) = Ok ((diff_window rows).*1, (diff_window rows).*2).
Proof.
  intros Hr Hlt offset1 offset. assert (HN : DIFFICULTY_BLOCKS_COUNT = 735) by done. assert (E1 : offset1 = length rows - Z.min (length rows) DIFFICULTY_BLOCKS_COUNT).
  { unfold offset1. apply wrap_small. unfold is_uint, DIFFICULTY_BLOCKS_COUNT, DIFFICULTY_WINDOW, DIFFICULTY_LAG. lia. }
  assert (Hoff : offset = Z.of_nat (Nat.max 1 (length rows - Z.to_nat DIFFICULTY_BLOCKS_COUNT))).
  { unfold offset. rewrite E1. destruct (Z.eqb_spec (length rows - Z.min (length rows) DIFFICULTY_BLOCKS_COUNT) 0) as [E|E]; [rewrite E; change (0 ⊞ 1) with 1|]; lia. }
  rewrite Hoff. unfold diff_window, lastn. rewrite tail_drop, length_drop, drop_drop.
  replace (1 + (length rows - 1 - Z.to_nat DIFFICULTY_BLOCKS_COUNT))%nat with (Nat.max 1 (length rows - Z.to_nat DIFFICULTY_BLOCKS_COUNT)) by lia.
  destruct (decide (rows = [])) as [->|Hne]; [done|]. assert (length rows <> O) by (by destruct rows).
  rewrite read_blocks_rows with (rows := rows) by (done || lia). rewrite take_ge; [done|]. rewrite length_drop. lia.
Qed.

(** The fast path moves the window by one block. *)
Lemma move_window rows t d : (Z.to_nat DIFFICULTY_BLOCKS_COUNT <= length (diff_window rows))%nat ->
  erase_front ((diff_window rows).*1 ++ [t]) = (diff_window (rows ++ [(t, d)])).*1 /\ erase_front ((diff_window rows).*2 ++ [d]) = (diff_window (rows ++ [(t, d)])).*2.
Proof.
  intros Hl. assert (Hw : diff_window (rows ++ [(t, d)]) = lastn (Z.to_nat DIFFICULTY_BLOCKS_COUNT) (diff_window rows ++ [(t, d)])).
  { unfold diff_window in *. destruct rows as [|r rows]; [vm_compute in Hl; lia|]. cbn [tail app]. change (Z.to_nat DIFFICULTY_BLOCKS_COUNT) with (S 734). rewrite !lastn_snoc, lastn_lastn by lia. done. }
  rewrite Hw, !erase_front_lastn, <- !lastn_fmap. by rewrite !fmap_app.
Qed.

(** ** The caches *)

Section caches.
Context (zeroCommitVartime : Z -> list Z) (mul_inv_eight : list Z -> list Z) (seed : Z).

(** [get_current_hard_fork_version()], a function of the chain. *)
Context (version_of : list block_entry -> Z).

Definition chain_difficulty (c : list block_entry) : option Z := rule_difficulty (get_difficulty_target (version_of c)) (chain_rows c).

(** What happens to the database and the caches: blocks are added and popped, the
    chain is about to be rewritten, a batch of blocks ends, the difficulty is asked for. *)
Inductive diff_step : db * list block_entry * diff_state -> db * list block_entry * diff_state -> Prop :=
  | diff_add s c d be s' : block_entry_ok mul_inv_eight be -> 0 <= be_cumulative_difficulty be < 2 ^ 128 -> Z.of_nat (length c) + 1 < 2 ^ 64 ->
      add_block zeroCommitVartime s be = Ok s' -> diff_step (s, c, d) (s', be :: c, d)
  | diff_pop s c d s' blk txs : pop_block mul_inv_eight s = Ok (s', blk, txs) -> diff_step (s, c, d) (s', tail c, forget_window d)
  | diff_forget s c d : diff_step (s, c, d) (s, c, forget_window d)
  | diff_cleanup s c d : diff_step (s, c, d) (s, c, cleanup_difficulty d)
  | diff_query s c d x d' : get_difficulty_for_next_block s (version_of c) d = Ok (x, d') -> diff_step (s, c, d) (s, c, d').

Definition diff_reach (st : db * list block_entry * diff_state) : Prop := rtc diff_step (empty_db seed, [], new_diff_state 0) st.

Definition bounded (c : list block_entry) : Prop := Forall (fun be => 0 <= be_cumulative_difficulty be < 2 ^ 128) c /\ Z.of_nat (length c) < 2 ^ 64.

Abbreviation reached := (reach zeroCommitVartime mul_inv_eight seed).

(** The chain a cached difficulty was computed for had the cached top hash; the
    cached window, unless it is to be forgotten, is the one of an earlier height. *)
Definition diff_ok (st : db * list block_entry * diff_state) : Prop :=
  let '(s, c, d) := st in
  reached s c /\ bounded c /\ m_fixed_difficulty d = 0 /\
  (exists s0 c0, reached s0 c0 /\ (exists h0, top_block_hash s0 = Ok (m_difficulty_for_next_block_top_hash d, h0)) /\ chain_difficulty c0 = Some (m_difficulty_for_next_block d)) /\
  (m_timestamps_and_difficulties_height d = 0 \/ m_reset_timestamps_and_difficulties_height d = true \/
   exists n : nat, m_timestamps_and_difficulties_height d = n /\ (n <= length c)%nat /\
     m_timestamps d = (diff_window (take n (chain_rows c))).*1 /\ m_difficulties d = (diff_window (take n (chain_rows c))).*2).

Lemma chain_rows_length c : length (chain_rows c) = length c.
Proof. unfold chain_rows. by rewrite length_map, length_reverse. Qed.

Lemma chain_rows_cons be c : chain_rows (be :: c) = chain_rows c ++ [(timestamp (be_block be), be_cumulative_difficulty be)].
Proof. unfold chain_rows. by rewrite reverse_cons, map_app. Qed.

Lemma reach_rows s c : reached s c -> bounded c -> rows_of s (chain_rows c).
Proof.
  intros [HF Hr]%reach_replay [Hb _]. destruct (replay_blocks _ mul_inv_eight seed _ _ HF Hr) as (Hn & Hat & _). split; [by rewrite chain_rows_length, <- length_reverse|].
  intros i t d (be & E & Hi)%list_lookup_fmap_Some. simplify_eq. destruct (Hat i be Hi) as (h & bi & blob & _ & Hbi & _ & _ & _ & _ & Hd & _ & Ht & _).
  unfold get_block_timestamp, get_block_cumulative_difficulty. rewrite Hbi. cbn. rewrite Ht, Hd; [done|]. rewrite Forall_forall in Hb. apply Hb, elem_of_reverse. by eapply list_elem_of_lookup_2.
Qed.

Lemma top_hash_ok s c : reached s c -> Z.of_nat (length c) < 2 ^ 64 -> exists h, top_block_hash s = Ok (h, length c ⊟ 1).
Proof.
  intros [HF Hr]%reach_replay Hl. destruct (replay_blocks _ mul_inv_eight seed _ _ HF Hr) as (Hn & Hat & _). rewrite length_reverse in Hn. unfold top_block_hash, height. rewrite Hn.
  destruct c as [|be c]; [by eexists|]. cbn [length] in *. destruct (Z.eqb_spec (S (length c)) 0) as [?|_]; [lia|]. cbn [negb].
  destruct (Hat (length c) be) as (h & bi & blob & _ & Hbi & _); [rewrite reverse_cons, lookup_app_r, length_reverse, Nat.sub_diag by (rewrite length_reverse; lia); done|].
  unfold get_block_hash_from_height. rewrite wrap_small by (unfold is_uint; lia). replace (S (length c) - 1) with (Z.of_nat (length c)) by lia. rewrite Hbi. by eexists.
Qed.

(** The answer when the cached difficulty is not used. *)
Lemma window_read s c d : diff_ok (s, c, d) ->
  let cached := if m_reset_timestamps_and_difficulties_height d then 0 else m_timestamps_and_difficulties_height d in
  let height := length c in
  (if negb (cached =? 0) && (height ⊟ cached =? 1) && (DIFFICULTY_BLOCKS_COUNT <=? length (m_timestamps d))
   then t ← get_block_timestamp s (height ⊟ 1); df ← get_block_cumulative_difficulty s (height ⊟ 1); Ok (erase_front (m_timestamps d ++ [t]), erase_front (m_difficulties d ++ [df]))
   else
     let offset := height ⊟ Z.min height DIFFICULTY_BLOCKS_COUNT in
     let offset := if offset =? 0 then offset ⊞ 1 else offset in
     read_blocks s offset (Z.to_nat (height - offset)))
  = Ok ((diff_window (chain_rows c)).*1, (diff_window (chain_rows c)).*2).
Proof.
  intros (Hre & Hb & _ & _ & Hw) cached height. pose proof (reach_rows _ _ Hre Hb) as Hr. pose proof Hb as [_ Hlt].
  destruct (negb (cached =? 0) && (height ⊟ cached =? 1) && (DIFFICULTY_BLOCKS_COUNT <=? length (m_timestamps d))) eqn:E.
  - apply andb_true_iff in E as [[E1 E2]%andb_true_iff E3%Z.leb_le]. apply negb_true_iff, Z.eqb_neq in E1. apply Z.eqb_eq in E2. unfold cached in *.
    destruct (m_reset_timestamps_and_difficulties_height d); [done|]. destruct Hw as [?|[?|(n & En & Hn & Ets & Eds)]]; [done|done|].
    rewrite En in *. unfold height in E2. rewrite wrap_small in E2 by (unfold is_uint; lia). destruct c as [|be c]; [cbn in E2; lia|]. cbn [length] in *. assert (n = length c) as -> by lia.
    rewrite chain_rows_cons in *. rewrite take_app_length' in Ets, Eds by (by rewrite chain_rows_length). set (t := timestamp (be_block be)) in *. set (df := be_cumulative_difficulty be) in *.
    unfold height. rewrite wrap_small by (unfold is_uint; lia). replace (S (length c) - 1) with (Z.of_nat (length c)) by lia.
    destruct Hr as [_ Hr]. destruct (Hr (length c) t df) as [Et Ed]. { rewrite lookup_app_r, chain_rows_length, Nat.sub_diag by (rewrite chain_rows_length; lia). done. }
    rewrite Et, Ed. cbn [mbind result_bind]. rewrite Ets, length_fmap in E3. destruct (move_window (chain_rows c) t df) as [M1 M2]; [lia|]. by rewrite Ets, Eds, M1, M2.
  - unfold height. rewrite <- (chain_rows_length c). apply read_window; [done|]. by rewrite chain_rows_length.
Qed.

Lemma query_ok s c d x : diff_ok (s, c, d) -> chain_difficulty c = Some x ->
  exists x' d', get_difficulty_for_next_block s (version_of c) d = Ok (x', d') /\
    (x' = x \/ exists s0 c0 h h0 h1, reached s0 c0 /\ top_block_hash s0 = Ok (h, h0) /\ top_block_hash s = Ok (h, h1) /\ chain_difficulty c0 = Some x').
Proof.
  intros Hok Hx. pose proof (window_read _ _ _ Hok) as Hw. destruct Hok as (Hre & [_ Hlt] & Hf & (s0 & c0 & H0 & (h0 & Hh0) & Hd0) & _).
  destruct (top_hash_ok _ _ Hre Hlt) as [h Eh]. unfold get_difficulty_for_next_block. rewrite Hf, Eh. cbn [Z.eqb negb mbind result_bind].
  case_bool_decide as Hc; [subst h; do 2 eexists; split; [done|]; right; naive_solver|].
  assert (Eh1 : length c ⊟ 1 ⊞ 1 = length c). { rewrite <- (wrap_small 64 (length c)) at 2 by (unfold is_uint; lia). unfold wrap. rewrite Zplus_mod_idemp_l. f_equal. lia. }
  rewrite Eh1. cbv zeta in *. rewrite Hw. cbn [mbind result_bind]. unfold chain_difficulty, rule_difficulty in Hx. rewrite Hx. cbn. by do 2 eexists; split; [|left].
Qed.

Lemma query_keeps s c d x d' : diff_ok (s, c, d) -> get_difficulty_for_next_block s (version_of c) d = Ok (x, d') -> diff_ok (s, c, d').
Proof.
  intros Hok E. pose proof (window_read _ _ _ Hok) as Hw. pose proof Hok as (Hre & Hb & Hf & Hc & _). pose proof Hb as [_ Hlt].
  destruct (top_hash_ok _ _ Hre Hlt) as [h Eh]. unfold get_difficulty_for_next_block in E. rewrite Hf, Eh in E. cbn [Z.eqb negb mbind result_bind] in E.
  case_bool_decide as Hh; [by simplify_eq|].
  assert (Eh1 : length c ⊟ 1 ⊞ 1 = length c). { rewrite <- (wrap_small 64 (length c)) at 2 by (unfold is_uint; lia). unfold wrap. rewrite Zplus_mod_idemp_l. f_equal. lia. }
  rewrite Eh1 in E. cbv zeta in *. rewrite Hw in E. cbn [mbind result_bind] in E. step E y Ey. simplify_eq. split_and!; cbn; try done.
  - exists s, c. split_and!; [done|by eexists|done].
  - right; right. exists (length c). rewrite take_ge by (by rewrite chain_rows_length). done.
Qed.

Lemma diff_step_ok st st' : diff_ok st -> diff_step st st' -> diff_ok st'.
Proof.
  intros Hok Hs. destruct Hs as [s c d be s' Hbe Hd Hl E|s c d s' blk txs E|s c d|s c d|s c d x d' E].
  - destruct Hok as (Hre & [Hb Hlt] & Hf & Hc & Hw). split_and!; try done; [by eapply reach_add|split; [by constructor|cbn; lia]|].
    destruct Hw as [?|[?|(n & En & Hn & Ets & Eds)]]; [by left|by right; left|]. right; right. exists n. rewrite chain_rows_cons, take_app_le by (rewrite chain_rows_length; lia). cbn. split_and!; (done || lia).
  - destruct Hok as (Hre & [Hb Hlt] & Hf & Hc & Hw). split_and!; try done; [by eapply reach_pop| |by left]. destruct c as [|be c]; [done|]. apply Forall_cons in Hb as [_ Hb]. split; [done|cbn in *; lia].
  - destruct Hok as (Hre & Hb & Hf & Hc & Hw). split_and!; try done. by left.
  - unfold cleanup_difficulty. destruct (m_reset_timestamps_and_difficulties_height d) eqn:Er; [|done]. destruct Hok as (Hre & Hb & Hf & Hc & Hw). split_and!; try done. by left.
  - by eapply query_keeps.
Qed.

Lemma diff_reach_ok st : diff_reach st -> diff_ok st.
Proof.
  assert (H0 : diff_ok (empty_db seed, [], new_diff_state 0)).
  { split; [apply reach_empty|]. split; [split; [constructor|done]|]. split; [done|]. split; [|by left]. exists (empty_db seed), []. split; [apply reach_empty|]. split; [by eexists|done]. }
  intros H. unfold diff_reach in H. induction H as [|x y z Hs _ IH]; [done|]. apply IH. by eapply diff_step_ok.
Qed.

End caches.


(** ** Alternative chains *)

Definition alt_rows (alts : list block_extended_info) : list (Z * Z) := map (fun b => (timestamp (bl b), cumulative_difficulty b)) alts.

Lemma lastn_app_ge {A} n (l k : list A) : (length k <= n)%nat -> lastn n (l ++ k) = lastn (n - length k) l ++ k.
Proof.
  intros H. unfold lastn. rewrite length_app. replace (length l + length k - n)%nat with (length l - (n - length k))%nat by lia. by rewrite drop_app_le by lia.
Qed.

Lemma lastn_app_le {A} n (l k : list A) : (n <= length k)%nat -> lastn n (l ++ k) = lastn n k.
Proof. intros H. unfold lastn. rewrite length_app, drop_app_ge by lia. f_equal. lia. Qed.

Lemma lastn_reverse {A} n (l : list A) : lastn n l = reverse (take n (reverse l)).
Proof.
  unfold lastn. rewrite <- (reverse_involutive l) at 2. set (r := reverse l). replace (length l) with (length r) by apply length_reverse.
  rewrite <- (take_drop n r) at 2. rewrite reverse_app, drop_app_length'; [done|]. by rewrite length_reverse, length_drop.
Qed.

Lemma fill_back_spec l : forall k ts ds, (1 <= k <= 735)%nat -> (k <= length l)%nat -> length ts = 735%nat -> length ds = 735%nat ->
  fill_back l (735 - k) ts ds = (reverse (take k (alt_rows l).*1) ++ drop k ts, reverse (take k (alt_rows l).*2) ++ drop k ds).
Proof.
  induction l as [|b l IH]; intros k ts ds Hk Hl Hts Hds; [cbn in Hl; lia|]. cbn [fill_back length] in *. change DIFFICULTY_BLOCKS_COUNT with 735.
  destruct k as [|k]; [lia|]. replace (Z.to_nat (735 - 1 - (735 - S k))) with k by lia. cbn [alt_rows map fmap list_fmap take fst snd]. rewrite !reverse_cons, <- !app_assoc. cbn [app].
  assert (Hins : forall (v : list Z) x, length v = 735%nat -> drop k (<[k := x]> v) = x :: drop (S k) v).
  { intros v x Hv. rewrite (drop_S _ x k) by (apply list_lookup_insert_eq; lia). f_equal. by rewrite drop_insert_lt by lia. }
  destruct (Z.leb_spec 735 (735 - S k + 1)) as [Hc|Hc].
  - assert (k = 0%nat) as -> by lia. cbn [take reverse]. f_equal; [rewrite <- (drop_0 (<[_ := _]> ts))|rewrite <- (drop_0 (<[_ := _]> ds))]; by rewrite Hins.
  - replace (735 - S k + 1) with (735 - k) by lia. rewrite IH by (rewrite ?length_insert; lia). by rewrite !Hins.
Qed.

Lemma fill_back_window alts : (735 <= length alts)%nat ->
  fill_back (reverse alts) 0 (replicate 735 0) (replicate 735 0) = ((lastn 735 (alt_rows alts)).*1, (lastn 735 (alt_rows alts)).*2).
Proof.
  intros Hl. assert (E : alt_rows (reverse alts) = reverse (alt_rows alts)) by apply fmap_reverse.
  change 0 with (735 - 735%nat) at 1. rewrite fill_back_spec; [|lia|rewrite length_reverse; lia|by rewrite length_replicate..]. rewrite E.
  rewrite !drop_ge, !app_nil_r by (by rewrite length_replicate). rewrite (lastn_reverse 735). by rewrite !fmap_reverse, !fmap_take, !fmap_reverse.
Qed.

(** The window of the chain an alternative chain would become. *)
Lemma alt_window s rows (h : nat) alts : rows_of s rows -> (1 <= h <= length rows)%nat -> Z.of_nat (length rows) < 2 ^ 64 -> (length alts < 735)%nat ->
  let count := Z.min (DIFFICULTY_BLOCKS_COUNT ⊟ Z.min DIFFICULTY_BLOCKS_COUNT (length alts)) h in
  let start := h ⊟ count in
  let start := if start =? 0 then start ⊞ 1 else start in
  exists w, read_blocks s start (Z.to_nat (h - start)) = Ok (w.*1, w.*2) /\ (length alts + length w <= 735)%nat /\ w ++ alt_rows alts = diff_window (take h rows ++ alt_rows alts).
Proof.
  intros Hr Hh Hlt Hal count start1 start. assert (HN : DIFFICULTY_BLOCKS_COUNT = 735) by done.
  assert (Ec : count = Z.min (735 - length alts) h) by (unfold count; rewrite HN, (wrap_small 64 (735 - _)) by (unfold is_uint; lia); lia).
  assert (E1 : start1 = h - count) by (apply wrap_small; unfold is_uint; lia).
  assert (Es : start = Z.of_nat (Nat.max 1 (h - (735 - length alts)))).
  { unfold start. rewrite E1, Ec. destruct (Z.eqb_spec (h - Z.min (735 - length alts) h) 0) as [E|E]; [rewrite E; change (0 ⊞ 1) with 1|]; lia. }
  rewrite Es. eexists. rewrite read_blocks_rows with (rows := rows) by (done || lia). split; [done|]. rewrite length_take, length_drop. split; [lia|].
  unfold diff_window. rewrite HN. change (Z.to_nat 735) with 735%nat. destruct rows as [|r rows]; [cbn in Hh; lia|]. destruct h as [|h]; [lia|]. cbn [take tail app].
  rewrite lastn_app_ge by (unfold alt_rows; rewrite length_map; lia). f_equal. unfold alt_rows. rewrite length_map. unfold lastn. rewrite length_take.
  cbn [length] in *. rewrite skipn_firstn_comm. destruct (Nat.max 1 (S h - (735 - length alts))) as [|m] eqn:Em; [lia|]. cbn [drop]. f_equal; [lia|]. f_equal. lia.
Qed.


(** ** The recalculation *)

Definition target_at (hf : HardFork) (height : Z) : Z := if get_ideal_version hf height <? 2 then DIFFICULTY_TARGET_V1 else DIFFICULTY_TARGET_V2.

(** [rows'] has the timestamps of [rows], and from [start] on the cumulative
    difficulties the rule gives. *)
Definition recomputed (hf : HardFork) (start : nat) (rows rows' : list (Z * Z)) : Prop :=
  rows'.*1 = rows.*1 /\ take start rows' = take start rows /\
  forall i t cum t0 cum0, (start <= i)%nat -> rows' !! i = Some (t, cum) -> rows' !! (i - 1)%nat = Some (t0, cum0) ->
    0 <= cum < 2 ^ 128 /\ rule_difficulty (target_at hf i) (take i rows') = Some (cum - cum0).

(** The rows two lists start with in common. *)
Fixpoint agree (l k : list (Z * Z)) : nat :=
  match l, k with x :: l, y :: k => if decide (x = y) then S (agree l k) else O | _, _ => O end.

Lemma agree_take l : forall k, take (agree l k) k = take (agree l k) l.
Proof. induction l as [|x l IH]; intros [|y k]; cbn; try done. destruct (decide (x = y)) as [->|]; cbn; [by rewrite IH|done]. Qed.

Lemma agree_lookup l : forall k i, l !! i = k !! i -> (i < length l)%nat -> i <> agree l k.
Proof.
  induction l as [|x l IH]; intros [|y k] i E Hi; cbn in *; try lia; [by destruct i|]. destruct i as [|i]; cbn in E.
  - simplify_eq. by rewrite decide_True.
  - destruct (decide (x = y)); [|lia]. specialize (IH k i E). lia.
Qed.

Lemma agree_ge l : forall k n, take n k = take n l -> (n <= length l)%nat -> (n <= agree l k)%nat.
Proof.
  induction l as [|x l IH]; intros [|y k] [|n] E Hn; cbn in *; try lia; try done. injection E as -> E. rewrite decide_True by done. specialize (IH k n E). lia.
Qed.

Lemma agree_le l : forall k, (agree l k <= length l)%nat.
Proof. induction l as [|x l IH]; intros [|y k]; cbn; try lia. destruct (decide (x = y)); [|lia]. specialize (IH k). lia. Qed.

Lemma agree_refl l : agree l l = length l.
Proof. induction l as [|x l IH]; cbn; [done|]. by rewrite decide_True, IH. Qed.

(** Moving the window of the loop. *)
Lemma slide_window rows i t d : (1 <= i)%nat -> rows !! i = Some (t, d) ->
  let ts := (diff_window (take i rows)).*1 ++ [t] in let ds := (diff_window (take i rows)).*2 ++ [d] in
  (if DIFFICULTY_BLOCKS_COUNT <? length ts then _ ← require (length ts =? DIFFICULTY_BLOCKS_COUNT + 1) RUNTIME_ERROR; Ok (tail ts, tail ds) else Ok (ts, ds))
  = Ok ((diff_window (take (S i) rows)).*1, (diff_window (take (S i) rows)).*2).
Proof.
  intros Hi Hl ts ds. assert (Hw : diff_window (take (S i) rows) = lastn 735 (diff_window (take i rows) ++ [(t, d)])).
  { rewrite (take_S_r _ _ _ Hl). unfold diff_window. change (Z.to_nat DIFFICULTY_BLOCKS_COUNT) with (S 734). destruct rows as [|r rows]; [done|]. destruct i as [|i]; [lia|]. cbn [take tail app].
    rewrite !lastn_snoc, lastn_lastn by lia. done. }
  assert (Hlen : (length (diff_window (take i rows)) <= 735)%nat). { unfold diff_window, lastn. change (Z.to_nat DIFFICULTY_BLOCKS_COUNT) with 735%nat. rewrite length_drop. lia. }
  unfold ts, ds. rewrite Hw, length_app, length_fmap. cbn [length]. change DIFFICULTY_BLOCKS_COUNT with 735. destruct (Z.ltb_spec 735 (length (diff_window (take i rows)) + 1)%nat) as [Hc|Hc].
  - assert (El : length (diff_window (take i rows)) = 735%nat) by lia. rewrite El. cbn [require mbind result_bind Z.eqb]. unfold lastn. rewrite length_app, El. cbn [length Nat.add Nat.sub].
    change (735 + 1 =? 735 + 1) with true. cbn [require mbind result_bind]. rewrite !tail_drop, !fmap_drop, !fmap_app. done.
  - rewrite lastn_all by (rewrite length_app; cbn [length]; lia). by rewrite !fmap_app.
Qed.

Section recalculation.
Context (s : db) (hf : HardFork) (rows rows' : list (Z * Z)) (start : nat).
Context (Hrows : rows_of s rows) (Hre : recomputed hf start rows rows') (Hstart : (1 <= start <= length rows)%nat).
Let a : nat := agree rows rows'.

Lemma rows_length : length rows' = length rows.
Proof. destruct Hre as (E & _). apply (f_equal length) in E. by rewrite !length_fmap in E. Qed.

Lemma agree_start : (start <= a <= length rows)%nat.
Proof. destruct Hre as (_ & E & _). split; [apply agree_ge; [done|lia]|apply agree_le]. Qed.

(** One height: where the drift starts and what is collected. *)
Lemma drift_step i t cum : (start <= i < length rows)%nat -> rows' !! i = Some (t, cum) ->
  exists drift,
    (if (if decide (i <= a)%nat then 0 else Z.of_nat a) =? 0
     then existing ← get_block_cumulative_difficulty s i; Ok (if negb (cum =? existing) then Z.of_nat i else if decide (i <= a)%nat then 0 else Z.of_nat a)
     else Ok (if decide (i <= a)%nat then 0 else Z.of_nat a)) = Ok drift /\
    drift = (if decide (S i <= a)%nat then 0 else Z.of_nat a) /\
    (if 0 <? drift then take (i - a) (drop a rows').*2 ++ [cum] else take (i - a) (drop a rows').*2) = take (S i - a) (drop a rows').*2.
Proof.
  intros Hi Hl. pose proof agree_start as Ha. destruct (lookup_lt_is_Some_2 rows i ltac:(lia)) as [[t' e] He].
  assert (t' = t) as ->. { destruct Hre as (E & _). assert (rows'.*1 !! i = rows.*1 !! i) as E' by (by rewrite E). rewrite !list_lookup_fmap, Hl, He in E'. by simplify_eq. }
  destruct Hrows as [_ Hr]. destruct (Hr i t e He) as [_ Ed]. rewrite Ed. cbn [mbind result_bind].
  assert (Htake : (a <= i)%nat -> take (S i - a) (drop a rows').*2 = take (i - a) (drop a rows').*2 ++ [cum]).
  { intros Hai. replace (S i - a)%nat with (S (i - a)) by lia. apply take_S_r. rewrite list_lookup_fmap, lookup_drop. replace (a + (i - a))%nat with i by lia. by rewrite Hl. }
  destruct (decide (i <= a)%nat) as [Hia|Hia].
  - cbn [Z.eqb]. eexists. split; [done|]. destruct (decide (S i <= a)%nat) as [Hsa|Hsa].
    + assert (cum = e) as ->. { pose proof (agree_take rows rows') as E. apply (f_equal (.!! i)) in E. unfold a in Hsa. rewrite !lookup_take_lt, Hl, He in E by lia. by simplify_eq. }
      rewrite Z.eqb_refl. cbn. split; [done|]. by replace (i - a)%nat with 0%nat by lia; replace (S i - a)%nat with 0%nat by lia.
    + assert (i = a) as Eia by lia. destruct (Z.eqb_spec cum e) as [->|Hne]; [exfalso; by apply (agree_lookup rows rows' i); [congruence|lia|done]|]. cbn [negb].
      split; [by rewrite Eia|]. destruct (Z.ltb_spec 0 i) as [_|?]; [|lia]. by rewrite Htake by lia.
  - destruct (Z.eqb_spec a 0) as [?|_]; [lia|]. eexists. split; [done|]. rewrite decide_False by lia. split; [done|]. destruct (Z.ltb_spec 0 a) as [_|?]; [|lia]. by rewrite Htake by lia.
Qed.

Lemma recalculate_loop_spec n : forall (i : nat) t0 cum0, (start <= i)%nat -> (i + n = length rows)%nat -> rows' !! (i - 1)%nat = Some (t0, cum0) ->
  recalculate_loop s hf i n (diff_window (take i rows')).*1 (diff_window (take i rows')).*2 cum0 (if decide (i <= a)%nat then 0 else Z.of_nat a) (take (i - a) (drop a rows').*2)
  = Ok ((if decide (length rows <= a)%nat then 0 else Z.of_nat a), (drop a rows').*2).
Proof.
  induction n as [|n IH]; intros i t0 cum0 Hi Hn Hp; cbn [recalculate_loop].
  - replace i with (length rows) by lia. do 2 f_equal. apply take_ge. rewrite length_fmap, length_drop, rows_length. lia.
  - destruct (lookup_lt_is_Some_2 rows' i ltac:(rewrite rows_length; lia)) as [[t cum] Hl]. pose proof Hre as (Et & _ & Hrule). destruct (Hrule i t cum t0 cum0 Hi Hl Hp) as [Hc Hx].
    fold (target_at hf i). unfold rule_difficulty in Hx. rewrite Hx. cbn [try mbind result_bind]. replace (cum - cum0 + cum0) with cum by lia.
    destruct (Z.leb_spec cum (2 ^ 128 - 1)) as [_|?]; [|lia]. cbn [require mbind result_bind]. destruct (drift_step i t cum ltac:(lia) Hl) as (drift & -> & -> & Enew). cbn [mbind result_bind]. rewrite Enew.
    destruct (Z.ltb_spec 0 i) as [_|?]; [|lia].
    assert (Er : exists e, rows !! i = Some (t, e)). { assert (rows'.*1 !! i = rows.*1 !! i) as E' by (by rewrite Et). rewrite !list_lookup_fmap, Hl in E'. destruct (rows !! i) as [[? ?]|]; cbn in E'; simplify_eq. by eexists. }
    destruct Er as [e Er]. destruct Hrows as [_ Hr]. destruct (Hr i t e Er) as [Ets _]. rewrite Ets. cbn [mbind result_bind]. pose proof (slide_window rows' i t cum ltac:(lia) Hl) as Hs. cbv zeta in Hs. rewrite Hs. cbn [mbind result_bind].
    replace (i + 1) with (Z.of_nat (S i)) by lia. eapply (IH (S i) t cum); [lia|lia|]. by replace (S i - 1)%nat with i by lia.
Qed.

End recalculation.

Lemma read_back_rows s rows n : rows_of s rows -> Z.of_nat (length rows) < 2 ^ 64 -> forall (h : nat) ts ds, (h < length rows)%nat ->
  read_back s h n ts ds = Ok ((lastn n (tail (take (S h) rows))).*1 ++ ts, (lastn n (tail (take (S h) rows))).*2 ++ ds).
Proof.
  intros [_ Hr] Hlt. induction n as [|n IH]; intros h ts ds Hh; cbn [read_back]; [unfold lastn; by rewrite drop_ge by lia|].
  destruct h as [|h]; [by destruct rows|]. destruct (Z.eqb_spec (S h) 0) as [?|_]; [lia|].
  destruct (lookup_lt_is_Some_2 rows (S h) Hh) as [[t d] E]. destruct (Hr _ t d E) as [Et Ed]. rewrite Et, Ed. cbn [mbind result_bind].
  rewrite wrap_small by (unfold is_uint; lia). replace (S h - 1) with (Z.of_nat h) by lia. rewrite IH by lia. rewrite (take_S_r _ _ _ E).
  destruct rows as [|r rows]; [done|]. cbn [take tail app]. by rewrite lastn_snoc, !fmap_app, <- !app_assoc.
Qed.

Lemma correct_loop_spec new : forall infos h, (forall k, h <= k < h + length new -> is_Some (infos !! k)) ->
  exists infos', correct_loop infos h new = Ok infos' /\
    forall k, infos' !! k = if decide (h <= k < h + length new) then bi ← infos !! k; d ← new !! Z.to_nat (k - h); Some (set_diff bi d) else infos !! k.
Proof.
  induction new as [|d new IH]; intros infos h Hk; cbn [correct_loop length] in *.
  - eexists. split; [done|]. intros k. rewrite decide_False by lia. done.
  - destruct (Hk h ltac:(lia)) as [bi Ebi]. rewrite Ebi. cbn [try mbind result_bind]. destruct (IH (<[h := set_diff bi d]> infos) (h + 1)) as (infos' & E & Hi).
    { intros k Hk'. rewrite lookup_insert_ne by lia. apply Hk. lia. }
    exists infos'. split; [done|]. intros k. rewrite Hi. destruct (decide (k = h)) as [->|Hne].
    + rewrite decide_False by lia. rewrite lookup_insert_eq, Ebi. rewrite decide_True by lia. by rewrite Z.sub_diag.
    + rewrite lookup_insert_ne by done. destruct (decide (h + 1 <= k < h + 1 + length new)) as [Hr|Hr].
      * rewrite decide_True by lia. by replace (Z.to_nat (k - h)) with (S (Z.to_nat (k - (h + 1)))) by lia.
      * rewrite decide_False by lia. done.
Qed.

(** What a correction changes. *)
Definition same_but_difficulty (s s' : db) : Prop :=
  d_txs s' = d_txs s /\ d_outs s' = d_outs s /\ m_spent_keys s' = m_spent_keys s /\ m_blocks (d_blocks s') = m_blocks (d_blocks s) /\
  forall h, get_block_hash_from_height s' h = get_block_hash_from_height s h.

Lemma correct_rows s rows rows' a : rows_of s rows -> rows'.*1 = rows.*1 -> take a rows' = take a rows -> (a <= length rows)%nat ->
  Forall (fun d => 0 <= d < 2 ^ 128) (drop a rows').*2 ->
  exists s', correct_block_cumulative_difficulties s a (drop a rows').*2 = Ok s' /\ rows_of s' rows' /\ same_but_difficulty s s'.
Proof.
  intros [Hh Hr] Et Etake Ha Hb. assert (Hlen : length rows' = length rows) by (apply (f_equal length) in Et; by rewrite !length_fmap in Et).
  assert (Hinfo : forall i, (i < length rows)%nat -> exists bi, m_block_info (d_blocks s) !! (i : Z) = Some bi).
  { intros i Hi. destruct (lookup_lt_is_Some_2 rows i Hi) as [[t d] E]. destruct (Hr _ t d E) as [E1 _]. unfold get_block_timestamp in E1. step E1 bi E2. by eexists. }
  unfold correct_block_cumulative_difficulties. rewrite length_fmap, length_drop, Hlen, Hh. destruct (Z.eqb_spec (a + (length rows - a)%nat) (length rows)) as [_|?]; [|lia]. cbn [require mbind result_bind].
  destruct (correct_loop_spec (drop a rows').*2 (m_block_info (d_blocks s)) a) as (infos & E & Hi).
  { rewrite length_fmap, length_drop, Hlen. intros k Hk. destruct (Hinfo (Z.to_nat k) ltac:(lia)) as [bi Hbi]. exists bi. by rewrite Z2Nat.id in Hbi by lia. }
  rewrite E. cbn [mbind result_bind]. rewrite length_fmap, length_drop, Hlen in Hi. eexists. split; [done|]. split.
  - split; [cbn; unfold height in Hh; by rewrite Hlen|]. intros i t d El. assert (Hil : (i < length rows)%nat) by (rewrite <- Hlen; by eapply lookup_lt_Some).
    destruct (lookup_lt_is_Some_2 rows i Hil) as [[t' e] He]. destruct (Hr i t' e He) as [Hti Hdi].
    assert (t' = t) as ->. { assert (rows'.*1 !! i = rows.*1 !! i) as E' by (by rewrite Et). rewrite !list_lookup_fmap, El, He in E'. by simplify_eq. }
    unfold get_block_timestamp, get_block_cumulative_difficulty in *. cbn [with_blocks d_blocks m_block_info]. rewrite Hi. destruct (Hinfo i Hil) as [bi Hbi]. rewrite Hbi in *. cbn in Hti, Hdi. simplify_eq.
    destruct (decide (a <= i < a + (length rows - a)%nat)) as [Hr'|Hr'].
    + replace (Z.to_nat (i - a)) with (i - a)%nat by lia. assert (Hd : (drop a rows').*2 !! (i - a)%nat = Some d) by (rewrite list_lookup_fmap, lookup_drop; replace (a + (i - a))%nat with i by lia; by rewrite El).
      rewrite Hd. cbn. split; [done|]. f_equal. apply split_128. by apply (Forall_lookup_1 _ _ _ _ Hb Hd).
    + split; [done|]. cbn. f_equal. apply (f_equal (.!! i)) in Etake. rewrite !lookup_take_lt, El, He in Etake by lia. by simplify_eq.
  - split_and!; try done. intros h. unfold get_block_hash_from_height. cbn [with_blocks d_blocks m_block_info]. rewrite Hi. destruct (decide _) as [Hd|Hd]; [|done].
    destruct (Hinfo (Z.to_nat h) ltac:(lia)) as [bi Hbi]. rewrite Z2Nat.id in Hbi by lia. rewrite Hbi. cbn.
    destruct (lookup_lt_is_Some_2 (drop a rows').*2 (Z.to_nat (h - a))) as [x Hx]; [rewrite length_fmap, length_drop; lia|]. by rewrite Hx.
Qed.

(** The cumulative difficulty the loop starts from. *)
Lemma last_before rows (start : nat) t0 : (1 <= start <= length rows)%nat -> rows !! 0%nat = Some (t0, 1) ->
  exists tl cl, rows !! (start - 1)%nat = Some (tl, cl) /\ (if start <=? 1 then Ok (Z.of_nat start) else try RUNTIME_ERROR (last (diff_window (take start rows)).*2)) = Ok cl.
Proof.
  intros Hs H0. destruct (lookup_lt_is_Some_2 rows (start - 1)%nat ltac:(lia)) as [[tl cl] El]. exists tl, cl. split; [done|]. destruct (Z.leb_spec start 1) as [H1|H1].
  - assert (start = 1%nat) as -> by lia. cbn in El. rewrite H0 in El. by simplify_eq.
  - replace start with (S (start - 1)) by lia. rewrite (take_S_r _ _ _ El). unfold diff_window. destruct rows as [|r rs]; [done|]. destruct start as [|[|st]]; [lia|lia|].
    replace (S (S st) - 1)%nat with (S st) by lia. cbn [take tail app]. change (Z.to_nat DIFFICULTY_BLOCKS_COUNT) with (S 734). rewrite lastn_snoc, fmap_app. cbn. by rewrite last_snoc.
Qed.

(** Rows that agree below [start] agree on the genesis row. *)
Lemma recomputed_genesis hf start rows rows' : recomputed hf start rows rows' -> (1 <= start)%nat -> rows' !! 0%nat = rows !! 0%nat.
Proof. intros (_ & E & _) Hs. apply (f_equal (.!! 0%nat)) in E. by rewrite !lookup_take_lt in E by lia. Qed.

Lemma recalculate_spec s hf points rows rows' (start : nat) t0 d :
  rows_of s rows -> Z.of_nat (length rows) < 2 ^ 64 -> (1 <= start <= length rows)%nat -> rows !! 0%nat = Some (t0, 1) -> recomputed hf start rows rows' -> m_fixed_difficulty d = 0 ->
  exists s' d', recalculate_difficulties s hf points (Some (Z.of_nat start)) d = Ok (Z.of_nat (length rows - agree rows rows'), s', d') /\ rows_of s' rows' /\ same_but_difficulty s s' /\
    (rows' = rows -> s' = s /\ d' = d).
Proof.
  intros Hr Hlt Hs H0 Hre Hf. pose proof (rows_length _ _ _ _ Hre) as Hlen. pose proof (agree_start _ _ _ _ Hre Hs) as Ha. pose proof Hre as (Et & Etk & Hrule).
  unfold recalculate_difficulties. rewrite Hf. cbn [Z.eqb negb mbind result_bind]. pose proof Hr as [Hh _]. rewrite Hh, wrap_small by (unfold is_uint; lia).
  destruct (last_before rows' start t0) as (tl & cl & El & Elast); [lia|by rewrite (recomputed_genesis _ _ _ _ Hre) by lia|].
  assert (Ew : (if 1 <? start then read_back s (start - 1) (Z.to_nat DIFFICULTY_BLOCKS_COUNT) [] [] else Ok ([], [])) = Ok ((diff_window (take start rows')).*1, (diff_window (take start rows')).*2)).
  { rewrite Etk. destruct (Z.ltb_spec 1 start) as [H1|H1].
    - replace (start - 1) with (Z.of_nat (start - 1)) by lia. rewrite read_back_rows with (rows := rows) by (done || lia). rewrite !app_nil_r. by replace (S (start - 1)) with start by lia.
    - assert (start = 1%nat) as -> by lia. by destruct rows. }
  rewrite Ew. cbn [mbind result_bind].
  rewrite Elast. cbn [mbind result_bind]. pose proof (recalculate_loop_spec s hf rows rows' start Hr Hre Hs (length rows - start) start tl cl ltac:(lia) ltac:(lia) El) as Hloop.
  rewrite decide_True in Hloop by lia. replace (start - agree rows rows')%nat with 0%nat in Hloop by lia. rewrite take_0 in Hloop. replace (Z.to_nat (length rows - 1 + 1 - start)) with (length rows - start)%nat by lia. rewrite Hloop. cbn [mbind result_bind].
  rewrite length_fmap, length_drop, Hlen. destruct (decide (length rows <= agree rows rows')%nat) as [Hd|Hd].
  - assert (rows' = rows) as -> by (pose proof (agree_take rows rows') as E; rewrite !take_ge in E by lia; done). cbn. exists s, d. done.
  - destruct (Z.ltb_spec 0 (agree rows rows')) as [_|?]; [|lia]. destruct (correct_rows s rows rows' (agree rows rows') Hr Et (agree_take _ _) ltac:(lia)) as (s' & E & Hr' & Hsame).
    { apply Forall_lookup. intros i x Hx. rewrite list_lookup_fmap, lookup_drop in Hx. destruct (rows' !! (agree rows rows' + i)%nat) as [[t cum]|] eqn:Ex; [|done]. cbn in Hx. simplify_eq.
      destruct (lookup_lt_is_Some_2 rows' (agree rows rows' + i - 1)%nat) as [[t1 c1] E1]; [apply lookup_lt_Some in Ex; lia|]. eapply Hrule; [|exact Ex|exact E1]. lia. }
    rewrite E. do 2 eexists. split; [done|]. split; [done|]. split; [done|]. intros ->. rewrite agree_refl in Hd. lia.
Qed.

(** C28: The recalculation writes exactly the cumulative difficulties that the rule
    determines from the start height on, reports how many blocks lie above the
    first one that had drifted, touches nothing else of the database, and finds
    nothing to do when it is run again. *)
Theorem recalculation_corrects s hf points rows rows' (start : nat) t0 d :
  rows_of s rows -> Z.of_nat (length rows) < 2 ^ 64 -> (1 <= start <= length rows)%nat -> rows !! 0%nat = Some (t0, 1) -> recomputed hf start rows rows' -> m_fixed_difficulty d = 0 ->
  exists s' d', recalculate_difficulties s hf points (Some (Z.of_nat start)) d = Ok (Z.of_nat (length rows - agree rows rows'), s', d') /\
    rows_of s' rows' /\ same_but_difficulty s s' /\
    forall d0, m_fixed_difficulty d0 = 0 -> recalculate_difficulties s' hf points (Some (Z.of_nat start)) d0 = Ok (0, s', d0).
Proof.
  intros Hr Hlt Hs H0 Hre Hf. destruct (recalculate_spec s hf points rows rows' start t0 d Hr Hlt Hs H0 Hre Hf) as (s' & d' & E & Hr' & Hsame & _). exists s', d'. split_and!; try done.
  intros d0 Hd0. pose proof (rows_length _ _ _ _ Hre) as Hlen. pose proof Hre as (Et & Etk & Hrule).
  assert (Hre' : recomputed hf start rows' rows') by done.
  assert (H0' : rows' !! 0%nat = Some (t0, 1)) by (by rewrite (recomputed_genesis _ _ _ _ Hre) by lia).
  destruct (recalculate_spec s' hf points rows' rows' start t0 d0 Hr' ltac:(lia) ltac:(lia) H0' Hre' Hd0) as (s2 & d2 & E2 & _ & _ & Heq). destruct (Heq eq_refl) as [-> ->].
  rewrite E2, agree_refl, Nat.sub_diag. done.
Qed.

(** ** Examples *)


Definition sample_alt (height time cum : Z) : block_extended_info := mk_bei (Transaction.mk_block (mk_header 1 0 time null_hash 0) sample_tx []) height 2000 cum 0.
Definition sample_alt_be (b : block_extended_info) : block_entry := mk_block_entry (bl b) 0 [] 0 0 (cumulative_difficulty b) 0.


(** A database of four blocks whose third cumulative difficulty has drifted. *)
Definition sample_info (t d : Z) : mdb_block_info := mk_block_info t 0 0 d 0 null_hash 0 0.
Definition drifted_rows : list (Z * Z) := [(10000, 1); (10060, 2); (10120, 9); (10180, 10)].
Definition corrected_rows : list (Z * Z) := [(10000, 1); (10060, 2); (10120, 3); (10180, 5)].
Definition drifted_db : db :=
  mk_db (mk_block_tables (map_seqZ 0 [[0]; [1]; [2]; [3]]) (map_seqZ 0 (map (fun '(t, d) => sample_info t d) drifted_rows)) ∅) (mk_tx_tables ∅ ∅ ∅ ∅ ∅ ∅) (mk_output_tables ∅ ∅) ∅ 0.

Lemma drifted_rows_of : rows_of drifted_db drifted_rows.
Proof. split; [done|]. intros [|[|[|[|i]]]] t d E; cbn in E; simplify_eq; by vm_compute. Qed.

Lemma corrected_recomputed : recomputed sample_init 1 drifted_rows corrected_rows.
Proof.
  split; [done|]. split; [done|]. intros [|[|[|[|i]]]] t cum t0 cum0 Hi E E0; cbn in E, E0; simplify_eq; try lia; (split; [lia|by vm_compute]).
Qed.

Lemma recalculation_corrects_witness :
  exists s' d', recalculate_difficulties drifted_db sample_init [] (Some 1) (new_diff_state 0) = Ok (2, s', d') /\ rows_of s' corrected_rows.
Proof.
  destruct (recalculation_corrects drifted_db sample_init [] drifted_rows corrected_rows 1 10000 (new_diff_state 0) drifted_rows_of ltac:(done) ltac:(cbn; lia) eq_refl corrected_recomputed eq_refl) as (s' & d' & E & Hr & _).
  exists s', d'. exact (conj E Hr).
Defined.
