(* ===== verification/FeesTime.v ===== *)
(** * FeesTime: minimum fees, unlock times and timestamp rules

    Models [get_dynamic_base_fee], [check_fee],
    [get_dynamic_base_fee_estimate_2021_scaling], [is_tx_spendtime_unlocked],
    [get_adjusted_time] and the timestamp checks of [Blockchain] in
    src/cryptonote_core/blockchain.cpp.  The clock is an argument; [None] is a
    thrown exception or a failed assertion. *)
From S2P Require Import Prelude IntUtil Config Reward RollingMedian BlockWeight Money.
#[local] Open Scope mach_scope.

(** ** Definitions *)

(** *** Fees *)

(** [tools::PowerOf<10, CRYPTONOTE_DISPLAY_DECIMAL_POINT - PER_KB_FEE_QUANTIZATION_DECIMALS>]. *)
Definition get_fee_quantization_mask : Z := 10 ^ (CRYPTONOTE_DISPLAY_DECIMAL_POINT - PER_KB_FEE_QUANTIZATION_DECIMALS).

Definition get_dynamic_base_fee (block_reward median_block_weight : Z) : option Z :=
  let min_block_weight := CRYPTONOTE_BLOCK_GRANTED_FULL_REWARD_ZONE_V5 in
  let median_block_weight := if median_block_weight <? min_block_weight then min_block_weight else median_block_weight in
  let '(lo, hi) := mul128 block_reward DYNAMIC_FEE_REFERENCE_TRANSACTION_WEIGHT in
  let '(hi, lo, _, _) := div128_64 hi lo median_block_weight in
  let '(hi, lo, _, _) := div128_64 hi lo median_block_weight in
  if negb (hi =? 0) then None
  else
    let lo := lo ⊟ lo / 20 in
    Some (if lo =? 0 then 1 else lo).

Definition last_coins (bc : blockchain) : Z :=
  match last (m_db bc) with Some b => bi_coins b | None => 0 end.

Definition check_fee (bc : blockchain) (tx_weight fee : Z) : option bool :=
  let version := m_current_version bc in
  let median := m_current_block_cumul_weight_limit bc / 2 in
  match get_block_reward median 1 (last_coins bc) version with
  | reward_ok base_reward =>
      fee_per_byte ← get_dynamic_base_fee base_reward (Z.min median (m_long_term_effective_median_block_weight bc));
      let needed_fee := tx_weight ⊠ fee_per_byte in
      let mask := get_fee_quantization_mask in
      let needed_fee := ((needed_fee ⊞ mask ⊟ 1) / mask) ⊠ mask in
      Some (negb (fee <? needed_fee ⊟ needed_fee / 50))
  | reward_too_big => Some false
  | reward_assert_failed => None
  end.

Definition fee_estimates (base_reward Mnw Mlw : Z) : option (list Z) :=
  let Mfw := Z.min Mnw Mlw in
  let ref := DYNAMIC_FEE_REFERENCE_TRANSACTION_WEIGHT in
  let zone := CRYPTONOTE_BLOCK_GRANTED_FULL_REWARD_ZONE_V5 in
  let Fl := (base_reward ⊠ ref) / (Mfw ⊠ Mfw) in
  let Fn := (4 ⊠ base_reward ⊠ ref) / (Mfw ⊠ Mfw) in
  let Fm := (16 ⊠ base_reward ⊠ ref) / (zone ⊠ Mfw) in
  let Fh := Z.max (4 ⊠ Fm) ((4 ⊠ Fm ⊠ Mfw) / ((32 ⊠ ref ⊠ Mnw) / zone)) in
  f0 ← round_money_up Fl (Z.to_nat CRYPTONOTE_SCALING_2021_FEE_ROUNDING_PLACES);
  f1 ← round_money_up Fn (Z.to_nat CRYPTONOTE_SCALING_2021_FEE_ROUNDING_PLACES);
  f2 ← round_money_up Fm (Z.to_nat CRYPTONOTE_SCALING_2021_FEE_ROUNDING_PLACES);
  f3 ← round_money_up Fh (Z.to_nat CRYPTONOTE_SCALING_2021_FEE_ROUNDING_PLACES);
  Some [f0; f1; f2; f3].

Definition BLOCK_REWARD_OVERESTIMATE : Z := 10 * 1000000000000.

Definition get_dynamic_base_fee_estimate_2021_scaling (bc : blockchain) (grace_blocks : Z) : option (list Z) :=
  if negb (grace_blocks <=? CRYPTONOTE_REWARD_BLOCKS_WINDOW) then None
  else
    let rm := foldl (fun s _ => insert 0 s) (m_cache_rolling_median bc) (seq 0 (Z.to_nat grace_blocks)) in
    let Mlw := Z.max (if size rm =? 0 then 0 else rm_median rm) CRYPTONOTE_BLOCK_GRANTED_FULL_REWARD_ZONE_V5 in
    weights ← get_last_n_blocks_weights bc (100 - grace_blocks);
    let weights := weights ++ replicate (Z.to_nat grace_blocks) 0 in
    let Msw := Z.max (median weights) Mlw in
    let Mnw := Z.min Msw (50 ⊠ Mlw) in
    base_reward ← match get_block_reward (m_current_block_cumul_weight_limit bc / 2) 1 (last_coins bc) (m_current_version bc) with
                  | reward_ok r => Some r
                  | reward_too_big => Some BLOCK_REWARD_OVERESTIMATE
                  | reward_assert_failed => None
                  end;
    fee_estimates base_reward Mnw Mlw.

(** *** Time *)

(** [misc_utils::median] sorts the vector it is given: the value and the vector
    left behind. *)
Definition median_in_place (v : list Z) : Z * list Z := (median v, if (length v <=? 1)%nat then v else zsort v).

Definition get_adjusted_time (bc : blockchain) (now height : Z) : option Z :=
  if height <? BLOCKCHAIN_TIMESTAMP_CHECK_WINDOW then Some now
  else
    let offset := height - BLOCKCHAIN_TIMESTAMP_CHECK_WINDOW in
    timestamps ← mapM (fun o => bi_timestamp <$> m_db bc !! Z.to_nat o) (seqZ offset (height - offset));
    let '(median_ts, timestamps) := median_in_place timestamps in
    let median_ts := median_ts ⊞ (BLOCKCHAIN_TIMESTAMP_CHECK_WINDOW + 1) * DIFFICULTY_TARGET_V2 / 2 in
    let adjusted_current_block_ts := default 0 (last timestamps) ⊞ DIFFICULTY_TARGET_V2 in
    Some (if adjusted_current_block_ts <? median_ts then adjusted_current_block_ts else median_ts).

Definition is_tx_spendtime_unlocked (bc : blockchain) (now unlock_time hf_version : Z) : option bool :=
  if unlock_time <? CRYPTONOTE_MAX_BLOCK_NUMBER
  then Some (unlock_time <=? db_height bc ⊟ 1 ⊞ CRYPTONOTE_LOCKED_TX_ALLOWED_DELTA_BLOCKS)
  else
    current_time ← (if HF_VERSION_DETERMINISTIC_UNLOCK_TIME <=? hf_version then get_adjusted_time bc now (db_height bc) else Some now);
    let delta := if m_current_version bc <? 2 then CRYPTONOTE_LOCKED_TX_ALLOWED_DELTA_SECONDS_V1 else CRYPTONOTE_LOCKED_TX_ALLOWED_DELTA_SECONDS_V2 in
    Some (unlock_time <=? current_time ⊞ delta).

(** The verdict and [*median_ts_out]. *)
Definition check_block_timestamp (now : Z) (timestamps : list Z) (timestamp : Z) : bool * Z :=
  if now ⊞ CRYPTONOTE_BLOCK_FUTURE_TIME_LIMIT <? timestamp then (false, 0)
  else if length timestamps <? BLOCKCHAIN_TIMESTAMP_CHECK_WINDOW then (true, 0)
  else
    let '(median_ts, _) := median_in_place timestamps in
    (negb (timestamp <? median_ts), median_ts).

Definition check_block_timestamp_main_chain (bc : blockchain) (now timestamp : Z) : option (bool * Z) :=
  let h := db_height bc in
  let offset := if BLOCKCHAIN_TIMESTAMP_CHECK_WINDOW <=? h then h - BLOCKCHAIN_TIMESTAMP_CHECK_WINDOW else 0 in
  timestamps ← mapM (fun o => bi_timestamp <$> m_db bc !! Z.to_nat o) (seqZ offset (h - offset));
  Some (check_block_timestamp now timestamps timestamp).

(** ** Lemmas *)

Lemma mapM_window bc n : 0 <= n <= db_height bc ->
  mapM (fun o => bi_timestamp <$> m_db bc !! Z.to_nat o) (seqZ (db_height bc - n) n) = Some (lastn (Z.to_nat n) (map bi_timestamp (m_db bc))).
Proof.
  unfold db_height. intros Hn. apply mapM_Some. apply Forall2_same_length_lookup. split.
  - rewrite length_lastn, length_map, length_seqZ. lia.
  - intros i o t Ho Ht. apply lookup_seqZ in Ho as [-> Hi]. unfold lastn in Ht. rewrite lookup_drop, length_map, list_lookup_fmap in Ht.
    rewrite <- Ht. f_equal. f_equal. lia.
Qed.

Definition count_le (t : Z) (l : list Z) : nat := length (filter (fun y => y <= t) l).

(** In a sorted list the entries up to [t] come first. *)
Lemma sorted_count s t : StronglySorted Z.le s -> forall i x, s !! i = Some x -> x <= t <-> (i < count_le t s)%nat.
Proof.
  unfold count_le. induction 1 as [|y s HS IH HF]; intros i x Hx; [done|]. destruct (decide (y <= t)) as [Hy|Hy].
  - rewrite filter_cons_True by done. cbn [length]. destruct i as [|i]; [injection Hx as <-; split; [lia|done]|]. cbn in Hx. rewrite IH by done. lia.
  - rewrite filter_cons_False by done. rewrite filter_none.
    2:{ eapply Forall_impl; [exact HF|]. simpl. lia. }
    cbn [length]. split; [|lia]. destruct i as [|i]; [injection Hx as <-; lia|]. cbn in Hx. rewrite Forall_lookup in HF. specialize (HF _ _ Hx). lia.
Qed.

(** The median of 60 values against a bound. *)
Lemma median_60 l t : length l = 60%nat -> Forall is_u64 l ->
  (median l <= t -> (30 <= count_le t l)%nat) /\ ((31 <= count_le t l)%nat -> median l <= t).
Proof.
  intros Hl HF. assert (Hp : zsort l ≡ₚ l) by apply merge_sort_Permutation.
  assert (Ecnt : count_le t l = count_le t (zsort l)) by (unfold count_le; by rewrite Hp). rewrite Ecnt.
  assert (HF' : Forall is_u64 (zsort l)) by (by rewrite Hp).
  assert (E : median l = get_mid (nth 29 (zsort l) 0) (nth 30 (zsort l) 0)).
  { unfold median. rewrite length_zsort, Hl. done. }
  pose proof (length_zsort l) as Hls. rewrite Hl in Hls. pose proof (zsort_sorted l) as HS.
  destruct (lookup_lt_is_Some_2 (zsort l) 29 ltac:(lia)) as [a Ha]. destruct (lookup_lt_is_Some_2 (zsort l) 30 ltac:(lia)) as [b Hb].
  rewrite (nth_lookup_Some _ _ _ _ Ha), (nth_lookup_Some _ _ _ _ Hb) in E. rewrite Forall_lookup in HF'. pose proof (HF' _ _ Ha) as Hua. pose proof (HF' _ _ Hb) as Hub.
  rewrite get_mid_avg in E by done. pose proof (strongly_sorted_lookup Z.le _ 29 30 a b HS ltac:(lia) Ha Hb) as Hab.
  pose proof (sorted_count _ t HS 29 a Ha) as Ca. pose proof (sorted_count _ t HS 30 b Hb) as Cb. rewrite E. split.
  - intros Hm. assert (Hat : a <= t) by zlia. apply Ca in Hat. lia.
  - intros Hc. assert (Hbt : b <= t) by (apply Cb; lia). zlia.
Qed.

(** *** Fees *)

Lemma base_fee_spec r m : 0 <= r < 2 ^ 46 -> 0 <= m < 2 ^ 63 ->
  let m' := Z.max 300000 m in let x := r * 3000 / (m' * m') in
  get_dynamic_base_fee r m = Some (Z.max 1 (x - x / 20)) /\ 0 <= x < 2 ^ 22.
Proof.
  intros Hr Hm. cbv zeta. unfold get_dynamic_base_fee, CRYPTONOTE_BLOCK_GRANTED_FULL_REWARD_ZONE_V5, DYNAMIC_FEE_REFERENCE_TRANSACTION_WEIGHT. cbv zeta.
  assert ((if m <? 300000 then 300000 else m) = Z.max 300000 m) as -> by (destruct (Z.ltb_spec m 300000); lia).
  set (m' := Z.max 300000 m). assert (Hm' : 300000 <= m' < 2 ^ 63) by lia.
  destruct (mul128 r 3000) as [lo hi] eqn:Em. destruct (mul128_correct r 3000 lo hi) as (Hprod & Hlo & Hhi); [unfold is_uint; lia..|done|].
  destruct (div128_64_correct hi lo m') as (qh & ql & rl & E1 & H1 & Hrl & Hqh & Hql); [done|done|unfold is_uint; lia|lia|]. rewrite E1.
  destruct (div128_64_correct qh ql m') as (qh' & ql' & rl' & E2 & H2 & Hrl' & Hqh' & Hql'); [done|done|unfold is_uint; lia|lia|]. rewrite E2.
  assert (Hx : 0 <= r * 3000 / (m' * m') < 2 ^ 22) by (split; [apply Z.div_pos; nia|apply Z.div_lt_upper_bound; nia]).
  assert (Hq1 : qh * 2 ^ 64 + ql = r * 3000 / m') by (apply (Z.div_unique _ _ _ rl); [lia|rewrite (Z.mul_comm m'); lia]).
  assert (Hq2 : qh' * 2 ^ 64 + ql' = r * 3000 / (m' * m')).
  { rewrite <- Z.div_div by lia. rewrite <- Hq1. apply (Z.div_unique _ _ _ rl'); [lia|rewrite (Z.mul_comm m'); lia]. }
  unfold is_uint in *. set (x := r * 3000 / (m' * m')) in *. assert (qh' = 0) as -> by lia. assert (ql' = x) as -> by lia.
  change (0 =? 0) with true. cbn [negb]. rewrite wrap_small by (unfold is_uint; zlia). split; [|done]. f_equal. destruct (Z.eqb_spec (x - x / 20) 0); zlia.
Qed.

Lemma reward_weight_one m coins v : get_block_reward m 1 coins v = reward_ok (get_base_reward coins v).
Proof.
  unfold get_block_reward. rewrite effective_median_if. cbv zeta. pose proof (min_block_weight_pos v).
  assert (20000 <= effective_median m v) by (unfold effective_median; lia). by btrue (1 <=? effective_median m v).
Qed.

Lemma zsort_last_max l : l <> [] -> exists m, last (zsort l) = Some m /\ m ∈ l /\ Forall (fun y => y <= m) l.
Proof.
  intros Hne. assert (Hp : zsort l ≡ₚ l) by apply merge_sort_Permutation. pose proof (zsort_sorted l) as HS.
  destruct (zsort l) as [|m s _] using rev_ind; [apply Permutation_nil_l in Hp; by subst|]. exists m. rewrite last_snoc.
  split; [done|]. rewrite <- Hp. split; [apply elem_of_app; right; by left|].
  apply Forall_app. split; [|by repeat constructor]. apply Forall_lookup. intros i y Hy.
  apply (strongly_sorted_lookup Z.le (s ++ [m]) i (length s) y m HS); [by apply lookup_lt_Some in Hy|by apply lookup_app_l_Some|].
  by rewrite lookup_app_r, Nat.sub_diag.
Qed.

(** ** Properties *)

(** a transaction is accepted by [check_fee] exactly when it pays at least 98%
    of its weight times the fee per byte, rounded up to a multiple of 10^4 atomic
    units, the fee per byte being 95% of reward * 3000 / median^2 (at least 1) for
    the base reward of the next block and the smaller of the two medians (at least
    300000); no step overflows. *)
Theorem check_fee_rule bc w fee :
  is_u64 (last_coins bc) -> 0 <= m_current_block_cumul_weight_limit bc < 2 ^ 64 -> 0 <= m_long_term_effective_median_block_weight bc < 2 ^ 63 -> 0 <= w < 2 ^ 40 ->
  let r := get_base_reward (last_coins bc) (m_current_version bc) in
  let m := Z.max 300000 (Z.min (m_current_block_cumul_weight_limit bc / 2) (m_long_term_effective_median_block_weight bc)) in
  let x := r * 3000 / (m * m) in
  let needed := (w * Z.max 1 (x - x / 20) + 9999) / 10000 * 10000 in
  check_fee bc w fee = Some (needed - needed / 50 <=? fee).
Proof.
  intros Hc Hlim Hlt Hw. cbv zeta. unfold check_fee. cbv zeta. rewrite reward_weight_one. pose proof (get_base_reward_range _ (m_current_version bc) Hc) as Hr.
  set (r := get_base_reward _ _) in *. set (md := Z.min _ _). assert (Hmd : 0 <= md < 2 ^ 63) by (unfold md; zlia).
  destruct (base_fee_spec r md ltac:(lia) Hmd) as [E Hx]. rewrite E. cbn [mbind option_bind]. set (x := r * 3000 / _) in *.
  set (fpb := Z.max 1 (x - x / 20)). assert (Hf : 1 <= fpb < 2 ^ 22) by (unfold fpb; zlia).
  change get_fee_quantization_mask with 10000. rewrite (wrap_small 64 (w * fpb)) by (unfold is_uint; nia).
  rewrite (wrap_small 64 (w * fpb + 10000)) by (unfold is_uint; nia). rewrite (wrap_small 64 (w * fpb + 10000 - 1)) by (unfold is_uint; nia).
  replace (w * fpb + 10000 - 1) with (w * fpb + 9999) by lia. assert (Hp : 0 <= w * fpb < 2 ^ 62) by nia. set (p := w * fpb) in *. clearbody p.
  rewrite (wrap_small 64 ((p + 9999) / 10000 * 10000)) by (unfold is_uint; zlia). set (needed := (p + 9999) / 10000 * 10000).
  assert (Hn : 0 <= needed < 2 ^ 63) by (unfold needed; zlia). clearbody needed. rewrite wrap_small by (unfold is_uint; zlia).
  f_equal. destruct (Z.ltb_spec fee (needed - needed / 50)), (Z.leb_spec (needed - needed / 50) fee); done || lia.
Qed.

(** the timestamp rule on the main chain: a block is accepted only when its
    timestamp is at most two hours ahead of the clock and, from 60 blocks on, not
    before at least half of the last 60 timestamps; a block within the clock limit
    that is not before 31 of them is accepted. *)
Theorem block_timestamp_rule bc now ts :
  Forall (fun b => is_u64 (bi_timestamp b)) (m_db bc) -> 0 <= now < 2 ^ 63 ->
  exists verdict med, check_block_timestamp_main_chain bc now ts = Some (verdict, med) /\
    let stamps := lastn 60 (map bi_timestamp (m_db bc)) in
    (verdict = true -> ts <= now + 7200 /\ (length (m_db bc) < 60 \/ (30 <= count_le ts stamps)%nat)) /\
    (ts <= now + 7200 -> length (m_db bc) < 60 \/ (31 <= count_le ts stamps)%nat -> verdict = true).
Proof.
  intros HF Hnow. unfold check_block_timestamp_main_chain, BLOCKCHAIN_TIMESTAMP_CHECK_WINDOW. cbv zeta.
  set (n := Z.min 60 (db_height bc)). assert (Hoff : (if 60 <=? db_height bc then db_height bc - 60 else 0) = db_height bc - n) by (unfold n, db_height; bcase; lia).
  rewrite Hoff. replace (db_height bc - (db_height bc - n)) with n by lia. rewrite mapM_window by (unfold n, db_height; lia). cbn [mbind option_bind].
  assert (Hl : lastn (Z.to_nat n) (map bi_timestamp (m_db bc)) = lastn 60 (map bi_timestamp (m_db bc))).
  { unfold lastn. f_equal. rewrite length_map. unfold n, db_height. lia. }
  rewrite Hl. set (stamps := lastn 60 _). assert (Hls : length stamps = (60 `min` length (m_db bc))%nat) by (unfold stamps; by rewrite length_lastn, length_map).
  unfold check_block_timestamp, CRYPTONOTE_BLOCK_FUTURE_TIME_LIMIT, BLOCKCHAIN_TIMESTAMP_CHECK_WINDOW, median_in_place.
  change (60 * 60 * 2) with 7200. rewrite (wrap_small 64 (now + 7200)) by (unfold is_uint; lia).
  destruct (Z.ltb_spec (now + 7200) ts); [eexists _, _; split; [done|]; cbv zeta; split; [done|lia]|].
  destruct (Z.ltb_spec (length stamps) 60); [eexists _, _; split; [done|]; cbv zeta; split; [split; [lia|left; lia]|done]|].
  destruct (median_60 stamps ts) as [M1 M2]; [lia| |].
  { unfold stamps, lastn. apply Forall_drop, Forall_fmap. done. }
  eexists _, _. split; [done|]. cbv zeta. destruct (Z.ltb_spec ts (median stamps)); cbn [negb]; split; try done.
  - intros _ [Hs|Hs]; [lia|]. specialize (M2 Hs). lia.
  - intros _. split; [lia|]. right. by apply M1.
Qed.

(** from 60 blocks on, the time used for unlock times is the smaller of the
    median of the last 60 timestamps plus 3660 and their maximum plus 120: the
    vector was sorted by [median], so its last entry is not the timestamp of the
    previous block. *)
Theorem adjusted_time_uses_max bc now :
  Forall (fun b => 0 <= bi_timestamp b < 2 ^ 63) (m_db bc) -> 60 <= db_height bc ->
  let stamps := lastn 60 (map bi_timestamp (m_db bc)) in
  exists mx, mx ∈ stamps /\ Forall (fun t => t <= mx) stamps /\
    get_adjusted_time bc now (db_height bc) = Some (Z.min (mx + 120) (median stamps + 3660)).
Proof.
  intros HF Hh. cbv zeta. unfold get_adjusted_time, BLOCKCHAIN_TIMESTAMP_CHECK_WINDOW. bfalse (db_height bc <? 60).
  replace (db_height bc - (db_height bc - 60)) with 60 by lia. rewrite mapM_window by lia. cbn [mbind option_bind]. change (Z.to_nat 60) with 60%nat.
  set (stamps := lastn 60 _). assert (Hls : length stamps = 60%nat) by (unfold stamps; rewrite length_lastn, length_map; unfold db_height in Hh; lia).
  assert (Hst : Forall (fun t => 0 <= t <= 2 ^ 63 - 1) stamps).
  { unfold stamps, lastn. apply Forall_drop, Forall_fmap. eapply Forall_impl; [exact HF|]. simpl. lia. }
  assert (Hne : stamps <> []) by (by destruct stamps). destruct (zsort_last_max stamps Hne) as (mx & El & Hin & Hmx). exists mx. split_and!; [done..|].
  unfold median_in_place. rewrite Hls. change (60 <=? 1)%nat with false. cbv iota. rewrite El. cbn [default]. unfold id.
  pose proof (median_bounds 0 (2 ^ 63 - 1) stamps ltac:(lia) ltac:(lia) Hne Hst) as Hm. rewrite Forall_forall in Hst. pose proof (Hst mx Hin).
  change ((60 + 1) * DIFFICULTY_TARGET_V2 / 2) with 3660. unfold DIFFICULTY_TARGET_V2.
  rewrite (wrap_small 64 (mx + 120)), (wrap_small 64 (median stamps + 3660)) by (unfold is_uint; lia).
  f_equal. destruct (Z.ltb_spec (mx + 120) (median stamps + 3660)); lia.
Qed.

(** ** Witnesses *)

(** Sixty blocks; the last but one carries a time ahead of the others. *)
Definition timed (t : Z) : block_info := mk_bi [t] t 1000 1000 (2 ^ 63).
Definition sixty : blockchain :=
  with_db (set_limits sample_bc 300000 600000 300000) (map timed (seqZ 1000000 58) ++ [timed 1003000; timed 1000060]).

Lemma sixty_stamps : Forall (fun b => 0 <= bi_timestamp b < 2 ^ 63) (m_db sixty).
Proof.
  apply Forall_app. split; [|repeat constructor; cbn; lia]. apply Forall_fmap, Forall_forall. intros t Ht. apply elem_of_seqZ in Ht. cbn. lia.
Qed.

Lemma sixty_stamps_u64 : Forall (fun b => is_u64 (bi_timestamp b)) (m_db sixty).
Proof. eapply Forall_impl; [exact sixty_stamps|]. unfold is_uint. simpl. lia. Qed.

Lemma check_fee_rule_witness : check_fee sixty 2000 1100000000 = Some true.
Proof.
  etransitivity.
  - apply (check_fee_rule sixty 2000 1100000000).
    + unfold is_uint. vm_compute. split; [discriminate|reflexivity].
    + vm_compute. split; [discriminate|reflexivity].
    + vm_compute. split; [discriminate|reflexivity].
    + vm_compute. split; [discriminate|reflexivity].
  - vm_compute. reflexivity.
Defined.

Lemma block_timestamp_rule_witness :
  exists verdict med, check_block_timestamp_main_chain sixty 1000000 1000029 = Some (verdict, med) /\
    let stamps := lastn 60 (map bi_timestamp (m_db sixty)) in
    (verdict = true -> 1000029 <= 1000000 + 7200 /\ (length (m_db sixty) < 60 \/ (30 <= count_le 1000029 stamps)%nat)) /\
    (1000029 <= 1000000 + 7200 -> length (m_db sixty) < 60 \/ (31 <= count_le 1000029 stamps)%nat -> verdict = true).
Proof. apply (block_timestamp_rule sixty 1000000 1000029 sixty_stamps_u64). lia. Defined.

Lemma adjusted_time_uses_max_witness :
  exists mx, mx ∈ lastn 60 (map bi_timestamp (m_db sixty)) /\ Forall (fun t => t <= mx) (lastn 60 (map bi_timestamp (m_db sixty))) /\
    get_adjusted_time sixty 0 (db_height sixty) = Some (Z.min (mx + 120) (median (lastn 60 (map bi_timestamp (m_db sixty))) + 3660)).
Proof. apply (adjusted_time_uses_max sixty 0 sixty_stamps). vm_compute. discriminate. Defined.

(** The chain above: the documented rule gives the time of its last block plus
    120, the code reports the time of the block before it plus 120. *)
Lemma sixty_adjusted : get_adjusted_time sixty 0 60 = Some 1003120 /\ bi_timestamp <$> last (m_db sixty) = Some 1000060.
Proof. vm_compute. done. Qed.
