(* ===== verification/TxInputs.v ===== *)
(** * TxInputs: transaction inputs against the chain

    Models the checks of transaction inputs in src/cryptonote_core/blockchain.cpp
    that read the chain: [scan_outputkeys_for_indexes] with the table of outputs
    scanned ahead, [check_tx_input], both overloads of [check_tx_inputs] with the
    rules on ring sizes, versions, order and age, [check_for_double_spend] and
    [have_tx_keyimges_as_spent]; and the conversions of ring offsets in
    src/cryptonote_basic/cryptonote_format_utils.cpp. *)
From stdpp Require Import gmap.
From S2P Require Import Prelude Varint Archive Config Reward RollingMedian BlockWeight FeesTime Keccak TxFormat RctFormat Transaction TxParse TreeHash TxHash Money TxVerify ChainDb.
#[local] Open Scope mach_scope.
#[local] Arguments put : simpl never.
#[local] Arguments get : simpl never.

(** ** Definitions *)

(** *** Ring offsets *)

(** The offset before, and the rest; sums wrap. *)
Fixpoint absolute_from (base : Z) (off : list Z) : list Z :=
  match off with [] => [] | o :: off => (o ⊞ base) :: absolute_from (o ⊞ base) off end.
Definition relative_output_offsets_to_absolute (off : list Z) : list Z := match off with [] => [] | o :: off => o :: absolute_from o off end.

Fixpoint relative_from (base : Z) (off : list Z) : list Z :=
  match off with [] => [] | o :: off => (o ⊟ base) :: relative_from o off end.
Definition absolute_output_offsets_to_relative (off : list Z) : list Z := match zsort off with [] => [] | o :: off => o :: relative_from o off end.

(** *** The chain *)

(** The members of [Blockchain] read here; the other members of [cs_bc] are those of
    the weight rules. *)
Record chain_state := mk_chain_state {
  cs_db : db;
  cs_bc : blockchain;
  m_scan_table : gmap (list Z) (gmap (list Z) (list output_data_t));
  (* [time(NULL)] *)
  cs_now : Z;
  (* [m_blocks_hash_check.size()] *)
  m_blocks_hash_check_size : Z;
}.

(** The blocks as the time rules see them. *)
Definition block_infos (s : db) : list block_info :=
  omap (fun h => (fun bi => mk_bi (ChainDb.bi_hash bi) (ChainDb.bi_timestamp bi) (ChainDb.bi_weight bi) (bi_long_term_block_weight bi) (ChainDb.bi_coins bi)) <$> m_block_info (d_blocks s) !! h)
    (seqZ 0 (height s)).

Definition bc_of (cs : chain_state) : blockchain :=
  let bc := cs_bc cs in
  mk_bc (block_infos (cs_db cs)) (m_current_version bc) (m_long_term_block_weights_window bc) (m_cache_tip_hash bc) (m_cache_rolling_median bc)
    (m_current_block_cumul_weight_median bc) (m_current_block_cumul_weight_limit bc) (m_long_term_effective_median_block_weight bc).

Definition hf_version_of (cs : chain_state) : Z := m_current_version (cs_bc cs).

Definition have_tx_keyimg_as_spent (cs : chain_state) (key_im : list Z) : bool := has_key_image (cs_db cs) key_im.
Definition have_tx_keyimges_as_spent (cs : chain_state) (tx : transaction) : bool :=
  existsb (fun i => match i with txin_to_key _ _ k => have_tx_keyimg_as_spent cs k | _ => true end) (tx_vin tx).

(** The loop of [check_for_double_spend]: the verdict and the keys spent in the
    block so far. *)
Fixpoint double_spend_loop (s : db) (vin : list txin_v) (keys_this_block : gset (list Z)) : bool * gset (list Z) :=
  match vin with
  | [] => (true, keys_this_block)
  | txin_to_key _ _ ki :: vin =>
      let inserted := negb (bool_decide (ki ∈ keys_this_block)) in
      let keys_this_block := {[ki]} ∪ keys_this_block in
      if negb inserted || has_key_image s ki then (false, keys_this_block) else double_spend_loop s vin keys_this_block
  | txin_gen _ :: vin => double_spend_loop s vin keys_this_block
  | _ => (false, keys_this_block)
  end.
Definition check_for_double_spend (cs : chain_state) (tx : transaction) (keys_this_block : gset (list Z)) : bool * gset (list Z) :=
  double_spend_loop (cs_db cs) (tx_vin tx) keys_this_block.

Section inputs.
Context (zeroCommitVartime : Z -> list Z).

(** *** Ring members *)

(** [outputs_visitor::handle_output]; a throw ends in a rejection too. *)
Definition handle_output (cs : chain_state) (hf_version : Z) (data : output_data_t) : option ctkey :=
  match is_tx_spendtime_unlocked (bc_of cs) (cs_now cs) (od_unlock_time data) hf_version with
  | Some true => Some (mk_ctkey (od_pubkey data) (od_commitment data))
  | _ => None
  end.

(** The outputs known ahead, completed from the database. *)
Definition scan_outputs (cs : chain_state) (amount : Z) (absolute_offsets : list Z) (tx_prefix_hash k_image : list Z) : option (list output_data_t) :=
  match (t ← m_scan_table cs !! tx_prefix_hash; t !! k_image) with
  | None =>
      let outputs := get_output_keys zeroCommitVartime (cs_db cs) amount absolute_offsets in
      if negb (length absolute_offsets =? length outputs)%nat then None else Some outputs
  | Some outputs =>
      if (length outputs <? length absolute_offsets)%nat && (0 <? length outputs)%nat then
        let add_offsets := drop (length outputs) absolute_offsets in
        let add_outputs := get_output_keys zeroCommitVartime (cs_db cs) amount add_offsets in
        if negb (length add_offsets =? length add_outputs)%nat then None else Some (outputs ++ add_outputs)
      else Some outputs
  end.

(** The keys of the ring and [*pmax_related_block_height], which only the last
    member raises. *)
Fixpoint scan_loop (cs : chain_state) (hf_version amount : Z) (absolute_offsets : list Z) (outputs : list output_data_t) (pmax_related_block_height : Z) : option (list ctkey * Z) :=
  match absolute_offsets with
  | [] => Some ([], pmax_related_block_height)
  | i :: rest =>
      output_index ← (match outputs with data :: _ => Some data | [] => get_output_key zeroCommitVartime (cs_db cs) amount i end);
      key ← handle_output cs hf_version output_index;
      let pmax := if bool_decide (rest = []) && (pmax_related_block_height <? od_height output_index) then od_height output_index else pmax_related_block_height in
      '(keys, pmax) ← scan_loop cs hf_version amount rest (tail outputs) pmax;
      Some (key :: keys, pmax)
  end.

Definition scan_outputkeys_for_indexes (cs : chain_state) (hf_version amount : Z) (key_offsets k_image tx_prefix_hash : list Z) (pmax : Z) : option (list ctkey * Z) :=
  if bool_decide (key_offsets = []) then None
  else
    let absolute_offsets := relative_output_offsets_to_absolute key_offsets in
    outputs ← scan_outputs cs amount absolute_offsets tx_prefix_hash k_image;
    scan_loop cs hf_version amount absolute_offsets outputs pmax.

(** [sig] is the ring signature of a version 1 input; with the keys, when the check
    succeeds, the height left. *)
Definition check_tx_input (cs : chain_state) (hf_version tx_version amount : Z) (key_offsets k_image tx_prefix_hash : list Z) (sig : list (list Z)) (pmax : Z)
  : option (list ctkey) * Z :=
  match scan_outputkeys_for_indexes cs hf_version amount key_offsets k_image tx_prefix_hash pmax with
  | None => (None, pmax)
  | Some (output_keys, pmax) =>
      if negb (length key_offsets =? length output_keys)%nat then (None, pmax)
      else if (tx_version =? 1) && negb (length sig =? length output_keys)%nat then (None, pmax)
      else (Some output_keys, pmax)
  end.
(** *** Rules on rings *)

Record mixin_stats := mk_mixin { n_unmixable : Z; n_mixable : Z; min_actual_mixin : Z; max_actual_mixin : Z }.

Definition min_mixin_of (hf_version : Z) : Z :=
  if HF_VERSION_MIN_MIXIN_15 <=? hf_version then 15 else if HF_VERSION_MIN_MIXIN_10 <=? hf_version then 10
  else if HF_VERSION_MIN_MIXIN_6 <=? hf_version then 6 else if HF_VERSION_MIN_MIXIN_4 <=? hf_version then 4 else 2.

Definition count_input (s : db) (min_mixin : Z) (i : txin_v) (m : mixin_stats) : mixin_stats :=
  match i with
  | txin_to_key amount key_offsets _ =>
      let mixable := (amount =? 0) || negb (get_num_outputs s amount <=? min_mixin) in
      let ring_mixin := length key_offsets ⊟ 1 in
      mk_mixin (if mixable then n_unmixable m else n_unmixable m + 1) (if mixable then n_mixable m + 1 else n_mixable m)
        (if ring_mixin <? min_actual_mixin m then ring_mixin else min_actual_mixin m) (if max_actual_mixin m <? ring_mixin then ring_mixin else max_actual_mixin m)
  | _ => m
  end.
Definition count_inputs (s : db) (min_mixin : Z) (vin : list txin_v) : mixin_stats := fold_left (fun m i => count_input s min_mixin i m) vin (mk_mixin 0 0 size_t_max 0).

(** The flag set when the rules of the fork on ring sizes and versions fail. *)
Definition check_mixins (s : db) (hf_version : Z) (tx : transaction) : option tvc_flag :=
  let min_mixin := min_mixin_of hf_version in
  let m := count_inputs s min_mixin (tx_vin tx) in
  let lo := min_actual_mixin m in
  let wrong_size :=
    if (lo <? min_mixin) && negb ((hf_version =? HF_VERSION_MIN_MIXIN_15) && (lo =? 10)) then (n_unmixable m =? 0) || (1 <? n_mixable m)
    else ((HF_VERSION_MIN_MIXIN_15 <? hf_version) && (15 <? lo))
      || ((hf_version =? HF_VERSION_MIN_MIXIN_15) && negb (lo =? 15) && negb (lo =? 10))
      || ((hf_version <? HF_VERSION_MIN_MIXIN_15) && (HF_VERSION_MIN_MIXIN_10 + 2 <=? hf_version) && (10 <? lo))
      || (((hf_version =? HF_VERSION_MIN_MIXIN_10) || (hf_version =? HF_VERSION_MIN_MIXIN_10 + 1)) && negb (lo =? 10)) in
  if (HF_VERSION_SAME_MIXIN <=? hf_version) && negb (lo =? max_actual_mixin m) then Some m_low_mixin
  else if wrong_size then Some m_low_mixin
  else if (if hf_version <=? 3 then 1 else 2) <? tx_version tx then Some m_verifivation_failed
  else if tx_version tx <? (if 0 <? n_unmixable m then 1 else if HF_VERSION_ENFORCE_RCT <=? hf_version then 2 else 1) then Some m_verifivation_failed
  else None.

(** [memcmp] of strings of one size. *)
Fixpoint memcmp (a b : list Z) : comparison :=
  match a, b with
  | x :: a, y :: b => match x ?= y with Eq => memcmp a b | c => c end
  | _, _ => Eq
  end.

Fixpoint sorted_ins (last_key_image : option (list Z)) (vin : list txin_v) : bool :=
  match vin with
  | [] => true
  | txin_to_key _ _ k :: vin =>
      if match last_key_image with Some l => match memcmp k l with Lt => false | _ => true end | None => false end then false else sorted_ins (Some k) vin
  | _ :: vin => sorted_ins last_key_image vin
  end.

(** *** Inputs *)

(** The loop over the inputs, [sig_index] the number of inputs done: the rings found,
    or the flags to set, and the height left. *)
Fixpoint inputs_loop (cs : chain_state) (hf_version : Z) (tx : transaction) (tx_prefix_hash : list Z) (sig_index : nat) (vin : list txin_v) (pmax : Z)
  : (list (list ctkey) + list tvc_flag) * Z :=
  match vin with
  | [] => (inl [], pmax)
  | txin_to_key amount key_offsets k_image :: vin =>
      if bool_decide (key_offsets = []) then (inr [], pmax)
      else if have_tx_keyimg_as_spent cs k_image then (inr [m_double_spend], pmax)
      else if (tx_version tx =? 1) && negb (sig_index <? length (tx_signatures tx))%nat then (inr [], pmax)
      else
        let sig := if tx_version tx =? 1 then default [] (tx_signatures tx !! sig_index) else [] in
        match check_tx_input cs hf_version (tx_version tx) amount key_offsets k_image tx_prefix_hash sig pmax with
        | (None, pmax) => (inr [], pmax)
        | (Some keys, pmax) =>
            match inputs_loop cs hf_version tx tx_prefix_hash (S sig_index) vin pmax with
            | (inl rings, pmax) => (inl (keys :: rings), pmax)
            | (inr flags, pmax) => (inr flags, pmax)
            end
        end
  | _ => (inr [], pmax)
  end.

Context (verRctNonSemanticsSimple verRct_non_sem : rctSig -> bool).
Context (check_ring_signature : list Z -> list Z -> list (list Z) -> list (list Z) -> bool).

(** What [check_tx_inputs] leaves: the verdict, the flags, the id of the verification
    and [*pmax_used_block_height]. *)
Record inputs_result := mk_inputs_result { ir_ok : bool; ir_tvc : tvc_t; ir_id : list Z; ir_max_height : Z }.

Definition check_tx_inputs (cs : chain_state) (tx : transaction) (tvc : tvc_t) (valid_id : list Z) : inputs_result :=
  let bad flags pmax := mk_inputs_result false (flags ++ tvc) valid_id pmax in
  let hf_version := hf_version_of cs in
  match get_transaction_prefix_hash tx with
  | None => bad [] 0
  | Some tx_prefix_hash =>
      if (HF_VERSION_MIN_2_OUTPUTS <=? hf_version) && (2 <=? tx_version tx) && (length (tx_vout tx) <? 2)%nat then bad [m_too_few_outputs] 0
      else match (if 2 <=? hf_version then check_mixins (cs_db cs) hf_version tx else None) with
      | Some flag => bad [flag] 0
      | None =>
          if (7 <=? hf_version) && negb (sorted_ins None (tx_vin tx)) then bad [m_verifivation_failed] 0
          else match inputs_loop cs hf_version tx tx_prefix_hash 0 (tx_vin tx) 0 with
          | (inr flags, pmax) => bad flags pmax
          | (inl pubkeys, pmax) =>
              if (HF_VERSION_ENFORCE_MIN_AGE <=? hf_version) && negb (pmax ⊞ CRYPTONOTE_DEFAULT_TX_SPENDABLE_AGE <=? height (cs_db cs)) then bad [] pmax
              else
                let '(ok, id) := verify_inputs_cached verRctNonSemanticsSimple verRct_non_sem check_ring_signature tx pubkeys valid_id in
                mk_inputs_result ok tvc id pmax
          end
      end
  end.

(** The overload that also returns the hash of the highest block used. *)
Definition check_tx_inputs_block (cs : chain_state) (tx : transaction) (tvc : tvc_t) (valid_id : list Z) (kept_by_block : bool) : inputs_result * option (list Z) :=
  if (height (cs_db cs) <? m_blocks_hash_check_size cs) && kept_by_block then (mk_inputs_result true tvc valid_id 0, Some null_hash)
  else
    let r := check_tx_inputs cs tx tvc valid_id in
    if negb (ir_ok r) then (r, None)
    else if negb (ir_max_height r <? height (cs_db cs)) then (mk_inputs_result false (ir_tvc r) (ir_id r) (ir_max_height r), None)
    else match ChainDb.get_block_hash_from_height (cs_db cs) (ir_max_height r) with
         | Ok h => (r, Some h)
         | Err _ => (mk_inputs_result false (ir_tvc r) (ir_id r) (ir_max_height r), None)
         end.
End inputs.

(** ** Lemmas *)

(** *** Ring offsets *)

(** The sums of the offsets, without wrapping. *)
Fixpoint exact_from (base : Z) (off : list Z) : list Z := match off with [] => [] | o :: off => (base + o) :: exact_from (base + o) off end.

Lemma absolute_exact off : forall base, Forall is_u64 off -> 0 <= base -> base + zsum off < 2 ^ 64 -> absolute_from base off = exact_from base off.
Proof.
  induction off as [|o off IH]; intros base HF Hb Hs; [done|]. apply Forall_cons in HF as [Ho HF]. cbn in Hs |- *. fold (zsum off) in Hs. pose proof (zsum_nonneg off HF). unfold is_uint in Ho.
  rewrite (wrap_small 64 (o + base)) by (unfold is_uint; lia). rewrite (Z.add_comm o base). f_equal. apply IH; [done|lia|lia].
Qed.

Lemma exact_bound off : forall base, Forall is_u64 off -> Forall (fun x => base <= x) (exact_from base off).
Proof.
  induction off as [|o off IH]; intros base HF; [constructor|]. apply Forall_cons in HF as [Ho HF]. unfold is_uint in Ho. cbn. constructor; [lia|].
  eapply Forall_impl; [by apply IH|]. cbn. lia.
Qed.

Lemma exact_sorted off : forall base, Forall is_u64 off -> StronglySorted Z.le (base :: exact_from base off).
Proof.
  induction off as [|o off IH]; intros base HF; [repeat constructor|]. apply Forall_cons in HF as [Ho HF]. constructor; [by apply IH|]. apply exact_bound. by constructor.
Qed.

Lemma exact_strict off : forall base, Forall is_u64 off -> Forall (fun o => o <> 0) off -> StronglySorted Z.lt (base :: exact_from base off).
Proof.
  induction off as [|o off IH]; intros base HF Hn; [repeat constructor|]. apply Forall_cons in HF as [Ho HF]. apply Forall_cons in Hn as [Hz Hn]. constructor; [by apply IH|].
  unfold is_uint in Ho. cbn. constructor; [lia|]. eapply Forall_impl; [apply (exact_bound off (base + o)); done|]. cbn. lia.
Qed.

(** Offsets that do not wrap. *)
Definition no_wrap (off : list Z) : Prop := Forall is_u64 off /\ zsum off < 2 ^ 64.

Lemma absolute_ok o off : no_wrap (o :: off) -> relative_output_offsets_to_absolute (o :: off) = o :: exact_from o off.
Proof. intros [[Ho HF]%Forall_cons Hs]. cbn in Hs. fold (zsum off) in Hs. unfold is_uint in Ho. cbn. rewrite absolute_exact by (done || lia). done. Qed.

Lemma relative_absolute off : forall base, Forall is_u64 off -> absolute_from base (relative_from base off) = off.
Proof.
  induction off as [|o off IH]; intros base HF; [done|]. apply Forall_cons in HF as [Ho HF]. cbn. rewrite wrap_add_l. rewrite Z.sub_add, wrap_small by done. by rewrite IH.
Qed.

Lemma absolute_relative off : forall base, Forall is_u64 off -> 0 <= base -> relative_from base (exact_from base off) = off.
Proof.
  induction off as [|o off IH]; intros base HF Hb; [done|]. apply Forall_cons in HF as [Ho HF]. cbn. rewrite Z.add_simpl_l, wrap_small by done. rewrite IH; [done..|]. unfold is_uint in Ho. lia.
Qed.

(** *** Heights of outputs *)

Definition by_height (r r' : stored_out) : Prop := od_height (so_data r) <= od_height (so_data r').

Lemma select_sorted R amount l : StronglySorted R l -> StronglySorted (fun p q => R p.2 q.2) (select amount l).
Proof.
  induction l as [|r l IH] using rev_ind; intros Hs; [constructor|]. rewrite select_snoc. apply StronglySorted_app in Hs as (Hx & Hs & _). apply StronglySorted_app.
  split_and!; [|by apply IH|destruct (decide _); repeat constructor]. intros [g x] [g' y] Hi Hj. destruct (decide _); [|by apply not_elem_of_nil in Hj]. apply list_elem_of_singleton in Hj as [= -> ->].
  cbn. apply Hx; [|by apply list_elem_of_singleton]. apply list_elem_of_lookup_1 in Hi as [k Hk]. destruct (select_lookup amount l k g x) as [Hl _]; [unfold zlookup; by rewrite (proj2 (Z.leb_le 0 k)), Nat2Z.id by lia|].
  unfold zlookup in Hl. destruct (0 <=? g); [|done]. by eapply list_elem_of_lookup_2.
Qed.

Section heights.
Context (zeroCommitVartime : Z -> list Z).

Lemma block_stored_height h be : Forall (fun r => od_height (so_data r) = h) (block_stored zeroCommitVartime h be).
Proof.
  apply Forall_forall. intros r Hr. unfold block_stored in Hr. apply list_elem_of_join in Hr as (l & Hl & Hr). apply list_elem_of_fmap in Hr as ([hs tx] & -> & _).
  apply elem_of_lookup_imap in Hl as (i & out & -> & _). done.
Qed.

Lemma chain_stored_sorted c : StronglySorted by_height (chain_stored zeroCommitVartime c) /\ Forall (fun r => 0 <= od_height (so_data r) < length c) (chain_stored zeroCommitVartime c).
Proof.
  induction c as [|be c [Hs HF]]; [by split; constructor|]. cbn [chain_stored length]. pose proof (block_stored_height (length c) be) as Hb. split.
  - apply StronglySorted_app. split_and!; [|done|].
    + intros r r' Hr Hr'. rewrite Forall_forall in HF, Hb. specialize (HF r Hr). specialize (Hb r' Hr'). unfold by_height. lia.
    + induction Hb as [|r l Hr Hl IH]; [constructor|]. constructor; [done|]. eapply Forall_impl; [exact Hl|]. intros r' Hr'. unfold by_height. cbn in Hr'. lia.
  - apply Forall_app. split; [eapply Forall_impl; [exact HF|]; cbn; lia|]. eapply Forall_impl; [exact Hb|]. cbn. lia.
Qed.

(** Outputs of an amount are indexed by height, in a reached database. *)
Definition outputs_by_height (s : db) : Prop := forall amount i j d d',
  get_output_key zeroCommitVartime s amount i = Some d -> get_output_key zeroCommitVartime s amount j = Some d' -> i <= j ->
  0 <= od_height d /\ od_height d <= od_height d' /\ od_height d' < height s.

Lemma heights_indexed mul_inv_eight seed s c : reach zeroCommitVartime mul_inv_eight seed s c -> outputs_by_height s.
Proof.
  intros [HF Hr]%reach_replay amount i j d d'. destruct (replay_outputs _ mul_inv_eight seed _ _ HF Hr) as [Hrel ->]. set (l := chain_stored zeroCommitVartime c) in *.
  destruct (outs_rel_get _ _ _ amount i Hrel) as (_ & -> & _). destruct (outs_rel_get _ _ _ amount j Hrel) as (_ & -> & _).
  destruct (chain_stored_sorted c) as [Hs Hb]. fold l in Hs, Hb. rewrite Forall_forall in Hb.
  assert (Hh : forall k g r, zlookup (select amount l) k = Some (g, r) -> 0 <= od_height (so_data r) < length c).
  { intros k g r [Hl _]%select_lookup. apply Hb. unfold zlookup in Hl. destruct (0 <=? g); [|done]. by eapply list_elem_of_lookup_2. }
  intros (p & E1 & ->)%fmap_Some (q & E2 & ->)%fmap_Some Hle. destruct p as [g r], q as [g' r']. cbn. pose proof (Hh _ _ _ E1). pose proof (Hh _ _ _ E2). split; [lia|]. split; [|lia].
  destruct (decide (i = j)) as [<-|Hn]; [rewrite E1 in E2; simplify_eq; lia|]. unfold zlookup in E1, E2. destruct (Z.leb_spec 0 i); [|done]. destruct (Z.leb_spec 0 j); [|done].
  exact (strongly_lookup _ _ _ _ _ _ (select_sorted _ amount _ Hs) E1 E2 ltac:(lia)).
Qed.
End heights.

(** *** Rings *)

Section rings.
Context (zeroCommitVartime : Z -> list Z).
Abbreviation output_at := (get_output_key zeroCommitVartime).

(** A ring member: it is in the database and may be spent. *)
Definition member (cs : chain_state) (hf_version amount offset : Z) (k : ctkey) : Prop :=
  exists d, output_at (cs_db cs) amount offset = Some d /\ handle_output cs hf_version d = Some k.

(** The outputs scanned ahead are those of the database. *)
Definition scanned (s : db) (amount : Z) (absolute_offsets : list Z) (outputs : list output_data_t) : Prop :=
  forall j d o, outputs !! j = Some d -> absolute_offsets !! j = Some o -> output_at s amount o = Some d.
Definition scan_table_ok (cs : chain_state) (tx : transaction) : Prop :=
  forall h t amount key_offsets k_image outputs, get_transaction_prefix_hash tx = Some h -> txin_to_key amount key_offsets k_image ∈ tx_vin tx ->
    m_scan_table cs !! h = Some t -> t !! k_image = Some outputs -> scanned (cs_db cs) amount (relative_output_offsets_to_absolute key_offsets) outputs.

Lemma get_output_keys_scanned s amount offsets : scanned s amount offsets (get_output_keys zeroCommitVartime s amount offsets).
Proof.
  induction offsets as [|i offsets IH]; intros j d o Hd Ho; [by rewrite lookup_nil in Ho|]. cbn in Hd. destruct (output_at s amount i) as [x|] eqn:E; [|by rewrite lookup_nil in Hd].
  destruct j as [|j]; cbn in Hd, Ho; [by simplify_eq|]. by eapply IH.
Qed.

Lemma scanned_app s amount offsets l l' : scanned s amount offsets l -> scanned s amount (drop (length l) offsets) l' -> scanned s amount offsets (l ++ l').
Proof.
  intros H1 H2 j d o Hd Ho. apply lookup_app_Some in Hd as [Hd|[Hle Hd]]; [by eapply H1|]. apply (H2 (j - length l)%nat d o Hd). rewrite lookup_drop. by replace (length l + (j - length l))%nat with j by lia.
Qed.

Lemma scan_outputs_scanned cs tx h amount key_offsets k_image outputs :
  scan_table_ok cs tx -> get_transaction_prefix_hash tx = Some h -> txin_to_key amount key_offsets k_image ∈ tx_vin tx ->
  scan_outputs zeroCommitVartime cs amount (relative_output_offsets_to_absolute key_offsets) h k_image = Some outputs ->
  scanned (cs_db cs) amount (relative_output_offsets_to_absolute key_offsets) outputs.
Proof.
  intros Hst Hh Hin E. unfold scan_outputs in E. destruct (m_scan_table cs !! h) as [t|] eqn:Et; cbn [mbind option_bind] in E.
  2: { destruct (negb _); simplify_eq. apply get_output_keys_scanned. }
  destruct (t !! k_image) as [l|] eqn:El; [|destruct (negb _); simplify_eq; apply get_output_keys_scanned].
  specialize (Hst h t amount key_offsets k_image l Hh Hin Et El). destruct (_ && _); [|by simplify_eq]. destruct (negb _); simplify_eq. apply scanned_app; [done|]. apply get_output_keys_scanned.
Qed.

(** The height kept is one of an output. *)
Definition a_height (cs : chain_state) (pmax : Z) : Prop := pmax = 0 \/ exists amount o d, output_at (cs_db cs) amount o = Some d /\ pmax = od_height d.

(** The scan finds every member, and keeps the height of the last one. *)
Lemma scan_loop_spec cs hf amount offsets : forall outputs pmax keys pmax',
  scanned (cs_db cs) amount offsets outputs -> scan_loop zeroCommitVartime cs hf amount offsets outputs pmax = Some (keys, pmax') ->
  Forall2 (member cs hf amount) offsets keys /\
  pmax <= pmax' /\ (forall o, last offsets = Some o -> exists d, output_at (cs_db cs) amount o = Some d /\ od_height d <= pmax') /\
  (a_height cs pmax -> a_height cs pmax').
Proof.
  induction offsets as [|i offsets IH]; intros outputs pmax keys pmax' Hsc E; cbn [scan_loop] in E; [simplify_eq; split_and!; [constructor|lia|done|done]|].
  destruct (match outputs with data :: _ => Some data | [] => output_at (cs_db cs) amount i end) as [d|] eqn:Ed; [|done]. cbn [mbind option_bind] in E.
  assert (Hd : output_at (cs_db cs) amount i = Some d) by (destruct outputs; [done|simplify_eq; by apply (Hsc 0%nat d i)]).
  destruct (handle_output cs hf d) as [k|] eqn:Ek; [|done]. cbn [mbind option_bind] in E. set (pm := if _ && _ then _ else _) in E.
  destruct (scan_loop _ _ _ _ _ _ pm) as [[keys' pmax1]|] eqn:Es; [|done]. cbn in E. simplify_eq.
  assert (Hsc' : scanned (cs_db cs) amount offsets (tail outputs)) by (intros j d' o Hj Ho; apply (Hsc (S j) d' o); [by destruct outputs|done]).
  destruct (IH _ _ _ _ Hsc' Es) as (HF & Hle & Hlast & Hht). assert (pmax <= pm) by (unfold pm; destruct (bool_decide _); cbn [andb]; [destruct (Z.ltb_spec pmax (od_height d)); lia|lia]).
  split; [constructor; [by exists d|done]|]. split; [lia|].
  split; [|intros Hp; apply Hht; unfold pm; destruct (_ && _); [right; by exists amount, i, d|done]]. intros o Ho. destruct offsets as [|o' offsets]; [|by apply Hlast].
  cbn in Ho. simplify_eq. exists d. split; [done|]. etransitivity; [|exact Hle]. unfold pm. cbn. destruct (Z.ltb_spec pmax (od_height d)); lia.
Qed.

(** What an accepted input looks like. *)
Definition input_found (cs : chain_state) (hf_version pmax : Z) (i : txin_v) (ring : list ctkey) : Prop :=
  exists amount key_offsets k_image, i = txin_to_key amount key_offsets k_image /\ key_offsets <> [] /\ has_key_image (cs_db cs) k_image = false /\
    Forall2 (member cs hf_version amount) (relative_output_offsets_to_absolute key_offsets) ring /\
    forall o, last (relative_output_offsets_to_absolute key_offsets) = Some o -> exists d, output_at (cs_db cs) amount o = Some d /\ od_height d <= pmax.

Lemma input_found_mono cs hf pmax pmax' i ring : pmax <= pmax' -> input_found cs hf pmax i ring -> input_found cs hf pmax' i ring.
Proof.
  intros Hle (a & off & k & -> & Hne & Hk & HF & Hl). exists a, off, k. split_and!; try done. intros o Ho. destruct (Hl o Ho) as (d & ? & ?). exists d. split; [done|lia].
Qed.

Lemma rings_loop_spec cs hf tx h : scan_table_ok cs tx -> get_transaction_prefix_hash tx = Some h -> forall vin idx pmax rings pmax',
  (forall i, i ∈ vin -> i ∈ tx_vin tx) -> inputs_loop zeroCommitVartime cs hf tx h idx vin pmax = (inl rings, pmax') ->
  pmax <= pmax' /\ Forall2 (input_found cs hf pmax') vin rings /\ (a_height cs pmax -> a_height cs pmax').
Proof.
  intros Hst Hh. induction vin as [|i vin IH]; intros idx pmax rings pmax' Hsub E; cbn [inputs_loop] in E; [simplify_eq; by split_and!; [lia|constructor|]|].
  destruct i as [| | |amount off k]; try done. case_bool_decide as Hne; [done|]. destruct (have_tx_keyimg_as_spent cs k) eqn:Ek; [done|]. destruct (_ && _); [done|].
  unfold check_tx_input, scan_outputkeys_for_indexes in E. rewrite bool_decide_false in E by done.
  destruct (scan_outputs _ _ _ _ _ _) as [outputs|] eqn:Eo; cbn [mbind option_bind] in E; [|done].
  destruct (scan_loop _ _ _ _ _ _ _) as [[keys pm]|] eqn:Es; [|done]. destruct (negb _); [done|]. destruct (_ && _); [done|].
  destruct (inputs_loop _ _ _ _ _ _ vin pm) as [[rings'|] pm'] eqn:El; [|done]. simplify_eq.
  destruct (scan_loop_spec _ _ _ _ _ _ _ _ (scan_outputs_scanned _ _ _ _ _ _ _ Hst Hh (Hsub _ ltac:(by left)) Eo) Es) as (HF & Hle & Hlast & Hht).
  destruct (IH (S idx) pm rings' pmax' (fun i Hi => Hsub i (list_elem_of_further _ _ _ Hi)) El) as (Hle' & HF' & Hht').
  split; [lia|]. split; [|by intros Hp; apply Hht', Hht]. constructor; [|done]. apply (input_found_mono _ _ pm); [done|]. by exists amount, off, k.
Qed.
End rings.

(** *** The rules on rings *)

Section rules.

(** The next test of a chain of rejections was passed. *)
Ltac passed E H := match type of E with (if ?c then _ else _) = None => destruct c eqn:H; [discriminate E|] end.

(** The smallest and the largest ring, as the counting sees them. *)
Lemma count_inputs_spec s min_mixin vin : forall m, let m' := fold_left (fun m i => count_input s min_mixin i m) vin m in
  n_unmixable m <= n_unmixable m' /\ min_actual_mixin m' <= min_actual_mixin m /\ max_actual_mixin m <= max_actual_mixin m' /\
  (forall a off k, txin_to_key a off k ∈ vin -> min_actual_mixin m' <= length off ⊟ 1 <= max_actual_mixin m') /\
  (n_unmixable m' = n_unmixable m -> forall a off k, txin_to_key a off k ∈ vin -> a = 0 \/ min_mixin < get_num_outputs s a) /\
  ((forall a off k, txin_to_key a off k ∈ vin -> a = 0) -> n_unmixable m' = n_unmixable m).
Proof.
  induction vin as [|i vin IH]; intros m; cbn [fold_left]; [split_and!; try lia; intros; set_solver|].
  specialize (IH (count_input s min_mixin i m)). cbv zeta in IH |- *. destruct IH as (H1 & H2 & H3 & H4 & H5 & H6).
  set (m' := fold_left _ vin _) in *. destruct i as [h0| | |a0 off0 k0]; cbn [count_input] in *.
  1-3: split_and!; try done; [intros a off k [?|?]%elem_of_cons; [done|by eapply H4]|intros E a off k [?|?]%elem_of_cons; [done|by eapply H5]|intros Ha; apply H6; intros a off k Hin; apply (Ha a off k); by right].
  cbn [n_unmixable n_mixable min_actual_mixin max_actual_mixin] in *. set (mix := (a0 =? 0) || _) in *. set (rm := length off0 ⊟ 1) in *.
  assert (n_unmixable m <= if mix then n_unmixable m else n_unmixable m + 1) by (destruct mix; lia).
  split; [lia|]. split; [destruct (Z.ltb_spec rm (min_actual_mixin m)); lia|]. split; [destruct (Z.ltb_spec (max_actual_mixin m) rm); lia|]. split_and!.
  - intros a off k [[= -> -> ->]|Hin]%elem_of_cons; [|by eapply H4]. fold rm. destruct (Z.ltb_spec rm (min_actual_mixin m)), (Z.ltb_spec (max_actual_mixin m) rm); lia.
  - intros E a off k. destruct mix eqn:Emix; [|lia]. intros [[= -> -> ->]|Hin]%elem_of_cons; [|by eapply H5]. unfold mix in Emix. apply orb_true_iff in Emix as [?|?]; bcase_hyps; [by left|right].
    destruct (Z.leb_spec (get_num_outputs s a0) min_mixin); [done|lia].
  - intros Ha. specialize (Ha a0 off0 k0 ltac:(by left)) as Ha0. assert (mix = true) as Em by (unfold mix; by rewrite (proj2 (Z.eqb_eq a0 0) Ha0)). rewrite Em in *.
    apply H6. intros a off k Hin. apply (Ha a off k). by right.
Qed.

(** Some ring has the smallest size. *)
Lemma count_inputs_min s min_mixin vin : forall m, let m' := fold_left (fun m i => count_input s min_mixin i m) vin m in
  min_actual_mixin m' = min_actual_mixin m \/ exists a off k, txin_to_key a off k ∈ vin /\ min_actual_mixin m' = length off ⊟ 1.
Proof.
  induction vin as [|i vin IH]; intros m; cbn [fold_left]; [by left|]. destruct (IH (count_input s min_mixin i m)) as [E|(a & off & k & Hin & E)]; [|right; exists a, off, k; split; [by right|done]].
  cbv zeta in E |- *. rewrite E. destruct i as [| | |a off k]; try by left. cbn. destruct (_ <? _); [right; exists a, off, k; split; [by left|done]|by left].
Qed.

(** The ring sizes a fork allows for inputs of hidden amounts. *)
Definition ring_size_allowed (hf_version n : Z) : Prop :=
  (2 <= hf_version <= 5 -> 3 <= n) /\ (hf_version = 6 -> 5 <= n) /\ (hf_version = 7 -> 7 <= n) /\
  (8 <= hf_version <= 11 -> 11 <= n) /\ (12 <= hf_version <= 14 -> n = 11) /\ (hf_version = 15 -> n = 11 \/ n = 16) /\ (16 <= hf_version -> n = 16).

Lemma mixins_ring_size s hf (tx : transaction) a off k :
  2 <= hf -> check_mixins s hf tx = None -> (forall a off k, txin_to_key a off k ∈ tx_vin tx -> a = 0) ->
  txin_to_key a off k ∈ tx_vin tx -> off <> [] -> length off < 2 ^ 64 ->
  ring_size_allowed hf (length off) /\ tx_version tx <= 2 /\ (6 <= hf -> 2 <= tx_version tx).
Proof.
  intros Hhf E Hin Hi Hne Hl. unfold check_mixins, count_inputs in E.
  destruct (count_inputs_spec s (min_mixin_of hf) (tx_vin tx) (mk_mixin 0 0 size_t_max 0)) as (_ & _ & _ & Hb & _ & Hu). specialize (Hu Hin). specialize (Hb a off k Hi).
  set (m := fold_left _ _ _) in *. cbn [n_unmixable] in Hu. rewrite Hu in E. assert (1 <= length off) by (destruct off; [done|cbn [length]; lia]).
  rewrite (wrap_small 64 (length off - 1)) in Hb by (unfold is_uint; lia). set (lo := min_actual_mixin m) in *. set (hi := max_actual_mixin m) in *. set (n := Z.of_nat (length off)) in *. clearbody lo hi n.
  change (0 =? 0) with true in E. cbn [orb] in E. change (0 <? 0) with false in E. cbv iota in E.
  passed E E1. passed E E2. passed E E3. passed E E4.
  unfold ring_size_allowed, min_mixin_of, HF_VERSION_SAME_MIXIN, HF_VERSION_MIN_MIXIN_15, HF_VERSION_MIN_MIXIN_10, HF_VERSION_MIN_MIXIN_6, HF_VERSION_MIN_MIXIN_4, HF_VERSION_ENFORCE_RCT in *.
  clear E Hin Hi Hne Hl Hu. clearbody m. split; [|split; [destruct (hf <=? 3); lia|intros; destruct (Z.leb_spec 6 hf); lia]].
  match type of E2 with (if ?c then true else _) = false => destruct c eqn:E5; [discriminate E2|] end. change (8 + 2) with 10 in E2. change (8 + 1) with 9 in E2.
  destruct (Z.lt_ge_cases hf 17) as [Hlt|Hge].
  - assert (hf = 2 \/ hf = 3 \/ hf = 4 \/ hf = 5 \/ hf = 6 \/ hf = 7 \/ hf = 8 \/ hf = 9 \/ hf = 10 \/ hf = 11 \/ hf = 12 \/ hf = 13 \/ hf = 14 \/ hf = 15 \/ hf = 16) as Hc by lia.
    repeat (destruct Hc as [-> | Hc]; [cbn in E1, E2, E5; lia|]). subst hf. cbn in E1, E2, E5. lia.
  - rewrite (proj2 (Z.leb_le 12 hf)) in E1 by lia. rewrite (proj2 (Z.leb_le 15 hf)) in E5 by lia. rewrite (proj2 (Z.eqb_neq hf 15)) in E5 by lia. cbn in E1, E5. lia.
Qed.
End rules.

(** *** Sorted key images *)

Lemma memcmp_refl a : memcmp a a = Eq.
Proof. induction a as [|x a IH]; [done|]. cbn. by rewrite Z.compare_refl. Qed.

Lemma memcmp_trans a : forall b c, length a = length b -> length b = length c -> memcmp a b = Lt -> memcmp b c = Lt -> memcmp a c = Lt.
Proof.
  induction a as [|x a IH]; intros [|y b] [|z c] Hl Hl' H1 H2; try done. cbn in *. destruct (Z.compare_spec x y), (Z.compare_spec y z), (Z.compare_spec x z); try done; try lia.
  apply (IH b); [lia..|done|done].
Qed.

(** Images in the order asked for are distinct. *)
Lemma sorted_ins_below vin : forall l, sorted_ins (Some l) vin = true -> Forall (fun k => length k = length l) (images_of vin) ->
  Forall (fun k => memcmp k l = Lt) (images_of vin) /\ NoDup (images_of vin).
Proof.
  induction vin as [|i vin IH]; intros l E HF; [split; constructor|]. destruct i as [| | |a off k]; try by apply (IH l).
  cbn in E, HF |- *. apply Forall_cons in HF as [Hk HF]. destruct (memcmp k l) eqn:Ek; try done. destruct (IH k E) as [Hlt Hnd]; [eapply Forall_impl; [exact HF|]; cbn; congruence|]. split.
  - constructor; [done|]. apply Forall_forall. intros k' Hk'. rewrite Forall_forall in Hlt, HF. eapply (memcmp_trans k' k l); [|done|by apply Hlt|done]. rewrite HF by done. done.
  - constructor; [|done]. intros Hin. rewrite Forall_forall in Hlt. specialize (Hlt k Hin). by rewrite memcmp_refl in Hlt.
Qed.

Lemma sorted_ins_nodup vin n : sorted_ins None vin = true -> Forall (fun k => length k = n) (images_of vin) -> NoDup (images_of vin).
Proof.
  induction vin as [|i vin IH]; intros E HF; [constructor|]. destruct i as [| | |a off k]; try by apply IH. cbn in E, HF |- *. apply Forall_cons in HF as [Hk HF].
  destruct (sorted_ins_below vin k E) as [Hlt Hnd]; [eapply Forall_impl; [exact HF|]; cbn; congruence|]. constructor; [|done]. intros Hin. rewrite Forall_forall in Hlt. specialize (Hlt k Hin). by rewrite memcmp_refl in Hlt.
Qed.

(** *** Accepted inputs *)

Section accepted.
Context (zeroCommitVartime : Z -> list Z) (verRctNonSemanticsSimple verRct_non_sem : rctSig -> bool) (check_ring_signature : list Z -> list Z -> list (list Z) -> list (list Z) -> bool).
Abbreviation check_inputs := (check_tx_inputs zeroCommitVartime verRctNonSemanticsSimple verRct_non_sem check_ring_signature).
Abbreviation proofs_ok := (ver_input_proofs_rings verRctNonSemanticsSimple verRct_non_sem check_ring_signature).
Abbreviation verify_cached := (verify_inputs_cached verRctNonSemanticsSimple verRct_non_sem check_ring_signature).

(** What an accepted set of inputs passed. *)
Lemma check_tx_inputs_inv cs tx tvc id : let r := check_inputs cs tx tvc id in let hf := hf_version_of cs in ir_ok r = true ->
  exists h rings, get_transaction_prefix_hash tx = Some h /\ (HF_VERSION_MIN_2_OUTPUTS <= hf -> 2 <= tx_version tx -> 2 <= length (tx_vout tx)) /\
    (2 <= hf -> check_mixins (cs_db cs) hf tx = None) /\ (7 <= hf -> sorted_ins None (tx_vin tx) = true) /\
    inputs_loop zeroCommitVartime cs hf tx h 0 (tx_vin tx) 0 = (inl rings, ir_max_height r) /\
    (HF_VERSION_ENFORCE_MIN_AGE <= hf -> ir_max_height r ⊞ CRYPTONOTE_DEFAULT_TX_SPENDABLE_AGE <= height (cs_db cs)) /\
    verify_cached tx rings id = (true, ir_id r).
Proof.
  cbv zeta. unfold check_tx_inputs. set (hf := hf_version_of cs). destruct (get_transaction_prefix_hash tx) as [h|]; [|done]. destruct (_ && _ && _) eqn:E1; [done|].
  destruct (if 2 <=? hf then _ else _) eqn:E2; [done|]. destruct ((7 <=? hf) && _) eqn:E3; [done|]. destruct (inputs_loop _ _ _ _ _ _ _ _) as [[rings|] pmax] eqn:El; [|done].
  destruct ((HF_VERSION_ENFORCE_MIN_AGE <=? hf) && _) eqn:E4; [done|]. destruct (verify_cached tx rings id) as [ok id'] eqn:E5. cbn. intros ->. exists h, rings. split; [done|]. split; [|split; [|split; [|split; [done|split; [|done]]]]].
  - intros H1 H2. rewrite (proj2 (Z.leb_le _ _) H1), (proj2 (Z.leb_le _ _) H2) in E1. cbn [andb] in E1. apply Nat.ltb_ge in E1. lia.
  - intros H. by rewrite (proj2 (Z.leb_le _ _) H) in E2.
  - intros H. rewrite (proj2 (Z.leb_le _ _) H) in E3. by apply negb_false_iff.
  - intros H. rewrite (proj2 (Z.leb_le _ _) H) in E4. apply negb_false_iff in E4. by apply Z.leb_le.
Qed.

(** Conversely, inputs that pass every test. *)
Lemma check_tx_inputs_result cs (tx : transaction) tvc h th rings pmax : let hf := hf_version_of cs in
  get_transaction_prefix_hash tx = Some h -> calculate_transaction_hash tx 0 = Some th ->
  (HF_VERSION_MIN_2_OUTPUTS <=? hf) && (2 <=? tx_version tx) && (length (tx_vout tx) <? 2)%nat = false ->
  (if 2 <=? hf then check_mixins (cs_db cs) hf tx else None) = None -> (7 <=? hf) && negb (sorted_ins None (tx_vin tx)) = false ->
  inputs_loop zeroCommitVartime cs hf tx h 0 (tx_vin tx) 0 = (inl rings, pmax) ->
  (HF_VERSION_ENFORCE_MIN_AGE <=? hf) && negb (pmax ⊞ CRYPTONOTE_DEFAULT_TX_SPENDABLE_AGE <=? height (cs_db cs)) = false ->
  proofs_ok tx rings = true -> exists id, check_inputs cs tx tvc null_hash = mk_inputs_result true tvc id pmax.
Proof.
  intros hf Hh Hth H1 H2 H3 Hl H4 Hp. unfold check_tx_inputs. fold hf. rewrite Hh, H1, H2, H3, Hl, H4. unfold verify_inputs_cached. rewrite Hth, bool_decide_true by done. cbn [negb andb]. rewrite Hp. by eexists.
Qed.
Lemma check_tx_inputs_intro cs (tx : transaction) tvc h th rings pmax : let hf := hf_version_of cs in
  get_transaction_prefix_hash tx = Some h -> calculate_transaction_hash tx 0 = Some th ->
  (HF_VERSION_MIN_2_OUTPUTS <=? hf) && (2 <=? tx_version tx) && (length (tx_vout tx) <? 2)%nat = false ->
  (if 2 <=? hf then check_mixins (cs_db cs) hf tx else None) = None -> (7 <=? hf) && negb (sorted_ins None (tx_vin tx)) = false ->
  inputs_loop zeroCommitVartime cs hf tx h 0 (tx_vin tx) 0 = (inl rings, pmax) ->
  (HF_VERSION_ENFORCE_MIN_AGE <=? hf) && negb (pmax ⊞ CRYPTONOTE_DEFAULT_TX_SPENDABLE_AGE <=? height (cs_db cs)) = false ->
  proofs_ok tx rings = true -> ir_ok (check_inputs cs tx tvc null_hash) = true.
Proof. intros hf Hh Hth H1 H2 H3 Hl H4 Hp. by destruct (check_tx_inputs_result cs tx tvc h th rings pmax) as (id & ->). Qed.

(** A verdict of the cached verification rests on the proofs, or on an id recorded
    for the same transaction and rings. *)
Definition proofs_known (tx : transaction) (rings : list (list ctkey)) (id : list Z) : Prop :=
  proofs_ok tx rings = true \/ id <> null_hash /\ exists h, calculate_transaction_hash tx 0 = Some h /\ id = make_input_verification_id h rings.

Lemma verify_cached_known tx rings id id' : verify_cached tx rings id = (true, id') -> proofs_known tx rings id.
Proof.
  unfold verify_inputs_cached, proofs_known. destruct (calculate_transaction_hash tx 0) as [h|]; [|done]. destruct (bool_decide_reflect (id = null_hash)) as [Hn|Hn]; cbn [negb andb].
  - destruct (proofs_ok tx rings); [by left|done].
  - case_bool_decide; [intros _; right; split; [done|by exists h]|]. destruct (proofs_ok tx rings); [by left|done].
Qed.

(** The ring of an accepted input, found in the chain: every member is an output of
    the amount created in the chain and unlocked. *)
Definition ring_in_chain (cs : chain_state) (c : list block_entry) (i : txin_v) (ring : list ctkey) : Prop :=
  exists amount key_offsets k_image, i = txin_to_key amount key_offsets k_image /\ key_offsets <> [] /\ k_image ∉ chain_images c /\
    Forall2 (fun o k => exists g r, zlookup (select amount (chain_stored zeroCommitVartime c)) o = Some (g, r) /\ k = mk_ctkey (od_pubkey (so_data r)) (od_commitment (so_data r)) /\
                        is_tx_spendtime_unlocked (bc_of cs) (cs_now cs) (od_unlock_time (so_data r)) (hf_version_of cs) = Some true)
      (relative_output_offsets_to_absolute key_offsets) ring.

Lemma input_found_chain mul_inv_eight seed cs c pmax i ring : reach zeroCommitVartime mul_inv_eight seed (cs_db cs) c ->
  input_found zeroCommitVartime cs (hf_version_of cs) pmax i ring -> ring_in_chain cs c i ring.
Proof.
  intros [HF Hr]%reach_replay (a & off & k & -> & Hne & Hk & Hm & _). destruct (replay_outputs _ mul_inv_eight seed _ _ HF Hr) as [Hrel _]. destruct (replay_images _ mul_inv_eight _ _ _ HF Hr) as [_ Hs].
  exists a, off, k. split_and!; [done|done| |].
  - unfold has_key_image in Hk. rewrite bool_decide_eq_false, Hs, elem_of_list_to_set in Hk. done.
  - eapply Forall2_impl; [exact Hm|]. intros o k' (d & Hd & Hh). cbn beta. destruct (outs_rel_get _ _ _ a o Hrel) as (_ & Hg & _). rewrite Hg in Hd. apply fmap_Some in Hd as ([g r] & Hz & ->).
    exists g, r. split; [done|]. unfold handle_output in Hh. cbn [snd] in Hh. destruct (is_tx_spendtime_unlocked _ _ _ _) as [[]|]; simplify_eq. done.
Qed.
End accepted.

(** A pass of [check_for_double_spend]. *)
Lemma double_spend_loop_spec s vin : forall seen seen', double_spend_loop s vin seen = (true, seen') ->
  spends (images_of vin) seen seen' /\ Forall (fun k => has_key_image s k = false) (images_of vin) /\ Forall (fun i => match i with txin_gen _ | txin_to_key _ _ _ => True | _ => False end) vin.
Proof.
  induction vin as [|i vin IH]; intros seen seen' E; cbn in E; [simplify_eq; split; [apply spends_nil|by split; constructor]|]. destruct i as [h| | |a off k]; try done.
  - destruct (IH _ _ E) as (H1 & H2 & H3). split; [done|]. split; [done|]. by constructor.
  - case_bool_decide as Hk; cbn in E; [done|]. destruct (has_key_image s k) eqn:Ek; [done|]. destruct (IH _ _ E) as (H1 & H2 & H3). split; [|split; by constructor].
    change (images_of (_ :: vin)) with ([k] ++ images_of vin). eapply spends_app; [|exact H1]. split_and!; [set_solver|by apply NoDup_singleton|set_solver].
Qed.

(** Key images that were checked are added without an error. *)
Lemma add_spent_keys_complete vin : forall miner X, NoDup (images_of vin) -> list_to_set (images_of vin) ## X ->
  Forall (fun i => match i with txin_gen _ | txin_to_key _ _ _ => True | _ => False end) vin ->
  add_spent_keys vin miner X = Ok (list_to_set (images_of vin) ∪ X, miner || existsb is_gen vin).
Proof.
  induction vin as [|i vin IH]; intros miner X Hn Hd HF; [cbn; by rewrite union_empty_l_L, orb_false_r|]. apply Forall_cons in HF as [Hi HF]. destruct i as [h| | |a off k]; try done.
  - cbn [add_spent_keys]. rewrite IH by done. cbn. by destruct miner.
  - cbn in Hn, Hd. apply NoDup_cons in Hn as [Hk Hn]. cbn [add_spent_keys]. unfold add_spent_key. rewrite bool_decide_false by set_solver. cbn [mbind result_bind].
    rewrite IH by (done || set_solver). cbn. f_equal. f_equal. set_solver.
Qed.

(** Without wrapping, the last member of a ring has the largest index. *)
Lemma absolute_last off o : no_wrap off -> o ∈ relative_output_offsets_to_absolute off -> exists l, last (relative_output_offsets_to_absolute off) = Some l /\ o <= l.
Proof.
  destruct off as [|b off]; [set_solver|]. intros Hw. rewrite absolute_ok by done. destruct Hw as [[_ HF]%Forall_cons _]. pose proof (exact_sorted off b HF) as Hs. revert Hs. generalize (b :: exact_from b off) as l.
  intros l Hs. induction l as [|x l IH] using rev_ind; [set_solver|]. intros Ho. exists x. split; [apply last_snoc|]. apply StronglySorted_app in Hs as (H1 & _ & _).
  apply elem_of_app in Ho as [Ho| ->%list_elem_of_singleton]; [|lia]. apply H1; [done|]. by apply list_elem_of_singleton.
Qed.

Lemma absolute_nodup off : no_wrap off -> Forall (fun o => o <> 0) (tail off) -> NoDup (relative_output_offsets_to_absolute off).
Proof.
  destruct off as [|b off]; [constructor|]. intros Hw Hn. rewrite absolute_ok by done. destruct Hw as [[_ HF]%Forall_cons _]. by apply strict_nodup, exact_strict.
Qed.

(** ** Properties *)

(** C5: Accepted inputs can be spent: for a database reached by adding and popping
    blocks and outputs scanned ahead that agree with it, inputs that
    [check_tx_inputs] accepts are all key inputs, their key images are spent nowhere
    in the chain and, from version 7 on, differ from each other, every ring member
    is an output of the amount created in the chain and unlocked now, and the proofs
    hold for exactly these rings, or are recorded under an id of them. *)
Theorem accepted_inputs_sound zeroCommitVartime mul_inv_eight simple full ring_signature seed cs c tx tvc id :
  reach zeroCommitVartime mul_inv_eight seed (cs_db cs) c -> scan_table_ok zeroCommitVartime cs tx -> Forall (fun k => length k = 32%nat) (images_of (tx_vin tx)) ->
  ir_ok (check_tx_inputs zeroCommitVartime simple full ring_signature cs tx tvc id) = true ->
  exists rings, Forall2 (ring_in_chain zeroCommitVartime cs c) (tx_vin tx) rings /\ proofs_known simple full ring_signature tx rings id /\
    (7 <= hf_version_of cs -> NoDup (images_of (tx_vin tx))).
Proof.
  intros Hr Hst H32 Hok. destruct (check_tx_inputs_inv _ _ _ _ _ _ _ _ Hok) as (h & rings & Hh & _ & _ & Hs & Hl & _ & Hv). exists rings.
  destruct (rings_loop_spec _ _ _ _ _ Hst Hh _ _ _ _ _ (fun _ H => H) Hl) as (_ & HF & Hht). split; [|split; [by eapply verify_cached_known|]].
  - eapply Forall2_impl; [exact HF|]. intros i ring. by eapply input_found_chain.
  - intros H7. apply (sorted_ins_nodup _ 32); [by apply Hs|done].
Qed.

(** From version 12 on no ring member is younger than ten blocks, and the members of
    a ring that passes [check_tx_inputs_ring_members_diff] are distinct, as long as
    the offsets of the ring do not wrap around 64 bits: this in a database whose
    outputs are indexed by height, as is every one reached by adding and popping
    blocks. *)
Theorem min_age_enforced zeroCommitVartime simple full ring_signature cs tx tvc id amount key_offsets k_image o d :
  outputs_by_height zeroCommitVartime (cs_db cs) -> scan_table_ok zeroCommitVartime cs tx -> 12 <= hf_version_of cs -> height (cs_db cs) < 2 ^ 63 ->
  ir_ok (check_tx_inputs zeroCommitVartime simple full ring_signature cs tx tvc id) = true ->
  txin_to_key amount key_offsets k_image ∈ tx_vin tx -> no_wrap key_offsets ->
  o ∈ relative_output_offsets_to_absolute key_offsets -> get_output_key zeroCommitVartime (cs_db cs) amount o = Some d ->
  od_height d + CRYPTONOTE_DEFAULT_TX_SPENDABLE_AGE <= height (cs_db cs) /\
  (check_tx_inputs_ring_members_diff tx (hf_version_of cs) = true -> NoDup (relative_output_offsets_to_absolute key_offsets)).
Proof.
  intros Hr Hst Hhf Hb Hok Hin Hw Ho Hd. destruct (check_tx_inputs_inv _ _ _ _ _ _ _ _ Hok) as (h & rings & Hh & _ & _ & _ & Hl & Ha & _). specialize (Ha Hhf).
  destruct (rings_loop_spec _ _ _ _ _ Hst Hh _ _ _ _ _ (fun _ H => H) Hl) as (_ & HF & Hht). split.
  - destruct (proj1 (list_elem_of_lookup _ _) Hin) as [j Hj]. destruct (Forall2_lookup_l _ _ _ _ _ HF Hj) as (ring & _ & a & off & k & [= <- <- <-] & _ & _ & _ & Hlast).
    destruct (absolute_last _ _ Hw Ho) as (l & Hll & Hle). destruct (Hlast l Hll) as (dl & Hdl & Hp). destruct (Hr _ _ _ _ _ Hd Hdl Hle) as (? & ? & ?).
    assert (Hpm : ir_max_height (check_tx_inputs zeroCommitVartime simple full ring_signature cs tx tvc id) < height (cs_db cs)).
    { destruct Hht as [->|(a' & o' & d' & Hd' & ->)]; [by left|lia|]. by destruct (Hr _ _ _ _ _ Hd' Hd' ltac:(lia)) as (_ & _ & ?). }
    rewrite wrap_small in Ha by (unfold is_uint, CRYPTONOTE_DEFAULT_TX_SPENDABLE_AGE; lia). lia.
  - intros Hdiff. apply absolute_nodup; [done|]. assert (Hk : Forall is_key_input (tx_vin tx)).
    { apply Forall_forall. intros i [j Hj]%list_elem_of_lookup. by destruct (Forall2_lookup_l _ _ _ _ _ HF Hj) as (ring & _ & a & off & k & -> & _). }
    rewrite (ring_rule_spec _ _ Hk) in Hdiff. specialize (Hdiff ltac:(lia)). rewrite Forall_forall in Hdiff. exact (Hdiff _ Hin).
Qed.

(** [check_for_double_spend] over the transactions of a block, and the recording of
    their key images. *)
Fixpoint check_block_spends (cs : chain_state) (txs : list transaction) (seen : gset (list Z)) : bool :=
  match txs with
  | [] => true
  | tx :: txs => let '(r, seen) := check_for_double_spend cs tx seen in r && check_block_spends cs txs seen
  end.
Fixpoint record_block_spends (txs : list transaction) (X : gset (list Z)) : result (gset (list Z)) :=
  match txs with [] => Ok X | tx :: txs => '(X, _) ← add_spent_keys (tx_vin tx) false X; record_block_spends txs X end.

Lemma block_spends_recorded cs txs : forall seen X, check_block_spends cs txs seen = true -> X = seen ∪ m_spent_keys (cs_db cs) ->
  exists X', record_block_spends txs X = Ok X'.
Proof.
  induction txs as [|tx txs IH]; intros seen X E HX; [by eexists|]. cbn in E. destruct (check_for_double_spend cs tx seen) as [r seen'] eqn:Ec. apply andb_true_iff in E as [-> E].
  destruct (double_spend_loop_spec _ _ _ _ Ec) as ((-> & Hn & Hd) & Hk & Hf). cbn. rewrite Forall_forall in Hk. rewrite add_spent_keys_complete; [|done| |done].
  - cbn. eapply IH; [exact E|]. rewrite HX. by rewrite assoc_L by apply _.
  - intros k Hi. rewrite HX, elem_of_union. intros [Hs|Hs]; [by apply (Hd k)|]. apply elem_of_list_to_set in Hi. specialize (Hk k Hi). by apply bool_decide_eq_false in Hk.
Qed.

(** A block whose transactions pass [check_for_double_spend] one after the other can
    be recorded: adding their key images never finds one that is there. *)
Theorem double_spend_check_complete cs txs :
  check_block_spends cs txs ∅ = true -> exists X, record_block_spends txs (m_spent_keys (cs_db cs)) = Ok X.
Proof. intros E. eapply block_spends_recorded; [exact E|]. by rewrite union_empty_l_L. Qed.

(** Ring sizes follow the schedule: inputs of hidden amounts accepted at a fork have
    rings of exactly the sizes it allows, at least 3 from version 2, 5 from 6, 7 from
    7, 11 from 8, exactly 11 from 12, 11 or 16 at 15 and 16 from then on; from
    version 6 on the transaction has version 2, and from version 12 on two outputs. *)
Theorem ring_size_schedule zeroCommitVartime simple full ring_signature cs tx tvc id amount key_offsets k_image :
  ir_ok (check_tx_inputs zeroCommitVartime simple full ring_signature cs tx tvc id) = true -> 2 <= hf_version_of cs ->
  (forall a off k, txin_to_key a off k ∈ tx_vin tx -> a = 0) -> txin_to_key amount key_offsets k_image ∈ tx_vin tx -> key_offsets <> [] -> length key_offsets < 2 ^ 64 ->
  ring_size_allowed (hf_version_of cs) (length key_offsets) /\ tx_version tx <= 2 /\ (6 <= hf_version_of cs -> 2 <= tx_version tx) /\
  (12 <= hf_version_of cs -> 2 <= length (tx_vout tx)).
Proof.
  intros Hok H2 Ha Hin Hne Hl. destruct (check_tx_inputs_inv _ _ _ _ _ _ _ _ Hok) as (h & rings & _ & Ho & Hm & _). destruct (mixins_ring_size _ _ _ _ _ _ H2 (Hm H2) Ha Hin Hne Hl) as (Hs & Hv & Hv').
  split_and!; try done. intros H12. apply Ho; [done|]. apply Hv'. lia.
Qed.

(** Ring offsets: relative offsets made of any set of indices lead back to the
    indices in increasing order, and absolute ones made of offsets that do not wrap
    lead back to the offsets. *)
Theorem ring_offsets_roundtrip off :
  (Forall is_u64 off -> relative_output_offsets_to_absolute (absolute_output_offsets_to_relative off) = zsort off) /\
  (no_wrap off -> absolute_output_offsets_to_relative (relative_output_offsets_to_absolute off) = off).
Proof.
  split.
  - intros HF. assert (HF' : Forall is_u64 (zsort off)) by (unfold zsort; by rewrite merge_sort_Permutation). unfold absolute_output_offsets_to_relative. destruct (zsort off) as [|o l]; [done|].
    apply Forall_cons in HF' as [_ HF']. cbn. by rewrite relative_absolute.
  - intros Hw. destruct off as [|o off]; [done|]. rewrite absolute_ok by done. destruct Hw as [[Ho HF]%Forall_cons _]. unfold absolute_output_offsets_to_relative.
    rewrite (zsort_unique _ _ (exact_sorted off o HF)) by done. rewrite absolute_relative; [done..|]. unfold is_uint in Ho. lia.
Qed.

(** ** Examples *)

(** Twelve blocks, with sixteen outputs in the first and one in the last. *)
Definition example_output (h : Z) : outkey := rct_outkey h (mk_output_data (sample_k 3) 0 h (sample_k 6)).
Definition example_outputs : gmap Z outkey := <[16 := example_output 11]> (list_to_map (map (fun i => (i, example_output 0)) (seqZ 0 16))).
Definition example_db : db :=
  mk_db (mk_block_tables (list_to_map (map (fun i => (i, [])) (seqZ 0 12))) ∅ ∅) (mk_tx_tables ∅ ∅ ∅ ∅ ∅ ∅) (mk_output_tables ∅ {[0 := example_outputs]}) ∅ 0.

(** A transaction with one ring of sixteen members. *)
Definition example_tx (key_offsets : list Z) : transaction :=
  mk_tx (mk_prefix 2 0 [txin_to_key 0 key_offsets (sample_k 21)] (replicate 2 (mk_out 0 (txout_to_tagged_key (sample_k 2) [4]))) [1; 2; 3])
    []
    (mk_base RCTTypeBulletproofPlus 30720000 [] (replicate 2 (mk_ecdh zero_key (replicate 8 5 ++ replicate 24 0))) (replicate 2 (mk_ctkey zero_key (sample_k 6))))
    (mk_prunable [] [] [mk_bpp [] (sample_k 7) (sample_k 8) (sample_k 9) (sample_k 10) (sample_k 11) (sample_k 12) (replicate 7 (sample_k 13)) (replicate 7 (sample_k 14))]
       [] [mk_clsag (replicate 16 (sample_k 15)) (sample_k 17) zero_key (sample_k 18)] [sample_k 19])
    false.
Definition example_cs : chain_state := mk_chain_state example_db (initial [] 16 1 [0]) ∅ 0 0.
Abbreviation example_check tx := (check_tx_inputs (fun _ => zero_key) (fun _ => true) (fun _ => true) (fun _ _ _ _ => true) example_cs tx [] null_hash).

Lemma example_by_height : outputs_by_height (fun _ => zero_key) example_db.
Proof.
  assert (H : forall amount i d, get_output_key (fun _ => zero_key) example_db amount i = Some d -> 0 <= i <= 16 /\ od_height d = if i =? 16 then 11 else 0).
  { intros amount i d. unfold get_output_key, dups. cbn [example_db d_outs m_output_amounts]. destruct (decide (amount = 0)) as [->|Hn]; [rewrite lookup_singleton_eq|by rewrite lookup_singleton_ne].
    change (default ∅ (Some example_outputs)) with example_outputs. unfold example_outputs. destruct (decide (i = 16)) as [->|Hi]; [rewrite lookup_insert_eq|rewrite lookup_insert_ne by done]; cbn [mbind option_bind]; [intros [= <-]; done|].
    destruct (list_to_map _ !! i) as [ok|] eqn:E; [|done]. apply elem_of_list_to_map_2, list_elem_of_fmap in E as (x & [= -> ->] & [? ?]%elem_of_seqZ). cbn [mbind option_bind get_output_data Z.eqb]. intros [= <-].
    rewrite (proj2 (Z.eqb_neq x 16) Hi). cbn. split; [lia|done]. }
  intros amount i j d d' (Hi & ->)%H (Hj & ->)%H Hle. change (height example_db) with 12. destruct (Z.eqb_spec i 16), (Z.eqb_spec j 16); lia.
Qed.

(** Two rings: one in order, and one that wraps twice, with a member of the last
    block and one member repeated. *)
Definition ring_in_order : list Z := 0 :: replicate 15 1.
Definition ring_wrapping : list Z := 16 :: (2 ^ 64 - 16) :: replicate 13 1 ++ [2 ^ 64 - 13].

Lemma example_hashable off : off = ring_in_order \/ off = ring_wrapping -> hashable (example_tx off).
Proof.
  assert (H : forall blob (tx : transaction), tx_to_blob tx = Some blob -> bool_decide (Forall is_u8 blob) = true -> parse_binary c_transaction blob = Some tx -> tx_vin tx <> [] -> length blob < 2 ^ 32 -> hashable tx).
  { intros blob tx E Hb Hp Hv Hl. split; [|rewrite E; done]. apply bool_decide_eq_true in Hb. exact (proj1 (parse_binary_inv _ _ _ c_transaction _ _ Hb Hp)). }
  intros [->| ->]; (eapply H; [vm_compute; reflexivity|vm_compute; reflexivity|vm_compute; reflexivity|discriminate|vm_compute; reflexivity]).
Qed.

Lemma example_accepted off : off = ring_in_order \/ off = ring_wrapping -> ir_ok (example_check (example_tx off)) = true.
Proof.
  intros Ho. destruct (tx_hash_total _ 0 (example_hashable off Ho)) as (th & Hth). destruct (example_hashable off Ho) as (Hok & _).
  assert (exists h, get_transaction_prefix_hash (example_tx off) = Some h) as (h & Hh).
  { unfold get_transaction_prefix_hash, get_object_hash, dump_binary. destruct (law_put (c := c_transaction_prefix) (tx_prefix (example_tx off)) (proj1 Hok)) as (b & -> & _). by eexists. }
  eapply (check_tx_inputs_intro _ _ _ _ example_cs (example_tx off) [] h th (replicate 1 (replicate 16 (mk_ctkey (sample_k 3) (sample_k 6)))) 0); [done..| | | | | |].
  - by destruct Ho as [-> | ->].
  - by destruct Ho as [-> | ->]; vm_compute.
  - by destruct Ho as [-> | ->].
  - clear -Ho. destruct Ho as [-> | ->]; vm_compute; reflexivity.
  - by vm_compute.
  - unfold ver_input_proofs_rings, expand_tx_and_ver_rct_non_sem. rewrite Hh. clear -Ho. destruct Ho as [-> | ->]; vm_compute; reflexivity.
Qed.

(** A transaction that spends the output of the transaction of [sample_db]. *)
Definition first_spend : transaction := mk_tx (mk_prefix 1 0 [txin_to_key 0 [1] (sample_k 21)] [mk_out 5 (txout_to_key (sample_k 2))] [1]) [[sample_k 8 ++ sample_k 9]] null_base null_prunable false.
Definition first_cs : chain_state := mk_chain_state sample_db (initial [] 1 1 [0]) ∅ 0 0.
Abbreviation first_check := (check_tx_inputs (fun _ => zero_key) (fun _ => false) (fun _ => false) (fun _ _ _ _ => true) first_cs first_spend [] null_hash).


Lemma never_locked bc now hf : is_tx_spendtime_unlocked bc now 0 hf = Some true.
Proof. unfold is_tx_spendtime_unlocked. cbn [Z.ltb]. change (0 <? CRYPTONOTE_MAX_BLOCK_NUMBER) with true. cbv iota. f_equal. apply Z.leb_le. by apply wrap_range. Qed.

Lemma first_output : get_output_key (fun _ => zero_key) sample_db 0 1 = Some (mk_output_data (sample_k 2) 0 0 (sample_k 6)).
Proof.
  destruct (reach_replay _ _ _ _ _ sample_reach) as [HF Hr]. destruct (replay_outputs _ _ _ _ _ HF Hr) as [Hrel _]. destruct (outs_rel_get _ _ _ 0 1 Hrel) as (_ & -> & _).
  assert (E : option_map (fun p => so_data p.2) (zlookup (select 0 (chain_stored (fun _ => zero_key) [sample_be])) 1) = Some (mk_output_data (sample_k 2) 0 0 (sample_k 6))) by (lazy; reflexivity). exact E.
Qed.

Lemma first_image : has_key_image sample_db (sample_k 21) = false.
Proof.
  destruct (reach_replay _ _ _ _ _ sample_reach) as [HF Hr]. destruct (replay_images _ _ _ _ _ HF Hr) as [_ Hs]. unfold has_key_image. rewrite bool_decide_eq_false, Hs, elem_of_list_to_set.
  apply (bool_decide_unpack (sample_k 21 ∉ chain_images [sample_be])). by vm_compute.
Qed.

Lemma first_hashes : exists h th, get_transaction_prefix_hash first_spend = Some h /\ calculate_transaction_hash first_spend 0 = Some th.
Proof.
  assert (H : forall A (c : codec A) (a : A), bool_decide (is_Some (dump_binary c a)) = true -> exists h, get_object_hash c a = Some h).
  { intros A c a Hs. unfold get_object_hash. destruct (dump_binary c a); [by eexists|discriminate Hs]. }
  destruct (H _ c_transaction_prefix (tx_prefix first_spend)) as [h Hh]; [by vm_compute|]. destruct (H _ c_transaction first_spend) as [th Hth]; [by vm_compute|]. exists h, th. exact (conj Hh Hth).
Qed.

Lemma first_ring s h : has_key_image s (sample_k 21) = false -> get_output_key (fun _ => zero_key) s 0 1 = Some (mk_output_data (sample_k 2) 0 0 (sample_k 6)) ->
  inputs_loop (fun _ => zero_key) (mk_chain_state s (initial [] 1 1 [0]) ∅ 0 0) 1 first_spend h 0 (tx_vin first_spend) 0 = (inl [[mk_ctkey (sample_k 2) (sample_k 6)]], 0).
Proof.
  intros Hk Hg. cbn [first_spend tx_vin tx_prefix inputs_loop]. rewrite bool_decide_false by done. unfold have_tx_keyimg_as_spent. cbn [cs_db]. rewrite Hk. cbn [tx_version Z.eqb tx_signatures length].
  unfold check_tx_input, scan_outputkeys_for_indexes. rewrite bool_decide_false by done. cbn [relative_output_offsets_to_absolute absolute_from]. unfold scan_outputs. cbn [m_scan_table]. rewrite lookup_empty.
  cbn [mbind option_bind get_output_keys cs_db]. rewrite Hg. cbn [length Nat.eqb negb mbind option_bind scan_loop]. unfold handle_output. cbn [od_unlock_time]. by rewrite never_locked.
Qed.

Lemma first_accepted : ir_ok first_check = true.
Proof.
  destruct first_hashes as (h & th & Hh & Hth).
  apply (check_tx_inputs_intro _ _ _ _ first_cs first_spend [] h th [[mk_ctkey (sample_k 2) (sample_k 6)]] 0); [done|done|done|done|done|exact (first_ring _ h first_image first_output)|done|].
  unfold ver_input_proofs_rings, tx_ver_legacy_ring_sigs. by rewrite Hh.
Qed.

Lemma first_scan_table (tx : transaction) s bc now n : scan_table_ok (fun _ => zero_key) (mk_chain_state s bc ∅ now n) tx.
Proof. intros h t amount off k outputs _ _ E. cbn [m_scan_table] in E. by rewrite lookup_empty in E. Qed.

(** C37: The sums of the offsets of a ring wrap around 64 bits and only the age of the
    last member is looked at: at version 16, inputs are accepted with a ring whose
    members are not distinct and one of which is in the last block, although every
    offset after the first differs from zero, as
    [check_tx_inputs_ring_members_diff] asks. *)
Theorem wrapping_ring_accepted :
  let off := relative_output_offsets_to_absolute ring_wrapping in
  hf_version_of example_cs = 16 /\ outputs_by_height (fun _ => zero_key) example_db /\ check_tx_inputs_ring_members_diff (example_tx ring_wrapping) 16 = true /\
  ir_ok (example_check (example_tx ring_wrapping)) = true /\ Forall is_u64 ring_wrapping /\
  ~ NoDup off /\ exists o d, o ∈ off /\ get_output_key (fun _ => zero_key) example_db 0 o = Some d /\ od_height d = height example_db - 1.
Proof.
  cbv zeta. split; [done|]. split; [exact example_by_height|]. split; [done|]. split; [exact (example_accepted _ (or_intror eq_refl))|]. split; [by repeat constructor|]. split.
  - intros Hn%(bool_decide_eq_true_2 _). revert Hn. by vm_compute.
  - exists 16, (mk_output_data (sample_k 3) 0 11 (sample_k 6)). split; [by left|]. by vm_compute.
Qed.

Lemma accepted_inputs_sound_witness :
  ir_ok first_check = true /\ exists rings, Forall2 (ring_in_chain (fun _ => zero_key) first_cs [sample_be]) (tx_vin first_spend) rings /\
    proofs_known (fun _ => false) (fun _ => false) (fun _ _ _ _ => true) first_spend rings null_hash.
Proof.
  split; [exact first_accepted|].
  destruct (accepted_inputs_sound (fun _ => zero_key) (fun k => k) (fun _ => false) (fun _ => false) (fun _ _ _ _ => true) 0 first_cs [sample_be] first_spend [] null_hash sample_reach (first_scan_table _ _ _ _ _)
    ltac:(by repeat constructor) first_accepted) as (rings & H1 & H2 & _). exists rings. exact (conj H1 H2).
Defined.

Lemma min_age_enforced_witness :
  ir_ok (example_check (example_tx ring_in_order)) = true /\ od_height (mk_output_data (sample_k 3) 0 0 (sample_k 6)) + CRYPTONOTE_DEFAULT_TX_SPENDABLE_AGE <= height example_db.
Proof.
  split; [exact (example_accepted _ (or_introl eq_refl))|].
  refine (proj1 (min_age_enforced (fun _ => zero_key) (fun _ => true) (fun _ => true) (fun _ _ _ _ => true) example_cs (example_tx ring_in_order) [] null_hash 0 ring_in_order (sample_k 21) 15 _
    example_by_height (first_scan_table _ _ _ _ _) _ _ (example_accepted _ (or_introl eq_refl)) _ _ _ _)); [done|done|by left| | |by vm_compute].
  - split; [by repeat constructor|done].
  - by apply (bool_decide_unpack (15 ∈ relative_output_offsets_to_absolute ring_in_order)); vm_compute.
Defined.

Lemma ring_size_schedule_witness : ir_ok (example_check (example_tx ring_in_order)) = true /\ ring_size_allowed 16 (length ring_in_order).
Proof.
  split; [exact (example_accepted _ (or_introl eq_refl))|].
  refine (proj1 (ring_size_schedule (fun _ => zero_key) (fun _ => true) (fun _ => true) (fun _ _ _ _ => true) example_cs (example_tx ring_in_order) [] null_hash 0 ring_in_order (sample_k 21)
    (example_accepted _ (or_introl eq_refl)) _ _ _ _ _)); [done| |by left|done|done].
  intros a off k Hin. apply list_elem_of_singleton in Hin. by simplify_eq.
Defined.

Lemma ring_offsets_roundtrip_witness :
  relative_output_offsets_to_absolute (absolute_output_offsets_to_relative [9; 2; 5]) = zsort [9; 2; 5] /\ absolute_output_offsets_to_relative (relative_output_offsets_to_absolute [2; 3; 4]) = [2; 3; 4].
Proof.
  split; [apply (proj1 (ring_offsets_roundtrip [9; 2; 5])); by repeat constructor|]. apply (proj2 (ring_offsets_roundtrip [2; 3; 4])). split; [by repeat constructor|done].
Defined.

Lemma double_spend_check_complete_witness : check_block_spends example_cs [example_tx ring_in_order; sample_k_tx] ∅ = true /\
  exists X, record_block_spends [example_tx ring_in_order; sample_k_tx] (m_spent_keys example_db) = Ok X.
Proof.
  assert (H : check_block_spends example_cs [example_tx ring_in_order; sample_k_tx] ∅ = true) by by vm_compute.
  exact (conj H (double_spend_check_complete example_cs [example_tx ring_in_order; sample_k_tx] H)).
Defined.
