(* ===== verification/Floats.v ===== *)
(** * Floats: the floating point arithmetic of the transaction pool

    Models what src/cryptonote_core/tx_pool.cpp uses of [double] and [float]: the
    conversion of 64-bit integers, the quotient of two of them and comparison, with
    the rounding of IEEE 754 to nearest, ties to even. Quotients of 64-bit integers
    are far from the bounds of the exponents, which are left out. *)
From S2P Require Import Prelude.

(** ** Definitions *)

(** [fp_num e m] is [m * 2 ^ e]. *)
Inductive fp := fp_nan | fp_zero | fp_num (e m : Z) | fp_inf.

(** The quotient [n / d * 2 ^ - e] as a fraction. *)
Definition scaled_num (n e : Z) : Z := n * 2 ^ Z.max 0 (- e).
Definition scaled_den (d e : Z) : Z := d * 2 ^ Z.max 0 e.

Definition round_half_even (n d : Z) : Z :=
  let q := n / d in
  let r := n mod d in
  if (d <? 2 * r) || ((d =? 2 * r) && Z.odd q) then q + 1 else q.

(** The exponent that leaves [prec] bits before the point. *)
Definition fp_exponent (prec n d : Z) : Z :=
  let e := Z.log2 n - Z.log2 d - (prec - 1) in
  if scaled_num n e <? scaled_den d e * 2 ^ (prec - 1) then e - 1 else e.

Definition fp_round (prec n d : Z) : fp :=
  if n =? 0 then fp_zero
  else
    let e := fp_exponent prec n d in
    let m := round_half_even (scaled_num n e) (scaled_den d e) in
    if m =? 2 ^ prec then fp_num (e + 1) (2 ^ (prec - 1)) else fp_num e m.

Definition fp_lt (a b : fp) : bool :=
  match a, b with
  | fp_nan, _ | _, fp_nan => false
  | fp_zero, (fp_num _ _ | fp_inf) => true
  | fp_num _ _, fp_inf => true
  | fp_num e m, fp_num e' m' => (e <? e') || ((e =? e') && (m <? m'))
  | _, _ => false
  end.

(** Division of numbers that are not negative. *)
Definition fp_div (prec : Z) (a b : fp) : fp :=
  match a, b with
  | fp_nan, _ | _, fp_nan | fp_zero, fp_zero | fp_inf, fp_inf => fp_nan
  | fp_zero, _ | _, fp_inf => fp_zero
  | _, fp_zero | fp_inf, _ => fp_inf
  | fp_num e m, fp_num e' m' => fp_round prec (m * 2 ^ (e - Z.min e e')) (m' * 2 ^ (e' - Z.min e e'))
  end.

(** The conversion to an unsigned 64-bit integer; out of range it is undefined. *)
Definition fp_to_u64 (a : fp) : option Z :=
  match a with
  | fp_zero => Some 0
  | fp_num e m => let v := if 0 <=? e then m * 2 ^ e else m / 2 ^ (- e) in if v <? 2 ^ 64 then Some v else None
  | _ => None
  end.

Definition double_prec : Z := 53.
Definition float_prec : Z := 24.

Definition u64_to_double (n : Z) : fp := fp_round double_prec n 1.
Definition u64_to_float (n : Z) : fp := fp_round float_prec n 1.

(** ** Lemmas *)

Lemma round_half_even_spec n d : 0 <= n -> 0 < d -> let m := round_half_even n d in 2 * Z.abs (m * d - n) <= d /\ n / d <= m <= n / d + 1.
Proof.
  intros Hn Hd. unfold round_half_even. pose proof (Z.div_mod n d ltac:(lia)) as E. pose proof (Z.mod_pos_bound n d Hd) as Hr.
  destruct (_ || _) eqn:Ec; cbn zeta.
  - split; [|lia]. assert (d <= 2 * (n mod d)) by lia. nia.
  - split; [|lia]. assert (2 * (n mod d) <= d) by lia. nia.
Qed.

(** A number of at most [prec] bits is converted exactly. *)
Lemma scaled_one e n : e <= 0 -> scaled_num n e = n * 2 ^ (- e) /\ scaled_den 1 e = 1.
Proof. intros He. unfold scaled_num, scaled_den. by rewrite (Z.max_r 0 (- e)), (Z.max_l 0 e) by lia. Qed.

Lemma exponent_one prec n : 1 < prec -> 0 < n -> fp_exponent prec n 1 = Z.log2 n - (prec - 1).
Proof.
  intros Hp Hn. unfold fp_exponent. change (Z.log2 1) with 0. rewrite Z.sub_0_r. set (e := Z.log2 n - (prec - 1)). destruct (Z.log2_spec n Hn) as [Hlo Hhi]. pose proof (Z.log2_nonneg n).
  rewrite (proj2 (Z.ltb_ge _ _)); [done|]. unfold scaled_num, scaled_den. destruct (Z.le_ge_cases e 0).
  - rewrite (Z.max_r 0 (- e)), (Z.max_l 0 e) by lia. change (2 ^ 0) with 1. rewrite !Z.mul_1_l. replace (prec - 1) with (Z.log2 n + - e) by lia. rewrite Z.pow_add_r by lia. nia.
  - rewrite (Z.max_l 0 (- e)), (Z.max_r 0 e) by lia. change (2 ^ 0) with 1. rewrite Z.mul_1_l, Z.mul_1_r, <- Z.pow_add_r by lia. by replace (e + (prec - 1)) with (Z.log2 n) by lia.
Qed.

(** The value of a conversion is within half a unit of the last place. *)
Lemma fp_round_int prec n : 1 < prec -> 0 < n < 2 ^ 64 -> exists v,
  (v < 2 ^ 64 -> fp_to_u64 (fp_round prec n 1) = Some v) /\ (2 ^ 64 <= v -> fp_to_u64 (fp_round prec n 1) = None) /\
  2 ^ prec * Z.abs (v - n) <= n /\ (n < 2 ^ prec -> v = n).
Proof.
  intros Hp Hn. destruct (Z.log2_spec n ltac:(lia)) as [Hlo Hhi]. pose proof (Z.log2_nonneg n) as HL. set (L := Z.log2 n) in *. unfold fp_round. rewrite (proj2 (Z.eqb_neq n 0)) by lia.
  rewrite exponent_one by lia. fold L. set (e := L - (prec - 1)). assert (0 < 2 ^ prec) by (apply Z.pow_pos_nonneg; lia). destruct (Z.le_gt_cases e 0) as [He|He].
  - destruct (scaled_one e n He) as [-> ->]. assert (0 < 2 ^ (- e)) by (apply Z.pow_pos_nonneg; lia).
    assert (Em : round_half_even (n * 2 ^ (- e)) 1 = n * 2 ^ (- e)) by (unfold round_half_even; by rewrite Z.mod_1_r, Z.div_1_r). rewrite Em.
    assert (n * 2 ^ (- e) < 2 ^ prec) by (replace prec with (Z.succ L + - e) by lia; rewrite Z.pow_add_r by lia; nia).
    rewrite (proj2 (Z.eqb_neq _ (2 ^ prec))) by lia. exists n. split; [|split; [lia|split; [rewrite Z.sub_diag; cbn; lia|done]]]. intros _. cbn [fp_to_u64].
    destruct (Z.leb_spec 0 e); [replace e with 0 by lia; cbn [Z.opp Z.pow]; rewrite !Z.mul_1_r|rewrite Z.div_mul by lia]; by rewrite (proj2 (Z.ltb_lt n (2 ^ 64))) by lia.
  - assert (Hne : scaled_num n e = n /\ scaled_den 1 e = 2 ^ e) by (unfold scaled_num, scaled_den; rewrite (Z.max_l 0 (- e)), (Z.max_r 0 e) by lia; change (2 ^ 0) with 1; lia). destruct Hne as [-> ->].
    assert (0 < 2 ^ e) by (apply Z.pow_pos_nonneg; lia). destruct (round_half_even_spec n (2 ^ e) ltac:(lia) ltac:(lia)) as [Hr _]. set (m := round_half_even n (2 ^ e)) in *. exists (m * 2 ^ e).
    assert (Ev : forall v, (if m =? 2 ^ prec then fp_num (e + 1) (2 ^ (prec - 1)) else fp_num e m) = v -> fp_to_u64 v = if m * 2 ^ e <? 2 ^ 64 then Some (m * 2 ^ e) else None).
    { intros v <-. destruct (Z.eqb_spec m (2 ^ prec)) as [->|_]; cbn [fp_to_u64]; [|by rewrite (proj2 (Z.leb_le 0 e)) by lia]. rewrite (proj2 (Z.leb_le 0 (e + 1))) by lia.
      replace (2 ^ (prec - 1) * 2 ^ (e + 1)) with (2 ^ prec * 2 ^ e); [done|]. rewrite <- !Z.pow_add_r by lia. f_equal. lia. }
    rewrite (Ev _ eq_refl). split; [intros Hv; by rewrite (proj2 (Z.ltb_lt _ _) Hv)|]. split; [intros Hv; by rewrite (proj2 (Z.ltb_ge _ _) Hv)|]. split.
    + assert (2 ^ prec = 2 * 2 ^ (prec - 1)) by (rewrite <- Z.pow_succ_r by lia; f_equal; lia). assert (2 ^ (prec - 1) * 2 ^ e = 2 ^ L) by (rewrite <- Z.pow_add_r by lia; f_equal; lia).
      assert (0 < 2 ^ (prec - 1)) by (apply Z.pow_pos_nonneg; lia). nia.
    + intros Hlt. exfalso. assert (2 ^ prec <= 2 ^ L) by (apply Z.pow_le_mono_r; lia). lia.
Qed.
