(* ===== verification/TxPool.v ===== *)
(** * TxPool: the transaction pool

    Models src/cryptonote_core/tx_pool.cpp and tx_pool.h, the pool tables of
    src/blockchain_db/lmdb/db_lmdb.cpp and the relay methods of
    src/blockchain_db/blockchain_db.cpp: adding, taking, pruning and expiring
    transactions, the index of spent key images, the order by fee, relaying, the
    block template and the validation after a fork.

    [time(NULL)] returns one time during an operation, [cs_now] of the chain;
    exceptions are [None] or the branch of the handler that catches them. *)
From stdpp Require Import gmap.
From S2P Require Import Prelude Varint Archive Config Reward RollingMedian BlockWeight FeesTime Keccak TxFormat RctFormat Transaction TxParse TreeHash TxHash TxWeight Money TxVerify ChainDb TxInputs Floats.
#[local] Open Scope mach_scope.
#[local] Arguments put : simpl never.
#[local] Arguments get : simpl never.

(** ** Definitions *)

(** *** Relay methods *)

Inductive relay_method := relay_none | relay_local | relay_forward | relay_stem | relay_fluff | relay_block.
Inductive relay_category := broadcasted | relayable | legacy | all.

#[global] Instance relay_method_eq_dec : EqDecision relay_method.
Proof. solve_decision. Defined.

(** The value of the enumerator. *)
Definition relay_rank (m : relay_method) : Z :=
  match m with relay_none => 0 | relay_local => 1 | relay_forward => 2 | relay_stem => 3 | relay_fluff => 4 | relay_block => 5 end.

Definition matches_category (method : relay_method) (category : relay_category) : bool :=
  match category with
  | all => true
  | relayable => negb (bool_decide (method = relay_none))
  | broadcasted | legacy =>
      match method with
      | relay_local | relay_forward | relay_stem => false
      | relay_block | relay_fluff => true
      | relay_none => match category with legacy => true | _ => false end
      end
  end.

Record txpool_tx_meta_t := mk_meta {
  max_used_block_id : list Z;
  last_failed_id : list Z;
  meta_weight : Z;
  meta_fee : Z;
  max_used_block_height : Z;
  last_failed_height : Z;
  receive_time : Z;
  last_relayed_time : Z;
  kept_by_block : bool;
  meta_relayed : bool;
  do_not_relay : bool;
  double_spend_seen : bool;
  meta_pruned : bool;
  is_local : bool;
  dandelionpp_stem : bool;
  is_forwarding : bool;
  prunable_hash_valid : bool;
  prunable_hash : list Z;
  valid_input_verification_id : list Z;
}.

#[global] Instance txpool_tx_meta_eq_dec : EqDecision txpool_tx_meta_t.
Proof. solve_decision. Defined.

Definition empty_meta (id : list Z) : txpool_tx_meta_t :=
  mk_meta null_hash null_hash 0 0 0 0 0 0 false false false false false false false false false null_hash id.

Definition set_relay_method (m : txpool_tx_meta_t) (method : relay_method) : txpool_tx_meta_t :=
  mk_meta (max_used_block_id m) (last_failed_id m) (meta_weight m) (meta_fee m) (max_used_block_height m) (last_failed_height m) (receive_time m) (last_relayed_time m)
    (bool_decide (method = relay_block)) (meta_relayed m) (bool_decide (method = relay_none)) (double_spend_seen m) (meta_pruned m)
    (bool_decide (method = relay_local)) (bool_decide (method = relay_stem)) (bool_decide (method = relay_forward)) (prunable_hash_valid m) (prunable_hash m) (valid_input_verification_id m).

Definition get_relay_method (m : txpool_tx_meta_t) : relay_method :=
  let state := Z.b2z (kept_by_block m) + 2 * Z.b2z (do_not_relay m) + 4 * Z.b2z (is_local m) + 8 * Z.b2z (is_forwarding m) + 16 * Z.b2z (dandelionpp_stem m) in
  if state =? 1 then relay_block else if state =? 2 then relay_none else if state =? 4 then relay_local
  else if state =? 8 then relay_forward else if state =? 16 then relay_stem else relay_fluff.

Definition upgrade_relay_method (m : txpool_tx_meta_t) (method : relay_method) : bool * txpool_tx_meta_t :=
  if relay_rank (get_relay_method m) <? relay_rank method then (true, set_relay_method m method) else (false, m).

Definition meta_matches (m : txpool_tx_meta_t) (category : relay_category) : bool := matches_category (get_relay_method m) category.

(** *** Tables *)

Record pool_tables := mk_pool_tables { m_txpool_meta : gmap (list Z) txpool_tx_meta_t; m_txpool_blob : gmap (list Z) (list Z) }.

Definition add_txpool_tx (t : pool_tables) (txid blob : list Z) (meta : txpool_tx_meta_t) : option pool_tables :=
  match m_txpool_meta t !! txid, m_txpool_blob t !! txid with
  | None, None => Some (mk_pool_tables (<[txid := meta]> (m_txpool_meta t)) (<[txid := blob]> (m_txpool_blob t)))
  | _, _ => None
  end.
Definition update_txpool_tx (t : pool_tables) (txid : list Z) (meta : txpool_tx_meta_t) : option pool_tables :=
  match m_txpool_meta t !! txid with Some _ => Some (mk_pool_tables (<[txid := meta]> (m_txpool_meta t)) (m_txpool_blob t)) | None => None end.
Definition remove_txpool_tx (t : pool_tables) (txid : list Z) : pool_tables :=
  mk_pool_tables (delete txid (m_txpool_meta t)) (delete txid (m_txpool_blob t)).
Definition get_txpool_tx_meta (t : pool_tables) (txid : list Z) : option txpool_tx_meta_t := m_txpool_meta t !! txid.
Definition txpool_has_tx (t : pool_tables) (txid : list Z) (category : relay_category) : bool :=
  match m_txpool_meta t !! txid with Some meta => match category with all => true | _ => meta_matches meta category end | None => false end.
Definition get_txpool_tx_blob (t : pool_tables) (txid : list Z) (category : relay_category) : option (list Z) :=
  match category with
  | all => m_txpool_blob t !! txid
  | _ => meta ← m_txpool_meta t !! txid; if meta_matches meta category then m_txpool_blob t !! txid else None
  end.
Definition txpool_tx_matches_category (t : pool_tables) (txid : list Z) (category : relay_category) : bool :=
  match m_txpool_meta t !! txid with Some meta => meta_matches meta category | None => false end.

(** [compare_hash32] orders hashes as little-endian numbers. *)
Definition hash32_value (h : list Z) : Z := foldr (fun b acc => b + 256 * acc) 0 h.
Definition hash32_le {A} (a b : list Z * A) : Prop := hash32_value a.1 <= hash32_value b.1.
#[global] Instance hash32_le_dec A : RelDecision (@hash32_le A) := fun a b => Z.le_dec (hash32_value a.1) (hash32_value b.1).
Definition for_all_txpool_txes (t : pool_tables) (category : relay_category) : list (list Z * txpool_tx_meta_t) :=
  List.filter (fun e => match category with all => true | _ => meta_matches e.2 category end)
    (merge_sort hash32_le (map_to_list (m_txpool_meta t))).

(** *** The state *)

(** A transaction object: [unprunable_size] and, of a pruned one, [prunable_hash]
    are members that its blob does not hold. *)
Record pool_tx := mk_pool_tx { pt_tx :> transaction; pt_unprunable_size : Z; pt_prunable_hash : option (list Z) }.

(** An entry of [sorted_tx_container]. *)
Record sorted_entry := mk_sorted { se_fee : fp; se_time : Z; se_txid : list Z }.

Record transient_lists := mk_lists {
  m_txs_by_fee_and_receive_time : list sorted_entry;
  m_added_txs_by_id : gmap (list Z) (Z * bool);
  m_added_txs_start_time : Z;
  m_removed_txs_by_time : list (Z * (list Z * bool));
  m_removed_txs_start_time : Z;
}.

Record tx_pool := mk_pool {
  tp_tables : pool_tables;
  m_spent_key_images : gmap (list Z) (gset (list Z));
  tp_lists : transient_lists;
  m_timed_out_transactions : gset (list Z);
  m_txpool_max_weight : Z;
  m_txpool_weight : Z;
  m_mine_stem_txes : bool;
  m_input_cache : gmap (list Z) (bool * tvc_t * Z * list Z);
  m_parsed_tx_cache : gmap (list Z) pool_tx;
  m_next_check : Z;
  m_cookie : Z;
}.

Definition set_tables (p : tx_pool) (t : pool_tables) : tx_pool :=
  mk_pool t (m_spent_key_images p) (tp_lists p) (m_timed_out_transactions p) (m_txpool_max_weight p) (m_txpool_weight p) (m_mine_stem_txes p) (m_input_cache p) (m_parsed_tx_cache p) (m_next_check p) (m_cookie p).
Definition set_images (p : tx_pool) (s : gmap (list Z) (gset (list Z))) : tx_pool :=
  mk_pool (tp_tables p) s (tp_lists p) (m_timed_out_transactions p) (m_txpool_max_weight p) (m_txpool_weight p) (m_mine_stem_txes p) (m_input_cache p) (m_parsed_tx_cache p) (m_next_check p) (m_cookie p).
Definition set_lists (p : tx_pool) (l : transient_lists) : tx_pool :=
  mk_pool (tp_tables p) (m_spent_key_images p) l (m_timed_out_transactions p) (m_txpool_max_weight p) (m_txpool_weight p) (m_mine_stem_txes p) (m_input_cache p) (m_parsed_tx_cache p) (m_next_check p) (m_cookie p).
Definition set_timed_out (p : tx_pool) (x : gset (list Z)) : tx_pool :=
  mk_pool (tp_tables p) (m_spent_key_images p) (tp_lists p) x (m_txpool_max_weight p) (m_txpool_weight p) (m_mine_stem_txes p) (m_input_cache p) (m_parsed_tx_cache p) (m_next_check p) (m_cookie p).
Definition set_weight (p : tx_pool) (w : Z) : tx_pool :=
  mk_pool (tp_tables p) (m_spent_key_images p) (tp_lists p) (m_timed_out_transactions p) (m_txpool_max_weight p) w (m_mine_stem_txes p) (m_input_cache p) (m_parsed_tx_cache p) (m_next_check p) (m_cookie p).
Definition set_caches (p : tx_pool) (input : gmap (list Z) (bool * tvc_t * Z * list Z)) (parsed : gmap (list Z) pool_tx) : tx_pool :=
  mk_pool (tp_tables p) (m_spent_key_images p) (tp_lists p) (m_timed_out_transactions p) (m_txpool_max_weight p) (m_txpool_weight p) (m_mine_stem_txes p) input parsed (m_next_check p) (m_cookie p).
Definition set_next_check (p : tx_pool) (t : Z) : tx_pool :=
  mk_pool (tp_tables p) (m_spent_key_images p) (tp_lists p) (m_timed_out_transactions p) (m_txpool_max_weight p) (m_txpool_weight p) (m_mine_stem_txes p) (m_input_cache p) (m_parsed_tx_cache p) t (m_cookie p).
(** [++m_cookie] *)
Definition bump (p : tx_pool) : tx_pool :=
  mk_pool (tp_tables p) (m_spent_key_images p) (tp_lists p) (m_timed_out_transactions p) (m_txpool_max_weight p) (m_txpool_weight p) (m_mine_stem_txes p) (m_input_cache p) (m_parsed_tx_cache p) (m_next_check p) (m_cookie p ⊞ 1).

(** *** The lists by fee and time *)

(** [txFeeCompare] *)
Definition txFeeCompare (a b : sorted_entry) : bool :=
  if fp_lt (se_fee b) (se_fee a) then true else if fp_lt (se_fee a) (se_fee b) then false else se_time a <? se_time b.

(** An entry goes after those it does not precede; a hash is there once. *)
Fixpoint sorted_insert (x : sorted_entry) (l : list sorted_entry) : list sorted_entry :=
  match l with [] => [x] | y :: l => if txFeeCompare x y then x :: y :: l else y :: sorted_insert x l end.
Definition in_sorted (l : list sorted_entry) (txid : list Z) : bool := existsb (fun e => bool_decide (se_txid e = txid)) l.
Definition sorted_erase (l : list sorted_entry) (txid : list Z) : list sorted_entry := List.filter (fun e => negb (bool_decide (se_txid e = txid))) l.

Definition add_tx_to_transient_lists (l : transient_lists) (now : Z) (txid : list Z) (fee : fp) (receive_time : Z) (sensitive : bool) : transient_lists :=
  let sorted := if bool_decide (is_Some (m_added_txs_by_id l !! txid)) then sorted_erase (m_txs_by_fee_and_receive_time l) txid else m_txs_by_fee_and_receive_time l in
  mk_lists (if in_sorted sorted txid then sorted else sorted_insert (mk_sorted fee receive_time txid) sorted)
    (<[txid := (now, sensitive)]> (m_added_txs_by_id l)) (if m_added_txs_start_time l =? 0 then now else m_added_txs_start_time l)
    (m_removed_txs_by_time l) (m_removed_txs_start_time l).

(** A multimap keeps entries of one key in the order of insertion. *)
Fixpoint multimap_insert {A} (x : Z * A) (l : list (Z * A)) : list (Z * A) :=
  match l with [] => [x] | y :: l => if x.1 <? y.1 then x :: y :: l else y :: multimap_insert x l end.

Definition MAX_REMOVED : Z := 20000.

Definition track_removed_tx (l : transient_lists) (now : Z) (txid : list Z) (sensitive : bool) : transient_lists :=
  let removed := multimap_insert (now, (txid, sensitive)) (m_removed_txs_by_time l) in
  let start := if m_removed_txs_start_time l =? 0 then now else m_removed_txs_start_time l in
  let '(removed, start) :=
    if MAX_REMOVED <? length removed then
      let removed := drop (Z.to_nat (MAX_REMOVED / 4 + 1)) removed in (removed, match removed with (t, _) :: _ => t | [] => start end)
    else
      let earliest := now - 30 * 60 in
      let kept := List.filter (fun e => earliest <=? e.1) removed in
      if (length kept <? length removed)%nat then (kept, earliest) else (removed, start) in
  mk_lists (m_txs_by_fee_and_receive_time l) (m_added_txs_by_id l) (m_added_txs_start_time l) removed start.

Definition remove_tx_from_transient_lists (l : transient_lists) (now : Z) (txid : list Z) (sensitive : bool) : transient_lists :=
  track_removed_tx
    (mk_lists (sorted_erase (m_txs_by_fee_and_receive_time l) txid) (delete txid (m_added_txs_by_id l)) (m_added_txs_start_time l) (m_removed_txs_by_time l) (m_removed_txs_start_time l))
    now txid sensitive.

(** *** Key images *)

(** The set of a key image; the map is left with an empty one where it was missing. *)
Definition image_set (s : gmap (list Z) (gset (list Z))) (k : list Z) : gset (list Z) := default ∅ (s !! k).

Fixpoint insert_images_loop (t : pool_tables) (vin : list txin_v) (id : list Z) (tx_relay : relay_method) (s : gmap (list Z) (gset (list Z))) : bool * gmap (list Z) (gset (list Z)) :=
  match vin with
  | [] => (true, s)
  | txin_to_key _ _ k :: vin =>
      let set := image_set s k in
      let one_txid := bool_decide (set = ∅) || bool_decide (set = {[id]}) in
      if negb (bool_decide (tx_relay = relay_block)) && negb one_txid then (false, <[k := set]> s)
      else
        let inserted := negb (bool_decide (id ∈ set)) in
        let s := <[k := {[id]} ∪ set]> s in
        if inserted || negb (txpool_tx_matches_category t id legacy) then insert_images_loop t vin id tx_relay s else (false, s)
  | _ => (false, s)
  end.
Definition insert_key_images (p : tx_pool) (vin : list txin_v) (id : list Z) (tx_relay : relay_method) : bool * tx_pool :=
  let '(r, s) := insert_images_loop (tp_tables p) vin id tx_relay (m_spent_key_images p) in
  let p := set_images p s in (r, if r then bump p else p).

Fixpoint remove_images_loop (vin : list txin_v) (id : list Z) (s : gmap (list Z) (gset (list Z))) : bool * gmap (list Z) (gset (list Z)) :=
  match vin with
  | [] => (true, s)
  | txin_to_key _ _ k :: vin =>
      match s !! k with
      | Some set =>
          if bool_decide (id ∈ set) then let set := set ∖ {[id]} in remove_images_loop vin id (if bool_decide (set = ∅) then delete k s else <[k := set]> s)
          else (false, s)
      | None => (false, s)
      end
  | _ => (false, s)
  end.
Definition remove_transaction_keyimages (p : tx_pool) (vin : list txin_v) (actual_hash : list Z) : bool * tx_pool :=
  let '(r, s) := remove_images_loop vin actual_hash (m_spent_key_images p) in
  let p := set_images p s in (r, if r then bump p else p).

Definition pool_keyimg_as_spent (p : tx_pool) (key_im txid : list Z) : bool :=
  match m_spent_key_images p !! key_im with
  | Some set => if bool_decide (set = ∅) then false else if negb (bool_decide (set = {[txid]})) then true else txpool_tx_matches_category (tp_tables p) txid legacy
  | None => false
  end.
Definition pool_keyimges_as_spent (p : tx_pool) (vin : list txin_v) (txid : list Z) : bool :=
  existsb (fun i => match i with txin_to_key _ _ k => pool_keyimg_as_spent p k txid | _ => false end) vin.

Definition set_double_spend_seen (m : txpool_tx_meta_t) (b : bool) : txpool_tx_meta_t :=
  mk_meta (max_used_block_id m) (last_failed_id m) (meta_weight m) (meta_fee m) (max_used_block_height m) (last_failed_height m) (receive_time m) (last_relayed_time m)
    (kept_by_block m) (meta_relayed m) (do_not_relay m) b (meta_pruned m) (is_local m) (dandelionpp_stem m) (is_forwarding m) (prunable_hash_valid m) (prunable_hash m) (valid_input_verification_id m).

(** The tables, and whether something changed. *)
Definition mark_one (txid : list Z) (r : pool_tables * bool) : pool_tables * bool :=
  match m_txpool_meta r.1 !! txid with
  | None => r
  | Some meta =>
      if double_spend_seen meta then r
      else (default r.1 (update_txpool_tx r.1 txid (set_double_spend_seen meta true)), true)
  end.
Fixpoint mark_loop (s : gmap (list Z) (gset (list Z))) (vin : list txin_v) (r : pool_tables * bool) : pool_tables * bool * bool :=
  match vin with
  | [] => (r, true)
  | txin_to_key _ _ k :: vin => mark_loop s vin (match s !! k with Some set => foldr mark_one r (elements set) | None => r end)
  | _ => (r, false)
  end.
(** An input that is no key input leaves before the changes are committed, unless
    they are part of a batch. *)
Definition mark_double_spend (p : tx_pool) (in_batch : bool) (vin : list txin_v) : tx_pool :=
  let '(t, changed, finished) := mark_loop (m_spent_key_images p) vin (tp_tables p, false) in
  if finished then let p := set_tables p t in if changed then bump p else p
  else if in_batch then set_tables p t else p.

(** *** Verification *)

(** The functions of the curve and of the proof systems that verification calls, of
    which nothing is assumed. *)
Class Crypto := {
  zeroCommitVartime : Z -> list Z;
  mul_inv_eight : list Z -> list Z;
  check_key : list Z -> bool;
  is_identity : list Z -> bool;
  in_subgroup : list Z -> bool;
  check_ring_signature : list Z -> list Z -> list (list Z) -> list (list Z) -> bool;
  verRctNonSemanticsSimple : rctSig -> bool;
  verRct_non_sem : rctSig -> bool;
  verRct_sem : rctSig -> bool;
  verRctSemanticsSimple1 : rctSig -> bool;
  verRctSemanticsSimple : list rctSig -> bool;
}.

Definition get_tx_fee (tx : transaction) : Z :=
  if 1 <? tx_version tx then rct_txnFee (tx_rct tx)
  else
    let '(ok, amount_in) := get_inputs_money_amount (tx_vin tx) 0 in
    let amount_out := fold_left (fun acc o => acc ⊞ out_amount o) (tx_vout tx) 0 in
    if negb ok || (amount_in <? amount_out) then 0 else amount_in ⊟ amount_out.

(** [fee / (double)weight] *)
Definition fee_rate (fee weight : Z) : fp := fp_div double_prec (u64_to_double fee) (u64_to_double weight).

Definition cache_prunable_hash (tx : pool_tx) (blob : list Z) : bool * list Z :=
  if tx_pruned tx then match pt_prunable_hash tx with Some h => (true, h) | None => (false, null_hash) end
  else if tx_version tx =? 1 then (true, null_hash)
  else match calculate_transaction_prunable_hash tx (pt_unprunable_size tx) (Some blob) with Some h => (true, h) | None => (false, null_hash) end.

Definition set_prunable_hash (m : txpool_tx_meta_t) (h : bool * list Z) : txpool_tx_meta_t :=
  mk_meta (max_used_block_id m) (last_failed_id m) (meta_weight m) (meta_fee m) (max_used_block_height m) (last_failed_height m) (receive_time m) (last_relayed_time m)
    (kept_by_block m) (meta_relayed m) (do_not_relay m) (double_spend_seen m) (meta_pruned m) (is_local m) (dandelionpp_stem m) (is_forwarding m) h.1 h.2 (valid_input_verification_id m).

Definition reduce_txpool_weight (p : tx_pool) (weight : Z) : tx_pool :=
  set_weight p (if m_txpool_weight p <? weight then 0 else m_txpool_weight p - weight).

(** A signed 64-bit time and its quotients, which round towards zero. *)
Definition MIN_RELAY_TIME : Z := 300.
Definition MAX_RELAY_TIME : Z := 14400.
Definition to_signed (x : Z) : Z := if x <? 2 ^ 63 then x else x - 2 ^ 64.
Definition get_relay_delay (last_relay received : Z) : Z :=
  let d := Z.quot (to_signed last_relay - to_signed received + MIN_RELAY_TIME) MIN_RELAY_TIME * MIN_RELAY_TIME in
  u64 (if MAX_RELAY_TIME <? d then MAX_RELAY_TIME else d).

Section pool.
Context `{Crypto}.

(** What the inputs check returns, and the pool with its cache. *)
Record pool_inputs := mk_pool_inputs { pi_ok : bool; pi_tvc : tvc_t; pi_id : list Z; pi_height : Z; pi_block_id : list Z }.

Definition pool_check_tx_inputs (cs : chain_state) (p : tx_pool) (tx : transaction) (txid valid_id : list Z) (height : Z) (block_id : list Z) (tvc : tvc_t) (kept : bool) : pool_inputs * tx_pool :=
  match (if kept then None else m_input_cache p !! txid) with
  | Some (r, tvc, h, b) => (mk_pool_inputs r tvc valid_id h b, p)
  | None =>
      let '(r, b) := check_tx_inputs_block zeroCommitVartime verRctNonSemanticsSimple verRct_non_sem check_ring_signature cs tx tvc valid_id kept in
      let b := default block_id b in
      (mk_pool_inputs (ir_ok r) (ir_tvc r) (ir_id r) (ir_max_height r) b,
       if kept then p else set_caches p (<[txid := (ir_ok r, ir_tvc r, ir_max_height r, b)]> (m_input_cache p)) (m_parsed_tx_cache p))
  end.

(** *** Pruning *)

(** [None] is an early return. *)
Definition prune_one (cs : chain_state) (p : tx_pool) (txid : list Z) (meta : txpool_tx_meta_t) : option tx_pool :=
  blob ← get_txpool_tx_blob (tp_tables p) txid all;
  tx ← parse_and_validate_tx_prefix_from_blob blob false;
  let p := reduce_txpool_weight (set_tables p (remove_txpool_tx (tp_tables p) txid)) (meta_weight meta) in
  let '(_, p) := remove_transaction_keyimages p (tx_vin tx) txid in
  Some (set_lists p (remove_tx_from_transient_lists (tp_lists p) (cs_now cs) txid (negb (meta_matches meta broadcasted)))).

(** The entries from the last one down to the second; whether the loop ended, and
    whether it removed something. *)
Fixpoint prune_loop (cs : chain_state) (bytes : Z) (txids : list (list Z)) (p : tx_pool) (changed : bool) : bool * bool * tx_pool :=
  match txids with
  | [] => (true, changed, p)
  | txid :: txids =>
      if m_txpool_weight p <=? bytes then (true, changed, p)
      else match get_txpool_tx_meta (tp_tables p) txid with
      | None => prune_loop cs bytes txids p changed
      | Some meta =>
          if kept_by_block meta then prune_loop cs bytes txids p changed
          else match prune_one cs p txid meta with
          | None => (false, changed, p)
          | Some p => prune_loop cs bytes txids p true
          end
      end
  end.

(** [in_batch] tells whether a batch is open around the call: the tables are then
    not put back by an early return. *)
Definition prune (cs : chain_state) (in_batch : bool) (bytes : Z) (p : tx_pool) : tx_pool :=
  let bytes := if bytes =? 0 then m_txpool_max_weight p else bytes in
  let '(ended, changed, p') := prune_loop cs bytes (map se_txid (rev (tail (m_txs_by_fee_and_receive_time (tp_lists p))))) p false in
  if ended then if changed then bump p' else p'
  else if in_batch then p' else set_tables p' (tp_tables p).

(** *** Adding *)

(** The verdict with the context and [tvc.m_relay] when it is set. *)
Record add_result := mk_add_result { ar_ok : bool; ar_tvc : tvc_t; ar_relay : option relay_method; ar_pool : tx_pool }.

Definition clear_flag (f : tvc_flag) (tvc : tvc_t) : tvc_t := List.filter (fun g => negb (bool_decide (g = f))) tvc.

(** [MAX_TX_EXTRA_SIZE], and the largest value of [last_relayed_time]. *)
Definition MAX_TX_EXTRA_SIZE : Z := 1060.
Definition never_relayed : Z := 2 ^ 64 - 1.

(** The entry of a transaction of a block whose inputs do not verify now. *)
Definition failed_meta (cs : chain_state) (p : tx_pool) (tx : pool_tx) (id blob : list Z) (tx_weight : Z) (tx_relay : relay_method) (relayed : bool) (valid_id : list Z) : txpool_tx_meta_t :=
  set_prunable_hash
    (set_relay_method
       (mk_meta null_hash null_hash tx_weight (get_tx_fee tx) 0 0 (cs_now cs) (cs_now cs) false relayed false (pool_keyimges_as_spent p (tx_vin tx) id) (tx_pruned tx) false false false false null_hash valid_id)
       tx_relay)
    (cache_prunable_hash tx blob).

(** The entry of a transaction whose inputs verify, from the one there, if any. *)
Definition verified_meta (cs : chain_state) (meta : txpool_tx_meta_t) (tx : pool_tx) (blob : list Z) (tx_weight : Z) (relayed : bool) (r : pool_inputs) (last_relayed : Z) : txpool_tx_meta_t :=
  let m := mk_meta (pi_block_id r) null_hash tx_weight (get_tx_fee tx) (pi_height r) 0 (cs_now cs) last_relayed (kept_by_block meta) relayed (do_not_relay meta) false (tx_pruned tx)
             (is_local meta) (dandelionpp_stem meta) (is_forwarding meta) (prunable_hash_valid meta) (prunable_hash meta) (valid_input_verification_id meta) in
  if prunable_hash_valid meta then m else set_prunable_hash m (cache_prunable_hash tx blob).

(** The failed branch; [None] is a return of [false]. *)
Definition insert_failed (cs : chain_state) (p : tx_pool) (tx : pool_tx) (id blob : list Z) (tx_weight : Z) (tx_relay : relay_method) (relayed : bool) (valid_id : list Z) : tx_pool + tx_pool :=
  let meta := failed_meta cs p tx id blob tx_weight tx_relay relayed valid_id in
  let p := set_caches p (m_input_cache p) (match m_parsed_tx_cache p !! id with Some _ => m_parsed_tx_cache p | None => <[id := tx]> (m_parsed_tx_cache p) end) in
  let '(ok, p) := insert_key_images p (tx_vin tx) id tx_relay in
  if negb ok then inr p
  else match add_txpool_tx (tp_tables p) id blob meta with
  | None => inr p
  | Some t =>
      inl (set_lists (set_tables p t)
             (add_tx_to_transient_lists (tp_lists p) (cs_now cs) id (fee_rate (get_tx_fee tx) (if tx_weight =? 0 then 1 else tx_weight)) (cs_now cs) (negb (meta_matches meta broadcasted))))
  end.

(** The other branch, with the relay method used and whether the transaction is new;
    [delay] is the random delay drawn. *)
Definition insert_verified (cs : chain_state) (p : tx_pool) (tx : pool_tx) (id blob : list Z) (tx_weight : Z) (tx_relay : relay_method) (relayed : bool) (r : pool_inputs) (delay : Z)
  : (tx_pool * txpool_tx_meta_t * relay_method * bool) + tx_pool :=
  let p := if bool_decide (tx_relay = relay_block)
           then set_caches p (m_input_cache p) (match m_parsed_tx_cache p !! id with Some _ => m_parsed_tx_cache p | None => <[id := tx]> (m_parsed_tx_cache p) end) else p in
  let '(existing_tx, meta) := match get_txpool_tx_meta (tp_tables p) id with
                              | Some meta => (true, meta)
                              | None => (false, set_relay_method (empty_meta (pi_id r)) relay_none)
                              end in
  let tx_relay := if existing_tx && bool_decide (tx_relay = relay_stem) && dandelionpp_stem meta then relay_fluff else tx_relay in
  let '(upgraded, meta) := upgrade_relay_method meta tx_relay in
  if upgraded || negb existing_tx then
    let timed := bool_decide (tx_relay = relay_forward) || bool_decide (tx_relay = relay_stem) in
    let last_relayed := if timed then u64 (cs_now cs + delay) else never_relayed in
    let p := if timed && (last_relayed <? m_next_check p) then set_next_check p last_relayed else p in
    let meta := verified_meta cs meta tx blob tx_weight relayed r last_relayed in
    let '(ok, p) := insert_key_images p (tx_vin tx) id tx_relay in
    if negb ok then inr p
    else match add_txpool_tx (remove_txpool_tx (tp_tables p) id) id blob meta with
    | None => inr p
    | Some t =>
        inl (set_lists (set_tables p t)
               (add_tx_to_transient_lists (tp_lists p) (cs_now cs) id (fee_rate (meta_fee meta) (if tx_weight =? 0 then 1 else tx_weight)) (cs_now cs) (negb (meta_matches meta broadcasted))),
             meta, tx_relay, negb existing_tx)
    end
  else inl (p, meta, tx_relay, negb existing_tx).

Definition add_tx (cs : chain_state) (in_batch : bool) (delay : Z) (p : tx_pool) (tx : pool_tx) (id blob : list Z) (tx_weight : Z) (tvc : tvc_t) (tx_relay : relay_method) (relayed : bool)
  (version nic_verified_hf_version : Z) (valid_id : list Z) : add_result :=
  let kept := bool_decide (tx_relay = relay_block) in
  let refuse flags tvc p := mk_add_result false (flags ++ tvc) None p in
  if negb kept && bool_decide (id ∈ m_timed_out_transactions p) then refuse [m_verifivation_failed; m_no_drop_offense] tvc p
  else if negb (kept || default false (check_fee (bc_of cs) tx_weight (get_tx_fee tx))) then refuse [m_verifivation_failed; m_fee_too_low; m_no_drop_offense] tvc p
  else if negb kept && (MAX_TX_EXTRA_SIZE <? length (tx_extra tx)) then refuse [m_verifivation_failed; m_tx_extra_too_big; m_no_drop_offense] tvc p
  else if negb kept && negb (tx_unlock_time tx =? 0) then refuse [m_verifivation_failed; m_nonzero_unlock_time; m_no_drop_offense] tvc p
  else if negb kept && pool_keyimges_as_spent p (tx_vin tx) id then
    refuse [m_verifivation_failed; m_double_spend; m_no_drop_offense] tvc (mark_double_spend p in_batch (tx_vin tx))
  else
    let '(nic, tvc) := if version =? nic_verified_hf_version then (true, tvc)
                       else default (false, tvc) (ver_non_input_consensus verRctSemanticsSimple1 verRct_sem verRctSemanticsSimple check_key is_identity in_subgroup [pt_tx tx] version tvc) in
    if negb nic then refuse [m_verifivation_failed] tvc p
    else
      let '(r, p) := pool_check_tx_inputs cs p tx id valid_id 0 null_hash (m_verifivation_failed :: tvc) kept in
      let accept p meta tx_relay tvc is_new :=
        let tvc := clear_flag m_verifivation_failed tvc in
        let p := if is_new : bool then set_weight p (m_txpool_weight p ⊞ tx_weight) else p in
        mk_add_result true tvc (if (0 <? meta_fee meta) && negb (bool_decide (tx_relay = relay_forward)) then Some tx_relay else None)
          (prune cs in_batch (m_txpool_max_weight p) (bump p)) in
      if negb (pi_ok r) then
        if negb kept then refuse [m_verifivation_failed; m_invalid_input] (pi_tvc r) p
        else match insert_failed cs p tx id blob tx_weight tx_relay relayed (pi_id r) with
        | inr p => refuse [] (pi_tvc r) p
        | inl p' => accept p' (failed_meta cs p tx id blob tx_weight tx_relay relayed (pi_id r)) tx_relay (m_verifivation_impossible :: m_added_to_pool :: pi_tvc r) true
        end
      else match insert_verified cs p tx id blob tx_weight tx_relay relayed r delay with
      | inr p => refuse [] (pi_tvc r) p
      | inl (p, meta, tx_relay, is_new) => accept p meta tx_relay (if is_new then m_added_to_pool :: pi_tvc r else clear_flag m_added_to_pool (pi_tvc r)) is_new
      end.

(** The overload that serializes and hashes the transaction; serializing it sets
    [unprunable_size]. *)
Definition add_tx_object (cs : chain_state) (in_batch : bool) (delay : Z) (p : tx_pool) (tx : pool_tx) (tvc : tvc_t) (tx_relay : relay_method) (relayed : bool)
  (version nic_verified_hf_version : Z) (valid_id : list Z) : add_result :=
  match (bl ← tx_to_blob tx; h ← calculate_transaction_hash tx (pt_unprunable_size tx); w ← get_transaction_weight tx (length bl); Some (bl, h, w)) with
  | Some (bl, h, w) => if bool_decide (bl = []) then mk_add_result false tvc None p else add_tx cs in_batch delay p (mk_pool_tx (pt_tx tx) (loaded_base_size bl) (pt_prunable_hash tx)) h bl w tvc tx_relay relayed version nic_verified_hf_version valid_id
  | None => mk_add_result false tvc None p
  end.

(** *** Taking *)

(** A whole transaction loaded from its blob knows how much of it is not pruned. *)
Definition load_pool_tx (blob : list Z) (pruned : bool) : option pool_tx :=
  if pruned then tx ← parse_and_validate_tx_base_from_blob mul_inv_eight blob false false; Some (mk_pool_tx tx 0 None)
  else tx ← parse_and_validate_tx_from_blob mul_inv_eight blob false; Some (mk_pool_tx tx (loaded_base_size blob) None).

(** What [take_tx] leaves in its arguments. *)
Record taken := mk_taken { tk_tx : pool_tx; tk_blob : list Z; tk_weight : Z; tk_fee : Z; tk_id : list Z; tk_relayed : bool; tk_do_not_relay : bool; tk_double_spend_seen : bool; tk_pruned : bool }.

Definition take_tx (cs : chain_state) (p : tx_pool) (id : list Z) : option (taken * tx_pool) :=
  meta ← get_txpool_tx_meta (tp_tables p) id;
  blob ← get_txpool_tx_blob (tp_tables p) id all;
  tx ← (match m_parsed_tx_cache p !! id with Some tx => Some tx | None => load_pool_tx blob (meta_pruned meta) end);
  let p := reduce_txpool_weight (set_tables p (remove_txpool_tx (tp_tables p) id)) (meta_weight meta) in
  let '(_, p) := remove_transaction_keyimages p (tx_vin (pt_tx tx)) id in
  let p := set_lists p (remove_tx_from_transient_lists (tp_lists p) (cs_now cs) id (negb (meta_matches meta broadcasted))) in
  Some (mk_taken tx blob (meta_weight meta) (meta_fee meta) (valid_input_verification_id meta) (meta_relayed meta) (do_not_relay meta) (double_spend_seen meta) (meta_pruned meta), bump p).

Definition on_blockchain_inc (p : tx_pool) : tx_pool := set_caches p ∅ ∅.
Definition on_blockchain_dec (p : tx_pool) : tx_pool := set_caches p ∅ ∅.
Definition have_tx (p : tx_pool) (id : list Z) (category : relay_category) : bool := txpool_has_tx (tp_tables p) id category.

(** *** Expiry *)

Definition CRYPTONOTE_MEMPOOL_TX_LIVETIME : Z := 86400 * 3.
Definition CRYPTONOTE_MEMPOOL_TX_FROM_ALT_BLOCK_LIVETIME : Z := 604800.

Definition is_stuck (now : Z) (meta : txpool_tx_meta_t) : bool :=
  let tx_age := if receive_time meta <=? now then now - receive_time meta else 0 in
  ((CRYPTONOTE_MEMPOOL_TX_LIVETIME <? tx_age) && negb (kept_by_block meta)) || ((CRYPTONOTE_MEMPOOL_TX_FROM_ALT_BLOCK_LIVETIME <? tx_age) && kept_by_block meta).

Definition expire_list (now : Z) (p : tx_pool) (e : list Z * txpool_tx_meta_t) : tx_pool :=
  let p := set_lists p (remove_tx_from_transient_lists (tp_lists p) now e.1 (negb (meta_matches e.2 broadcasted))) in
  set_timed_out p ({[e.1]} ∪ m_timed_out_transactions p).
Definition expire_entry (p : tx_pool) (e : list Z * txpool_tx_meta_t) : tx_pool :=
  match (bd ← get_txpool_tx_blob (tp_tables p) e.1 all; parse_and_validate_tx_prefix_from_blob bd false) with
  | None => p
  | Some tx => (remove_transaction_keyimages (reduce_txpool_weight (set_tables p (remove_txpool_tx (tp_tables p) e.1)) (meta_weight e.2)) (tx_vin tx) e.1).2
  end.
Definition remove_stuck_transactions (now : Z) (p : tx_pool) : tx_pool :=
  let remove := List.filter (fun e => is_stuck now e.2) (for_all_txpool_txes (tp_tables p) all) in
  let p := fold_left (expire_list now) remove p in
  if bool_decide (length remove = 0%nat) then p else bump (fold_left expire_entry remove p).

(** *** Relaying *)

Definition set_last_relayed (m : txpool_tx_meta_t) (relayed : bool) (t : Z) : txpool_tx_meta_t :=
  mk_meta (max_used_block_id m) (last_failed_id m) (meta_weight m) (meta_fee m) (max_used_block_height m) (last_failed_height m) (receive_time m) t
    (kept_by_block m) relayed (do_not_relay m) (double_spend_seen m) (meta_pruned m) (is_local m) (dandelionpp_stem m) (is_forwarding m) (prunable_hash_valid m) (prunable_hash m) (valid_input_verification_id m).

(** What the visitor does with an entry: the transaction to relay, the entry whose
    time changes and the next check. *)
Definition relay_visit (t : pool_tables) (now : Z) (e : list Z * txpool_tx_meta_t) (acc : list (list Z * list Z * relay_method) * list (list Z * txpool_tx_meta_t) * Z)
  : list (list Z * list Z * relay_method) * list (list Z * txpool_tx_meta_t) * Z :=
  let '(txs, change, next_check) := acc in
  let '(txid, meta) := e in
  if negb (negb (meta_pruned meta) && (0 <? meta_fee meta) && negb (do_not_relay meta)) then acc
  else
    let tx_relay := get_relay_method meta in
    let relay change :=
      let max_age := if bool_decide (tx_relay = relay_block) then CRYPTONOTE_MEMPOOL_TX_FROM_ALT_BLOCK_LIVETIME else CRYPTONOTE_MEMPOOL_TX_LIVETIME in
      if now ⊟ receive_time meta <=? max_age / 2
      then match get_txpool_tx_blob t txid all with Some blob => (txs ++ [(txid, blob, tx_relay)], change, next_check) | None => (txs, change, next_check) end
      else (txs, change, next_check) in
    match tx_relay with
    | relay_stem | relay_forward => if now <? last_relayed_time meta then (txs, change, Z.min next_check (last_relayed_time meta)) else relay (change ++ [e])
    | relay_none => acc
    | relay_local | relay_fluff | relay_block =>
        if meta_relayed meta && (now ⊟ last_relayed_time meta <=? get_relay_delay (last_relayed_time meta) (receive_time meta)) then acc else relay change
    end.

Definition max_relayable_check : Z := 120.

Definition get_relayable_transactions (now : Z) (p : tx_pool) : option (list (list Z * list Z * relay_method) * tx_pool) :=
  if now <? m_next_check p then None
  else
    let '(txs, change, next_check) := fold_left (fun acc e => relay_visit (tp_tables p) now e acc) (for_all_txpool_txes (tp_tables p) relayable) ([], [], now + max_relayable_check) in
    let t := fold_left (fun t e => default t (update_txpool_tx t e.1 (set_last_relayed e.2 (meta_relayed e.2) (now ⊞ get_relay_delay (last_relayed_time e.2) (receive_time e.2))))) change (tp_tables p) in
    Some (txs, set_next_check (set_tables p t) next_check).

(** Each hash comes with the random embargo drawn for it. *)
Definition set_relayed_one (now : Z) (method : relay_method) (h : list Z * Z) (acc : tx_pool * Z * list bool) : tx_pool * Z * list bool :=
  let '(p, next_relay, just) := acc in
  match get_txpool_tx_meta (tp_tables p) h.1 with
  | None => (p, next_relay, just ++ [false])
  | Some meta =>
      let already := meta_matches meta broadcasted in
      let meta := (upgrade_relay_method meta method).2 in
      let t := if dandelionpp_stem meta then u64 (now + h.2) else now in
      let next_relay := if dandelionpp_stem meta then Z.min next_relay t else next_relay in
      let meta := set_last_relayed meta true t in
      match update_txpool_tx (tp_tables p) h.1 meta with
      | None => (p, next_relay, just ++ [false])
      | Some tables =>
          let was := negb already && meta_matches meta broadcasted in
          let p := set_tables p tables in
          (if was then set_lists p (add_tx_to_transient_lists (tp_lists p) now h.1 (fee_rate (meta_fee meta) (meta_weight meta)) now false) else p, next_relay, just ++ [was])
      end
  end.
Definition time_max : Z := 2 ^ 63 - 1.
Definition set_relayed (now : Z) (hashes : list (list Z * Z)) (method : relay_method) (p : tx_pool) : list bool * tx_pool :=
  let '(p, next_relay, just) := fold_left (fun acc h => set_relayed_one now method h acc) hashes (p, time_max, []) in
  (just, if next_relay <? m_next_check p then set_next_check p next_relay else p).

(** *** The block template *)

Definition set_checked (m : txpool_tx_meta_t) (r : pool_inputs) : txpool_tx_meta_t :=
  mk_meta (pi_block_id r) (last_failed_id m) (meta_weight m) (meta_fee m) (pi_height r) (last_failed_height m) (receive_time m) (last_relayed_time m)
    (kept_by_block m) (meta_relayed m) (do_not_relay m) (double_spend_seen m) (meta_pruned m) (is_local m) (dandelionpp_stem m) (is_forwarding m) (prunable_hash_valid m) (prunable_hash m) (pi_id r).
Definition set_failed (m : txpool_tx_meta_t) (id : list Z) (height : Z) : txpool_tx_meta_t :=
  mk_meta (max_used_block_id m) id (meta_weight m) (meta_fee m) (max_used_block_height m) height (receive_time m) (last_relayed_time m)
    (kept_by_block m) (meta_relayed m) (do_not_relay m) (double_spend_seen m) (meta_pruned m) (is_local m) (dandelionpp_stem m) (is_forwarding m) (prunable_hash_valid m) (prunable_hash m) (valid_input_verification_id m).

(** [Blockchain::get_block_id_by_height] *)
Definition get_block_id_by_height (s : db) (h : Z) : list Z := match ChainDb.get_block_hash_from_height s h with Ok id => id | Err _ => null_hash end.

(** The transaction is only parsed when its inputs are checked; the throw of a blob
    that does not parse leaves the entry as it is. *)
Definition is_transaction_ready_to_go (cs : chain_state) (p : tx_pool) (txd : txpool_tx_meta_t) (txid blob : list Z) : bool * txpool_tx_meta_t * option transaction * tx_pool :=
  let top_block_height := height (cs_db cs) ⊟ 1 in
  let top_block_hash := get_block_id_by_height (cs_db cs) top_block_height in
  if bool_decide (last_failed_id txd = top_block_hash) then (false, txd, None, p)
  else
    let tx := if bool_decide (is_Some (m_input_cache p !! txid)) then None else Some (parse_and_validate_tx_from_blob mul_inv_eight blob false) in
    match tx with
    | Some None => (false, txd, None, p)
    | _ =>
        let obj := match tx with Some (Some tx) => tx | _ => mk_tx (mk_prefix 0 0 [] [] []) [] null_base null_prunable false end in
        let '(r, p) := pool_check_tx_inputs cs p obj txid (valid_input_verification_id txd) (max_used_block_height txd) (max_used_block_id txd) [] false in
        let txd := set_checked txd r in
        if pi_ok r then (true, txd, match tx with Some tx => tx | None => None end, p) else (false, set_failed txd top_block_hash top_block_height, None, p)
    end.

(** [amount * ACCEPT_THRESHOLD] is computed in single precision; [None] where the
    conversion back is undefined. *)
Definition template_accept_threshold (amount : Z) : option Z := fp_to_u64 (u64_to_float amount).

Fixpoint have_key_images (k_images : gset (list Z)) (vin : list txin_v) : bool :=
  match vin with
  | [] => false
  | txin_to_key _ _ k :: vin => if bool_decide (k ∈ k_images) then true else have_key_images k_images vin
  | _ => false
  end.
Fixpoint append_key_images (k_images : gset (list Z)) (vin : list txin_v) : gset (list Z) :=
  match vin with
  | txin_to_key _ _ k :: vin => if bool_decide (k ∈ k_images) then k_images else append_key_images ({[k]} ∪ k_images) vin
  | _ => k_images
  end.

(** The template filled so far. *)
Record template := mk_template { tm_hashes : list (list Z); tm_weight : Z; tm_fee : Z; tm_best : Z; tm_coinbase : Z; tm_images : gset (list Z) }.

(** What the tests on weight and reward say of an entry: [Some] coinbase to go on
    with, [None] to skip it; [inr] ends the loop. *)
Definition template_weigh (median_weight coins version max_total_weight : Z) (meta : txpool_tx_meta_t) (tm : template) : option (option Z + unit) :=
  if max_total_weight <? tm_weight tm ⊞ meta_weight meta then Some (inl None)
  else if 5 <=? version then
    match get_block_reward median_weight (tm_weight tm ⊞ meta_weight meta) coins version with
    | reward_ok block_reward =>
        let coinbase := block_reward ⊞ tm_fee tm ⊞ meta_fee meta in
        threshold ← template_accept_threshold (tm_best tm);
        Some (inl (if coinbase <? threshold then None else Some coinbase))
    | _ => Some (inl None)
    end
  else if median_weight <? tm_weight tm then Some (inr tt) else Some (inl (Some (tm_coinbase tm))).

(** One entry; the coinbase computed stays in its variable also when the entry is
    not taken. *)
Definition template_entry (cs : chain_state) (txid : list Z) (meta : txpool_tx_meta_t) (coinbase : Z) (tm : template) (p : tx_pool) : option (template * tx_pool) :=
  let tm := mk_template (tm_hashes tm) (tm_weight tm) (tm_fee tm) (tm_best tm) coinbase (tm_images tm) in
  blob ← get_txpool_tx_blob (tp_tables p) txid all;
  let '(ready, meta', tx, p) := is_transaction_ready_to_go cs p meta txid blob in
  let p := if bool_decide (meta' = meta) then p else set_tables p (default (tp_tables p) (update_txpool_tx (tp_tables p) txid meta')) in
  let vin := match tx with Some tx => tx_vin (tx : transaction) | None => [] end in
  if negb ready || have_key_images (tm_images tm) vin then Some (tm, p)
  else Some (mk_template (tm_hashes tm ++ [txid]) (tm_weight tm ⊞ meta_weight meta') (tm_fee tm ⊞ meta_fee meta') coinbase coinbase (append_key_images (tm_images tm) vin), p).

Fixpoint template_loop (cs : chain_state) (median_weight coins version max_total_weight : Z) (include_sensitive : bool) (l : list sorted_entry) (tm : template) (p : tx_pool)
  : option (template * tx_pool) :=
  match l with
  | [] => Some (tm, p)
  | e :: l =>
      let next := template_loop cs median_weight coins version max_total_weight include_sensitive l in
      match get_txpool_tx_meta (tp_tables p) (se_txid e) with
      | None => next tm p
      | Some meta =>
          if negb (meta_matches meta (if include_sensitive then legacy else broadcasted)) && negb (m_mine_stem_txes p && bool_decide (get_relay_method meta = relay_stem)) then next tm p
          else if meta_pruned meta then next tm p
          else
            w ← template_weigh median_weight coins version max_total_weight meta tm;
            match w with
            | inr _ => Some (tm, p)
            | inl None => next tm p
            | inl (Some coinbase) => '(tm, p) ← template_entry cs (se_txid e) meta coinbase tm p; next tm p
            end
      end
  end.

(** The hashes put into the block, their weight and fees and the reward expected;
    [None] is an exception or undefined behaviour. *)
Definition fill_block_template (cs : chain_state) (p : tx_pool) (median_weight coins version : Z) (include_sensitive : bool) : option (bool * template * tx_pool) :=
  match get_block_reward median_weight 0 coins version with
  | reward_ok best_coinbase =>
      let max_total_weight := (if 5 <=? version then 2 ⊠ median_weight else (130 ⊠ median_weight) / 100) ⊟ CRYPTONOTE_COINBASE_BLOB_RESERVED_SIZE in
      '(tm, p) ← template_loop cs median_weight coins version max_total_weight include_sensitive (m_txs_by_fee_and_receive_time (tp_lists p)) (mk_template [] 0 0 best_coinbase 0 ∅) p;
      Some (true, tm, p)
  | _ => Some (false, mk_template [] 0 0 0 0 ∅, p)
  end.

(** *** Validation and start *)

(** A transaction is taken out and added back; what cannot be added back is gone.
    When it cannot be taken the arguments are uninitialized: none. *)
Definition validate_one (cs : chain_state) (in_batch : bool) (delay version : Z) (acc : tx_pool * Z) (e : list Z * txpool_tx_meta_t) : tx_pool * Z :=
  let '(p, added) := acc in
  match take_tx cs p e.1 with
  | None => acc
  | Some (tk, p) =>
      let r := add_tx cs in_batch delay p (tk_tx tk) e.1 (tk_blob tk) (meta_weight e.2) [] (get_relay_method e.2) (tk_relayed tk) version 0 (tk_id tk) in
      let p := ar_pool r in
      if negb (ar_ok r) then (p, added)
      else
        let meta := match get_txpool_tx_meta (tp_tables p) e.1 with
                    | Some m => if prunable_hash_valid m then set_prunable_hash e.2 (true, prunable_hash m) else e.2
                    | None => e.2
                    end in
        match update_txpool_tx (tp_tables p) e.1 meta with
        | Some t => (set_tables p t, added + 1)
        | None => (p, added)
        end
  end.
Definition validate (cs : chain_state) (delay version : Z) (p : tx_pool) : Z * tx_pool :=
  let txes := List.filter (fun e => negb (meta_pruned e.2)) (for_all_txpool_txes (tp_tables p) all) in
  let l := tp_lists p in
  let p := set_lists p (mk_lists (m_txs_by_fee_and_receive_time l) ∅ 0 [] 0) in
  let '(p, added) := fold_left (validate_one cs true delay version) txes (p, 0) in
  let n_removed := length txes - added in
  (n_removed, if 0 <? n_removed then bump p else p).

Definition DEFAULT_TXPOOL_MAX_WEIGHT : Z := 648000000.

(** One pass over the pool found in the database: the hashes to remove, or [None]
    when the start fails. *)
Definition init_one (now : Z) (kept : bool) (acc : option (tx_pool * list (list Z))) (e : list Z * txpool_tx_meta_t) : option (tx_pool * list (list Z)) :=
  '(p, remove) ← acc;
  if negb (Bool.eqb kept (kept_by_block e.2)) then Some (p, remove)
  else match (bd ← m_txpool_blob (tp_tables p) !! e.1; parse_and_validate_tx_prefix_from_blob bd false) with
  | None => Some (p, remove ++ [e.1])
  | Some tx =>
      let '(r, p) := insert_key_images p (tx_vin tx) e.1 (get_relay_method e.2) in
      if negb r then None
      else Some (set_weight (set_lists p (add_tx_to_transient_lists (tp_lists p) now e.1 (fee_rate (meta_fee e.2) (meta_weight e.2)) (receive_time e.2) (negb (meta_matches e.2 broadcasted))))
                   (m_txpool_weight p ⊞ meta_weight e.2), remove)
  end.
Definition init (now : Z) (max_txpool_weight : Z) (mine_stem_txes : bool) (p : tx_pool) : option tx_pool :=
  let p := mk_pool (tp_tables p) ∅ (mk_lists [] ∅ 0 [] 0) (m_timed_out_transactions p) (if max_txpool_weight =? 0 then DEFAULT_TXPOOL_MAX_WEIGHT else max_txpool_weight) 0
             (m_mine_stem_txes p) (m_input_cache p) (m_parsed_tx_cache p) (m_next_check p) (m_cookie p) in
  let entries := for_all_txpool_txes (tp_tables p) all in
  '(p, remove) ← fold_left (init_one now true) entries (fold_left (init_one now false) entries (Some (p, [])));
  let p := set_tables p (fold_left remove_txpool_tx remove (tp_tables p)) in
  Some (mk_pool (tp_tables p) (m_spent_key_images p) (tp_lists p) (m_timed_out_transactions p) (m_txpool_max_weight p) (m_txpool_weight p) mine_stem_txes
          (m_input_cache p) (m_parsed_tx_cache p) (m_next_check p) 0).

(** *** Queries *)

Definition check_for_key_images (p : tx_pool) (key_images : list (list Z)) : list bool :=
  map (fun k => existsb (fun id => txpool_tx_matches_category (tp_tables p) id broadcasted) (elements (image_set (m_spent_key_images p) k))) key_images.
End pool.
