(* ===== verification/PoolInvariant.v ===== *)
(** * PoolInvariant: what every operation of the pool keeps

    Lemmas on the pool of TxPool.v: the invariant [pool_ok] of its tables, key images,
    weight and lists, that each operation keeps it, the step relation [pool_step] of a
    running node, and what a template is known to hold while it is filled. *)
From stdpp Require Import gmap.
From S2P Require Import Prelude Varint Archive Config Reward RollingMedian BlockWeight FeesTime Keccak TxFormat RctFormat Transaction TxParse TreeHash TxHash TxWeight Money TxVerify ChainDb TxInputs Floats TxPool.
#[local] Open Scope mach_scope.
#[local] Arguments put : simpl never.
#[local] Arguments get : simpl never.

(** ** Lemmas *)

(** *** Relay methods *)

Lemma relay_roundtrip m method : get_relay_method (set_relay_method m method) = method.
Proof. by destruct method. Qed.

(** *** Key images *)

Lemma image_set_insert s k X k' : image_set (<[k := X]> s) k' = if decide (k = k') then X else image_set s k'.
Proof. unfold image_set. destruct (decide (k = k')) as [->|Hn]; [by rewrite lookup_insert_eq|by rewrite lookup_insert_ne]. Qed.

Lemma image_set_delete s k k' : image_set (delete k s) k' = if decide (k = k') then ∅ else image_set s k'.
Proof. unfold image_set. destruct (decide (k = k')) as [->|Hn]; [by rewrite lookup_delete_eq|by rewrite lookup_delete_ne]. Qed.

(** Inputs of a transaction that passed the rules: keys, with distinct images. *)
Definition key_inputs (vin : list txin_v) : Prop := Forall is_key_input vin /\ NoDup (images_of vin).

(** The images that the loop takes. *)
Definition image_free (t : pool_tables) (id : list Z) (tx_relay : relay_method) (s : gmap (list Z) (gset (list Z))) (k : list Z) : Prop :=
  (tx_relay = relay_block \/ image_set s k = ∅ \/ image_set s k = {[id]}) /\ (id ∉ image_set s k \/ txpool_tx_matches_category t id legacy = false).

Lemma insert_images_spec t id tx_relay vin : forall s, key_inputs vin -> Forall (image_free t id tx_relay s) (images_of vin) ->
  exists s', insert_images_loop t vin id tx_relay s = (true, s') /\
    forall k, image_set s' k = if decide (k ∈ images_of vin) then {[id]} ∪ image_set s k else image_set s k.
Proof.
  induction vin as [|i vin IH]; intros s [Hk Hn] HF; [by exists s|]. apply Forall_cons in Hk as [Hi Hk]. destruct i as [| | |a off k]; try done.
  change (images_of (txin_to_key a off k :: vin)) with (k :: images_of vin) in *. apply NoDup_cons in Hn as [Hkn Hn]. apply Forall_cons in HF as [[H1 H2] HF]. cbn [insert_images_loop].
  assert (E : negb (bool_decide (tx_relay = relay_block)) && negb (bool_decide (image_set s k = ∅) || bool_decide (image_set s k = {[id]})) = false).
  { destruct H1 as [H1|[H1|H1]]; rewrite H1; [by rewrite (bool_decide_true (relay_block = relay_block))|by rewrite (bool_decide_true (∅ = ∅)), andb_false_r|].
    rewrite (bool_decide_true ({[id]} = {[id]})) by done. by rewrite orb_true_r, andb_false_r. }
  rewrite E. assert (E2 : negb (bool_decide (id ∈ image_set s k)) || negb (txpool_tx_matches_category t id legacy) = true).
  { destruct H2 as [H2|H2]; [by rewrite bool_decide_false|rewrite H2; by rewrite orb_true_r]. }
  rewrite E2. destruct (IH (<[k := {[id]} ∪ image_set s k]> s)) as (s' & Es & Hs).
  - by split.
  - apply Forall_forall. intros k' Hk'. rewrite Forall_forall in HF. specialize (HF k' Hk'). unfold image_free in *. rewrite image_set_insert. rewrite decide_False by (intros ->; done). done.
  - exists s'. split; [done|]. intros k'. rewrite Hs, !image_set_insert. destruct (decide (k = k')) as [->|Hne].
    + rewrite decide_False by done. by rewrite decide_True by left.
    + destruct (decide (k' ∈ images_of vin)); [by rewrite decide_True by (by right)|]. rewrite decide_False; [done|]. intros [->|?]%elem_of_cons; done.
Qed.

(** A transaction whose images are all there already, and that may not be added
    again, is refused at the first one. *)
Lemma insert_images_refused t id vin s : key_inputs vin -> images_of vin <> [] -> txpool_tx_matches_category t id legacy = true -> Forall (fun k => id ∈ image_set s k) (images_of vin) ->
  exists s', insert_images_loop t vin id relay_block s = (false, s') /\ forall k, image_set s' k = image_set s k.
Proof.
  intros [Hk _] Hne Hl HF. destruct vin as [|[| | |a off k] vin]; try done; apply Forall_cons in Hk as [Hi _]; try done.
  change (images_of (txin_to_key a off k :: vin)) with (k :: images_of vin) in HF. apply Forall_cons in HF as [Hin _]. cbn [insert_images_loop]. rewrite (bool_decide_true (relay_block = relay_block)) by done.
  cbn [negb andb]. rewrite bool_decide_true by done. rewrite Hl. cbn. eexists. split; [done|]. intros k'. rewrite image_set_insert. destruct (decide (k = k')) as [<-|]; [|done]. set_solver.
Qed.

Lemma remove_images_spec id vin : forall s, key_inputs vin -> Forall (fun k => id ∈ image_set s k) (images_of vin) ->
  exists s', remove_images_loop vin id s = (true, s') /\ forall k, image_set s' k = if decide (k ∈ images_of vin) then image_set s k ∖ {[id]} else image_set s k.
Proof.
  induction vin as [|i vin IH]; intros s [Hk Hn] HF; [by exists s|]. apply Forall_cons in Hk as [Hi Hk]. destruct i as [| | |a off k]; try done.
  change (images_of (txin_to_key a off k :: vin)) with (k :: images_of vin) in *. apply NoDup_cons in Hn as [Hkn Hn]. apply Forall_cons in HF as [Hin HF]. cbn [remove_images_loop].
  assert (Es : s !! k = Some (image_set s k)) by (unfold image_set in *; destruct (s !! k); [done|set_solver]). rewrite Es, bool_decide_true by done.
  set (s1 := if bool_decide (image_set s k ∖ {[id]} = ∅) then delete k s else <[k := image_set s k ∖ {[id]}]> s).
  assert (Hs1 : forall k', image_set s1 k' = if decide (k = k') then image_set s k ∖ {[id]} else image_set s k').
  { intros k'. unfold s1. case_bool_decide as E; [rewrite image_set_delete|by rewrite image_set_insert]. by destruct (decide _). }
  destruct (IH s1) as (s' & E' & Hs'); [by split| |].
  - apply Forall_forall. intros k' Hk'. rewrite Forall_forall in HF. rewrite Hs1, decide_False by (intros ->; done). by apply HF.
  - exists s'. split; [done|]. intros k'. rewrite Hs', !Hs1. destruct (decide (k = k')) as [->|Hne].
    + rewrite decide_False by done. by rewrite decide_True by left.
    + destruct (decide (k' ∈ images_of vin)); [by rewrite decide_True by (by right)|]. rewrite decide_False; [done|]. intros [->|?]%elem_of_cons; done.
Qed.

(** *** Weights *)

Definition pool_weight (t : pool_tables) : Z := map_fold (fun _ m acc => meta_weight m + acc) 0 (m_txpool_meta t).

Lemma weight_insert (m : gmap (list Z) txpool_tx_meta_t) id meta : m !! id = None ->
  map_fold (fun _ m acc => meta_weight m + acc) 0 (<[id := meta]> m) = meta_weight meta + map_fold (fun _ m acc => meta_weight m + acc) 0 m.
Proof. intros Hn. rewrite map_fold_insert_L; [done| |done]. intros. lia. Qed.

Lemma weight_delete (m : gmap (list Z) txpool_tx_meta_t) id meta : m !! id = Some meta ->
  map_fold (fun _ m acc => meta_weight m + acc) 0 m = meta_weight meta + map_fold (fun _ m acc => meta_weight m + acc) 0 (delete id m).
Proof. intros E. rewrite <- (insert_delete_id m id meta E) at 1. apply weight_insert. by rewrite lookup_delete_eq. Qed.

Lemma weight_update (m : gmap (list Z) txpool_tx_meta_t) id meta meta' : m !! id = Some meta -> meta_weight meta' = meta_weight meta ->
  map_fold (fun _ m acc => meta_weight m + acc) 0 (<[id := meta']> m) = map_fold (fun _ m acc => meta_weight m + acc) 0 m.
Proof. intros E Ew. rewrite (weight_delete m id meta E), <- insert_delete_eq, weight_insert, Ew by (by rewrite lookup_delete_eq). done. Qed.

Lemma weight_nonneg (m : gmap (list Z) txpool_tx_meta_t) : map_Forall (fun _ x => 0 <= meta_weight x) m -> 0 <= map_fold (fun _ m acc => meta_weight m + acc) 0 m.
Proof.
  induction m as [|id x m Hn IH] using map_ind; intros HF; [by rewrite map_fold_empty|]. rewrite weight_insert by done. apply map_Forall_insert in HF as [Hx HF]; [|done]. specialize (IH HF). lia.
Qed.

(** *** The list by fee *)

Definition sorted_ids (l : transient_lists) : list (list Z) := map se_txid (m_txs_by_fee_and_receive_time l).

Lemma sorted_insert_perm x l : sorted_insert x l ≡ₚ x :: l.
Proof. induction l as [|y l IH]; [done|]. cbn. destruct (txFeeCompare x y); [done|]. rewrite IH. apply Permutation_swap. Qed.

Lemma sorted_erase_ids l txid : map se_txid (sorted_erase l txid) = filter (fun id => id <> txid) (map se_txid l).
Proof.
  induction l as [|e l IH]; [done|]. unfold sorted_erase in *. cbn [List.filter map]. destruct (bool_decide_reflect (se_txid e = txid)) as [E|E]; cbn [negb].
  - by rewrite filter_cons_False by (intros ?; done).
  - rewrite filter_cons_True by done. cbn [map]. by rewrite IH.
Qed.

Lemma in_sorted_spec l txid : in_sorted l txid = true <-> txid ∈ map se_txid l.
Proof.
  unfold in_sorted. rewrite existsb_exists, list_elem_of_fmap. split.
  - intros (e & Hin & He). apply bool_decide_eq_true in He. exists e. split; [done|]. by apply list_elem_of_In.
  - intros (e & -> & Hin). exists e. split; [by apply list_elem_of_In|]. by apply bool_decide_eq_true.
Qed.

Lemma lists_add_ids l now txid fee t sens : NoDup (sorted_ids l) ->
  NoDup (sorted_ids (add_tx_to_transient_lists l now txid fee t sens)) /\
  forall id, id ∈ sorted_ids (add_tx_to_transient_lists l now txid fee t sens) <-> id = txid \/ id ∈ sorted_ids l.
Proof.
  intros Hn. unfold add_tx_to_transient_lists, sorted_ids. cbn [m_txs_by_fee_and_receive_time]. set (l1 := if bool_decide _ then _ else _).
  assert (H1 : NoDup (map se_txid l1) /\ forall id, id <> txid -> id ∈ map se_txid l1 <-> id ∈ map se_txid (m_txs_by_fee_and_receive_time l)).
  { unfold l1. destruct (bool_decide _); [|done]. rewrite sorted_erase_ids. split; [by apply NoDup_filter|]. intros id Hid. rewrite list_elem_of_filter. tauto. }
  destruct H1 as [Hn1 Hids]. destruct (in_sorted l1 txid) eqn:E.
  - apply in_sorted_spec in E. split; [done|]. intros id. destruct (decide (id = txid)) as [->|Hid]; [tauto|]. rewrite Hids by done. tauto.
  - assert (~ txid ∈ map se_txid l1) by (intros Hin; apply in_sorted_spec in Hin; congruence).
    assert (Hp : map se_txid (sorted_insert (mk_sorted fee t txid) l1) ≡ₚ txid :: map se_txid l1) by (by rewrite sorted_insert_perm). rewrite Hp. split; [by constructor|].
    intros id. rewrite Hp, elem_of_cons. destruct (decide (id = txid)) as [->|Hid]; [tauto|]. rewrite Hids by done. tauto.
Qed.

Lemma lists_remove_ids l now txid sens : sorted_ids (remove_tx_from_transient_lists l now txid sens) = filter (fun id => id <> txid) (sorted_ids l).
Proof.
  unfold remove_tx_from_transient_lists, track_removed_tx, sorted_ids. cbn [m_txs_by_fee_and_receive_time m_removed_txs_by_time m_removed_txs_start_time]. rewrite <- sorted_erase_ids.
  by destruct (if _ <? _ then _ else _).
Qed.

(** *** The invariant *)

Lemma expand_keeps_prefix f p base tx : expand_transaction_1 f p base = Some tx -> tx_prefix tx = tx_prefix p.
Proof.
  unfold expand_transaction_1. destruct (_ && _); [|by intros [= <-]]. destruct (_ =? _); [by intros [= <-]|]. destruct (negb _); [done|].
  destruct (fill_dests _ _); [|done]. cbn [mbind option_bind]. destruct base; [by intros [= <-]|]. destruct (expand_proofs _ _ _ _ _); [|done]. by intros [= <-].
Qed.

(** Every way of loading a blob reads the same prefix. *)
Lemma full_prefix blob tx rest : get c_transaction blob = Some (tx, rest) -> exists q, get c_transaction_prefix blob = Some (tx_prefix tx, q).
Proof.
  intros E. unfold get in E. cbn [c_transaction] in E. run E f r E1. apply get_dep in E1 as (q & E1 & E2). destruct f as [p [s [b pr]]]. cbn [fst snd tx_of_fields] in *. simplify_eq. by exists q.
Qed.
Lemma base_prefix blob tx rest : get serialize_base blob = Some (tx, rest) -> exists q, get c_transaction_prefix blob = Some (tx_prefix tx, q).
Proof. intros E. apply get_map in E as ([p b] & E & ->). apply get_dep in E as (q & E & _). by exists q. Qed.

Lemma load_pool_tx_vin `{Crypto} blob pruned tx pre : load_pool_tx blob pruned = Some tx -> parse_and_validate_tx_prefix_from_blob blob false = Some pre -> tx_prefix (pt_tx tx) = pre.
Proof.
  unfold load_pool_tx, parse_and_validate_tx_from_blob, parse_and_validate_tx_base_from_blob, parse_and_validate_tx_prefix_from_blob, serialize_noeof, parse_binary. cbn [passes_max_size_check negb].
  intros E Ep. destruct (get c_transaction_prefix blob) as [[pre' q]|] eqn:Eg; [|done]. cbn in Ep. simplify_eq. destruct pruned.
  - destruct (get serialize_base blob) as [[t r]|] eqn:Eb; [|done]. cbn [mbind option_bind] in E. destruct (expand_transaction_1 mul_inv_eight t true) as [t'|] eqn:Ee; [|done]. cbn in E. simplify_eq.
    cbn [pt_tx]. rewrite (expand_keeps_prefix _ _ _ _ Ee). destruct (base_prefix _ _ _ Eb) as [q' E']. rewrite Eg in E'. by simplify_eq.
  - destruct (get c_transaction blob) as [[t [|]]|] eqn:Eb; [|done..]. cbn [mbind option_bind] in E. destruct (expand_transaction_1 mul_inv_eight t false) as [t'|] eqn:Ee; [|done]. cbn in E. simplify_eq.
    cbn [pt_tx]. rewrite (expand_keeps_prefix _ _ _ _ Ee). destruct (full_prefix _ _ _ Eb) as [q' E']. rewrite Eg in E'. by simplify_eq.
Qed.

Section invariant.
Context `{Crypto}.
(** The inputs and the weight of the transaction with a hash. *)
Context (ins : list Z -> list txin_v) (wt : list Z -> Z).

(** An entry has at most one flag of its relay method. *)
Definition flags_ok (m : txpool_tx_meta_t) : Prop := kept_by_block m = bool_decide (get_relay_method m = relay_block).

(** The tables, the index of key images and the weight agree; of the transactions
    with a key image, at most one did not come in a block. *)
Record core_ok (t : pool_tables) (s : gmap (list Z) (gset (list Z))) (w : Z) : Prop := mk_core_ok {
  ok_dom : forall id, is_Some (m_txpool_blob t !! id) <-> is_Some (m_txpool_meta t !! id);
  ok_blob : forall id b, m_txpool_blob t !! id = Some b -> bytes b /\ exists tx, parse_and_validate_tx_prefix_from_blob b false = Some tx /\ tx_vin tx = ins id;
  ok_ins : forall id, is_Some (m_txpool_meta t !! id) -> key_inputs (ins id);
  ok_images : forall k id, id ∈ image_set s k <-> is_Some (m_txpool_meta t !! id) /\ k ∈ images_of (ins id);
  ok_weight : w = pool_weight t;
  ok_weights : map_Forall (fun id m => meta_weight m = wt id /\ 0 <= meta_weight m) (m_txpool_meta t);
  ok_bound : pool_weight t < 2 ^ 64;
  ok_flags : map_Forall (fun _ m => flags_ok m) (m_txpool_meta t);
  ok_single : forall k id id' m m', id ∈ image_set s k -> id' ∈ image_set s k -> m_txpool_meta t !! id = Some m -> m_txpool_meta t !! id' = Some m' ->
    kept_by_block m = false -> kept_by_block m' = false -> id = id';
}.

Definition lists_ok (l : transient_lists) (t : pool_tables) : Prop := NoDup (sorted_ids l) /\ forall id, id ∈ sorted_ids l <-> is_Some (m_txpool_meta t !! id).
Definition cache_ok (c : gmap (list Z) pool_tx) : Prop := forall id tx, c !! id = Some tx -> tx_vin (pt_tx tx) = ins id.

Definition pool_ok (p : tx_pool) : Prop :=
  core_ok (tp_tables p) (m_spent_key_images p) (m_txpool_weight p) /\ lists_ok (tp_lists p) (tp_tables p) /\ cache_ok (m_parsed_tx_cache p).

(** Tables with the same transactions of the same weights; a transaction may come to
    be in a block. *)
Definition same_entry (m m' : txpool_tx_meta_t) : Prop := meta_weight m' = meta_weight m /\ (kept_by_block m = true -> kept_by_block m' = true) /\ (flags_ok m -> flags_ok m').
Definition same_shape (t t' : pool_tables) : Prop :=
  m_txpool_blob t' = m_txpool_blob t /\ meta_weight <$> m_txpool_meta t' = meta_weight <$> m_txpool_meta t /\
  forall id m', m_txpool_meta t' !! id = Some m' -> exists m, m_txpool_meta t !! id = Some m /\ same_entry m m'.

Lemma same_shape_refl t : same_shape t t.
Proof. split_and!; [done|done|]. intros id m E. by exists m. Qed.
#[local] Hint Resolve same_shape_refl : core.
Lemma same_shape_trans t t' t'' : same_shape t t' -> same_shape t' t'' -> same_shape t t''.
Proof.
  intros (H1 & H2 & H3) (H4 & H5 & H6). split_and!; [congruence|congruence|]. intros id m'' E. destruct (H6 id m'' E) as (m' & E' & ? & ? & ?). destruct (H3 id m' E') as (m & E'' & ? & ? & ?).
  exists m. split; [done|]. split_and!; [congruence|auto..].
Qed.

Lemma shape_update t id m m' : m_txpool_meta t !! id = Some m -> same_entry m m' -> same_shape t (mk_pool_tables (<[id := m']> (m_txpool_meta t)) (m_txpool_blob t)).
Proof.
  intros E Hm. split_and!; [done| |]; cbn [m_txpool_meta].
  - rewrite fmap_insert. apply insert_id. rewrite lookup_fmap, E. cbn. destruct Hm as [Ew _]. by rewrite Ew.
  - intros id' x. destruct (decide (id = id')) as [<-|Hn]; [rewrite lookup_insert_eq; intros [= <-]; by exists m|rewrite lookup_insert_ne by done; intros Ex; by exists x].
Qed.

Lemma shape_weight t t' : same_shape t t' -> pool_weight t' = pool_weight t.
Proof.
  intros (_ & E & _). assert (H' : forall m : gmap (list Z) txpool_tx_meta_t, map_fold (fun _ m acc => meta_weight m + acc) 0 m = map_fold (fun _ w acc => w + acc) 0 (meta_weight <$> m)).
  { intros m. induction m as [|id x m Hn IH] using map_ind; [by rewrite fmap_empty, !map_fold_empty|]. rewrite weight_insert, fmap_insert by done.
    rewrite map_fold_insert_L; [by rewrite IH|intros; lia|by rewrite lookup_fmap, Hn]. }
  unfold pool_weight. rewrite !H'. by rewrite E.
Qed.

Lemma shape_dom t t' id : same_shape t t' -> is_Some (m_txpool_meta t' !! id) <-> is_Some (m_txpool_meta t !! id).
Proof. intros (_ & E & _). rewrite <- !(fmap_is_Some meta_weight), <- !lookup_fmap. by rewrite E. Qed.

Lemma core_shape t t' s w : same_shape t t' -> core_ok t s w -> core_ok t' s w.
Proof.
  intros Hs [H1 H2 H3 H4 H5 H6 H7 H8 H9]. pose proof (shape_weight _ _ Hs) as Hw. pose proof (fun id => shape_dom _ _ id Hs) as Hd. destruct Hs as (Eb & _ & He). constructor.
  - intros id. rewrite Hd, Eb. apply H1.
  - rewrite Eb. done.
  - intros id. rewrite Hd. apply H3.
  - intros k id. rewrite Hd. apply H4.
  - congruence.
  - intros id m' E. destruct (He id m' E) as (m & Em & Ew & _). rewrite Ew. exact (H6 id m Em).
  - congruence.
  - intros id m' E. destruct (He id m' E) as (m & Em & _ & _ & Hf). exact (Hf (H8 id m Em)).
  - intros k id id' m m' Hk Hk' E E' Ek Ek'. destruct (He _ _ E) as (m0 & E0 & _ & Hm & _), (He _ _ E') as (m0' & E0' & _ & Hm' & _). apply (H9 k id id' m0 m0'); try done.
    + destruct (kept_by_block m0); [by rewrite Hm in Ek|done].
    + destruct (kept_by_block m0'); [by rewrite Hm' in Ek'|done].
Qed.

Lemma pool_shape p t' : same_shape (tp_tables p) t' -> pool_ok p -> pool_ok (set_tables p t').
Proof.
  intros Hs (Hc & [Hn Hl] & Hp). split_and!; [by eapply core_shape| |done]. split; [done|]. intros id. cbn [set_tables tp_lists tp_tables]. by rewrite (shape_dom _ _ id Hs).
Qed.

Lemma shape_updated t id m m' t' : m_txpool_meta t !! id = Some m -> same_entry m m' -> update_txpool_tx t id m' = Some t' -> same_shape t t'.
Proof. intros E Ew Eu. unfold update_txpool_tx in Eu. rewrite E in Eu. simplify_eq. by eapply shape_update. Qed.

(** Removing an entry: its images, its weight and its place in the lists. *)
Lemma core_remove t s w id m : core_ok t s w -> m_txpool_meta t !! id = Some m -> exists s',
  remove_images_loop (ins id) id s = (true, s') /\ core_ok (remove_txpool_tx t id) s' (if w <? meta_weight m then 0 else w - meta_weight m).
Proof.
  intros [H1 H2 H3 H4 H5 H6 H7 H8 H9] E. destruct (remove_images_spec id (ins id) s) as (s' & Es & Hs); [by apply H3; rewrite E|apply Forall_forall; intros k Hk; apply H4; by rewrite E|].
  exists s'. split; [done|]. pose proof (weight_delete _ _ _ E) as Ew. fold (pool_weight t) in Ew. fold (pool_weight (remove_txpool_tx t id)) in Ew.
  assert (H6' : map_Forall (fun id m => meta_weight m = wt id /\ 0 <= meta_weight m) (delete id (m_txpool_meta t))) by (by apply map_Forall_delete).
  pose proof (weight_nonneg _ (map_Forall_impl _ _ _ H6' (fun _ _ Hm => proj2 Hm))) as Hnn. change (map_fold _ _ _) with (pool_weight (remove_txpool_tx t id)) in Hnn. change (map_fold _ _ (delete id _)) with (pool_weight (remove_txpool_tx t id)) in Ew.
  constructor; unfold remove_txpool_tx; cbn [m_txpool_meta m_txpool_blob].
  - intros id'. destruct (decide (id = id')) as [<-|Hn]; [by rewrite !lookup_delete_eq|by rewrite !lookup_delete_ne].
  - intros id' b. destruct (decide (id = id')) as [<-|Hn]; [by rewrite lookup_delete_eq|rewrite lookup_delete_ne by done; apply H2].
  - intros id'. destruct (decide (id = id')) as [<-|Hn]; [rewrite lookup_delete_eq; by intros []|rewrite lookup_delete_ne by done; apply H3].
  - intros k id'. rewrite Hs. destruct (decide (id = id')) as [<-|Hn].
    + rewrite lookup_delete_eq. split; [|by intros [[] _]]. destruct (decide _) as [|Hk]; [set_solver|]. rewrite H4. tauto.
    + rewrite lookup_delete_ne by done. rewrite <- H4. destruct (decide _); set_solver.
  - subst w. change (mk_pool_tables _ _) with (remove_txpool_tx t id). destruct (Z.ltb_spec (pool_weight t) (meta_weight m)); lia.
  - done.
  - change (mk_pool_tables _ _) with (remove_txpool_tx t id). destruct (H6 id m E). lia.
  - by apply map_Forall_delete.
  - intros k x x' mx mx' Hx Hx' [_ Ex]%lookup_delete_Some [_ Ex']%lookup_delete_Some. apply (H9 k); try done; [revert Hx|revert Hx']; rewrite Hs; destruct (decide _); set_solver.
Qed.

Lemma lists_remove_ok l t now id sens : lists_ok l t -> lists_ok (remove_tx_from_transient_lists l now id sens) (remove_txpool_tx t id).
Proof.
  intros [Hn Hl]. unfold lists_ok. rewrite lists_remove_ids. split; [by apply NoDup_filter|]. intros id'. rewrite list_elem_of_filter, Hl. unfold remove_txpool_tx. cbn [m_txpool_meta].
  destruct (decide (id = id')) as [<-|Hd]; [rewrite lookup_delete_eq; split; [tauto|by intros []]|rewrite lookup_delete_ne by done; split; [tauto|intros ?; split; [congruence|done]]].
Qed.

(** What taking an entry out leaves. *)
Definition removed (p : tx_pool) (now : Z) (id : list Z) (m : txpool_tx_meta_t) (vin : list txin_v) : tx_pool :=
  let p := (remove_transaction_keyimages (reduce_txpool_weight (set_tables p (remove_txpool_tx (tp_tables p) id)) (meta_weight m)) vin id).2 in
  set_lists p (remove_tx_from_transient_lists (tp_lists p) now id (negb (meta_matches m broadcasted))).

Lemma removed_fields p now id m vin : let p' := removed p now id m vin in
  tp_tables p' = remove_txpool_tx (tp_tables p) id /\ m_spent_key_images p' = (remove_images_loop vin id (m_spent_key_images p)).2 /\
  m_txpool_weight p' = (if m_txpool_weight p <? meta_weight m then 0 else m_txpool_weight p - meta_weight m) /\
  tp_lists p' = remove_tx_from_transient_lists (tp_lists p) now id (negb (meta_matches m broadcasted)) /\ m_parsed_tx_cache p' = m_parsed_tx_cache p /\
  m_txpool_max_weight p' = m_txpool_max_weight p /\ m_timed_out_transactions p' = m_timed_out_transactions p.
Proof.
  unfold removed, remove_transaction_keyimages, reduce_txpool_weight. cbn [set_tables set_weight m_spent_key_images]. destruct (remove_images_loop vin id (m_spent_key_images p)) as [r s']. by destruct r.
Qed.

Lemma removed_ok p now id m vin : pool_ok p -> get_txpool_tx_meta (tp_tables p) id = Some m -> vin = ins id -> pool_ok (removed p now id m vin).
Proof.
  intros (Hc & Hl & Hp) E ->. destruct (removed_fields p now id m (ins id)) as (E1 & E2 & E3 & E4 & E5 & _). destruct (core_remove _ _ _ _ _ Hc E) as (s' & Es & Hc').
  unfold pool_ok. rewrite E1, E2, E3, E4, E5, Es. split_and!; [done|by apply lists_remove_ok|done].
Qed.

(** An entry of a pool in order can be read. *)
Lemma entry_read p id m : pool_ok p -> get_txpool_tx_meta (tp_tables p) id = Some m ->
  exists b tx, get_txpool_tx_blob (tp_tables p) id all = Some b /\ bytes b /\ parse_and_validate_tx_prefix_from_blob b false = Some tx /\ tx_vin tx = ins id.
Proof.
  intros (Hc & _) E. assert (is_Some (m_txpool_blob (tp_tables p) !! id)) as [b Hb] by (apply (ok_dom _ _ _ Hc); unfold get_txpool_tx_meta in E; by rewrite E).
  destruct (ok_blob _ _ _ Hc id b Hb) as (Hby & tx & Htx & Hv). by exists b, tx.
Qed.

Lemma prune_one_ok cs p id m : pool_ok p -> get_txpool_tx_meta (tp_tables p) id = Some m -> exists vin, prune_one cs p id m = Some (removed p (cs_now cs) id m vin) /\ vin = ins id.
Proof.
  intros Hok E. destruct (entry_read _ _ _ Hok E) as (b & tx & Hb & _ & Htx & Hv). exists (tx_vin tx). split; [|done]. unfold prune_one, removed. rewrite Hb. cbn [mbind option_bind]. rewrite Htx. cbn [mbind option_bind].
  by destruct (remove_transaction_keyimages _ _ _).
Qed.

Lemma bump_ok p : pool_ok (bump p) <-> pool_ok p.
Proof. done. Qed.

(** Pruning ends, and stops only when the weight is within the limit or nothing is
    left that may be removed. *)
Lemma prune_loop_ok cs bytes ids : forall p changed, pool_ok p ->
  exists changed' p', prune_loop cs bytes ids p changed = (true, changed', p') /\ pool_ok p' /\ m_parsed_tx_cache p' = m_parsed_tx_cache p /\ m_txpool_max_weight p' = m_txpool_max_weight p /\
    (forall id m, get_txpool_tx_meta (tp_tables p') id = Some m -> get_txpool_tx_meta (tp_tables p) id = Some m) /\ pool_weight (tp_tables p') <= pool_weight (tp_tables p) /\
    (m_txpool_weight p' <= bytes \/ forall id m, id ∈ ids -> get_txpool_tx_meta (tp_tables p') id = Some m -> kept_by_block m = true) /\
    (forall id m, get_txpool_tx_meta (tp_tables p) id = Some m -> kept_by_block m = true \/ ~ id ∈ ids -> get_txpool_tx_meta (tp_tables p') id = Some m).
Proof.
  induction ids as [|id ids IH]; intros p changed Hok; cbn [prune_loop]; [exists changed, p; split_and!; try done; right; set_solver|].
  destruct (Z.leb_spec (m_txpool_weight p) bytes) as [Hle|Hgt]; [exists changed, p; split_and!; try done; by left|].
  destruct (get_txpool_tx_meta (tp_tables p) id) as [m|] eqn:Em.
  2: { destruct (IH p changed Hok) as (c' & p' & E & H1 & H2 & H3 & H4 & H5 & H6 & H7). exists c', p'. split_and!; try done.
       - destruct H6 as [H6|H6]; [by left|right]. intros id' m' [->|Hin]%elem_of_cons Hm'; [apply H4 in Hm'; congruence|by eapply H6].
       - intros id' m' Hm' [Hk|Hk]; apply H7; set_solver. }
  destruct (kept_by_block m) eqn:Ek.
  - destruct (IH p changed Hok) as (c' & p' & E & H1 & H2 & H3 & H4 & H5 & H6 & H7). exists c', p'. split_and!; try done.
    + destruct H6 as [H6|H6]; [by left|right]. intros id' m' [->|Hin]%elem_of_cons Hm'; [apply H4 in Hm'; congruence|by eapply H6].
    + intros id' m' Hm' [Hk|Hk]; apply H7; set_solver.
  - destruct (prune_one_ok cs p id m Hok Em) as (vin & -> & Hv). set (p1 := removed p (cs_now cs) id m vin). assert (Hok1 : pool_ok p1) by (by apply removed_ok).
    destruct (removed_fields p (cs_now cs) id m vin) as (E1 & _ & _ & _ & E5 & E6 & _). fold p1 in E1, E5, E6.
    assert (Hd : forall id' m', get_txpool_tx_meta (tp_tables p1) id' = Some m' <-> id' <> id /\ get_txpool_tx_meta (tp_tables p) id' = Some m').
    { intros id' m'. rewrite E1. unfold get_txpool_tx_meta, remove_txpool_tx. cbn [m_txpool_meta]. rewrite lookup_delete_Some. split; intros [? ?]; (split; [congruence|done]). }
    destruct (IH p1 true Hok1) as (c' & p' & E & H1 & H2 & H3 & H4 & H5 & H6 & H7). exists c', p'. rewrite E. split_and!; [done|done|congruence|congruence| | | |].
    + intros id' m' Hm'. by apply H4, Hd in Hm' as [_ ?].
    + etransitivity; [exact H5|]. rewrite E1. unfold pool_weight at 2. rewrite (weight_delete _ _ _ Em). destruct Hok as (Hc & _). destruct (ok_weights _ _ _ Hc id m Em). unfold pool_weight, remove_txpool_tx. cbn [m_txpool_meta]. lia.
    + destruct H6 as [H6|H6]; [by left|right]. intros id' m' [->|Hin]%elem_of_cons Hm'; [apply H4, Hd in Hm' as [? _]; done|by eapply H6].
    + intros id' m' Hm' Hk. apply H7; [apply Hd; split; [|done]; intros ->; rewrite Em in Hm'; simplify_eq; destruct Hk as [Hk|Hk]; [congruence|set_solver]|set_solver].
Qed.

Lemma prune_ok cs b bytes p : pool_ok p -> let p' := prune cs b bytes p in
  pool_ok p' /\ m_parsed_tx_cache p' = m_parsed_tx_cache p /\ m_txpool_max_weight p' = m_txpool_max_weight p /\
  (forall id m, get_txpool_tx_meta (tp_tables p') id = Some m -> get_txpool_tx_meta (tp_tables p) id = Some m) /\ pool_weight (tp_tables p') <= pool_weight (tp_tables p) /\
  (m_txpool_weight p' <= (if bytes =? 0 then m_txpool_max_weight p else bytes) \/ forall id m, id ∈ tail (sorted_ids (tp_lists p)) -> get_txpool_tx_meta (tp_tables p') id = Some m -> kept_by_block m = true) /\
  (forall id m, get_txpool_tx_meta (tp_tables p) id = Some m -> kept_by_block m = true \/ ~ id ∈ tail (sorted_ids (tp_lists p)) -> get_txpool_tx_meta (tp_tables p') id = Some m).
Proof.
  intros Hok. unfold prune. set (bytes' := if bytes =? 0 then _ else _). set (ids := map se_txid _).
  assert (Hids : forall id, id ∈ ids <-> id ∈ tail (sorted_ids (tp_lists p))) by (intros id; unfold ids, sorted_ids; rewrite map_rev, list_elem_of_In, <- in_rev, <- list_elem_of_In; by destruct (m_txs_by_fee_and_receive_time (tp_lists p))).
  destruct (prune_loop_ok cs bytes' ids p false Hok) as (c & p' & -> & H1 & H2 & H3 & H4 & H5 & H6 & H7).
  assert (Hc : forall q, (if c then bump p' else p') = q -> pool_ok q /\ m_parsed_tx_cache q = m_parsed_tx_cache p' /\ m_txpool_max_weight q = m_txpool_max_weight p' /\ tp_tables q = tp_tables p' /\ m_txpool_weight q = m_txpool_weight p')
    by (intros q <-; by destruct c). destruct (Hc _ eq_refl) as (G1 & G2 & G3 & G4 & G5). cbv zeta. rewrite G2, G3, G4, G5. split_and!; try done.
  - destruct H6 as [H6|H6]; [by left|right]. intros id m Hid. apply H6. by apply Hids.
  - intros id m Hm [Hk|Hk]; apply H7; [done|by left|done|right; by rewrite Hids].
Qed.

Lemma take_ok cs p id tk p' : pool_ok p -> take_tx cs p id = Some (tk, p') -> exists m,
  get_txpool_tx_meta (tp_tables p) id = Some m /\ pool_ok p' /\ tx_vin (pt_tx (tk_tx tk)) = ins id /\ m_txpool_blob (tp_tables p) !! id = Some (tk_blob tk) /\ tk_weight tk = meta_weight m /\
  tp_tables p' = remove_txpool_tx (tp_tables p) id /\ m_parsed_tx_cache p' = m_parsed_tx_cache p.
Proof.
  intros Hok E. unfold take_tx in E. destruct (get_txpool_tx_meta (tp_tables p) id) as [m|] eqn:Em; [|done]. cbn [mbind option_bind] in E.
  destruct (entry_read _ _ _ Hok Em) as (b & pre & Hb & Hby & Hpre & Hv). rewrite Hb in E. cbn [mbind option_bind] in E.
  destruct (match m_parsed_tx_cache p !! id with Some tx => Some tx | None => load_pool_tx b (meta_pruned m) end) as [tx|] eqn:Et; [|done]. cbn [mbind option_bind] in E.
  assert (Hvin : tx_vin (pt_tx tx) = ins id).
  { destruct (m_parsed_tx_cache p !! id) as [tx'|] eqn:Ec; [simplify_eq; destruct Hok as (_ & _ & Hp); by apply Hp|]. by rewrite (load_pool_tx_vin _ _ _ _ Et Hpre). }
  assert (Ep : p' = bump (removed p (cs_now cs) id m (tx_vin (pt_tx tx)))) by (unfold removed; destruct (remove_transaction_keyimages _ _ _); simplify_eq; done).
  assert (Etk : tk = mk_taken tx b (meta_weight m) (meta_fee m) (valid_input_verification_id m) (meta_relayed m) (do_not_relay m) (double_spend_seen m) (meta_pruned m)) by (destruct (remove_transaction_keyimages _ _ _); by simplify_eq).
  destruct (removed_fields p (cs_now cs) id m (tx_vin (pt_tx tx))) as (E1 & _ & _ & _ & E5 & _). subst tk. exists m. split; [done|]. rewrite Ep. split_and!; [by apply (removed_ok p)|done|done|done|exact E1|exact E5].
Qed.

Lemma mark_one_shape id r : same_shape r.1 (mark_one id r).1.
Proof.
  unfold mark_one. destruct (m_txpool_meta r.1 !! id) as [m|] eqn:E; [|done]. destruct (double_spend_seen m); [done|]. cbn [fst]. destruct (update_txpool_tx r.1 id _) as [t|] eqn:Eu; [|done].
  by refine (shape_updated _ _ _ _ _ E _ Eu).
Qed.

Lemma mark_loop_shape s vin : forall r, same_shape r.1 (mark_loop s vin r).1.1.
Proof.
  induction vin as [|i vin IH]; intros r; [done|]. destruct i as [| | |a off k]; try done. cbn [mark_loop]. eapply same_shape_trans; [|apply IH].
  destruct (s !! k) as [set|]; [|done]. generalize (elements set) as l. intros l. induction l as [|id l IHl]; [done|]. cbn. eapply same_shape_trans; [exact IHl|apply mark_one_shape].
Qed.

Lemma mark_double_spend_ok p b vin : pool_ok p -> pool_ok (mark_double_spend p b vin) /\ same_shape (tp_tables p) (tp_tables (mark_double_spend p b vin)).
Proof.
  intros Hok. unfold mark_double_spend. pose proof (mark_loop_shape (m_spent_key_images p) vin (tp_tables p, false)) as Hs. destruct (mark_loop _ _ _) as [[t c] f]. cbn [fst] in Hs.
  destruct f; [destruct c; (split; [by apply (pool_shape p)|done])|]. destruct b; [split; [by apply pool_shape|done]|by split].
Qed.

(** *** Adding keeps the invariant *)

(** A transaction handed to the pool with its hash, blob and weight. *)
Record entry_wf (tx : pool_tx) (id blob : list Z) (w : Z) : Prop := mk_entry_wf {
  wf_bytes : bytes blob;
  wf_parse : exists pre, parse_and_validate_tx_prefix_from_blob blob false = Some pre /\ tx_vin pre = ins id;
  wf_ins : tx_vin (pt_tx tx) = ins id;
  wf_keys : key_inputs (ins id);
  wf_weight : w = wt id /\ 0 <= w;
}.

Definition put_tables (t : pool_tables) (id blob : list Z) (m : txpool_tx_meta_t) : pool_tables := mk_pool_tables (<[id := m]> (m_txpool_meta t)) (<[id := blob]> (m_txpool_blob t)).
Definition images_added (s s' : gmap (list Z) (gset (list Z))) (id : list Z) : Prop :=
  forall k, image_set s' k = if decide (k ∈ images_of (ins id)) then {[id]} ∪ image_set s k else image_set s k.

(** The entry of a transaction that may share no key image with another one. *)
Definition may_join (s : gmap (list Z) (gset (list Z))) (id : list Z) (m : txpool_tx_meta_t) : Prop :=
  flags_ok m /\ (kept_by_block m = true \/ forall k, k ∈ images_of (ins id) -> image_set s k ⊆ {[id]}).

Lemma single_put t s w s' id m : core_ok t s w -> images_added s s' id -> may_join s id m ->
  forall k x y mx my, x ∈ image_set s' k -> y ∈ image_set s' k -> <[id := m]> (m_txpool_meta t) !! x = Some mx -> <[id := m]> (m_txpool_meta t) !! y = Some my ->
    kept_by_block mx = false -> kept_by_block my = false -> x = y.
Proof.
  intros Hc Hs [_ Hj] k x y mx my. rewrite Hs.
  assert (Hone : forall z, z ∈ (if decide (k ∈ images_of (ins id)) then {[id]} ∪ image_set s k else image_set s k) -> kept_by_block m = false -> id ∈ (if decide (k ∈ images_of (ins id)) then {[id]} ∪ image_set s k else image_set s k) -> z = id).
  { intros z Hz Ek Hin. destruct (decide _) as [Hk|Hk]; [|apply (ok_images _ _ _ Hc) in Hin as [_ Hin]; done]. destruct Hj as [Hj|Hj]; [congruence|]. specialize (Hj k Hk). set_solver. }
  intros Hx Hy. destruct (decide (id = x)) as [<-|Hnx]; destruct (decide (id = y)) as [<-|Hny]; rewrite ?lookup_insert_eq, ?lookup_insert_ne by done; intros Ex Ey Kx Ky; simplify_eq; [done|by symmetry; apply Hone|by apply Hone|].
  eapply (ok_single _ _ _ Hc k); try done; [clear Hy|clear Hx]; destruct (decide _); set_solver.
Qed.

Lemma core_put t s w s' tx id blob m : core_ok t s w -> entry_wf tx id blob (meta_weight m) -> images_added s s' id -> may_join s id m -> pool_weight t + meta_weight m < 2 ^ 64 ->
  core_ok (put_tables t id blob m) s' (if bool_decide (is_Some (m_txpool_meta t !! id)) then w else w + meta_weight m) /\
  pool_weight (put_tables t id blob m) = (if bool_decide (is_Some (m_txpool_meta t !! id)) then pool_weight t else pool_weight t + meta_weight m).
Proof.
  intros Hc [W1 W2 W3 W4 W5] Hs Hj Hb. pose proof (single_put _ _ _ _ _ _ Hc Hs Hj) as Hsingle. destruct Hc as [H1 H2 H3 H4 H5 H6 H7 H8 H9]. set (t' := put_tables t id blob m).
  assert (Hw : pool_weight t' = if bool_decide (is_Some (m_txpool_meta t !! id)) then pool_weight t else pool_weight t + meta_weight m).
  { unfold t', put_tables, pool_weight. cbn [m_txpool_meta]. case_bool_decide as Ei.
    - destruct Ei as [m0 E0]. apply (weight_update _ id m0); [done|]. destruct (H6 id m0 E0). lia.
    - rewrite weight_insert; [lia|]. by apply eq_None_not_Some. }
  assert (Hd : forall id', is_Some (m_txpool_meta t' !! id') <-> id' = id \/ is_Some (m_txpool_meta t !! id')).
  { intros id'. unfold t', put_tables. cbn [m_txpool_meta]. destruct (decide (id = id')) as [<-|Hn]; [rewrite lookup_insert_eq; split; [by left|by eexists]|rewrite lookup_insert_ne by done; split; [by right|]]. intros [->|?]; done. }
  split; [|done]. constructor.
  - intros id'. rewrite Hd, <- H1. unfold t', put_tables. cbn [m_txpool_blob]. destruct (decide (id = id')) as [<-|Hn]; [rewrite lookup_insert_eq; split; [by left|by eexists]|rewrite lookup_insert_ne by done; split; [by right|]]. intros [->|?]; done.
  - intros id' b'. unfold t', put_tables. cbn [m_txpool_blob]. destruct (decide (id = id')) as [<-|Hn]; [rewrite lookup_insert_eq; intros [= <-]; by split|rewrite lookup_insert_ne by done; apply H2].
  - intros id' [->|Hin]%Hd; [done|by apply H3].
  - intros k id'. rewrite Hd, Hs. destruct (decide (k ∈ images_of (ins id))) as [Hk|Hk]; rewrite ?elem_of_union, H4.
    + split; [intros [->%elem_of_singleton|[? ?]]; [by split; [left|]|by split; [right|]]|intros [[->|?] ?]; [by left; apply elem_of_singleton|by right]].
    + split; [intros [? ?]; by split; [right|]|intros [[->|?] ?]; [done|by split]].
  - rewrite H5, Hw. by case_bool_decide.
  - unfold t', put_tables. cbn [m_txpool_meta]. apply map_Forall_insert_2; [|done]. destruct W5. by split; [congruence|].
  - rewrite Hw. case_bool_decide; lia.
  - apply map_Forall_insert_2; [by destruct Hj|done].
  - exact Hsingle.
Qed.

(** The images of a transaction that is not known as spent can be added. *)
Lemma images_free_relayed p id tx_relay : pool_keyimges_as_spent p (ins id) id = false -> key_inputs (ins id) -> Forall (image_free (tp_tables p) id tx_relay (m_spent_key_images p)) (images_of (ins id)).
Proof.
  intros E [Hk _]. unfold pool_keyimges_as_spent in E. induction (ins id) as [|i vin IH]; [constructor|]. apply Forall_cons in Hk as [Hi Hk]. destruct i as [| | |a off k]; try done.
  cbn [existsb] in E. apply orb_false_iff in E as [E1 E2]. change (images_of (txin_to_key a off k :: vin)) with (k :: images_of vin). constructor; [|by apply IH].
  unfold pool_keyimg_as_spent in E1. unfold image_free, image_set. destruct (m_spent_key_images p !! k) as [set|]; [change (default ∅ (Some set)) with set|split; [by right; left|left; apply not_elem_of_empty]].
  case_bool_decide as Hem; [subst; split; [by right; left|left; set_solver]|]. case_bool_decide as Hone; [|done]. subst set. split; [by right; right|]. by right.
Qed.

Lemma images_of_new p id tx_relay : pool_ok p -> m_txpool_meta (tp_tables p) !! id = None -> tx_relay = relay_block -> Forall (image_free (tp_tables p) id tx_relay (m_spent_key_images p)) (images_of (ins id)).
Proof.
  intros (Hc & _) E ->. apply Forall_forall. intros k Hk. split; [by left|]. left. intros Hin. apply (ok_images _ _ _ Hc) in Hin as [[m Hm] _]. congruence.
Qed.

(** Adding the images of a transaction: they are added, or nothing changes. *)
Lemma insert_key_images_ok p id tx_relay : pool_ok p -> key_inputs (ins id) -> tx_relay = relay_block \/ pool_keyimges_as_spent p (ins id) id = false ->
  exists (r : bool) s', insert_key_images p (ins id) id tx_relay = (r, if r then bump (set_images p s') else set_images p s') /\
    (if r then images_added (m_spent_key_images p) s' id else forall k, image_set s' k = image_set (m_spent_key_images p) k) /\ (tx_relay <> relay_block -> r = true) /\ (m_txpool_meta (tp_tables p) !! id = None -> r = true).
Proof.
  intros Hok Hk Hc. unfold insert_key_images.
  assert (Hfree : Forall (image_free (tp_tables p) id tx_relay (m_spent_key_images p)) (images_of (ins id)) -> exists (r : bool) s', (let '(r, s) := insert_images_loop (tp_tables p) (ins id) id tx_relay (m_spent_key_images p) in
    let p := set_images p s in (r, if r then bump p else p)) = (r, if r then bump (set_images p s') else set_images p s') /\
    (if r then images_added (m_spent_key_images p) s' id else forall k, image_set s' k = image_set (m_spent_key_images p) k) /\ (tx_relay <> relay_block -> r = true) /\ (m_txpool_meta (tp_tables p) !! id = None -> r = true)).
  { intros HF. destruct (insert_images_spec _ _ _ _ _ Hk HF) as (s' & -> & Hs). by exists true, s'. }
  destruct Hc as [->|Hc]; [|by apply Hfree, images_free_relayed].
  destruct (m_txpool_meta (tp_tables p) !! id) as [m|] eqn:Em; [|by apply Hfree, images_of_new].
  destruct (txpool_tx_matches_category (tp_tables p) id legacy) eqn:El.
  2: { apply Hfree. apply Forall_forall. intros k _. split; [by left|by right]. }
  destruct (images_of (ins id)) as [|k0 l] eqn:Ei; [apply Hfree; constructor|]. assert (Hne : images_of (ins id) <> []) by (by rewrite Ei).
  destruct (insert_images_refused (tp_tables p) id (ins id) (m_spent_key_images p) Hk Hne El) as (s' & -> & Hs).
  - destruct Hok as (Hc & _). apply Forall_forall. intros k Hin. apply (ok_images _ _ _ Hc). rewrite Em. by split; [eexists|].
  - exists false, s'. split_and!; try done.
Qed.

Lemma core_images_ext t s s' w : (forall k, image_set s' k = image_set s k) -> core_ok t s w -> core_ok t s' w.
Proof. intros E [H1 H2 H3 H4 H5 H6 H7 H8 H9]. constructor; try done; [intros k id; by rewrite E|]. intros k id id' m m'. rewrite !E. apply H9. Qed.

Lemma pool_images_ext p s' : (forall k, image_set s' k = image_set (m_spent_key_images p) k) -> pool_ok p -> pool_ok (set_images p s').
Proof. intros E (Hc & Hl & Hp). split_and!; [by eapply core_images_ext|done|done]. Qed.

Lemma lists_add_ok l t now id blob m fee time sens : lists_ok l t -> lists_ok (add_tx_to_transient_lists l now id fee time sens) (put_tables t id blob m).
Proof.
  intros [Hn Hl]. destruct (lists_add_ids l now id fee time sens Hn) as [Hn' Hi]. split; [done|]. intros id'. rewrite Hi, Hl. unfold put_tables. cbn [m_txpool_meta].
  destruct (decide (id = id')) as [<-|Hd]; [rewrite lookup_insert_eq; split; [by eexists|by left]|rewrite lookup_insert_ne by done; split; [intros [->|?]; done|by right]].
Qed.

Lemma cache_add_ok c id tx : cache_ok c -> tx_vin (pt_tx tx) = ins id -> cache_ok (match c !! id with Some _ => c | None => <[id := tx]> c end).
Proof. intros Hc Hv. destruct (c !! id) eqn:E; [done|]. intros id' tx'. destruct (decide (id = id')) as [<-|Hn]; [rewrite lookup_insert_eq; by intros [= <-]|rewrite lookup_insert_ne by done; apply Hc]. Qed.

(** Putting an entry into the tables and the lists; its weight is counted when it is
    new. *)
Lemma pool_put p s' tx id blob m fee time sens now (new : bool) : pool_ok p -> entry_wf tx id blob (meta_weight m) -> images_added (m_spent_key_images p) s' id -> may_join (m_spent_key_images p) id m ->
  pool_weight (tp_tables p) + meta_weight m < 2 ^ 64 -> new = negb (bool_decide (is_Some (m_txpool_meta (tp_tables p) !! id))) ->
  let q := set_lists (set_tables (bump (set_images p s')) (put_tables (tp_tables p) id blob m)) (add_tx_to_transient_lists (tp_lists p) now id fee time sens) in
  pool_ok (if new then set_weight q (m_txpool_weight p ⊞ meta_weight m) else q) /\ pool_weight (tp_tables q) = pool_weight (tp_tables p) + (if new then meta_weight m else 0).
Proof.
  intros (Hc & Hl & Hp) Hwf Hs Hj Hb ->. destruct (core_put _ _ _ _ _ _ _ _ Hc Hwf Hs Hj Hb) as [Hc' Hw]. destruct (wf_weight _ _ _ _ Hwf) as [_ Hnn]. pose proof (ok_weight _ _ _ Hc) as Ew.
  assert (Hsum : 0 <= pool_weight (tp_tables p)). { apply weight_nonneg. eapply map_Forall_impl; [exact (ok_weights _ _ _ Hc)|]. by intros ? ? []. }
  assert (Hadd : m_txpool_weight p ⊞ meta_weight m = m_txpool_weight p + meta_weight m) by (apply wrap_small; unfold is_uint; lia). rewrite Hadd. cbv zeta.
  case_bool_decide as Ei; cbn [negb]; (split; [|cbn [tp_tables set_lists set_tables]; rewrite Hw; lia]); (split_and!; [done|by apply lists_add_ok|done]).
Qed.

Lemma add_replace t id blob m : add_txpool_tx (remove_txpool_tx t id) id blob m = Some (put_tables t id blob m).
Proof. unfold add_txpool_tx, remove_txpool_tx, put_tables. cbn [m_txpool_meta m_txpool_blob]. by rewrite !lookup_delete_eq, !insert_delete_eq. Qed.

Lemma images_added_same p s' id : pool_ok p -> is_Some (m_txpool_meta (tp_tables p) !! id) -> images_added (m_spent_key_images p) s' id -> forall k, image_set s' k = image_set (m_spent_key_images p) k.
Proof.
  intros (Hc & _) Hi Hs k. rewrite Hs. destruct (decide _) as [Hk|]; [|done]. assert (id ∈ image_set (m_spent_key_images p) k) by (by apply (ok_images _ _ _ Hc)). set_solver.
Qed.

Lemma insert_failed_ok cs p tx id blob w relayed vid : pool_ok p -> entry_wf tx id blob w -> pool_weight (tp_tables p) + w < 2 ^ 64 ->
  match insert_failed cs p tx id blob w relay_block relayed vid with
  | inr p' => pool_ok p' /\ tp_tables p' = tp_tables p
  | inl p' => pool_ok (set_weight p' (m_txpool_weight p' ⊞ w)) /\ pool_weight (tp_tables p') = pool_weight (tp_tables p) + w /\
              get_txpool_tx_meta (tp_tables p') id = Some (failed_meta cs p tx id blob w relay_block relayed vid)
  end.
Proof.
  intros Hok Hwf Hb. unfold insert_failed. set (meta := failed_meta _ _ _ _ _ _ _ _ _). assert (Emw : meta_weight meta = w) by done.
  set (p1 := set_caches p _ _). assert (Hok1 : pool_ok p1) by (destruct Hok as (Hc & Hl & Hp); split_and!; [done|done|apply cache_add_ok; [done|by destruct Hwf]]).
  rewrite (wf_ins _ _ _ _ Hwf). destruct (insert_key_images_ok p1 id relay_block Hok1 (wf_keys _ _ _ _ Hwf) ltac:(by left)) as (r & s' & -> & Hs & _ & _).
  destruct r; cbn [negb]; [|split; [by apply pool_images_ext|done]].
  change (tp_tables (bump (set_images p1 s'))) with (tp_tables p). unfold add_txpool_tx. destruct (m_txpool_meta (tp_tables p) !! id) as [m0|] eqn:Em.
  { split; [|done]. apply (pool_images_ext p1); [|done]. apply (images_added_same p1 s' id); [done|by exists m0|done]. }
  destruct Hok as (Hc & Hl & Hp) eqn:Eok. assert (Eb : m_txpool_blob (tp_tables p) !! id = None) by (apply eq_None_not_Some; rewrite (ok_dom _ _ _ Hc), Em; by intros []). rewrite Eb.
  destruct (pool_put p1 s' tx id blob meta (fee_rate (get_tx_fee tx) (if w =? 0 then 1 else w)) (cs_now cs) (negb (meta_matches meta broadcasted)) (cs_now cs) true) as [G1 G2]; [done|done|done|by split; [|left]|done|cbn; by rewrite Em, bool_decide_false by (intros []; done)|].
  split_and!; [exact G1|exact G2|]. unfold get_txpool_tx_meta. cbn [set_lists set_tables tp_tables m_txpool_meta]. by rewrite lookup_insert_eq.
Qed.

(** The relay methods an entry goes through. *)
Lemma set_flags m method : flags_ok (set_relay_method m method).
Proof. unfold flags_ok. by rewrite relay_roundtrip. Qed.

Lemma upgrade_spec m method : flags_ok m -> let '(up, m') := upgrade_relay_method m method in
  flags_ok m' /\ relay_rank (get_relay_method m') = Z.max (relay_rank (get_relay_method m)) (relay_rank method) /\ (if up then get_relay_method m' = method else m' = m) /\ same_entry m m'.
Proof.
  intros Hf. unfold upgrade_relay_method. destruct (Z.ltb_spec (relay_rank (get_relay_method m)) (relay_rank method)) as [Hlt|Hge]; [|split_and!; [done|lia|done|by split_and!]].
  rewrite relay_roundtrip. split_and!; [apply set_flags|lia|done|split_and!; [done| |intros _; apply set_flags]]. rewrite Hf. intros Hk%bool_decide_eq_true. rewrite Hk in Hlt. by destruct method.
Qed.

Lemma spent_free p id : pool_keyimges_as_spent p (ins id) id = false -> forall k, k ∈ images_of (ins id) -> key_inputs (ins id) -> image_set (m_spent_key_images p) k ⊆ {[id]}.
Proof.
  intros E k Hk Hin. pose proof (images_free_relayed p id relay_none E Hin) as HF. rewrite Forall_forall in HF. destruct (HF k Hk) as [[?|[->| ->]] _]; [done|set_solver|done].
Qed.

Lemma upgrade_weight m method : meta_weight (upgrade_relay_method m method).2 = meta_weight m.
Proof. unfold upgrade_relay_method. by destruct (_ <? _). Qed.

Lemma verified_weight cs meta tx blob w relayed r last : meta_weight (verified_meta cs meta tx blob w relayed r last) = w.
Proof. unfold verified_meta. by destruct (prunable_hash_valid meta). Qed.

Lemma verified_flags cs meta tx blob w relayed r last : flags_ok meta ->
  flags_ok (verified_meta cs meta tx blob w relayed r last) /\ get_relay_method (verified_meta cs meta tx blob w relayed r last) = get_relay_method meta.
Proof. unfold verified_meta, flags_ok. by destruct (prunable_hash_valid meta). Qed.

(** The entry that the transaction is to have, and its relay method. *)
Lemma entry_chosen p id tx_relay vid : pool_ok p ->
  let '(existing, meta) := match get_txpool_tx_meta (tp_tables p) id with Some meta => (true, meta) | None => (false, set_relay_method (empty_meta vid) relay_none) end in
  let relay' := if existing && bool_decide (tx_relay = relay_stem) && dandelionpp_stem meta then relay_fluff else tx_relay in
  let '(upgraded, meta') := upgrade_relay_method meta relay' in
  existing = bool_decide (is_Some (m_txpool_meta (tp_tables p) !! id)) /\ flags_ok meta' /\ (tx_relay = relay_block <-> relay' = relay_block) /\
  relay_rank tx_relay <= relay_rank (get_relay_method meta') /\ (forall m, m_txpool_meta (tp_tables p) !! id = Some m -> relay_rank (get_relay_method m) <= relay_rank (get_relay_method meta')) /\
  (m_txpool_meta (tp_tables p) !! id = None -> get_relay_method meta' = tx_relay) /\
  (if upgraded || negb existing then get_relay_method meta' = relay' else m_txpool_meta (tp_tables p) !! id = Some meta').
Proof.
  intros (Hc & _). unfold get_txpool_tx_meta. destruct (m_txpool_meta (tp_tables p) !! id) as [m|] eqn:Em.
  - set (relay' := if true && bool_decide (tx_relay = relay_stem) && dandelionpp_stem m then relay_fluff else tx_relay).
    assert (Hr : (tx_relay = relay_block <-> relay' = relay_block) /\ relay_rank tx_relay <= relay_rank relay').
    { unfold relay'. cbn [andb]. destruct (bool_decide_reflect (tx_relay = relay_stem)) as [->|]; [|done]. by destruct (dandelionpp_stem m). }
    pose proof (upgrade_spec m relay' (ok_flags _ _ _ Hc id m Em)) as Hus. destruct (upgrade_relay_method m relay') as [up m']. destruct Hus as (Hf & Hr' & Hup & _). destruct Hr as [Hr1 Hr2].
    split_and!; [by rewrite bool_decide_true by (by eexists)|done|done|lia|intros ? [= <-]; lia|done|]. destruct up; [done|]. cbn. by rewrite Hup.
  - pose proof (upgrade_spec (set_relay_method (empty_meta vid) relay_none) tx_relay (set_flags _ _)) as Hus. cbn [andb]. destruct (upgrade_relay_method _ tx_relay) as [up m']. destruct Hus as (Hf & Hr' & Hup & _).
    rewrite relay_roundtrip in Hr'. assert (Hg : get_relay_method m' = tx_relay) by (destruct up; [done|]; subst m'; rewrite relay_roundtrip in *; destruct tx_relay; done || (cbn in Hr'; lia)).
    split_and!; [by rewrite bool_decide_false by (by intros [])|done|done|lia|done|done|]. by rewrite orb_true_r.
Qed.

Lemma insert_verified_ok cs p tx id blob w tx_relay relayed r delay : pool_ok p -> entry_wf tx id blob w -> pool_weight (tp_tables p) + w < 2 ^ 64 ->
  tx_relay = relay_block \/ pool_keyimges_as_spent p (ins id) id = false ->
  match insert_verified cs p tx id blob w tx_relay relayed r delay with
  | inr p' => pool_ok p' /\ tp_tables p' = tp_tables p /\ tx_relay = relay_block
  | inl (p', meta, tx_relay', new) =>
      new = negb (bool_decide (is_Some (m_txpool_meta (tp_tables p) !! id))) /\ pool_ok (if new : bool then set_weight p' (m_txpool_weight p' ⊞ w) else p') /\
      pool_weight (tp_tables p') = pool_weight (tp_tables p) + (if new then w else 0) /\ get_txpool_tx_meta (tp_tables p') id = Some meta /\
      relay_rank tx_relay <= relay_rank (get_relay_method meta) /\ (forall m, m_txpool_meta (tp_tables p) !! id = Some m -> relay_rank (get_relay_method m) <= relay_rank (get_relay_method meta)) /\
      (m_txpool_meta (tp_tables p) !! id = None -> get_relay_method meta = tx_relay)
  end.
Proof.
  intros Hok Hwf Hb Hsp. unfold insert_verified. set (p1 := if bool_decide (tx_relay = relay_block) then _ else p).
  assert (Hok1 : pool_ok p1) by (unfold p1; destruct (bool_decide _); [|done]; destruct Hok as (Hc & Hl & Hp); split_and!; [done|done|apply cache_add_ok; [done|by destruct Hwf]]).
  assert (Et : tp_tables p1 = tp_tables p) by (unfold p1; by destruct (bool_decide _)). assert (Ei : m_spent_key_images p1 = m_spent_key_images p) by (unfold p1; by destruct (bool_decide _)).
  assert (Esp : pool_keyimges_as_spent p1 (ins id) id = pool_keyimges_as_spent p (ins id) id) by (unfold pool_keyimges_as_spent, pool_keyimg_as_spent; by rewrite Et, Ei). clearbody p1.
  pose proof (entry_chosen p1 id tx_relay (pi_id r) Hok1) as Hch. destruct (match get_txpool_tx_meta (tp_tables p1) id with Some meta => (true, meta) | None => _ end) as [existing meta0]. cbv zeta in Hch.
  set (relay' := if existing && _ && _ then relay_fluff else tx_relay) in *. destruct (upgrade_relay_method meta0 relay') as [upgraded meta1]. destruct Hch as (Hex & Hf1 & Hr' & Hrk & Hup & Hnone & Hgo). rewrite Et in Hex, Hup, Hnone.
  destruct (upgraded || negb existing) eqn:Ego.
  2: { apply orb_false_iff in Ego as [-> Hne]. apply negb_false_iff in Hne. rewrite <- Hex, Hne. split_and!; [done|done|cbn; rewrite Et; lia|exact Hgo|done|done|done]. }
  set (timed := bool_decide (relay' = relay_forward) || _). set (last := if timed then _ else _). set (p2 := if timed && _ then set_next_check p1 last else p1).
  assert (Hok2 : pool_ok p2) by (unfold p2; by destruct (timed && _)).
  assert (E2 : tp_tables p2 = tp_tables p1 /\ m_spent_key_images p2 = m_spent_key_images p1 /\ tp_lists p2 = tp_lists p1) by (unfold p2; by destruct (timed && _)). destruct E2 as (E2 & E2' & E2''). clearbody p2.
  pose proof (verified_flags cs meta1 tx blob w relayed r last Hf1) as [Hf2 Hg2]. set (meta2 := verified_meta cs meta1 tx blob w relayed r last) in *. assert (Ew : meta_weight meta2 = w) by apply verified_weight. clearbody meta2. rewrite (wf_ins _ _ _ _ Hwf).
  assert (Hfree : relay' = relay_block \/ pool_keyimges_as_spent p2 (ins id) id = false).
  { destruct Hsp as [Hsp|Hsp]; [left; by apply Hr'|right]. unfold pool_keyimges_as_spent, pool_keyimg_as_spent in *. by rewrite E2, E2', Esp. }
  destruct (insert_key_images_ok p2 id relay' Hok2 (wf_keys _ _ _ _ Hwf) Hfree) as (rr & s' & -> & Hs & Hrr & Hnew). destruct rr; cbn [negb].
  - change (tp_tables (bump (set_images p2 s'))) with (tp_tables p2). rewrite add_replace. rewrite <- Ew in *.
    destruct (pool_put p2 s' tx id blob meta2 (fee_rate (meta_fee meta2) (if meta_weight meta2 =? 0 then 1 else meta_weight meta2)) (cs_now cs) (negb (meta_matches meta2 broadcasted)) (cs_now cs) (negb existing)) as [G1 G2];
      [done|done|done| |by rewrite E2, Et|by rewrite E2, Et, Hex|].
    { split; [done|]. destruct Hfree as [Hfree|Hfree]; [left; rewrite Hf2, Hg2, Hgo; by apply bool_decide_eq_true|right]. intros k Hk. apply (spent_free p2); [done|done|by destruct Hwf]. }
    rewrite E2 in *. rewrite Et in *. split_and!; [by rewrite Hex|exact G1|exact G2| |by rewrite Hg2|by rewrite Hg2|by rewrite Hg2]. unfold get_txpool_tx_meta. cbn [set_lists set_tables tp_tables m_txpool_meta put_tables]. by rewrite lookup_insert_eq.
  - split_and!; [by apply pool_images_ext|cbn; congruence|]. apply Hr'. destruct (decide (relay' = relay_block)) as [|Hn]; [done|]. by specialize (Hrr Hn).
Qed.

Lemma inputs_cached cs p tx id vid h b tvc kept : exists c, (pool_check_tx_inputs cs p tx id vid h b tvc kept).2 = set_caches p c (m_parsed_tx_cache p).
Proof.
  unfold pool_check_tx_inputs. destruct (if kept then None else _) as [[[[r v] h'] b']|]; [by exists (m_input_cache p); destruct p|].
  destruct (check_tx_inputs_block _ _ _ _ _ _ _ _ _) as [r o]. destruct kept; [by exists (m_input_cache p); destruct p|by eexists].
Qed.

(** What adding a transaction leaves: the pool is in order, no other transaction
    appears, the weight grows by that of the transaction at most, a refusal leaves
    the transactions as they are. *)
Definition adds (p q : tx_pool) (id : list Z) (w : Z) (relay : relay_method) (ok : bool) : Prop :=
  pool_ok q /\ pool_weight (tp_tables q) <= pool_weight (tp_tables p) + w /\
  (ok = false -> same_shape (tp_tables p) (tp_tables q)) /\
  (m_txpool_meta (tp_tables p) !! id = None -> forall m, m_txpool_meta (tp_tables q) !! id = Some m -> kept_by_block m = bool_decide (relay = relay_block)).

Lemma adds_refused p q id w relay : pool_ok q -> same_shape (tp_tables p) (tp_tables q) -> 0 <= w -> adds p q id w relay false.
Proof.
  intros Hq Hs Hw. split_and!; [done|rewrite (shape_weight _ _ Hs); lia|done|]. intros En m Em. assert (is_Some (m_txpool_meta (tp_tables p) !! id)) as [? ?] by (rewrite <- (shape_dom _ _ id Hs); by eexists). congruence.
Qed.

(** Accepting ends with a pruning. *)
Lemma adds_accepted cs b p q id w relay meta : pool_ok q -> pool_weight (tp_tables q) <= pool_weight (tp_tables p) + w -> get_txpool_tx_meta (tp_tables q) id = Some meta ->
  (m_txpool_meta (tp_tables p) !! id = None -> get_relay_method meta = relay) -> adds p (prune cs b (m_txpool_max_weight q) (bump q)) id w relay true.
Proof.
  intros Hq Hw Em Hr. destruct (prune_ok cs b (m_txpool_max_weight q) (bump q) Hq) as (G1 & _ & _ & G4 & G5 & _). cbn [bump tp_tables] in G4, G5. split_and!; [done|lia|done|].
  intros En m Hm. apply G4 in Hm. rewrite Em in Hm. simplify_eq. destruct Hq as (Hc & _). rewrite (ok_flags _ _ _ Hc id m Em). by rewrite Hr.
Qed.

Lemma add_tx_ok cs b delay p tx id blob w tvc relay relayed ver nic vid : pool_ok p -> entry_wf tx id blob w -> pool_weight (tp_tables p) + w < 2 ^ 64 ->
  let r := add_tx cs b delay p tx id blob w tvc relay relayed ver nic vid in adds p (ar_pool r) id w relay (ar_ok r).
Proof.
  intros Hok Hwf Hb. destruct (wf_weight _ _ _ _ Hwf) as [_ Hw0]. assert (Hp : adds p p id w relay false) by (by apply adds_refused).
  unfold add_tx. cbv zeta. destruct (negb (bool_decide (relay = relay_block)) && bool_decide (id ∈ _)); [done|]. destruct (negb (_ || _)); [done|]. destruct (_ && (MAX_TX_EXTRA_SIZE <? _)); [done|].
  destruct (_ && negb (_ =? 0)); [done|]. destruct (negb (bool_decide (relay = relay_block)) && pool_keyimges_as_spent p (tx_vin tx) id) eqn:Esp.
  { destruct (mark_double_spend_ok p b (tx_vin tx) Hok). by apply adds_refused. }
  destruct (if ver =? nic then _ else _) as [ok tvc']. destruct (negb ok); [done|].
  destruct (inputs_cached cs p tx id vid 0 null_hash (m_verifivation_failed :: tvc') (bool_decide (relay = relay_block))) as [c Hc]. destruct (pool_check_tx_inputs _ _ _ _ _ _ _ _ _) as [r p1]. cbn [snd] in Hc. subst p1.
  set (p1 := set_caches p c _). assert (Hok1 : pool_ok p1) by done. assert (Hb1 : pool_weight (tp_tables p1) + w < 2 ^ 64) by done.
  assert (Hsp : relay = relay_block \/ pool_keyimges_as_spent p1 (ins id) id = false).
  { apply andb_false_iff in Esp as [Esp|Esp]; [left; by apply negb_false_iff, bool_decide_eq_true in Esp|right; by rewrite <- (wf_ins _ _ _ _ Hwf)]. }
  destruct (pi_ok r); cbn [negb].
  - pose proof (insert_verified_ok cs p1 tx id blob w relay relayed r delay Hok1 Hwf Hb1 Hsp) as Hv. destruct (insert_verified _ _ _ _ _ _ _ _ _ _) as [[[[p2 m] rl] new]|p2]; cbn [ar_pool ar_ok].
    + destruct Hv as (_ & Hv & Hw & Hm & _ & _ & Hnone). eapply adds_accepted; [done| |by destruct new|done]. destruct new; cbn [set_weight tp_tables]; change (tp_tables p1) with (tp_tables p) in Hw; lia.
    + destruct Hv as (Hv & Ht & _). apply adds_refused; [done| |done]. by rewrite Ht.
  - destruct (bool_decide_reflect (relay = relay_block)) as [->|]; [|by apply adds_refused]. cbn [negb]. pose proof (insert_failed_ok cs p1 tx id blob w relayed (pi_id r) Hok1 Hwf Hb1) as Hv. destruct (insert_failed _ _ _ _ _ _ _ _ _) as [p2|p2]; cbn [ar_pool ar_ok].
    + destruct Hv as (Hv & Hw & Hm). eapply adds_accepted; [done| |done|]. { cbn [set_weight tp_tables]. change (tp_tables p1) with (tp_tables p) in Hw. lia. } intros _. apply relay_roundtrip.
    + destruct Hv as (Hv & Ht). apply adds_refused; [done| |done]. by rewrite Ht.
Qed.

(** *** The other operations keep it *)

Lemma entries_spec (t : pool_tables) category e : e ∈ for_all_txpool_txes t category -> m_txpool_meta t !! e.1 = Some e.2.
Proof.
  intros Hin. apply list_elem_of_In, filter_In in Hin as [Hin _]. apply list_elem_of_In in Hin. rewrite merge_sort_Permutation in Hin. destruct e. by apply elem_of_map_to_list in Hin.
Qed.

Lemma nodup_filter_fst {A B} (f : A * B -> bool) (l : list (A * B)) : NoDup l.*1 -> NoDup (List.filter f l).*1.
Proof.
  induction l as [|e l IH]; intros Hn; [done|]. apply NoDup_cons in Hn as [Hx Hn]. cbn [List.filter]. destruct (f e); [|by apply IH]. apply NoDup_cons. split; [|by apply IH].
  intros (e' & E & Hin)%list_elem_of_fmap. apply list_elem_of_In, filter_In in Hin as [Hin _]. apply Hx. rewrite E. apply list_elem_of_fmap_2. by apply list_elem_of_In.
Qed.

Lemma entries_nodup (t : pool_tables) category : NoDup (for_all_txpool_txes t category).*1.
Proof. apply nodup_filter_fst. rewrite merge_sort_Permutation. apply NoDup_fst_map_to_list. Qed.

(** The lists of expired transactions are cleaned first. *)
Lemma expire_lists now l : forall p, let q := fold_left (expire_list now) l p in
  tp_tables q = tp_tables p /\ m_spent_key_images q = m_spent_key_images p /\ m_txpool_weight q = m_txpool_weight p /\ m_parsed_tx_cache q = m_parsed_tx_cache p /\
  m_timed_out_transactions q = m_timed_out_transactions p ∪ list_to_set l.*1 /\ (NoDup (sorted_ids (tp_lists p)) -> NoDup (sorted_ids (tp_lists q))) /\
  forall id, id ∈ sorted_ids (tp_lists q) <-> id ∈ sorted_ids (tp_lists p) /\ ~ id ∈ l.*1.
Proof.
  induction l as [|e l IH]; intros p; cbn [fold_left]; [split_and!; [done..|set_solver|done|intros id; cbn; set_solver]|].
  destruct (IH (expire_list now p e)) as (H1 & H2 & H3 & H4 & H5 & H6 & H7). assert (Es : sorted_ids (tp_lists (expire_list now p e)) = filter (fun id => id <> e.1) (sorted_ids (tp_lists p))) by apply lists_remove_ids.
  split_and!; [done..| | |].
  - rewrite H5. cbn [expire_list set_timed_out m_timed_out_transactions set_lists fmap list_fmap list_to_set]. set_solver.
  - intros Hn. apply H6. rewrite Es. by apply NoDup_filter.
  - intros id. rewrite H7, Es, list_elem_of_filter. rewrite fmap_cons, elem_of_cons. tauto.
Qed.

Lemma expire_entries l : forall p, core_ok (tp_tables p) (m_spent_key_images p) (m_txpool_weight p) -> NoDup l.*1 -> (forall e, e ∈ l -> m_txpool_meta (tp_tables p) !! e.1 = Some e.2) ->
  let q := fold_left expire_entry l p in
  core_ok (tp_tables q) (m_spent_key_images q) (m_txpool_weight q) /\ m_parsed_tx_cache q = m_parsed_tx_cache p /\ tp_lists q = tp_lists p /\ m_timed_out_transactions q = m_timed_out_transactions p /\
  forall id m, m_txpool_meta (tp_tables q) !! id = Some m <-> m_txpool_meta (tp_tables p) !! id = Some m /\ ~ id ∈ l.*1.
Proof.
  induction l as [|e l IH]; intros p Hc Hn Hl; cbn [fold_left]; [split_and!; [done..|]; intros id m; cbn; set_solver|].
  apply NoDup_cons in Hn as [Hx Hn]. assert (He : m_txpool_meta (tp_tables p) !! e.1 = Some e.2) by (apply Hl; left).
  assert (is_Some (m_txpool_blob (tp_tables p) !! e.1)) as [b Eb] by (apply (ok_dom _ _ _ Hc); by rewrite He). destruct (ok_blob _ _ _ Hc _ _ Eb) as (_ & pre & Ep & Ev).
  destruct (core_remove _ _ _ _ _ Hc He) as (s' & Es & Hc').
  assert (Ee : exists p1, expire_entry p e = p1 /\ tp_tables p1 = remove_txpool_tx (tp_tables p) e.1 /\ m_spent_key_images p1 = s' /\ m_txpool_weight p1 = (if m_txpool_weight p <? meta_weight e.2 then 0 else m_txpool_weight p - meta_weight e.2) /\
    m_parsed_tx_cache p1 = m_parsed_tx_cache p /\ tp_lists p1 = tp_lists p /\ m_timed_out_transactions p1 = m_timed_out_transactions p).
  { eexists. split; [done|]. unfold expire_entry. cbn [get_txpool_tx_blob]. rewrite Eb. cbn [mbind option_bind]. rewrite Ep, Ev. unfold remove_transaction_keyimages. cbn [m_spent_key_images reduce_txpool_weight set_tables set_weight]. by rewrite Es. }
  destruct Ee as (p1 & -> & T1 & T2 & T3 & T4 & T5 & T6). assert (Hd : forall id m, m_txpool_meta (tp_tables p1) !! id = Some m <-> e.1 <> id /\ m_txpool_meta (tp_tables p) !! id = Some m) by (intros; rewrite T1; apply lookup_delete_Some).
  destruct (IH p1) as (G1 & G2 & G3 & G4 & G5); [by rewrite T1, T2, T3|done|intros x Hin; apply Hd; split; [|apply Hl; by right]; intros E; apply Hx; rewrite E; by apply list_elem_of_fmap_2|].
  split_and!; [done|congruence..|]. intros id m. rewrite G5, Hd. rewrite fmap_cons, elem_of_cons. naive_solver.
Qed.

(** The transactions that are too old leave the pool, and are remembered. *)
Lemma remove_stuck_ok now p : pool_ok p -> let q := remove_stuck_transactions now p in
  pool_ok q /\ (forall id m, m_txpool_meta (tp_tables q) !! id = Some m <-> m_txpool_meta (tp_tables p) !! id = Some m /\ is_stuck now m = false) /\
  forall id, id ∈ m_timed_out_transactions q <-> id ∈ m_timed_out_transactions p \/ exists m, m_txpool_meta (tp_tables p) !! id = Some m /\ is_stuck now m = true.
Proof.
  intros (Hc & [Hn Hl] & Hp). unfold remove_stuck_transactions. set (rm := List.filter _ _).
  assert (Hrm : forall e, e ∈ rm <-> m_txpool_meta (tp_tables p) !! e.1 = Some e.2 /\ is_stuck now e.2 = true).
  { intros [id m]. unfold rm, for_all_txpool_txes. rewrite !list_elem_of_In, filter_In. cbn [fst snd]. rewrite filter_In, <- list_elem_of_In, merge_sort_Permutation, elem_of_map_to_list. tauto. }
  assert (Hnd : NoDup rm.*1) by (apply nodup_filter_fst, entries_nodup).
  assert (Hid : forall id, id ∈ rm.*1 <-> exists m, m_txpool_meta (tp_tables p) !! id = Some m /\ is_stuck now m = true).
  { intros id. rewrite list_elem_of_fmap. split; [intros ([id' m] & -> & Hin); apply Hrm in Hin; by exists m|intros (m & Hm); exists (id, m); split; [done|by apply Hrm]]. }
  clearbody rm. destruct (expire_lists now rm p) as (L1 & L2 & L3 & L4 & L5 & L6 & L7). set (p1 := fold_left (expire_list now) rm p) in *. clearbody p1.
  destruct (expire_entries rm p1) as (G1 & G2 & G3 & G4 & G5); [by rewrite L1, L2, L3|done|intros e He; rewrite L1; by apply Hrm|]. cbv zeta.
  enough (Hq : let q := fold_left expire_entry rm p1 in pool_ok q /\ (forall id m, m_txpool_meta (tp_tables q) !! id = Some m <-> m_txpool_meta (tp_tables p) !! id = Some m /\ is_stuck now m = false) /\
    forall id, id ∈ m_timed_out_transactions q <-> id ∈ m_timed_out_transactions p \/ exists m, m_txpool_meta (tp_tables p) !! id = Some m /\ is_stuck now m = true).
  { case_bool_decide as E; [|exact Hq]. destruct rm; [exact Hq|done]. }
  cbv zeta. set (q := fold_left expire_entry rm p1) in *. clearbody q. split_and!.
  - unfold pool_ok. rewrite G2, G3, L4. split_and!; [done| |done]. split; [by apply L6|]. intros id. rewrite L7, Hl. split.
    + intros [[m Hm] Hx]. exists m. apply G5. by rewrite L1.
    + intros [m Hm]. apply G5 in Hm as [Hm Hx]. rewrite L1 in Hm. by split; [exists m|].
  - intros id m. rewrite G5, L1, Hid. split; intros [Hm Hx]; (split; [done|]); [apply not_true_is_false; intros ?; apply Hx; by exists m|intros (m' & Hm' & ?); congruence].
  - intros id. rewrite G4, L5, elem_of_union, elem_of_list_to_set, Hid. done.
Qed.

Lemma shape_changed t t0 id m m' t' : same_shape t t0 -> m_txpool_meta t !! id = Some m -> same_entry m m' -> update_txpool_tx t0 id m' = Some t' -> same_shape t t'.
Proof.
  intros Hs E Hm Eu. unfold update_txpool_tx in Eu. destruct (m_txpool_meta t0 !! id) as [m0|] eqn:E0; [|done]. simplify_eq. destruct Hs as (Hb & Hw & He). split_and!; [done| |]; cbn [m_txpool_meta].
  - rewrite fmap_insert, Hw. apply insert_id. rewrite lookup_fmap, E. cbn. destruct Hm as [-> _]. done.
  - intros id' x. destruct (decide (id = id')) as [<-|Hn]; [rewrite lookup_insert_eq; intros [= <-]; by exists m|rewrite lookup_insert_ne by done; apply He].
Qed.

Lemma relayed_entry m relayed t : same_entry m (set_last_relayed m relayed t).
Proof. done. Qed.

Lemma relay_visits t now l : forall acc, forall e, e ∈ (fold_left (fun acc e => relay_visit t now e acc) l acc).1.2 -> e ∈ acc.1.2 \/ e ∈ l.
Proof.
  induction l as [|x l IH]; intros acc e He; [by left|]. cbn [fold_left] in He. destruct (IH _ _ He) as [Hin|Hin]; [|by right; right].
  assert (Hv : e ∈ acc.1.2 \/ e = x); [|destruct Hv as [?| ->]; [by left|by right; left]].
  revert Hin. destruct acc as [[txs ch] nc]. destruct x as [id m]. unfold relay_visit. destruct (negb _); [by left|]. cbv zeta.
  assert (Hrel : forall ch' : list (list Z * txpool_tx_meta_t), e ∈ (if now ⊟ receive_time m <=? (if bool_decide (get_relay_method m = relay_block) then CRYPTONOTE_MEMPOOL_TX_FROM_ALT_BLOCK_LIVETIME else CRYPTONOTE_MEMPOOL_TX_LIVETIME) / 2
      then match get_txpool_tx_blob t id all with Some blob => (txs ++ [(id, blob, get_relay_method m)], ch', nc) | None => (txs, ch', nc) end else (txs, ch', nc)).1.2 -> e ∈ ch') by (intros ch'; destruct (_ <=? _); [destruct (get_txpool_tx_blob t id all)|]; done).
  assert (Htwo : e ∈ ch ++ [(id, m)] -> e ∈ ch \/ e = (id, m)) by (intros [?|?]%elem_of_app; set_solver).
  destruct (get_relay_method m); try (intros Hx; left; exact Hx); (destruct (now <? last_relayed_time m); [intros Hx; left; exact Hx|intros Hx; apply Htwo; exact (Hrel _ Hx)]) || (destruct (meta_relayed m && _); [intros Hx; left; exact Hx|intros Hx; left; exact (Hrel _ Hx)]).
Qed.

Lemma relayable_ok now p txs q : pool_ok p -> get_relayable_transactions now p = Some (txs, q) -> pool_ok q /\ same_shape (tp_tables p) (tp_tables q).
Proof.
  intros Hok. unfold get_relayable_transactions. destruct (_ <? _); [done|]. pose proof (relay_visits (tp_tables p) now (for_all_txpool_txes (tp_tables p) relayable) ([], [], now + max_relayable_check)) as Hv.
  destruct (fold_left _ _ ([], [], _)) as [[txs' ch] nc]. cbn [fst snd] in Hv. intros [= <- <-].
  assert (Hch : forall e, e ∈ ch -> m_txpool_meta (tp_tables p) !! e.1 = Some e.2) by (intros e He; destruct (Hv e He) as [Hin|Hin]; [set_solver|by eapply entries_spec]).
  set (t := fold_left _ ch _). enough (same_shape (tp_tables p) t) by (split; [by apply (pool_shape p)|done]). unfold t. clear Hv t. generalize (same_shape_refl (tp_tables p)). generalize (tp_tables p) at 2 4 as t0. revert Hch.
  induction ch as [|e ch IH]; intros Hch t0 Hs; [done|]. cbn [fold_left]. apply IH; [intros x Hx; apply Hch; by right|]. destruct (update_txpool_tx t0 e.1 _) as [t'|] eqn:Eu; [|done]. cbn [default].
  eapply shape_changed; [done|apply Hch; left| |exact Eu]. apply relayed_entry.
Qed.

Lemma relayed_one_ok now method h p nr just : pool_ok p -> let '(q, _, _) := set_relayed_one now method h (p, nr, just) in pool_ok q /\ same_shape (tp_tables p) (tp_tables q).
Proof.
  intros Hok. unfold set_relayed_one. unfold get_txpool_tx_meta. destruct (m_txpool_meta (tp_tables p) !! h.1) as [m|] eqn:Em; [|done].
  pose proof (upgrade_spec m method) as Hus. destruct (upgrade_relay_method m method) as [up m']. destruct Hus as (_ & _ & _ & Hse); [destruct Hok as (Hc & _); exact (ok_flags _ _ _ Hc _ _ Em)|]. cbn [snd].
  set (t := if dandelionpp_stem m' then u64 (now + h.2) else now). destruct (update_txpool_tx (tp_tables p) h.1 (set_last_relayed m' true t)) as [tb|] eqn:Eu; [|done].
  assert (Hs : same_shape (tp_tables p) tb) by (refine (shape_updated _ _ _ _ _ Em _ Eu); exact Hse). pose proof (pool_shape p tb Hs Hok) as Hq. destruct (_ && _); [|done]. split; [|done].
  destruct Hq as (Hc & [Hn Hl] & Hp). split_and!; [done| |done]. destruct (lists_add_ids (tp_lists p) now h.1 (fee_rate (meta_fee (set_last_relayed m' true t)) (meta_weight (set_last_relayed m' true t))) now false Hn) as [Hn' Hi].
  split; [done|]. intros id. cbn [set_lists set_tables tp_lists tp_tables]. rewrite Hi. cbn [set_tables tp_lists tp_tables] in Hl. rewrite Hl. split; [intros [->|?]; [|done]|by right].
  rewrite (shape_dom _ _ _ Hs). by eexists.
Qed.

Lemma set_relayed_ok now hashes method p : pool_ok p -> pool_ok (set_relayed now hashes method p).2 /\ same_shape (tp_tables p) (tp_tables (set_relayed now hashes method p).2).
Proof.
  intros Hok. unfold set_relayed. enough (Hf : forall acc, pool_ok acc.1.1 -> let acc' := fold_left (fun acc h => set_relayed_one now method h acc) hashes acc in pool_ok acc'.1.1 /\ same_shape (tp_tables acc.1.1) (tp_tables acc'.1.1)).
  { specialize (Hf (p, time_max, []) Hok). destruct (fold_left _ hashes _) as [[q nr] just]. cbn [fst snd] in *. by destruct (nr <? m_next_check q). }
  induction hashes as [|h hashes IH]; intros acc Hacc; [done|]. cbn [fold_left]. destruct acc as [[q nr] just]. pose proof (relayed_one_ok now method h q nr just Hacc) as H1. destruct (set_relayed_one _ _ _ _) as [[q' nr'] just'].
  destruct H1 as [H1 H2]. destruct (IH (q', nr', just') H1) as [H3 H4]. split; [done|]. by eapply same_shape_trans.
Qed.

(** *** The template *)

(** What a check of the inputs leaves of an entry. *)
Definition rechecked (m m' : txpool_tx_meta_t) : Prop :=
  meta_weight m' = meta_weight m /\ meta_fee m' = meta_fee m /\ meta_pruned m' = meta_pruned m /\ kept_by_block m' = kept_by_block m /\ get_relay_method m' = get_relay_method m.
Definition tables_rechecked (t t' : pool_tables) : Prop :=
  m_txpool_blob t' = m_txpool_blob t /\ forall id, option_relation rechecked (fun _ => False) (fun _ => False) (m_txpool_meta t !! id) (m_txpool_meta t' !! id).

Lemma rechecked_trans m m' m'' : rechecked m m' -> rechecked m' m'' -> rechecked m m''.
Proof. unfold rechecked. intuition congruence. Qed.
Lemma tables_rechecked_refl t : tables_rechecked t t.
Proof. split; [done|]. intros id. by destruct (m_txpool_meta t !! id). Qed.
Lemma tables_rechecked_trans t t' t'' : tables_rechecked t t' -> tables_rechecked t' t'' -> tables_rechecked t t''.
Proof.
  intros [H1 H2] [H3 H4]. split; [congruence|]. intros id. specialize (H2 id). specialize (H4 id). destruct (m_txpool_meta t !! id), (m_txpool_meta t' !! id), (m_txpool_meta t'' !! id); try done. by eapply rechecked_trans.
Qed.
Lemma tables_rechecked_update t id m m' t' : m_txpool_meta t !! id = Some m -> rechecked m m' -> update_txpool_tx t id m' = Some t' -> tables_rechecked t t'.
Proof.
  intros E Hm Eu. unfold update_txpool_tx in Eu. rewrite E in Eu. simplify_eq. split; [done|]. intros id'. cbn [m_txpool_meta]. destruct (decide (id = id')) as [<-|Hn]; [rewrite lookup_insert_eq, E; done|rewrite lookup_insert_ne by done].
  by destruct (m_txpool_meta t !! id').
Qed.
Lemma rechecked_shape t t' : tables_rechecked t t' -> same_shape t t'.
Proof.
  intros [Hb He]. split_and!; [done| |].
  - apply map_eq. intros id. rewrite !lookup_fmap. specialize (He id). destruct (m_txpool_meta t !! id), (m_txpool_meta t' !! id); try done. cbn. destruct He as [-> _]. done.
  - intros id m' E. specialize (He id). rewrite E in He. destruct (m_txpool_meta t !! id) as [m|]; [|done]. exists m. split; [done|]. destruct He as (Hw & _ & _ & Hk & Hg). split_and!; [done|by rewrite Hk|]. unfold flags_ok. by rewrite Hk, Hg.
Qed.

(** The inputs of a transaction verify on the chain. *)
Definition inputs_verify (cs : chain_state) (tx : transaction) : Prop :=
  exists tvc vid, ir_ok (check_tx_inputs_block zeroCommitVartime verRctNonSemanticsSimple verRct_non_sem check_ring_signature cs tx tvc vid false).1 = true.

Lemma inputs_checked cs p tx id vid h b tvc : pi_ok (pool_check_tx_inputs cs p tx id vid h b tvc false).1 = true -> m_input_cache p !! id = None -> inputs_verify cs tx.
Proof.
  intros E En. unfold pool_check_tx_inputs in E. rewrite En in E. destruct (check_tx_inputs_block _ _ _ _ _ _ _ _ _) as [r o] eqn:Er. exists tvc, vid. by rewrite Er.
Qed.

Lemma ready_spec cs p m id blob : let '(ok, m', tx, q) := is_transaction_ready_to_go cs p m id blob in
  rechecked m m' /\ (exists c, q = set_caches p c (m_parsed_tx_cache p) /\ forall id', id' <> id -> c !! id' = m_input_cache p !! id') /\
  (ok = true -> m_input_cache p !! id = None -> exists tx', tx = Some tx' /\ parse_and_validate_tx_from_blob mul_inv_eight blob false = Some tx' /\ inputs_verify cs tx').
Proof.
  unfold is_transaction_ready_to_go. assert (Hself : exists c, p = set_caches p c (m_parsed_tx_cache p) /\ forall id', id' <> id -> c !! id' = m_input_cache p !! id') by (exists (m_input_cache p); by destruct p).
  destruct (bool_decide (last_failed_id m = _)); [by split_and!|]. unfold pool_check_tx_inputs. destruct (m_input_cache p !! id) as [[[[r v] h] b]|] eqn:Ec.
  - rewrite bool_decide_true by (by eexists). cbn [pi_ok]. destruct r; by split_and!.
  - rewrite bool_decide_false by (by intros []). destruct (parse_and_validate_tx_from_blob mul_inv_eight blob false) as [tx|] eqn:Et; [|by split_and!].
    destruct (check_tx_inputs_block _ _ _ _ _ _ _ _ _) as [r o] eqn:Er. cbn [pi_ok]. destruct (ir_ok r) eqn:Eo; (split_and!; [done|eexists; split; [done|intros id' Hn; by rewrite lookup_insert_ne by done]|]); [|done].
    intros _ _. exists tx. split_and!; [done|done|]. exists [], (valid_input_verification_id m). by rewrite Er.
Qed.

Lemma ready_ok cs p m id blob : pool_ok p -> m_txpool_meta (tp_tables p) !! id = Some m ->
  let '(_, m', _, q) := is_transaction_ready_to_go cs p m id blob in
  let q' := if bool_decide (m' = m) then q else set_tables q (default (tp_tables q) (update_txpool_tx (tp_tables q) id m')) in
  pool_ok q' /\ tables_rechecked (tp_tables p) (tp_tables q') /\ tp_lists q' = tp_lists p /\ (forall id', id' <> id -> m_input_cache q' !! id' = m_input_cache p !! id') /\ m_mine_stem_txes q' = m_mine_stem_txes p.
Proof.
  intros Hok Em. pose proof (ready_spec cs p m id blob) as Hs. destruct (is_transaction_ready_to_go cs p m id blob) as [[[ok m'] tx] q]. destruct Hs as (Hm & (c & -> & Hc) & _).
  case_bool_decide; [split_and!; [done|apply tables_rechecked_refl|done..]|]. cbn [set_caches tp_tables].
  assert (Ht : tables_rechecked (tp_tables p) (default (tp_tables p) (update_txpool_tx (tp_tables p) id m'))) by (destruct (update_txpool_tx (tp_tables p) id m') as [t'|] eqn:Eu; [by refine (tables_rechecked_update _ _ _ _ _ Em Hm Eu)|apply tables_rechecked_refl]).
  split_and!; [|done|done|done|done]. apply (pool_shape (set_caches p c (m_parsed_tx_cache p))); [by apply rechecked_shape|done].
Qed.

(** The sum of a measure over the entries, and over some of them. *)
Definition total (f : txpool_tx_meta_t -> Z) (t : pool_tables) : Z := map_fold (fun _ m acc => f m + acc) 0 (m_txpool_meta t).
Definition measured (f : txpool_tx_meta_t -> Z) (t : pool_tables) (id : list Z) : Z := match m_txpool_meta t !! id with Some m => f m | None => 0 end.

Lemma total_nonneg (f : txpool_tx_meta_t -> Z) (m : gmap (list Z) txpool_tx_meta_t) : map_Forall (fun _ x => 0 <= f x) m -> 0 <= map_fold (fun _ x acc => f x + acc) 0 m.
Proof. induction m as [|id x m Hn IH] using map_ind; intros HF; [by rewrite map_fold_empty|]. rewrite map_fold_insert_L by (done || (intros; lia)). apply map_Forall_insert in HF as [Hx HF]; [|done]. specialize (IH HF). lia. Qed.

Lemma total_delete (f : txpool_tx_meta_t -> Z) (m : gmap (list Z) txpool_tx_meta_t) id x : m !! id = Some x ->
  map_fold (fun _ x acc => f x + acc) 0 m = f x + map_fold (fun _ x acc => f x + acc) 0 (delete id m).
Proof. intros Ex. rewrite <- (insert_delete_id m id x Ex) at 1. rewrite map_fold_insert_L; [done|intros; lia|by rewrite lookup_delete_eq]. Qed.

Lemma subset_sum (f : txpool_tx_meta_t -> Z) l : forall m : gmap (list Z) txpool_tx_meta_t, map_Forall (fun _ x => 0 <= f x) m -> NoDup l -> (forall id, id ∈ l -> is_Some (m !! id)) ->
  zsum (map (fun id => match m !! id with Some x => f x | None => 0 end) l) <= map_fold (fun _ x acc => f x + acc) 0 m.
Proof.
  induction l as [|id l IH]; intros m HF Hn Hin; [by apply total_nonneg|]. apply NoDup_cons in Hn as [Hx Hn]. destruct (Hin id ltac:(left)) as [x Ex].
  rewrite (total_delete f m id x Ex). cbn [map zsum foldr]. rewrite Ex. assert (El : map (fun i => match m !! i with Some x => f x | None => 0 end) l = map (fun i => match delete id m !! i with Some x => f x | None => 0 end) l).
  { apply map_ext_in. intros i Hi. apply list_elem_of_In in Hi. rewrite lookup_delete_ne by (intros ->; done). done. }
  rewrite El. fold (zsum (map (fun i => match delete id m !! i with Some x => f x | None => 0 end) l)). specialize (IH (delete id m) ltac:(by apply map_Forall_delete) Hn).
  enough (forall i, i ∈ l -> is_Some (delete id m !! i)) by (specialize (IH ltac:(done)); lia). intros i Hi. rewrite lookup_delete_ne by (intros ->; done). apply Hin. by right.
Qed.

Lemma measured_sum (f : txpool_tx_meta_t -> Z) t l : map_Forall (fun _ x => 0 <= f x) (m_txpool_meta t) -> NoDup l -> (forall id, id ∈ l -> is_Some (m_txpool_meta t !! id)) -> 0 <= zsum (map (measured f t) l) <= total f t.
Proof.
  intros HF Hn Hin. split; [|by apply subset_sum]. clear Hn. induction l as [|id l IH]; [done|]. cbn [map zsum foldr]. fold (zsum (map (measured f t) l)). assert (0 <= measured f t id) by (unfold measured; destruct (m_txpool_meta t !! id) eqn:E; [exact (HF id _ E)|done]).
  specialize (IH ltac:(intros; apply Hin; by right)). lia.
Qed.

Lemma zsum_snoc l x : zsum (l ++ [x]) = zsum l + x.
Proof. induction l as [|y l IH]; cbn; [lia|]. unfold zsum in IH. lia. Qed.

Lemma measured_rechecked t t' id m : tables_rechecked t t' -> m_txpool_meta t' !! id = Some m -> exists m0, m_txpool_meta t !! id = Some m0 /\ rechecked m0 m.
Proof. intros [_ He] E. specialize (He id). rewrite E in He. destruct (m_txpool_meta t !! id) as [m0|]; [|done]. by exists m0. Qed.

(** The threshold is near the amount. *)
Lemma threshold_near amount : 0 <= amount <= 2 ^ 63 -> exists v, template_accept_threshold amount = Some v /\ 2 ^ 24 * Z.abs (v - amount) <= amount.
Proof.
  intros Ha. destruct (decide (amount = 0)) as [->|Hn]; [by exists 0|]. destruct (fp_round_int 24 amount) as (v & H1 & _ & H3 & _); [lia..|]. exists v. split; [|done]. apply H1. lia.
Qed.

Lemma have_images_spec s vin : Forall is_key_input vin -> have_key_images s vin = false -> forall k, k ∈ images_of vin -> k ∉ s.
Proof.
  induction vin as [|i vin IH]; intros Hk E k Hin; [by apply elem_of_nil in Hin|]. apply Forall_cons in Hk as [Hi Hk]. destruct i as [| | |a off k']; try done. cbn [have_key_images] in E. case_bool_decide as Hb; [done|].
  change (images_of (txin_to_key a off k' :: vin)) with (k' :: images_of vin) in Hin. apply elem_of_cons in Hin as [->|Hin]; [done|by apply IH].
Qed.
Lemma append_images_spec vin : forall s, key_inputs vin -> (forall k, k ∈ images_of vin -> k ∉ s) -> append_key_images s vin = list_to_set (images_of vin) ∪ s.
Proof.
  induction vin as [|i vin IH]; intros s [Hk Hn] Hs; [cbn; set_solver|]. apply Forall_cons in Hk as [Hi Hk]. destruct i as [| | |a off k]; try done. change (images_of (txin_to_key a off k :: vin)) with (k :: images_of vin) in *.
  apply NoDup_cons in Hn as [Hx Hn]. cbn [append_key_images]. rewrite bool_decide_false by (apply Hs; left). rewrite IH; [cbn [list_to_set]; set_solver|done|]. intros k' Hk'. assert (k' <> k) by (intros ->; done). assert (k' ∉ s) by (apply Hs; by right). set_solver.
Qed.

(** The images of a template whose transactions were all parsed. *)
Definition template_images (cs : chain_state) (t : pool_tables) (tm : template) : Prop :=
  NoDup (mjoin (map (fun id => images_of (ins id)) (tm_hashes tm))) /\ tm_images tm = list_to_set (mjoin (map (fun id => images_of (ins id)) (tm_hashes tm))) /\
  Forall (fun id => exists blob tx, m_txpool_blob t !! id = Some blob /\ parse_and_validate_tx_from_blob mul_inv_eight blob false = Some tx /\ inputs_verify cs tx) (tm_hashes tm).

Lemma template_images_snoc cs t tm id blob tx w fee best cb : template_images cs t tm -> key_inputs (ins id) -> have_key_images (tm_images tm) (ins id) = false ->
  m_txpool_blob t !! id = Some blob -> parse_and_validate_tx_from_blob mul_inv_eight blob false = Some tx -> inputs_verify cs tx ->
  template_images cs t (mk_template (tm_hashes tm ++ [id]) w fee best cb (append_key_images (tm_images tm) (ins id))).
Proof.
  intros (Hn & Hi & HF) [Hk Hkn] Hh Eb Et Hv. pose proof (have_images_spec _ _ Hk Hh) as Hs. unfold template_images. cbn [tm_hashes tm_images]. rewrite map_app, join_app. cbn [map mjoin list_join]. rewrite app_nil_r. split_and!.
  - apply NoDup_app. split_and!; [done| |done]. intros k H1 H2. specialize (Hs k H2). rewrite Hi in Hs. set_solver.
  - rewrite append_images_spec by done. rewrite Hi, list_to_set_app_L. set_solver.
  - apply Forall_app. split; [done|]. constructor; [|done]. by exists blob, tx.
Qed.

(** One entry is taken into the template or not. *)
Lemma template_entry_ok cs id m coinbase tm p : pool_ok p -> m_txpool_meta (tp_tables p) !! id = Some m -> exists tm' q, template_entry cs id m coinbase tm p = Some (tm', q) /\
  pool_ok q /\ tables_rechecked (tp_tables p) (tp_tables q) /\ tp_lists q = tp_lists p /\ (forall id', id' <> id -> m_input_cache q !! id' = m_input_cache p !! id') /\ m_mine_stem_txes q = m_mine_stem_txes p /\
  (tm' = mk_template (tm_hashes tm) (tm_weight tm) (tm_fee tm) (tm_best tm) coinbase (tm_images tm) \/
   tm_hashes tm' = tm_hashes tm ++ [id] /\ tm_weight tm' = tm_weight tm ⊞ meta_weight m /\ tm_fee tm' = tm_fee tm ⊞ meta_fee m /\ tm_best tm' = coinbase /\
   (m_input_cache p !! id = None -> template_images cs (tp_tables p) tm -> template_images cs (tp_tables p) tm')).
Proof.
  intros Hok Em. destruct (entry_read p id m Hok Em) as (b & pre & Eb & _ & Epre & Ev). unfold template_entry. rewrite Eb. cbn [mbind option_bind].
  pose proof (ready_spec cs p m id b) as Hs. pose proof (ready_ok cs p m id b Hok Em) as Hr. destruct (is_transaction_ready_to_go cs p m id b) as [[[ok m'] tx] q]. cbv zeta in Hr |- *.
  set (q' := if bool_decide (m' = m) then q else _) in *. clearbody q'. destruct Hr as (G1 & G2 & G3 & G4 & G5). destruct Hs as ((Rw & Rf & _) & _ & Hs).
  destruct (negb ok || have_key_images _ _) eqn:Ego; cbn [tm_hashes tm_weight tm_fee tm_best tm_images] in *; eexists _, q'; (split; [done|]); (split_and!; [done..|]); [by left|right].
  cbn [tm_hashes tm_weight tm_fee tm_best tm_images]. rewrite Rw, Rf. split_and!; [done..|]. intros En Him. apply orb_false_iff in Ego as [Eok Eh]. apply negb_false_iff in Eok. destruct (Hs Eok En) as (tx' & -> & Et & Hv).
  assert (El : tx_vin tx' = ins id). { rewrite <- Ev. f_equal. refine (load_pool_tx_vin b false (mk_pool_tx tx' (loaded_base_size b) None) pre _ Epre). unfold load_pool_tx. by rewrite Et. }
  rewrite El in *. eapply template_images_snoc; try done. destruct Hok as (Hc & _). apply (ok_ins _ _ _ Hc). by eexists.
Qed.

(** The entries that may be mined. *)
Definition minable (include_sensitive mine_stem : bool) (m : txpool_tx_meta_t) : Prop :=
  meta_pruned m = false /\ (meta_matches m (if include_sensitive then legacy else broadcasted) = true \/ mine_stem = true /\ get_relay_method m = relay_stem).

(** What is known of the template while it is filled, from the tables at the start. *)
Record template_ok (t : pool_tables) (include_sensitive mine_stem : bool) (median coins version limit : Z) (tm : template) : Prop := mk_template_ok {
  tm_nodup : NoDup (tm_hashes tm);
  tm_minable : forall id, id ∈ tm_hashes tm -> exists m, m_txpool_meta t !! id = Some m /\ minable include_sensitive mine_stem m;
  tm_weights : tm_weight tm = zsum (map (measured meta_weight t) (tm_hashes tm));
  tm_limit : tm_weight tm <= Z.max 0 limit;
  tm_fees : tm_fee tm = zsum (map (measured meta_fee t) (tm_hashes tm));
  tm_reward : 5 <= version -> exists reward, get_block_reward median (tm_weight tm) coins version = reward_ok reward /\ tm_best tm = reward + tm_fee tm;
}.

(** Fees and median for which the sums are exact. *)
Record template_bounds (t : pool_tables) (median coins version : Z) : Prop := mk_template_bounds {
  tb_coins : is_u64 coins;
  tb_median : effective_median median version < 2 ^ 32;
  tb_fees : map_Forall (fun _ m => 0 <= meta_fee m) (m_txpool_meta t);
  tb_total : total meta_fee t + 2 ^ 45 <= 2 ^ 63;
}.

Section filling.
Context (cs : chain_state) (t : pool_tables) (include_sensitive mine_stem : bool) (median coins version limit : Z).
Context (s : gmap (list Z) (gset (list Z))) (w : Z) (Hcore : core_ok t s w) (Hbounds : template_bounds t median coins version).

Lemma template_sums tm l : template_ok t include_sensitive mine_stem median coins version limit tm -> NoDup (tm_hashes tm ++ l) -> (forall id, id ∈ l -> is_Some (m_txpool_meta t !! id)) ->
  0 <= zsum (map (measured meta_weight t) (tm_hashes tm ++ l)) < 2 ^ 64 /\ 0 <= zsum (map (measured meta_fee t) (tm_hashes tm ++ l)) /\ zsum (map (measured meta_fee t) (tm_hashes tm ++ l)) + 2 ^ 45 <= 2 ^ 63.
Proof.
  intros Htm Hn Hl. assert (Hd : forall id, id ∈ tm_hashes tm ++ l -> is_Some (m_txpool_meta t !! id)) by (intros id [Hin|Hin]%elem_of_app; [destruct (tm_minable _ _ _ _ _ _ _ _ Htm id Hin) as (m & Em & _); by eexists|by apply Hl]).
  destruct (measured_sum meta_weight t _ (map_Forall_impl _ _ _ (ok_weights _ _ _ Hcore) (fun _ _ Hm => proj2 Hm)) Hn Hd) as [W1 W2]. destruct (measured_sum meta_fee t _ (tb_fees _ _ _ _ Hbounds) Hn Hd) as [F1 F2].
  pose proof (ok_bound _ _ _ Hcore) as Hb. change (pool_weight t) with (total meta_weight t) in Hb. pose proof (tb_total _ _ _ _ Hbounds). lia.
Qed.

(** The tests on weight and reward. *)
Lemma template_weigh_ok tm id m m0 : template_ok t include_sensitive mine_stem median coins version limit tm -> NoDup (tm_hashes tm ++ [id]) -> m_txpool_meta t !! id = Some m0 -> rechecked m0 m -> minable include_sensitive mine_stem m0 ->
  exists r, template_weigh median coins version limit m tm = Some r /\
    match r with
    | inl (Some coinbase) => forall tm', tm_hashes tm' = tm_hashes tm ++ [id] -> tm_weight tm' = tm_weight tm ⊞ meta_weight m -> tm_fee tm' = tm_fee tm ⊞ meta_fee m -> tm_best tm' = coinbase ->
        template_ok t include_sensitive mine_stem median coins version limit tm' /\ (5 <= version -> 2 ^ 24 * (tm_best tm - coinbase) <= tm_best tm)
    | _ => True
    end.
Proof.
  intros Htm Hn Em Hrc Hmin. destruct Hrc as (Rw & Rf & _). assert (Hone : forall id', id' ∈ [id] -> is_Some (m_txpool_meta t !! id')) by (intros ? ->%list_elem_of_singleton; by eexists).
  destruct (template_sums tm [id] Htm Hn Hone) as (Hw & Hf1 & Hf2). destruct (template_sums tm [] Htm ltac:(rewrite app_nil_r; by destruct Htm) ltac:(set_solver)) as (Hw' & Hf1' & Hf2'). rewrite app_nil_r in Hw', Hf1', Hf2'.
  rewrite map_app in Hw, Hf1, Hf2. cbn [map] in Hw, Hf1, Hf2. rewrite zsum_snoc in Hw, Hf1, Hf2. assert (Mw : measured meta_weight t id = meta_weight m) by (unfold measured; by rewrite Em, Rw). assert (Mf : measured meta_fee t id = meta_fee m) by (unfold measured; by rewrite Em, Rf). rewrite Mw in Hw. rewrite Mf in Hf1, Hf2.
  rewrite <- (tm_weights _ _ _ _ _ _ _ _ Htm) in Hw, Hw'. rewrite <- (tm_fees _ _ _ _ _ _ _ _ Htm) in Hf1, Hf2, Hf1', Hf2'.
  assert (Ew : tm_weight tm ⊞ meta_weight m = tm_weight tm + meta_weight m) by (apply wrap_small; done). assert (Ef : tm_fee tm ⊞ meta_fee m = tm_fee tm + meta_fee m) by (apply wrap_small; unfold is_uint; lia).
  unfold template_weigh. rewrite Ew, Ef. destruct (Z.ltb_spec limit (tm_weight tm + meta_weight m)) as [|Hlim]; [by eexists|].
  assert (Hnew : forall tm', tm_hashes tm' = tm_hashes tm ++ [id] -> tm_weight tm' = tm_weight tm + meta_weight m -> tm_fee tm' = tm_fee tm + meta_fee m ->
    (5 <= version -> exists reward, get_block_reward median (tm_weight tm') coins version = reward_ok reward /\ tm_best tm' = reward + tm_fee tm') -> template_ok t include_sensitive mine_stem median coins version limit tm').
  { intros tm' H1 H2 H3 H4. constructor; [by rewrite H1| | |rewrite H2; lia| |done].
    - intros id' Hin. rewrite H1 in Hin. apply elem_of_app in Hin as [Hin| ->%list_elem_of_singleton]; [by apply (tm_minable _ _ _ _ _ _ _ _ Htm)|by exists m0].
    - rewrite H1, H2, map_app. cbn [map]. rewrite zsum_snoc, Mw. by rewrite (tm_weights _ _ _ _ _ _ _ _ Htm).
    - rewrite H1, H3, map_app. cbn [map]. rewrite zsum_snoc, Mf. by rewrite (tm_fees _ _ _ _ _ _ _ _ Htm). }
  destruct (Z.leb_spec 5 version) as [Hv|Hv].
  2: { destruct (median <? tm_weight tm); eexists; (split; [done|]); [done|]. intros tm' H1 H2 H3 _. split; [apply Hnew; [done..|lia]|lia]. }
  destruct (tm_reward _ _ _ _ _ _ _ _ Htm Hv) as (r0 & Er0 & Eb). pose proof (block_reward_bounds _ _ _ _ _ (tb_coins _ _ _ _ Hbounds) (tb_median _ _ _ _ Hbounds) Er0) as Hr0.
  destruct (get_block_reward median (tm_weight tm + meta_weight m) coins version) as [r| |] eqn:Er; [|by eexists..].
  pose proof (block_reward_bounds _ _ _ _ _ (tb_coins _ _ _ _ Hbounds) (tb_median _ _ _ _ Hbounds) Er) as Hr.
  destruct (threshold_near (tm_best tm)) as (v & -> & Hv'); [lia|]. cbn [mbind option_bind]. assert (Ec : r ⊞ tm_fee tm ⊞ meta_fee m = r + (tm_fee tm + meta_fee m)) by (rewrite (wrap_small 64 (r + _)) by (unfold is_uint; lia); rewrite wrap_small by (unfold is_uint; lia); lia).
  rewrite Ec. eexists. split; [done|]. destruct (Z.ltb_spec (r + (tm_fee tm + meta_fee m)) v); [done|]. intros tm' H1 H2 H3 H4. split; [|intros _; lia]. apply Hnew; [done..|]. intros _. exists r. split; [by rewrite H2|]. by rewrite H3, H4.
Qed.

Lemma template_loop_ok l : forall tm p, pool_ok p -> tables_rechecked t (tp_tables p) -> m_mine_stem_txes p = mine_stem -> NoDup (tm_hashes tm ++ map se_txid l) ->
  template_ok t include_sensitive mine_stem median coins version limit tm ->
  exists tm' q, template_loop cs median coins version limit include_sensitive l tm p = Some (tm', q) /\ pool_ok q /\ tables_rechecked t (tp_tables q) /\ tp_lists q = tp_lists p /\
    template_ok t include_sensitive mine_stem median coins version limit tm' /\
    ((forall id, id ∈ map se_txid l -> m_input_cache p !! id = None) -> template_images cs t tm -> template_images cs t tm').
Proof.
  induction l as [|e l IH]; intros tm p Hok Hrc Hms Hn Htm; [by exists tm, p|]. cbn [template_loop map] in *.
  assert (Hskip : NoDup (tm_hashes tm ++ map se_txid l)) by (apply NoDup_app in Hn as (? & Hx & [_ ?]%NoDup_cons); apply NoDup_app; split_and!; [done| |done]; intros x Hxin Hin; apply (Hx x Hxin); by right).
  assert (Hnext : exists tm' q, template_loop cs median coins version limit include_sensitive l tm p = Some (tm', q) /\ pool_ok q /\ tables_rechecked t (tp_tables q) /\ tp_lists q = tp_lists p /\
    template_ok t include_sensitive mine_stem median coins version limit tm' /\ ((forall id, id ∈ se_txid e :: map se_txid l -> m_input_cache p !! id = None) -> template_images cs t tm -> template_images cs t tm')).
  { destruct (IH tm p) as (tm' & q & E & G1 & G2 & G3 & G4 & G5); try done. exists tm', q. split_and!; try done. intros Hc. apply G5. intros id Hid. apply Hc. by right. }
  unfold get_txpool_tx_meta. destruct (m_txpool_meta (tp_tables p) !! se_txid e) as [m|] eqn:Em; [|done]. destruct (_ && _) eqn:Ecat; [done|]. destruct (meta_pruned m) eqn:Epr; [done|].
  destruct (measured_rechecked _ _ _ _ Hrc Em) as (m0 & Em0 & Hm0).
  assert (Hmin : minable include_sensitive mine_stem m0).
  { destruct Hm0 as (_ & _ & Rp & _ & Rg). split; [congruence|]. unfold meta_matches in *. rewrite <- Rg. apply andb_false_iff in Ecat as [Ec|Ec]; apply negb_false_iff in Ec; [by left|right]. apply andb_true_iff in Ec as [? Eg]. apply bool_decide_eq_true in Eg. by rewrite <- Hms. }
  assert (Hn1 : NoDup (tm_hashes tm ++ [se_txid e])) by (rewrite cons_middle, app_assoc in Hn; by apply NoDup_app in Hn as (? & _)).
  destruct (template_weigh_ok tm (se_txid e) m m0 Htm Hn1 Em0 Hm0 Hmin) as (r & -> & Hr). cbn [mbind option_bind]. destruct r as [[coinbase|]|]; [|done|by exists tm, p].
  destruct (template_entry_ok cs (se_txid e) m coinbase tm p Hok Em) as (tm1 & p1 & -> & K1 & K2 & K3 & K4 & K5 & K6). cbn [mbind option_bind].
  pose proof (tables_rechecked_trans _ _ _ Hrc K2) as Hrc1. assert (Eblob : m_txpool_blob (tp_tables p) = m_txpool_blob t) by (by destruct Hrc).
  assert (Hx : forall id, id ∈ map se_txid l -> id <> se_txid e) by (intros id Hid ->; apply NoDup_app in Hn as (_ & _ & [? _]%NoDup_cons); done).
  assert (Htm1 : template_ok t include_sensitive mine_stem median coins version limit tm1 /\ NoDup (tm_hashes tm1 ++ map se_txid l) /\ (m_input_cache p !! se_txid e = None -> template_images cs t tm -> template_images cs t tm1)).
  { destruct K6 as [->|(H1 & H2 & H3 & H4 & H5)]; [split_and!; [by destruct Htm|done|by intros _]|]. split_and!; [by apply Hr|by rewrite H1, <- app_assoc|]. unfold template_images in *. by rewrite Eblob in H5. }
  destruct Htm1 as (Htm1 & Hn2 & Him). destruct (IH tm1 p1) as (tm' & q & E & G1 & G2 & G3 & G4 & G5); [done|done|congruence|done|done|]. exists tm', q. split_and!; [done|done|done|congruence|done|].
  intros Hc Hi. apply G5; [intros id Hid; rewrite K4 by (by apply Hx); apply Hc; by right|]. apply Him; [apply Hc; left|done].
Qed.
End filling.

Lemma template_loop_keeps cs median coins version limit sens l : forall tm p tm' q, pool_ok p -> template_loop cs median coins version limit sens l tm p = Some (tm', q) -> pool_ok q.
Proof.
  induction l as [|e l IH]; intros tm p tm' q Hok E; cbn [template_loop] in E; [by simplify_eq|]. unfold get_txpool_tx_meta in E. destruct (m_txpool_meta (tp_tables p) !! se_txid e) as [m|] eqn:Em; [|by eapply IH].
  destruct (_ && _); [by eapply IH|]. destruct (meta_pruned m); [by eapply IH|]. destruct (template_weigh _ _ _ _ _ _) as [[[cb|]|]|]; cbn [mbind option_bind] in E; [|by eapply IH|by simplify_eq|done].
  destruct (template_entry_ok cs (se_txid e) m cb tm p Hok Em) as (tm1 & p1 & E1 & K1 & _). rewrite E1 in E. cbn [mbind option_bind] in E. by eapply IH.
Qed.

Lemma template_keeps cs p median coins version sens r tm q : pool_ok p -> fill_block_template cs p median coins version sens = Some (r, tm, q) -> pool_ok q.
Proof.
  intros Hok. unfold fill_block_template. destruct (get_block_reward _ _ _ _) as [best| |]; [|by intros [= <- <- <-]..]. destruct (template_loop _ _ _ _ _ _ _ _ _) as [[tm' q']|] eqn:E; [|done]. cbn. intros [= <- <- <-]. by eapply template_loop_keeps.
Qed.

(** *** Validation and start keep it *)

Lemma removed_weight t id m : m_txpool_meta t !! id = Some m -> pool_weight (remove_txpool_tx t id) = pool_weight t - meta_weight m.
Proof. intros E. unfold pool_weight. rewrite (weight_delete _ _ _ E). unfold remove_txpool_tx. cbn [m_txpool_meta]. lia. Qed.

Lemma validate_one_ok cs b delay version p added e : pool_ok p -> meta_weight e.2 = wt e.1 -> flags_ok e.2 -> let q := (validate_one cs b delay version (p, added) e).1 in
  pool_ok q /\ pool_weight (tp_tables q) <= pool_weight (tp_tables p).
Proof.
  intros Hok He Hf. unfold validate_one. destruct (take_tx cs p e.1) as [[tk p1]|] eqn:Et; [|by split]. destruct (take_ok _ _ _ _ _ Hok Et) as (m & Em & Hok1 & Hv & Hb & Hw & Ht & Hpc).
  pose proof Hok as (Hc & _ & _). destruct (ok_blob _ _ _ Hc _ _ Hb) as (Hby & Hpre). destruct (ok_weights _ _ _ Hc _ _ Em) as [Hmw Hm0].
  assert (Hwf : entry_wf (tk_tx tk) e.1 (tk_blob tk) (meta_weight e.2)) by (constructor; [done|done|done|apply (ok_ins _ _ _ Hc); by exists m|rewrite He, <- Hmw; by split]).
  pose proof (removed_weight _ _ _ Em) as Ew. rewrite <- Ht in Ew. assert (Hsum : pool_weight (tp_tables p1) + meta_weight e.2 = pool_weight (tp_tables p)) by lia. pose proof (ok_bound _ _ _ Hc) as Hbd.
  pose proof (add_tx_ok cs b delay p1 (tk_tx tk) e.1 (tk_blob tk) (meta_weight e.2) [] (get_relay_method e.2) (tk_relayed tk) version 0 (tk_id tk) Hok1 Hwf ltac:(lia)) as Ha.
  destruct (add_tx _ _ _ _ _ _ _ _ _ _ _ _ _ _) as [ok tvc rl q]. cbn [ar_ok ar_pool] in *. destruct Ha as (A1 & A2 & _ & A4). destruct ok; cbn [negb fst]; [|split; [done|lia]].
  set (meta := match get_txpool_tx_meta (tp_tables q) e.1 with Some m => _ | None => e.2 end). destruct (update_txpool_tx (tp_tables q) e.1 meta) as [t'|] eqn:Eu; cbn [fst]; [|split; [done|lia]].
  unfold update_txpool_tx in Eu. destruct (m_txpool_meta (tp_tables q) !! e.1) as [mq|] eqn:Eq; [|done].
  assert (Hse : same_entry mq meta).
  { assert (Hk : kept_by_block mq = kept_by_block e.2) by (rewrite (A4 ltac:(rewrite Ht; apply lookup_delete_eq) mq eq_refl); by rewrite Hf).
    assert (Hmm : meta_weight meta = meta_weight e.2 /\ kept_by_block meta = kept_by_block e.2 /\ flags_ok meta) by (unfold meta, get_txpool_tx_meta; rewrite Eq; by destruct (prunable_hash_valid mq)). destruct Hmm as (M1 & M2 & M3).
    destruct A1 as (Ac & _). destruct (ok_weights _ _ _ Ac _ _ Eq). split_and!; [congruence|congruence|done]. }
  assert (Hs : same_shape (tp_tables q) t') by (simplify_eq; by apply (shape_update _ _ mq)). split; [by apply pool_shape|]. cbn [set_tables tp_tables]. rewrite (shape_weight _ _ Hs). lia.
Qed.

Lemma validate_ok cs delay version p : pool_ok p -> pool_ok (validate cs delay version p).2.
Proof.
  intros Hok. unfold validate. set (txes := List.filter _ _). set (p0 := set_lists p _). assert (Hok0 : pool_ok p0) by done.
  assert (Htx : Forall (fun e => meta_weight e.2 = wt e.1 /\ flags_ok e.2) txes).
  { apply Forall_forall. intros e He. apply list_elem_of_In, filter_In in He as [He _]. apply list_elem_of_In, entries_spec in He. destruct Hok as (Hc & _). split; [by destruct (ok_weights _ _ _ Hc _ _ He)|exact (ok_flags _ _ _ Hc _ _ He)]. }
  enough (Hf : forall acc, pool_ok acc.1 -> pool_ok (fold_left (validate_one cs true delay version) txes acc).1).
  { specialize (Hf (p0, 0) Hok0). destruct (fold_left _ txes _) as [q a]. cbn [snd]. by destruct (0 <? _). }
  clearbody txes p0. clear -Htx. induction Htx as [|e txes [Hw Hf] _ IH]; intros acc Hacc; [done|]. cbn [fold_left]. apply IH. destruct acc as [q a]. by destruct (validate_one_ok cs true delay version q a e Hacc Hw Hf).
Qed.

(** The entries read at the start so far. *)
Record started (t : pool_tables) (p : tx_pool) (seen : list (list Z)) : Prop := mk_started {
  st_tables : tp_tables p = t;
  st_nodup : NoDup seen;
  st_in : forall id, id ∈ seen -> is_Some (m_txpool_meta t !! id);
  st_images : forall k id, id ∈ image_set (m_spent_key_images p) k <-> id ∈ seen /\ k ∈ images_of (ins id);
  st_weight : m_txpool_weight p = zsum (map (measured meta_weight t) seen);
  st_lists : NoDup (sorted_ids (tp_lists p)) /\ forall id, id ∈ sorted_ids (tp_lists p) <-> id ∈ seen;
}.

Lemma init_one_ok now kept t s w p seen e : core_ok t s w -> started t p seen -> m_txpool_meta t !! e.1 = Some e.2 -> ~ e.1 ∈ seen -> kept_by_block e.2 = kept ->
  (kept = false -> forall id m, id ∈ seen -> m_txpool_meta t !! id = Some m -> kept_by_block m = false) ->
  exists q, init_one now kept (Some (p, [])) e = Some (q, []) /\ started t q (seen ++ [e.1]) /\ m_parsed_tx_cache q = m_parsed_tx_cache p.
Proof.
  intros Hc [S1 S2 S3 S4 S5 S6] He Hnin Hk Hpass. unfold init_one. cbn [mbind option_bind]. rewrite Hk, Bool.eqb_reflx. cbn [negb].
  assert (is_Some (m_txpool_blob t !! e.1)) as [bd Eb] by (apply (ok_dom _ _ _ Hc); by rewrite He). destruct (ok_blob _ _ _ Hc _ _ Eb) as (_ & pre & Epre & Ev). rewrite S1, Eb. cbn [mbind option_bind]. rewrite Epre, Ev.
  assert (Hfree : Forall (image_free (tp_tables p) e.1 (get_relay_method e.2) (m_spent_key_images p)) (images_of (ins e.1))).
  { apply Forall_forall. intros k Hin. assert (Hx : e.1 ∉ image_set (m_spent_key_images p) k) by (rewrite S4; tauto). split; [|by left]. pose proof (ok_flags _ _ _ Hc _ _ He) as Hfl. destruct kept; [left; unfold flags_ok in Hfl; rewrite Hk in Hfl; by apply eq_sym, bool_decide_eq_true in Hfl|].
    right. left. apply set_eq. intros id. split; [|set_solver]. intros Hid. exfalso. apply S4 in Hid as [Hd Hki]. destruct (S3 id Hd) as [m Em].
    assert (id = e.1); [|congruence]. apply (ok_single _ _ _ Hc k id e.1 m e.2); [apply (ok_images _ _ _ Hc); by rewrite Em|apply (ok_images _ _ _ Hc); by rewrite He|done|done|by eapply Hpass|done]. }
  destruct (insert_images_spec _ _ _ _ _ (ok_ins _ _ _ Hc e.1 ltac:(by rewrite He)) Hfree) as (s' & Es & Hs). unfold insert_key_images. rewrite Es. cbn [negb]. eexists. split; [done|]. split; [|done].
  assert (Hn' : NoDup (seen ++ [e.1])) by (apply NoDup_app; split_and!; [done|set_solver|apply NoDup_singleton]). assert (Hin' : forall id, id ∈ seen ++ [e.1] -> is_Some (m_txpool_meta t !! id)) by (intros id [?| ->%list_elem_of_singleton]%elem_of_app; [by apply S3|by rewrite He]).
  assert (Hw : 0 <= zsum (map (measured meta_weight t) (seen ++ [e.1])) <= total meta_weight t) by (apply measured_sum; [exact (map_Forall_impl _ _ _ (ok_weights _ _ _ Hc) (fun _ _ Hm => proj2 Hm))|done|done]).
  pose proof (ok_bound _ _ _ Hc) as Hb. change (pool_weight t) with (total meta_weight t) in Hb. destruct S6 as [L1 L2].
  pose proof (lists_add_ids (tp_lists p) now e.1 (fee_rate (meta_fee e.2) (meta_weight e.2)) (receive_time e.2) (negb (meta_matches e.2 broadcasted)) L1) as [L3 L4]. constructor; [done|done|done| | |].
  - intros k id. cbn [set_weight set_lists bump set_images m_spent_key_images]. rewrite Hs, elem_of_app, list_elem_of_singleton. destruct (decide (k ∈ images_of (ins e.1))) as [Hki|Hki]; rewrite ?elem_of_union, ?elem_of_singleton, S4; [|naive_solver]. naive_solver.
  - cbn [set_weight m_txpool_weight set_lists bump set_images]. rewrite map_app in Hw |- *. cbn [map] in Hw |- *. rewrite zsum_snoc in Hw |- *. assert (Em : measured meta_weight t e.1 = meta_weight e.2) by (unfold measured; by rewrite He). rewrite Em in Hw |- *. rewrite S5. apply wrap_small. unfold is_uint. lia.
  - split; [exact L3|]. intros id. rewrite elem_of_app, list_elem_of_singleton, <- L2. cbn [tp_lists set_weight set_lists]. rewrite L4. tauto.
Qed.

Lemma init_pass now kept t s w l : core_ok t s w -> forall p seen, started t p seen -> NoDup l.*1 -> (forall e, e ∈ l -> m_txpool_meta t !! e.1 = Some e.2) ->
  (forall e, e ∈ l -> kept_by_block e.2 = kept -> ~ e.1 ∈ seen) -> (kept = false -> forall id m, id ∈ seen -> m_txpool_meta t !! id = Some m -> kept_by_block m = false) ->
  exists q, fold_left (init_one now kept) l (Some (p, [])) = Some (q, []) /\ started t q (seen ++ (List.filter (fun e => Bool.eqb kept (kept_by_block e.2)) l).*1) /\ m_parsed_tx_cache q = m_parsed_tx_cache p.
Proof.
  intros Hc. induction l as [|e l IH]; intros p seen Hst Hn Hl Hd Hk; [exists p; split_and!; [done|by rewrite app_nil_r|done]|]. apply NoDup_cons in Hn as [Hx Hn]. cbn [fold_left List.filter].
  destruct (Bool.eqb kept (kept_by_block e.2)) eqn:Ek.
  - apply Bool.eqb_prop in Ek. destruct (init_one_ok now kept t s w p seen e Hc Hst (Hl e ltac:(left)) (Hd e ltac:(left) ltac:(done)) ltac:(done) Hk) as (q & -> & Hq & Hpc).
    destruct (IH q (seen ++ [e.1]) Hq Hn) as (q' & E' & Hq' & Hpc').
    + intros x Hin. apply Hl. by right.
    + intros x Hin Hkx [Hdx|Heq%list_elem_of_singleton]%elem_of_app; [by apply (Hd x ltac:(by right))|]. apply Hx. rewrite <- Heq. by apply list_elem_of_fmap_2.
    + intros Hf id m [Hin| ->%list_elem_of_singleton]%elem_of_app Em; [by eapply Hk|]. rewrite (Hl e ltac:(left)) in Em. simplify_eq. congruence.
    + exists q'. split_and!; [done|by rewrite <- app_assoc in Hq'|congruence].
  - assert (Esk : init_one now kept (Some (p, [])) e = Some (p, [])) by (unfold init_one; cbn [mbind option_bind]; by rewrite Ek). rewrite Esk. apply IH; try done; intros x Hin; [apply Hl|apply Hd]; by right.
Qed.

Lemma complete_sum (f : txpool_tx_meta_t -> Z) l : forall m : gmap (list Z) txpool_tx_meta_t, NoDup l -> (forall id, id ∈ l <-> is_Some (m !! id)) ->
  zsum (map (fun id => match m !! id with Some x => f x | None => 0 end) l) = map_fold (fun _ x acc => f x + acc) 0 m.
Proof.
  induction l as [|id l IH]; intros m Hn Hin.
  - assert (m = ∅) as -> by (apply map_empty; intros i; apply eq_None_not_Some; rewrite <- Hin; apply not_elem_of_nil). by rewrite map_fold_empty.
  - apply NoDup_cons in Hn as [Hx Hn]. destruct (proj1 (Hin id) ltac:(left)) as [x Ex]. rewrite (total_delete f m id x Ex). cbn [map zsum foldr]. rewrite Ex. f_equal. fold (zsum (map (fun id => match m !! id with Some x => f x | None => 0 end) l)). rewrite <- IH; [|done|].
    + f_equal. apply map_ext_in. intros i Hi. apply list_elem_of_In in Hi. by rewrite lookup_delete_ne by (intros ->; done).
    + intros i. destruct (decide (id = i)) as [<-|Hi]; [rewrite lookup_delete_eq; split; [done|by intros []]|rewrite lookup_delete_ne, <- Hin, elem_of_cons by done]. split; [by right|intros [->|?]; done].
Qed.

(** A restart rebuilds the index, the lists and the weight from the tables. *)
Lemma init_ok now max stem p : pool_ok p -> exists q, init now max stem p = Some q /\ pool_ok q /\ tp_tables q = tp_tables p.
Proof.
  intros (Hc & Hl & Hp). unfold init. set (p0 := mk_pool _ _ _ _ _ _ _ _ _ _ _). cbn [tp_tables p0]. change (tp_tables p0) with (tp_tables p). set (es := for_all_txpool_txes (tp_tables p) all).
  assert (Hes : forall e, e ∈ es -> m_txpool_meta (tp_tables p) !! e.1 = Some e.2) by (intros e; apply entries_spec). assert (Hnd : NoDup es.*1) by apply entries_nodup.
  assert (Hall : forall id m, m_txpool_meta (tp_tables p) !! id = Some m -> (id, m) ∈ es).
  { intros id m Em. unfold es, for_all_txpool_txes. apply list_elem_of_In, filter_In. split; [|done]. apply list_elem_of_In. rewrite merge_sort_Permutation. by apply elem_of_map_to_list. }
  assert (H0 : started (tp_tables p) p0 []) by (constructor; [done|constructor|intros ? []%elem_of_nil|intros k id; cbn; unfold image_set; rewrite lookup_empty; cbn; set_solver|done|split; [constructor|done]]).
  destruct (init_pass now false (tp_tables p) _ _ es Hc p0 [] H0 Hnd Hes) as (p1 & -> & H1 & Hp1); [intros ? _ _ []%elem_of_nil|intros _ ? ? []%elem_of_nil|].
  destruct (init_pass now true (tp_tables p) _ _ es Hc p1 _ H1 Hnd Hes) as (q & -> & H2 & Hp2); [|done|].
  { intros e He Hk Hin. apply list_elem_of_fmap in Hin as (e' & E & Hin). apply list_elem_of_In, filter_In in Hin as [Hin Hk']. apply list_elem_of_In, Hes in Hin. rewrite <- E, (Hes e He) in Hin. injection Hin as Hin. by rewrite <- Hin, Hk in Hk'. }
  cbn [mbind option_bind fold_left]. eexists. split; [done|]. destruct H2 as [S1 S2 S3 S4 S5 S6]. cbn [tp_tables set_tables]. set (seen := ([] ++ (List.filter (fun e => Bool.eqb false (kept_by_block e.2)) es).*1) ++ (List.filter (fun e => Bool.eqb true (kept_by_block e.2)) es).*1) in *.
  assert (Hseen : forall id, id ∈ seen <-> is_Some (m_txpool_meta (tp_tables p) !! id)).
  { intros id. split; [apply S3|]. intros [m Em]. specialize (Hall id m Em). unfold seen. rewrite app_nil_l, elem_of_app, !list_elem_of_fmap. destruct (kept_by_block m) eqn:Ek; [right|left]; exists (id, m); (split; [done|]); apply list_elem_of_In, filter_In; (split; [by apply list_elem_of_In|by cbn; rewrite Ek]). }
  split; [|done]. unfold pool_ok, set_tables. cbn [tp_tables m_spent_key_images m_txpool_weight tp_lists m_parsed_tx_cache]. rewrite S1. split_and!.
  - destruct Hc as [C1 C2 C3 C4 C5 C6 C7 C8 C9]. assert (Him : forall k id, id ∈ image_set (m_spent_key_images q) k <-> is_Some (m_txpool_meta (tp_tables p) !! id) /\ k ∈ images_of (ins id)) by (intros k id; by rewrite S4, Hseen).
    constructor; try done; [rewrite S5; by apply complete_sum|]. intros k id id' m m' Hk Hk'. apply Him in Hk. apply Him in Hk'. apply (C9 k); by apply C4.
  - destruct S6 as [L1 L2]. split; [done|]. intros id. by rewrite L2, Hseen.
  - rewrite Hp2, Hp1. exact Hp.
Qed.

(** *** Reachable pools *)

(** What the node does with its pool. *)
Inductive pool_step : tx_pool -> tx_pool -> Prop :=
| step_add cs b delay p tx id blob w tvc relay relayed version nic vid : entry_wf tx id blob w -> pool_weight (tp_tables p) + w < 2 ^ 64 ->
    pool_step p (ar_pool (add_tx cs b delay p tx id blob w tvc relay relayed version nic vid))
| step_take cs p id tk q : take_tx cs p id = Some (tk, q) -> pool_step p q
| step_inc p : pool_step p (on_blockchain_inc p)
| step_dec p : pool_step p (on_blockchain_dec p)
| step_prune cs b bytes p : pool_step p (prune cs b bytes p)
| step_stuck now p : pool_step p (remove_stuck_transactions now p)
| step_relayable now p txs q : get_relayable_transactions now p = Some (txs, q) -> pool_step p q
| step_relayed now hashes method p : pool_step p (set_relayed now hashes method p).2
| step_template cs p median coins version sens r tm q : fill_block_template cs p median coins version sens = Some (r, tm, q) -> pool_step p q
| step_validate cs delay version p : pool_step p (validate cs delay version p).2
| step_init now max stem p q : init now max stem p = Some q -> pool_step p q.

Lemma pool_step_ok p q : pool_ok p -> pool_step p q -> pool_ok q.
Proof.
  intros Hok Hs. destruct Hs as [cs b delay p tx id blob w tvc relay relayed version nic vid Hwf Hw|cs p id tk q E|p|p|cs b bytes p|now p|now p txs q E|now hashes method p|cs p median coins version sens r tm q E|cs delay version p|now max stem p q E].
  - by destruct (add_tx_ok cs b delay p tx id blob w tvc relay relayed version nic vid Hok Hwf Hw).
  - by destruct (take_ok _ _ _ _ _ Hok E) as (m & _ & ? & _).
  - destruct Hok as (Hc & Hl & _). split_and!; [done|done|]. intros id tx. cbn. by rewrite lookup_empty.
  - destruct Hok as (Hc & Hl & _). split_and!; [done|done|]. intros id tx. cbn. by rewrite lookup_empty.
  - by destruct (prune_ok cs b bytes p Hok).
  - by destruct (remove_stuck_ok now p Hok).
  - by destruct (relayable_ok now p txs q Hok E).
  - by destruct (set_relayed_ok now hashes method p Hok).
  - by eapply template_keeps.
  - by apply validate_ok.
  - destruct (init_ok now max stem p Hok) as (q' & E' & ? & _). rewrite E' in E. by simplify_eq.
Qed.

Definition empty_pool (max : Z) (stem : bool) : tx_pool := mk_pool (mk_pool_tables ∅ ∅) ∅ (mk_lists [] ∅ 0 [] 0) ∅ max 0 stem ∅ ∅ 0 0.

Lemma empty_pool_ok max stem : pool_ok (empty_pool max stem).
Proof.
  split_and!; [|split; [apply NoDup_nil; done|]|intros id tx E; cbn in E; by rewrite lookup_empty in E].
  - constructor; try done; try (intros id; cbn; rewrite !lookup_empty; done).
    intros k id. cbn. unfold image_set. rewrite !lookup_empty. cbn. split; [set_solver|by intros [[] _]].
  - intros id. cbn. rewrite lookup_empty. split; [by intros ?%elem_of_nil|by intros []].
Qed.

Lemma pool_reachable_ok max stem p : rtc pool_step (empty_pool max stem) p -> pool_ok p.
Proof. intros Hr. pose proof (empty_pool_ok max stem) as H0. induction Hr as [|p q r Hs _ IH]; [done|]. apply IH. by eapply pool_step_ok. Qed.
End invariant.
