(* ===== verification/PoolTheorems.v ===== *)
(** * PoolTheorems: the transaction pool

    The theorems about the pool of TxPool.v and their examples, from the lemmas of
    PoolInvariant.v. *)
From stdpp Require Import gmap.
From S2P Require Import Prelude Varint Archive Config Reward RollingMedian BlockWeight FeesTime Keccak TxFormat RctFormat Transaction TxParse TreeHash TxHash TxWeight Money TxVerify ChainDb TxInputs Floats TxPool PoolInvariant.
#[local] Open Scope mach_scope.
#[local] Arguments put : simpl never.
#[local] Arguments get : simpl never.

(** ** Theorems *)

(** C4: Whatever the node does with its pool from an empty one (adding, taking, pruning,
    expiring and relaying transactions, filling templates, validating after a fork,
    restarting), the index of key images holds exactly the images of the
    transactions in the pool, the weight is the sum of their weights, the list by
    fee holds each of them once, and of the transactions that spend a key image at
    most one did not come in a block. *)
Theorem pool_invariant `{Crypto} ins wt max stem p : rtc (pool_step ins wt) (empty_pool max stem) p ->
  (forall k id, id ∈ image_set (m_spent_key_images p) k <-> is_Some (m_txpool_meta (tp_tables p) !! id) /\ k ∈ images_of (ins id)) /\
  m_txpool_weight p = pool_weight (tp_tables p) /\
  NoDup (sorted_ids (tp_lists p)) /\ (forall id, id ∈ sorted_ids (tp_lists p) <-> is_Some (m_txpool_meta (tp_tables p) !! id)) /\
  (forall id, is_Some (m_txpool_blob (tp_tables p) !! id) <-> is_Some (m_txpool_meta (tp_tables p) !! id)) /\
  forall k id id' m m', m_txpool_meta (tp_tables p) !! id = Some m -> m_txpool_meta (tp_tables p) !! id' = Some m' -> k ∈ images_of (ins id) -> k ∈ images_of (ins id') ->
    kept_by_block m = false -> kept_by_block m' = false -> id = id'.
Proof.
  intros Hr. destruct (pool_reachable_ok ins wt max stem p Hr) as (Hc & [Hn Hl] & _). split_and!; [apply (ok_images _ _ _ _ _ Hc)|apply (ok_weight _ _ _ _ _ Hc)|done|done|apply (ok_dom _ _ _ _ _ Hc)|].
  intros k id id' m m' Em Em' Hk Hk'. apply (ok_single _ _ _ _ _ Hc k id id' m m'); [apply (ok_images _ _ _ _ _ Hc); by rewrite Em|apply (ok_images _ _ _ _ _ Hc); by rewrite Em'|done|done].
Qed.

(** C17: A restart is transparent: from the tables of a pool in use, [init] succeeds and
    rebuilds the same index of key images, the same weight and a list by fee of the
    same transactions. *)
Theorem pool_restart `{Crypto} ins wt max stem p now max' stem' : rtc (pool_step ins wt) (empty_pool max stem) p ->
  exists q, init now max' stem' p = Some q /\ tp_tables q = tp_tables p /\ (forall k, image_set (m_spent_key_images q) k = image_set (m_spent_key_images p) k) /\
    m_txpool_weight q = m_txpool_weight p /\ sorted_ids (tp_lists q) ≡ₚ sorted_ids (tp_lists p).
Proof.
  intros Hr. pose proof (pool_reachable_ok ins wt max stem p Hr) as Hok. destruct (init_ok ins wt now max' stem' p Hok) as (q & E & (Hc' & [Hn' Hl'] & _) & Et). destruct Hok as (Hc & [Hn Hl] & _). exists q. split_and!; [done|done| | |].
  - intros k. apply set_eq. intros id. by rewrite (ok_images _ _ _ _ _ Hc'), (ok_images _ _ _ _ _ Hc), Et.
  - by rewrite (ok_weight _ _ _ _ _ Hc'), (ok_weight _ _ _ _ _ Hc), Et.
  - apply NoDup_Permutation; [done|done|]. intros id. by rewrite Hl', Hl, Et.
Qed.


(** C36: A transaction does not stay forever: looking for stuck transactions removes
    exactly those older than their time to live, remembers their hashes, and none of
    them can come back by relaying. *)
Theorem stuck_removed `{Crypto} ins wt max stem p now : rtc (pool_step ins wt) (empty_pool max stem) p ->
  let q := remove_stuck_transactions now p in
  (forall id m, m_txpool_meta (tp_tables q) !! id = Some m <-> m_txpool_meta (tp_tables p) !! id = Some m /\ is_stuck now m = false) /\
  forall id m, m_txpool_meta (tp_tables p) !! id = Some m -> is_stuck now m = true ->
    id ∈ m_timed_out_transactions q /\
    forall cs b delay tx blob w tvc relay relayed version nic vid, relay <> relay_block -> ar_ok (add_tx cs b delay q tx id blob w tvc relay relayed version nic vid) = false.
Proof.
  intros Hr q. pose proof (pool_reachable_ok ins wt max stem p Hr) as Hok. destruct (remove_stuck_ok ins wt now p Hok) as (_ & H1 & H2). split; [done|]. intros id m Em Hs.
  assert (Hin : id ∈ m_timed_out_transactions q) by (apply H2; right; by exists m). split; [done|]. intros. unfold add_tx. rewrite (bool_decide_false (relay = relay_block)) by done. by rewrite bool_decide_true.
Qed.

Lemma clear_flag_gone f tvc : f ∉ clear_flag f tvc.
Proof. intros Hin. apply list_elem_of_In, filter_In in Hin as [_ Hin]. by rewrite bool_decide_true in Hin. Qed.



(** ** Examples *)

Definition example_crypto : Crypto :=
  Build_Crypto (fun _ => zero_key) (fun k => k) (fun _ => true) (fun _ => false) (fun _ => true) (fun _ _ _ _ => true) (fun _ => true) (fun _ => true) (fun _ => true) (fun _ => true) (fun _ => true).
#[local] Existing Instance example_crypto.

(** One block with an output of amount 10, and two transactions that spend it. *)
Definition spend_db : db :=
  mk_db (mk_block_tables {[0 := []]} {[0 := mk_block_info 0 0 0 0 0 (sample_k 30) 0 0]} ∅) (mk_tx_tables ∅ ∅ ∅ ∅ ∅ ∅) (mk_output_tables ∅ {[10 := {[0 := pre_rct_outkey 0 (sample_k 2) 0 0]}]}) ∅ 0.
Definition spend_cs : chain_state := mk_chain_state spend_db (initial [] 1 1 [0]) ∅ 0 0.
Definition spend_vin : list txin_v := [txin_to_key 10 [0] (sample_k 21)].
Definition spend (x : Z) : transaction := mk_tx (mk_prefix 1 0 spend_vin [mk_out 5 (txout_to_key (sample_k 2))] [x]) [[sample_k 8 ++ sample_k 9]] null_base null_prunable false.
Definition spend_blob (x : Z) : list Z := default [] (tx_to_blob (spend x)).

Lemma spend_parses x : x = 1 \/ x = 2 -> bytes (spend_blob x) /\ parse_and_validate_tx_from_blob (fun k => k) (spend_blob x) false = Some (spend x) /\ parse_and_validate_tx_prefix_from_blob (spend_blob x) false = Some (tx_prefix (spend x)).
Proof.
  assert (Hb : forall l, bool_decide (Forall is_u8 l) = true -> bytes l) by (intros l Hl; by apply bool_decide_eq_true in Hl). intros [->| ->]; (split; [apply Hb; vm_compute; reflexivity|split; vm_compute; reflexivity]).
Qed.

Lemma spend_hashes x : x = 1 \/ x = 2 -> exists h th, get_transaction_prefix_hash (spend x) = Some h /\ calculate_transaction_hash (spend x) 0 = Some th.
Proof.
  assert (H : forall A (c : codec A) (a : A), bool_decide (is_Some (dump_binary c a)) = true -> exists h, get_object_hash c a = Some h).
  { intros A c a Hs. unfold get_object_hash. destruct (dump_binary c a); [by eexists|discriminate Hs]. }
  intros Hx. destruct (H _ c_transaction_prefix (tx_prefix (spend x))) as [h Hh]; [destruct Hx as [->| ->]; by vm_compute|]. destruct (H _ c_transaction (spend x)) as [th Hth]; [destruct Hx as [->| ->]; by vm_compute|]. exists h, th. exact (conj Hh Hth).
Qed.

Lemma spend_ring x h : inputs_loop (fun _ => zero_key) spend_cs 1 (spend x) h 0 (tx_vin (spend x)) 0 = (inl [[mk_ctkey (sample_k 2) zero_key]], 0).
Proof.
  cbn [spend spend_vin tx_vin tx_prefix inputs_loop]. rewrite bool_decide_false by done. unfold have_tx_keyimg_as_spent, has_key_image. cbn [cs_db spend_cs spend_db m_spent_keys]. rewrite bool_decide_false by set_solver. cbn [tx_version Z.eqb tx_signatures length].
  unfold check_tx_input, scan_outputkeys_for_indexes. rewrite bool_decide_false by done. cbn [relative_output_offsets_to_absolute absolute_from]. unfold scan_outputs. cbn [m_scan_table spend_cs]. rewrite lookup_empty.
  cbn [mbind option_bind get_output_keys cs_db spend_cs]. assert (Eg : get_output_key (fun _ => zero_key) spend_db 10 0 = Some (mk_output_data (sample_k 2) 0 0 zero_key)) by (vm_compute; reflexivity). rewrite Eg. cbn [length Nat.eqb negb mbind option_bind scan_loop]. unfold handle_output. cbn [od_unlock_time]. by rewrite never_locked.
Qed.

Lemma spend_verifies x : x = 1 \/ x = 2 -> inputs_verify spend_cs (spend x).
Proof.
  intros Hx. destruct (spend_hashes x Hx) as (h & th & Hh & Hth). exists [], null_hash. unfold check_tx_inputs_block. cbn [andb]. rewrite andb_false_r.
  destruct (check_tx_inputs_result (fun _ => zero_key) (fun _ => true) (fun _ => true) (fun _ _ _ _ => true) spend_cs (spend x) [] h th [[mk_ctkey (sample_k 2) zero_key]] 0) as (id & E); [done|done|done|done|done|apply spend_ring|done| |].
  - unfold ver_input_proofs_rings, tx_ver_legacy_ring_sigs. by rewrite Hh.
  - cbn [zeroCommitVartime verRctNonSemanticsSimple verRct_non_sem check_ring_signature example_crypto]. rewrite E. by vm_compute.
Qed.

(** The first came in a block, the second by relaying; both were verified. *)
Definition spend_meta (relay : relay_method) : txpool_tx_meta_t :=
  set_relay_method (mk_meta null_hash null_hash 200 5 0 0 0 0 false false false false false false false false true null_hash null_hash) relay.
Definition one_pool : tx_pool :=
  mk_pool (put_tables (mk_pool_tables ∅ ∅) (sample_k 42) (spend_blob 2) (spend_meta relay_fluff)) (<[sample_k 21 := {[sample_k 42]} ∪ ∅]> ∅) (mk_lists [mk_sorted (fee_rate 5 200) 0 (sample_k 42)] ∅ 0 [] 0) ∅ DEFAULT_TXPOOL_MAX_WEIGHT 200 false ∅ ∅ 0 0.
Definition both_pool : tx_pool :=
  mk_pool (put_tables (tp_tables one_pool) (sample_k 41) (spend_blob 1) (spend_meta relay_block)) (<[sample_k 21 := {[sample_k 41]} ∪ image_set (m_spent_key_images one_pool) (sample_k 21)]> (m_spent_key_images one_pool))
    (mk_lists (map (fun id => mk_sorted (fee_rate 5 200) 0 id) [sample_k 41; sample_k 42]) ∅ 0 [] 0) ∅ DEFAULT_TXPOOL_MAX_WEIGHT 400 false
    {[sample_k 41 := (true, [], 0, sample_k 30); sample_k 42 := (true, [], 0, sample_k 30)]} ∅ 0 0.

Lemma spend_wf x id : x = 1 \/ x = 2 -> entry_wf (fun _ => spend_vin) (fun _ => 200) (mk_pool_tx (spend x) 0 None) id (spend_blob x) 200.
Proof.
  intros Hx. destruct (spend_parses x Hx) as (Hb & _ & Hp). constructor; [done|by exists (tx_prefix (spend x))|done| |done]. split; [by repeat constructor|]. apply NoDup_singleton.
Qed.

Lemma spend_images s id : images_added (fun _ => spend_vin) s (<[sample_k 21 := {[id]} ∪ image_set s (sample_k 21)]> s) id.
Proof. intros k. rewrite image_set_insert. change (images_of spend_vin) with [sample_k 21]. destruct (decide (sample_k 21 = k)) as [<-|Hn]; [by rewrite decide_True by left|]. rewrite decide_False; [done|]. by intros ->%list_elem_of_singleton. Qed.

Lemma lists_of t l : (forall id, id ∈ map se_txid l <-> is_Some (m_txpool_meta t !! id)) -> NoDup (map se_txid l) -> lists_ok (mk_lists l ∅ 0 [] 0) t.
Proof. by split. Qed.

Lemma both_pool_ids id : is_Some (m_txpool_meta (tp_tables both_pool) !! id) <-> id = sample_k 41 \/ id = sample_k 42.
Proof.
  cbn [both_pool tp_tables put_tables m_txpool_meta one_pool]. split.
  - intros [m [[<- _]|[_ [[<- _]|[_ E]]%lookup_insert_Some]]%lookup_insert_Some]; [by left|by right|by rewrite lookup_empty in E].
  - intros [->| ->]; [by rewrite lookup_insert_eq|by rewrite lookup_insert_ne, lookup_insert_eq by done].
Qed.

Lemma both_pool_ok : pool_ok (fun _ => spend_vin) (fun _ => 200) both_pool.
Proof.
  destruct (empty_pool_ok (fun _ => spend_vin) (fun _ => 200) 0 false) as (H0 & _).
  destruct (core_put _ _ _ _ _ _ _ _ _ (spend_meta relay_fluff) H0 (spend_wf 2 (sample_k 42) ltac:(by right)) (spend_images _ _)) as [H1 _]; [split; [done|right; intros k _; apply empty_subseteq]|done|].
  destruct (core_put _ _ _ _ _ _ _ _ _ (spend_meta relay_block) H1 (spend_wf 1 (sample_k 41) ltac:(by left)) (spend_images _ _)) as [H2 _]; [by split; [|left]|by vm_compute|].
  split_and!; [exact H2| |intros id tx E; cbn in E; by rewrite lookup_empty in E]. apply lists_of; [|cbn; apply (bool_decide_unpack (NoDup [sample_k 41; sample_k 42])); by vm_compute].
  intros id. rewrite both_pool_ids. cbn [map se_txid]. rewrite !elem_of_cons, elem_of_nil. tauto.
Qed.

(** C38: Transactions whose verdicts are cached are not parsed, and their key images not
    looked at: from a pool in order, in which every transaction verifies on the chain
    and the cache says so, the template takes two transactions that spend the same key
    image. *)
Theorem template_double_spend :
  pool_ok (fun _ => spend_vin) (fun _ => 200) both_pool /\
  (forall id, is_Some (m_txpool_meta (tp_tables both_pool) !! id) -> exists blob tx, m_txpool_blob (tp_tables both_pool) !! id = Some blob /\ parse_and_validate_tx_from_blob mul_inv_eight blob false = Some tx /\ inputs_verify spend_cs tx) /\
  (fun r => (r.1.1, tm_hashes r.1.2)) <$> fill_block_template spend_cs both_pool 300000 0 1 false = Some (true, [sample_k 41; sample_k 42]) /\
  sample_k 21 ∈ images_of spend_vin.
Proof.
  split_and!; [exact both_pool_ok| |vm_compute; reflexivity|left].
  intros id [->| ->]%both_pool_ids.
  - exists (spend_blob 1), (spend 1). split_and!; [by vm_compute|by destruct (spend_parses 1) as (_ & ? & _); [left|]|apply spend_verifies; by left].
  - exists (spend_blob 2), (spend 2). split_and!; [by vm_compute|by destruct (spend_parses 2) as (_ & ? & _); [right|]|apply spend_verifies; by right].
Qed.

(** A pool reached by adding a transaction of a block below the checked hashes. *)
Definition early_cs : chain_state := mk_chain_state spend_db (initial [] 1 1 [0]) ∅ 0 10.
Definition start_pool : tx_pool := empty_pool DEFAULT_TXPOOL_MAX_WEIGHT false.
Definition reached_pool : tx_pool := ar_pool (add_tx early_cs false 0 start_pool (mk_pool_tx (spend 1) 0 None) (sample_k 41) (spend_blob 1) 200 [] relay_block false 1 1 null_hash).
Abbreviation spend_step := (pool_step (fun _ => spend_vin) (fun _ => 200)).

Lemma pool_reached : rtc spend_step start_pool reached_pool.
Proof. apply rtc_once. apply step_add; [by apply spend_wf; left|by vm_compute]. Qed.

Lemma reached_ids : map fst (map_to_list (m_txpool_meta (tp_tables reached_pool))) = [sample_k 41].
Proof. vm_compute. reflexivity. Qed.

Lemma reached_bounds : template_bounds (tp_tables (on_blockchain_inc reached_pool)) 300000 0 1.
Proof.
  constructor; [done|by vm_compute| |by vm_compute]. apply map_Forall_to_list.
  assert (E : forallb (fun e => 0 <=? meta_fee e.2) (map_to_list (m_txpool_meta (tp_tables (on_blockchain_inc reached_pool)))) = true) by (vm_compute; reflexivity).
  rewrite forallb_forall in E. apply Forall_forall. intros [id m] Hin. apply list_elem_of_In, E, Z.leb_le in Hin. exact Hin.
Qed.

Lemma pool_invariant_witness : rtc spend_step start_pool reached_pool /\ map fst (map_to_list (m_txpool_meta (tp_tables reached_pool))) = [sample_k 41] /\ m_txpool_weight reached_pool = pool_weight (tp_tables reached_pool).
Proof. split; [exact pool_reached|]. split; [exact reached_ids|]. destruct (pool_invariant _ _ _ _ _ pool_reached) as (_ & Hw & _). exact Hw. Defined.

Lemma pool_restart_witness : exists q, init 7 0 true reached_pool = Some q /\ m_txpool_weight q = m_txpool_weight reached_pool.
Proof. destruct (pool_restart _ _ _ _ _ 7 0 true pool_reached) as (q & E & _ & _ & Hw & _). exists q. exact (conj E Hw). Defined.


Lemma stuck_removed_witness : rtc spend_step start_pool reached_pool /\
  forall id m, m_txpool_meta (tp_tables (remove_stuck_transactions 700000 reached_pool)) !! id = Some m <-> m_txpool_meta (tp_tables reached_pool) !! id = Some m /\ is_stuck 700000 m = false.
Proof. split; [exact pool_reached|]. destruct (stuck_removed _ _ _ _ _ 700000 pool_reached) as (H1 & _). exact H1. Defined.


