(* ===== verification/Blockchain.v ===== *)
(** * Blockchain: blocks on the main chain and on alternative chains

    The composition of the other components by [Blockchain]
    (src/cryptonote_core/blockchain.cpp): a block goes through the checks of
    [handle_block_to_main_chain], its transactions are taken from the pool, and it is
    stored; [pop_block_from_blockchain] gives the transactions back;
    [handle_alternative_block] keeps the blocks of other chains and
    [switch_to_alternative_blockchain] moves to one of them, or back.

    The state is the database with the tables of fork versions and of alternative
    blocks, the hard fork object, the pool and the caches.  Not part of it are the
    notifications, the statistics and the logs, and the seed of RandomX.  An
    exception that leaves a function is an [Err]; when storing a block throws, the
    writes of that block are dropped with the batch, and [m_batch_success] tells
    the end of the batch. *)
From stdpp Require Import gmap.
From S2P Require Import Prelude HardFork Varint Archive Config Reward RollingMedian BlockWeight FeesTime Money MinerTx Keccak TxFormat RctFormat Transaction TxParse TreeHash TxHash TxWeight TxVerify Difficulty ChainDb ChainDifficulty Checkpoints TxInputs Floats TxPool.
#[local] Open Scope mach_scope.
#[local] Arguments put : simpl never.
#[local] Arguments get : simpl never.

(** ** Definitions *)

(** *** State *)

Record alt_block_data_t := mk_alt_data {
  ad_height : Z;
  ad_cumulative_weight : Z;
  ad_cumulative_difficulty_low : Z;
  ad_cumulative_difficulty_high : Z;
  ad_already_generated_coins : Z;
}.

Record node := mk_node {
  n_db : db;
  n_hf_versions : gmap Z Z;
  n_alt_blocks : gmap (list Z) (alt_block_data_t * list Z);
  m_hardfork : HardFork;
  n_bc : blockchain;
  n_diff : diff_state;
  m_tx_pool : tx_pool;
  n_scan_table : gmap (list Z) (gmap (list Z) (list output_data_t));
  m_blocks_longhash_table : gmap (list Z) (list Z);
  m_invalid_blocks : gset (list Z);
  m_batch_success : bool;
  m_btc_valid : bool;
}.

Definition set_chain (nd : node) (s : db) (versions : gmap Z Z) (hf : HardFork) : node :=
  mk_node s versions (n_alt_blocks nd) hf (n_bc nd) (n_diff nd) (m_tx_pool nd) (n_scan_table nd) (m_blocks_longhash_table nd) (m_invalid_blocks nd) (m_batch_success nd) (m_btc_valid nd).
Definition set_alt_blocks (nd : node) (t : gmap (list Z) (alt_block_data_t * list Z)) : node :=
  mk_node (n_db nd) (n_hf_versions nd) t (m_hardfork nd) (n_bc nd) (n_diff nd) (m_tx_pool nd) (n_scan_table nd) (m_blocks_longhash_table nd) (m_invalid_blocks nd) (m_batch_success nd) (m_btc_valid nd).
Definition set_bc (nd : node) (bc : blockchain) : node :=
  mk_node (n_db nd) (n_hf_versions nd) (n_alt_blocks nd) (m_hardfork nd) bc (n_diff nd) (m_tx_pool nd) (n_scan_table nd) (m_blocks_longhash_table nd) (m_invalid_blocks nd) (m_batch_success nd) (m_btc_valid nd).
Definition set_diff (nd : node) (d : diff_state) : node :=
  mk_node (n_db nd) (n_hf_versions nd) (n_alt_blocks nd) (m_hardfork nd) (n_bc nd) d (m_tx_pool nd) (n_scan_table nd) (m_blocks_longhash_table nd) (m_invalid_blocks nd) (m_batch_success nd) (m_btc_valid nd).
Definition set_pool (nd : node) (p : tx_pool) : node :=
  mk_node (n_db nd) (n_hf_versions nd) (n_alt_blocks nd) (m_hardfork nd) (n_bc nd) (n_diff nd) p (n_scan_table nd) (m_blocks_longhash_table nd) (m_invalid_blocks nd) (m_batch_success nd) (m_btc_valid nd).
Definition set_invalid (nd : node) (x : gset (list Z)) : node :=
  mk_node (n_db nd) (n_hf_versions nd) (n_alt_blocks nd) (m_hardfork nd) (n_bc nd) (n_diff nd) (m_tx_pool nd) (n_scan_table nd) (m_blocks_longhash_table nd) x (m_batch_success nd) (m_btc_valid nd).
Definition clear_block_tables (nd : node) : node :=
  mk_node (n_db nd) (n_hf_versions nd) (n_alt_blocks nd) (m_hardfork nd) (n_bc nd) (n_diff nd) (m_tx_pool nd) ∅ ∅ (m_invalid_blocks nd) (m_batch_success nd) (m_btc_valid nd).
Definition batch_failed (nd : node) : node :=
  mk_node (n_db nd) (n_hf_versions nd) (n_alt_blocks nd) (m_hardfork nd) (n_bc nd) (n_diff nd) (m_tx_pool nd) (n_scan_table nd) (m_blocks_longhash_table nd) (m_invalid_blocks nd) false (m_btc_valid nd).
Definition invalidate_block_template_cache (nd : node) : node :=
  mk_node (n_db nd) (n_hf_versions nd) (n_alt_blocks nd) (m_hardfork nd) (n_bc nd) (n_diff nd) (m_tx_pool nd) (n_scan_table nd) (m_blocks_longhash_table nd) (m_invalid_blocks nd) (m_batch_success nd) false.

Record block_verification_context := mk_bvc {
  m_added_to_main_chain : bool;
  bvc_verifivation_failed : bool;
  m_marked_as_orphaned : bool;
  m_already_exists : bool;
  m_partial_block_reward : bool;
  m_bad_pow : bool;
  m_missing_txs : bool;
}.
Definition new_bvc : block_verification_context := mk_bvc false false false false false false false.
Definition bvc_fail (b : block_verification_context) : block_verification_context :=
  mk_bvc (m_added_to_main_chain b) true (m_marked_as_orphaned b) (m_already_exists b) (m_partial_block_reward b) (m_bad_pow b) (m_missing_txs b).
Definition bvc_pow (b : block_verification_context) : block_verification_context :=
  mk_bvc (m_added_to_main_chain b) (bvc_verifivation_failed b) (m_marked_as_orphaned b) (m_already_exists b) (m_partial_block_reward b) true (m_missing_txs b).
Definition bvc_missing (b : block_verification_context) : block_verification_context :=
  mk_bvc (m_added_to_main_chain b) (bvc_verifivation_failed b) (m_marked_as_orphaned b) (m_already_exists b) (m_partial_block_reward b) (m_bad_pow b) true.
Definition bvc_partial (b : block_verification_context) (partial : bool) : block_verification_context :=
  mk_bvc (m_added_to_main_chain b) (bvc_verifivation_failed b) (m_marked_as_orphaned b) (m_already_exists b) partial (m_bad_pow b) (m_missing_txs b).
Definition bvc_added (b : block_verification_context) (added : bool) : block_verification_context :=
  mk_bvc added (bvc_verifivation_failed b) (m_marked_as_orphaned b) (m_already_exists b) (m_partial_block_reward b) (m_bad_pow b) (m_missing_txs b).
Definition bvc_orphaned (b : block_verification_context) : block_verification_context :=
  mk_bvc (m_added_to_main_chain b) (bvc_verifivation_failed b) true (m_already_exists b) (m_partial_block_reward b) (m_bad_pow b) (m_missing_txs b).
Definition bvc_exists (b : block_verification_context) : block_verification_context :=
  mk_bvc (m_added_to_main_chain b) (bvc_verifivation_failed b) (m_marked_as_orphaned b) true (m_partial_block_reward b) (m_bad_pow b) (m_missing_txs b).

(** The transactions that came with a block, in the order the map iterates. *)
Record pool_supplement := mk_ps { txs_by_txid : list (list Z * (pool_tx * list Z)); ps_nic_verified_hf_version : Z }.
Definition no_supplement : pool_supplement := mk_ps [] 0.
Definition ps_find (ps : pool_supplement) (id : list Z) : option (pool_tx * list Z) := snd <$> find (fun e => bool_decide (e.1 = id)) (txs_by_txid ps).
Definition ps_erase (ps : pool_supplement) (id : list Z) : pool_supplement :=
  mk_ps (List.filter (fun e => negb (bool_decide (e.1 = id))) (txs_by_txid ps)) (ps_nic_verified_hf_version ps).

Definition hf_block (b : block_header) : HardFork.block := HardFork.mk_block (major_version b) (minor_version b).

(** The database as the hard fork object sees it. *)
Definition hf_db (s : db) (versions : gmap Z Z) : HardFork.db_t :=
  HardFork.mk_db (omap (fun h => match ChainDb.get_block_from_height s h with Ok b => Some (hf_block b) | Err _ => None end) (seqZ 0 (height s))) versions.

Definition current_version (nd : node) : result Z := try RUNTIME_ERROR (get_current_version (m_hardfork nd)).

(** The height a block claims in its miner transaction. *)
Definition get_block_height_of (b : block) : Z := match tx_vin (miner_tx b) with [txin_gen h] => h | _ => 0 end.

Definition RX_BLOCK_VERSION : Z := 12.
(** The environment may set smaller epochs, for tests. *)
Definition SEEDHASH_EPOCH_BLOCKS : Z := 2048.
Definition SEEDHASH_EPOCH_LAG : Z := 64.
Definition rx_seedheight (height : Z) : Z :=
  if height <=? SEEDHASH_EPOCH_BLOCKS + SEEDHASH_EPOCH_LAG then 0 else Z.land (height - SEEDHASH_EPOCH_LAG - 1) (Z.lnot (SEEDHASH_EPOCH_BLOCKS - 1)).

Section chain.
Context `{Crypto}.

(** The proofs of work: by height on the main chain, by seed on another one. *)
Context (get_block_longhash : db -> block -> Z -> list Z) (get_altblock_longhash : block -> list Z -> list Z).

(** What does not change while blocks are handled; [now] is [time(NULL)], [delay]
    the random delay of relayed transactions. *)
Context (m_checkpoints : checkpoints) (m_blocks_hash_check : list (list Z * Z)) (now delay : Z) (in_batch : bool).

(** What the checks of transactions see. *)
Definition cs_of (nd : node) : chain_state :=
  let bc := n_bc nd in
  mk_chain_state (n_db nd)
    (mk_bc (m_db bc) (default 0 (get_current_version (m_hardfork nd))) (m_long_term_block_weights_window bc) (m_cache_tip_hash bc) (m_cache_rolling_median bc)
       (m_current_block_cumul_weight_median bc) (m_current_block_cumul_weight_limit bc) (m_long_term_effective_median_block_weight bc))
    (n_scan_table nd) now (length m_blocks_hash_check).

(** *** A block on the main chain *)

Inductive work_result := work_wrong_id | work_too_low | work_ok (fast_check : bool).

(** A block whose hash is known ahead is not hashed. *)
Definition check_work (nd : node) (bl : block) (id : list Z) (blockchain_height current_diffic : Z) : work_result :=
  match zlookup m_blocks_hash_check blockchain_height with
  | Some (expected_hash, _) =>
      if negb (bool_decide (expected_hash = null_hash)) then if negb (bool_decide (id = expected_hash)) then work_wrong_id else work_ok true
      else if negb (check_hash (default (get_block_longhash (n_db nd) bl blockchain_height) (m_blocks_longhash_table nd !! id)) current_diffic) then work_too_low else work_ok false
  | None => if negb (check_hash (default (get_block_longhash (n_db nd) bl blockchain_height) (m_blocks_longhash_table nd !! id)) current_diffic) then work_too_low else work_ok false
  end.

(** The overload for a supplement, which remembers a success. *)
Definition ver_supplement (ps : pool_supplement) (hf_version : Z) : result (bool * pool_supplement) :=
  if ps_nic_verified_hf_version ps =? hf_version then Ok (true, ps)
  else
    '(verified, _) ← try RUNTIME_ERROR (ver_non_input_consensus verRctSemanticsSimple1 verRct_sem verRctSemanticsSimple check_key is_identity in_subgroup (map (fun e => pt_tx e.2.1) (txs_by_txid ps)) hf_version []);
    Ok (verified, if verified : bool then mk_ps (txs_by_txid ps) hf_version else ps).

(** A transaction of the block, an entry of [txs] and of [txs_meta]. *)
Record block_tx := mk_block_tx { bt_tx : pool_tx; bt_blob : list Z; bt_id : list Z; bt_weight : Z; bt_found_in_pool : bool; bt_valid_id : list Z }.

Definition return_txs_to_pool (cs : chain_state) (hf_version : Z) (txs : list block_tx) (p : tx_pool) : tx_pool :=
  fold_left (fun p t => if bt_found_in_pool t
                        then ar_pool (add_tx cs in_batch delay p (bt_tx t) (bt_id t) (bt_blob t) (bt_weight t) [] relay_block true hf_version hf_version (bt_valid_id t)) else p) txs p.

(** From the pool, or else from the supplement: the transaction, its fee and
    whether it is pruned. *)
Definition find_block_tx (cs : chain_state) (p : tx_pool) (ps : pool_supplement) (tx_id : list Z) : result (option (block_tx * Z * bool * tx_pool * pool_supplement)) :=
  match take_tx cs p tx_id with
  | Some (tk, p) => Ok (Some (mk_block_tx (tk_tx tk) (tk_blob tk) tx_id (tk_weight tk) true (tk_id tk), tk_fee tk, tk_pruned tk, p, ps))
  | None =>
      match ps_find ps tx_id with
      | Some (tx, txblob) =>
          w ← try RUNTIME_ERROR (if tx_pruned tx then get_pruned_transaction_weight tx else get_transaction_weight tx (length txblob));
          Ok (Some (mk_block_tx tx txblob tx_id w false null_hash, get_tx_fee tx, tx_pruned tx, p, ps_erase ps tx_id))
      | None => Ok None
      end
  end.

Inductive tx_failure := tx_in_chain | tx_unknown | tx_wrong_inputs.

Record loop_state := mk_loop { l_pool : tx_pool; l_ps : pool_supplement; l_txs : list block_tx; l_fee : Z; l_weight : Z; l_pruned : Z }.

(** The loop over the hashes of the block, ended early by a failure. *)
Fixpoint block_txs_loop (cs : chain_state) (fast_check : bool) (hashes : list (list Z)) (st : loop_state) : result (loop_state * option tx_failure) :=
  match hashes with
  | [] => Ok (st, None)
  | tx_id :: hashes =>
      if tx_exists (cs_db cs) tx_id then Ok (st, Some tx_in_chain)
      else
        found ← find_block_tx cs (l_pool st) (l_ps st) tx_id;
        match found with
        | None => Ok (st, Some tx_unknown)
        | Some (t, fee, pruned, p, ps) =>
            let n_pruned := if pruned : bool then l_pruned st + 1 else l_pruned st in
            let txs := l_txs st ++ [t] in
            if negb fast_check && negb (ir_ok (check_tx_inputs zeroCommitVartime verRctNonSemanticsSimple verRct_non_sem check_ring_signature cs (bt_tx t) [] (bt_valid_id t)))
            then Ok (mk_loop p ps txs (l_fee st) (l_weight st) n_pruned, Some tx_wrong_inputs)
            else block_txs_loop cs fast_check hashes (mk_loop p ps txs (l_fee st ⊞ fee) (l_weight st ⊞ bt_weight t) n_pruned)
        end
  end.

Definition tx_entries (txs : list block_tx) : list tx_entry := map (fun t => mk_tx_entry (pt_tx (bt_tx t)) (pt_unprunable_size (bt_tx t)) (bt_blob t)) txs.

(** Storing the block, with the hard fork object's part, or the exception caught.
    The object a block is parsed into knows how much of the miner transaction is
    not pruned. *)
Definition store_block (nd : node) (bl : block) (block_weight cumulative_difficulty already_generated_coins : Z) (txs : list block_tx) : node * option block_entry :=
  match get_next_long_term_block_weight (bc_of (cs_of nd)) block_weight with
  | None => (nd, None)
  | Some (long_term_block_weight, bc) =>
      let nd := set_bc nd bc in
      let be := mk_block_entry bl (loaded_base_size (default [] (tx_to_blob (miner_tx bl)))) (tx_entries txs) block_weight long_term_block_weight cumulative_difficulty already_generated_coins in
      match (s ← ChainDb.add_block zeroCommitVartime (n_db nd) be;
             '(_, hf, hdb) ← try RUNTIME_ERROR (HardFork.add_block (m_hardfork nd) (hf_db (n_db nd) (n_hf_versions nd)) (hf_block bl) (height (n_db nd)));
             Ok (set_chain nd s (db_versions hdb) hf)) with
      | Ok nd' => (nd', Some be)
      | Err _ => (nd, None)
      end
  end.

(** After a block was stored. *)
Definition block_stored (nd : node) (hf_version : Z) : result node :=
  bc ← try RUNTIME_ERROR (update_next_cumulative_weight_limit (bc_of (cs_of nd)));
  let nd := set_bc nd bc in
  let nd := set_pool nd (on_blockchain_inc (m_tx_pool nd)) in
  new_hf_version ← current_version nd;
  '(_, d) ← get_difficulty_for_next_block (n_db nd) new_hf_version (n_diff nd);
  let nd := invalidate_block_template_cache (set_diff nd d) in
  Ok (if negb (new_hf_version =? hf_version) && negb (height (n_db nd) =? 1) then set_pool nd (validate (cs_of nd) delay new_hf_version (m_tx_pool nd)).2 else nd).

Definition outcome : Type := bool * block_verification_context * pool_supplement * node.

(** From the transactions of the block on; [st] is what the loop over them left. *)
Definition finish_block (nd : node) (bl : block) (bvc : block_verification_context) (hf_version blockchain_height current_diffic : Z) (st : loop_state) : result outcome :=
  let ps := l_ps st in
  let cs := cs_of nd in
  let taken := set_pool nd (l_pool st) in
  let returned nd := set_pool nd (return_txs_to_pool cs hf_version (l_txs st) (l_pool st)) in
  match (if 0 <? l_pruned st
         then match zlookup m_blocks_hash_check blockchain_height with Some (_, w) => if w =? 0 then None else Some w | None => None end
         else Some (l_weight st)) with
  | None => Ok (false, bvc, ps, taken)
  | Some cumulative_block_weight =>
      coins ← (if negb (blockchain_height =? 0) then get_block_already_generated_coins (n_db nd) (blockchain_height - 1) else Ok 0);
      match validate_miner_transaction (bc_of cs) (miner_tx bl) cumulative_block_weight (l_fee st) coins hf_version with
      | None => Ok (false, bvc_fail (bvc_partial bvc false), ps, returned nd)
      | Some (base_reward, partial) =>
          let bvc := bvc_partial bvc partial in
          let coins := cap_generated_coins coins base_reward in
          cumulative_difficulty ← (if negb (blockchain_height =? 0) then d ← get_block_cumulative_difficulty (n_db nd) (blockchain_height - 1); Ok (wrap 128 (current_diffic + d)) else Ok current_diffic);
          if bvc_verifivation_failed bvc then nd' ← block_stored taken hf_version; Ok (true, bvc_added bvc true, ps, nd')
          else match store_block taken bl cumulative_block_weight cumulative_difficulty coins (l_txs st) with
          | (nd', None) => Ok (false, bvc_fail bvc, ps, batch_failed (returned nd'))
          | (nd', Some _) => nd' ← block_stored nd' hf_version; Ok (true, bvc_added bvc true, ps, nd')
          end
      end
  end.

Definition handle_block_to_main_chain (nd : node) (bl : block) (id : list Z) (bvc : block_verification_context) (ps : pool_supplement) : result outcome :=
  '(top_hash, top_height) ← top_block_hash (n_db nd);
  let blockchain_height := top_height ⊞ 1 in
  if negb (bool_decide (prev_id bl = top_hash)) then Ok (false, bvc_fail bvc, ps, nd)
  else
    hf_version ← current_version nd;
    version_ok ← try RUNTIME_ERROR (HardFork.check (m_hardfork nd) (hf_block bl));
    if negb version_ok then Ok (false, bvc_fail bvc, ps, nd)
    else
      '(time_ok, _) ← try BLOCK_DNE (check_block_timestamp_main_chain (bc_of (cs_of nd)) now (timestamp bl));
      if negb time_ok then Ok (false, bvc_fail bvc, ps, nd)
      else
        '(current_diffic, d) ← get_difficulty_for_next_block (n_db nd) hf_version (n_diff nd);
        let nd := set_diff nd d in
        if current_diffic =? 0 then Ok (false, bvc, ps, nd)
        else match check_work nd bl id blockchain_height current_diffic with
        | work_wrong_id => Ok (false, bvc_fail bvc, ps, nd)
        | work_too_low => Ok (false, bvc_pow (bvc_fail bvc), ps, nd)
        | work_ok fast_check =>
            if is_in_checkpoint_zone m_checkpoints blockchain_height && negb (check_block m_checkpoints blockchain_height id).1 then Ok (false, bvc_fail bvc, ps, nd)
            else if negb (prevalidate_miner_transaction (miner_tx bl) blockchain_height hf_version) then Ok (false, bvc_fail bvc, ps, nd)
            else
              '(supplement_ok, ps) ← (if fast_check then Ok (true, ps) else ver_supplement ps hf_version);
              if negb supplement_ok then Ok (false, bvc_fail bvc, ps, nd)
              else
                coinbase_weight ← try RUNTIME_ERROR (get_transaction_weight_of (miner_tx bl) None);
                let cs := cs_of nd in
                '(st, failure) ← block_txs_loop cs fast_check (tx_hashes bl) (mk_loop (m_tx_pool nd) ps [] 0 coinbase_weight 0);
                let returned := set_pool nd (return_txs_to_pool cs hf_version (l_txs st) (l_pool st)) in
                match failure with
                | Some tx_in_chain => Ok (false, bvc_fail bvc, l_ps st, returned)
                | Some tx_unknown => Ok (false, bvc_missing (bvc_fail bvc), l_ps st, returned)
                | Some tx_wrong_inputs => Ok (false, bvc_fail bvc, l_ps st, set_invalid returned ({[id]} ∪ m_invalid_blocks nd))
                | None => finish_block nd bl bvc hf_version blockchain_height current_diffic st
                end
        end.

(** The overload that hashes the block and brings no transactions. *)
Definition handle_block (nd : node) (bl : block) : result (bool * block_verification_context * node) :=
  id ← try RUNTIME_ERROR (calculate_block_hash bl None);
  '(r, bvc, _, nd) ← handle_block_to_main_chain nd bl id new_bvc no_supplement;
  Ok (r, bvc, nd).

(** *** Popping a block *)

(** The ring of an input, without the checks on the ages of its members. *)
Fixpoint ring_loop (s : db) (amount : Z) (absolute_offsets : list Z) (outputs : list output_data_t) : option (list ctkey) :=
  match absolute_offsets with
  | [] => Some []
  | i :: rest =>
      data ← (match outputs with data :: _ => Some data | [] => get_output_key zeroCommitVartime s amount i end);
      keys ← ring_loop s amount rest (tail outputs);
      Some (mk_ctkey (od_pubkey data) (od_commitment data) :: keys)
  end.

Definition dereference_ring (cs : chain_state) (tx_prefix_hash : list Z) (i : txin_v) : option (list ctkey) :=
  match i with
  | txin_to_key amount key_offsets k_image =>
      if bool_decide (key_offsets = []) then None
      else
        let absolute_offsets := relative_output_offsets_to_absolute key_offsets in
        outputs ← scan_outputs zeroCommitVartime cs amount absolute_offsets tx_prefix_hash k_image;
        ring_loop (cs_db cs) amount absolute_offsets outputs
  | _ => None
  end.

(** An empty result is a failure to find the rings. *)
Definition dereferenced_mix_ring (cs : chain_state) (tx : transaction) : list (list ctkey) :=
  match get_transaction_prefix_hash tx with
  | None => []
  | Some tx_prefix_hash => default [] (mapM (dereference_ring cs tx_prefix_hash) (tx_vin tx))
  end.

(** A transaction of the popped block; it was parsed from its blob. *)
Definition return_popped_tx (cs : chain_state) (version : Z) (p : tx_pool) (tx : transaction) : tx_pool :=
  if tx_pruned tx || is_coinbase tx then p
  else
    let size := loaded_base_size (default [] (tx_to_blob tx)) in
    let ring := dereferenced_mix_ring cs tx in
    let valid_id := if bool_decide (ring = []) then null_hash else make_input_verification_id (default null_hash (calculate_transaction_hash tx size)) ring in
    ar_pool (add_tx_object cs in_batch delay p (mk_pool_tx tx size None) [] relay_block true version version valid_id).

Definition pop_block_from_blockchain (nd : node) (keep_txs : bool) : result (block * node) :=
  let nd := set_diff nd (forget_window (n_diff nd)) in
  _ ← require (1 <? height (n_db nd)) RUNTIME_ERROR;
  previous_hf_version ← current_version nd;
  '(s, popped_block, popped_txs) ← pop_block mul_inv_eight (n_db nd);
  hf ← try RUNTIME_ERROR (on_block_popped (m_hardfork nd) (hf_db s (n_hf_versions nd)) 1);
  let nd := set_chain nd s (n_hf_versions nd) hf in
  let nd := if keep_txs then set_pool nd (fold_left (return_popped_tx (cs_of nd) (get_ideal_version hf (height s))) popped_txs (m_tx_pool nd)) else nd in
  let nd := clear_block_tables nd in
  let nd := invalidate_block_template_cache (set_pool nd (on_blockchain_dec (m_tx_pool nd))) in
  new_hf_version ← current_version nd;
  Ok (popped_block, if negb (new_hf_version =? previous_hf_version) then set_pool nd (validate (cs_of nd) delay new_hf_version (m_tx_pool nd)).2 else nd).

(** *** Chain switching *)

Definition update_weight_limit (nd : node) : result node :=
  bc ← try RUNTIME_ERROR (update_next_cumulative_weight_limit (bc_of (cs_of nd))); Ok (set_bc nd bc).

Definition reorganize_hardfork (nd : node) (height : Z) : result node :=
  '(_, hf, hdb) ← try RUNTIME_ERROR (reorganize_from_chain_height (m_hardfork nd) (hf_db (n_db nd) (n_hf_versions nd)) height);
  Ok (set_chain nd (n_db nd) (db_versions hdb) hf).

(** [n] blocks popped, the last one first in the list. *)
Fixpoint pop_blocks (n : nat) (nd : node) (popped : list block) : result (list block * node) :=
  match n with
  | O => Ok (popped, nd)
  | S n => '(b, nd) ← pop_block_from_blockchain nd true; pop_blocks n nd (b :: popped)
  end.

(** Blocks put on the main chain, up to the first that is refused: the number of
    blocks left when one is. *)
Fixpoint add_blocks (nd : node) (bls : list block) : result (option nat * node) :=
  match bls with
  | [] => Ok (None, nd)
  | bl :: bls' =>
      '(r, bvc, nd) ← handle_block nd bl;
      if negb (r && m_added_to_main_chain bvc) then Ok (Some (length bls'), nd) else add_blocks nd bls'
  end.

Definition rollback_blockchain_switching (nd : node) (original_chain : list block) (rollback_height : Z) : result (bool * node) :=
  if height (n_db nd) <? rollback_height then Ok (true, nd)
  else
    let nd := set_diff nd (forget_window (n_diff nd)) in
    '(_, nd) ← pop_blocks (Z.to_nat (height (n_db nd) - rollback_height)) nd [];
    nd ← update_weight_limit nd;
    nd ← reorganize_hardfork nd rollback_height;
    '(remaining, nd) ← add_blocks nd original_chain;
    match remaining with
    | Some _ => Ok (false, nd)
    | None => nd ← reorganize_hardfork nd rollback_height; Ok (true, nd)
    end.

(** [while (top_block_hash() != prev_id)]; popping the genesis block throws, so
    there are at most as many rounds as blocks. *)
Fixpoint pop_until (fuel : nat) (nd : node) (prev : list Z) (popped : list block) : result (list block * node) :=
  '(top, _) ← top_block_hash (n_db nd);
  if bool_decide (top = prev) then Ok (popped, nd)
  else match fuel with
  | O => Err RUNTIME_ERROR
  | S fuel => '(b, nd) ← pop_block_from_blockchain nd true; pop_until fuel nd prev (b :: popped)
  end.

Definition remove_alt_block (nd : node) (id : list Z) : result node :=
  _ ← try DB_ERROR (n_alt_blocks nd !! id); Ok (set_alt_blocks nd (delete id (n_alt_blocks nd))).
Fixpoint remove_alt_blocks (nd : node) (bls : list block) : result node :=
  match bls with
  | [] => Ok nd
  | b :: bls => id ← try RUNTIME_ERROR (calculate_block_hash b None); nd ← remove_alt_block nd id; remove_alt_blocks nd bls
  end.

(** [alternative] is [handle_alternative_block], for the blocks that left the chain;
    a failure of it is only logged. *)
Definition switch_to_alternative_blockchain (alternative : node -> block -> list Z -> block_verification_context -> pool_supplement -> result outcome)
    (nd : node) (alt_chain : list block_extended_info) (discard_disconnected_chain : bool) : result (bool * node) :=
  let nd := set_diff nd (forget_window (n_diff nd)) in
  match alt_chain with
  | [] => Ok (false, nd)
  | front :: _ =>
      if negb (block_exists (n_db nd) (prev_id (bl front))) then Ok (false, nd)
      else
        '(disconnected_chain, nd) ← pop_until (Z.to_nat (height (n_db nd))) nd (prev_id (bl front)) [];
        nd ← update_weight_limit nd;
        let split_height := height (n_db nd) in
        '(remaining, nd) ← add_blocks nd (map bl alt_chain);
        match remaining with
        | Some n =>
            '(_, nd) ← rollback_blockchain_switching nd disconnected_chain split_height;
            nd ← remove_alt_blocks nd (drop (length alt_chain - S n) (map bl alt_chain));
            Ok (false, nd)
        | None =>
            nd ← (if discard_disconnected_chain then Ok nd
                  else foldl (fun r b => nd ← r; id ← try RUNTIME_ERROR (calculate_block_hash b None); '(_, _, _, nd) ← alternative nd b id new_bvc no_supplement; Ok nd) (Ok nd) disconnected_chain);
            nd ← remove_alt_blocks nd (map bl alt_chain);
            nd ← reorganize_hardfork nd split_height;
            Ok (true, nd)
        end
  end.

(** *** A block on another chain *)

Definition join_difficulty (d : alt_block_data_t) : Z := u128 (u128 (Z.shiftl (ad_cumulative_difficulty_high d) 64) + ad_cumulative_difficulty_low d).

(** The timestamps of the main chain below the alternative blocks, newest first,
    not that of the genesis block. *)
Definition complete_timestamps_vector (s : db) (start_top_height : Z) (timestamps : list Z) : result (list Z) :=
  if BLOCKCHAIN_TIMESTAMP_CHECK_WINDOW <=? length timestamps then Ok timestamps
  else
    let need_elements := BLOCKCHAIN_TIMESTAMP_CHECK_WINDOW - length timestamps in
    if negb (start_top_height <? height s) then Ok timestamps
    else
      let stop_offset := if need_elements <? start_top_height then start_top_height - need_elements else 0 in
      foldl (fun r h => l ← r; t ← get_block_timestamp s h; Ok (l ++ [t])) (Ok timestamps) (reverse (seqZ (stop_offset + 1) (start_top_height - stop_offset))).

(** The alternative blocks that lead to [prev_id], oldest first, and their
    timestamps, newest first; [None] when a block cannot be parsed.  Every round
    finds a block, so that more rounds than blocks go round for ever. *)
Fixpoint alt_chain_loop (fuel : nat) (t : gmap (list Z) (alt_block_data_t * list Z)) (prev : list Z) (alt_chain : list block_extended_info) (timestamps : list Z)
    : result (option (list block_extended_info * list Z)) :=
  match t !! prev with
  | None => Ok (Some (alt_chain, timestamps))
  | Some (data, blob) =>
      match fuel with
      | O => Err RUNTIME_ERROR
      | S fuel =>
          match parse_and_validate_block_from_blob blob with
          | None => Ok None
          | Some b => alt_chain_loop fuel t (prev_id b) (mk_bei b (ad_height data) (ad_cumulative_weight data) (join_difficulty data) (ad_already_generated_coins data) :: alt_chain) (timestamps ++ [timestamp b])
          end
      end
  end.

(** [None] is a [false] return. *)
Definition build_alt_chain (nd : node) (prev : list Z) : result (option (list block_extended_info * list Z)) :=
  chain ← alt_chain_loop (base.size (n_alt_blocks nd)) (n_alt_blocks nd) prev [] [];
  match chain with
  | None => Ok None
  | Some (alt_chain, timestamps) =>
      match alt_chain with
      | front :: _ =>
          if negb (bei_height front <? height (n_db nd)) then Ok None
          else if negb (block_exists (n_db nd) (prev_id (bl front))) then Ok None
          else
            h ← ChainDb.get_block_hash_from_height (n_db nd) (bei_height front ⊟ 1);
            if negb (bool_decide (h = prev_id (bl front))) then Ok None
            else
              top ← get_block_height (n_db nd) (prev_id (bl front));
              timestamps ← complete_timestamps_vector (n_db nd) top timestamps;
              Ok (Some (alt_chain, timestamps))
      | [] =>
          if negb (block_exists (n_db nd) prev) then Ok None
          else
            top ← get_block_height (n_db nd) prev;
            timestamps ← complete_timestamps_vector (n_db nd) top timestamps;
            Ok (Some (alt_chain, timestamps))
      end
  end.

(** The proof of work of an alternative block. *)
Definition alt_proof_of_work (nd : node) (b : block) (bei_height' : Z) (alt_chain : list block_extended_info) : list Z :=
  if RX_BLOCK_VERSION <=? major_version b then
    let seedheight := rx_seedheight bei_height' in
    let on_alt := match alt_chain with front :: _ => bei_height front <=? seedheight | [] => false end in
    get_altblock_longhash b
      (if on_alt then match find (fun e => bei_height e =? seedheight ⊞ 1) alt_chain with Some e => prev_id (bl e) | None => null_hash end
       else get_block_id_by_height (n_db nd) seedheight)
  else get_block_longhash (n_db nd) b bei_height'.

(** The transactions that came with the block enter the pool; [None] is a failure. *)
Fixpoint supplement_to_pool (cs : chain_state) (hf_version : Z) (txs : list (list Z * (pool_tx * list Z))) (p : tx_pool) : bool * tx_pool :=
  match txs with
  | [] => (true, p)
  | (txid, (tx, _)) :: txs =>
      if have_tx p txid legacy || tx_exists (cs_db cs) txid then supplement_to_pool cs hf_version txs p
      else
        let r := add_tx_object cs in_batch delay p tx [] relay_block true hf_version hf_version null_hash in
        if negb (ar_ok r) || bool_decide (m_verifivation_failed ∈ ar_tvc r) then (false, ar_pool r) else supplement_to_pool cs hf_version txs (ar_pool r)
  end.

(** The weight of the block as far as its transactions are known; [None] is a
    failure. *)
Fixpoint alt_block_weight (nd : node) (hashes : list (list Z)) (weight : Z) : result (option Z) :=
  match hashes with
  | [] => Ok (Some weight)
  | txid :: hashes =>
      if have_tx (m_tx_pool nd) txid legacy then
        match get_txpool_tx_meta (tp_tables (m_tx_pool nd)) txid with
        | None => Ok None
        | Some meta => alt_block_weight nd hashes (weight ⊞ meta_weight meta)
        end
      else match get_pruned_tx_blob (d_txs (n_db nd)) txid with
      | Some blob =>
          match parse_and_validate_tx_base_from_blob mul_inv_eight blob false false with
          | None => Ok None
          | Some tx => w ← try RUNTIME_ERROR (get_pruned_transaction_weight tx); alt_block_weight nd hashes (weight ⊞ w)
          end
      | None => Ok (Some 0)
      end
  end.

Definition add_alt_block (nd : node) (id : list Z) (data : alt_block_data_t) (blob : list Z) : result node :=
  _ ← require (bool_decide (n_alt_blocks nd !! id = None)) DB_ERROR; Ok (set_alt_blocks nd (<[id := (data, blob)]> (n_alt_blocks nd))).

(** The alternative block is stored, and the chain switched to when the block is
    at a checkpoint or its chain has more work than the main one; [bei] is the
    block without its weight. *)
Definition store_alternative (alternative : node -> block -> list Z -> block_verification_context -> pool_supplement -> result outcome)
    (nd : node) (id : list Z) (bei : block_extended_info) (alt_chain : list block_extended_info) (is_a_checkpoint : bool) (main_chain_cumulative_difficulty : Z)
    (bvc : block_verification_context) (ps : pool_supplement) : result outcome :=
  let b := bl bei in
  coinbase_weight ← try RUNTIME_ERROR (get_transaction_weight_of (miner_tx b) None);
  weight ← alt_block_weight nd (tx_hashes b) coinbase_weight;
  match weight with
  | None => Ok (false, bvc_fail bvc, ps, nd)
  | Some weight =>
      if negb (bool_decide (n_alt_blocks nd !! id = None)) then Ok (false, bvc, ps, nd)
      else
        let cum := cumulative_difficulty bei in
        let bei := mk_bei b (bei_height bei) weight cum (already_generated_coins bei) in
        blob ← try RUNTIME_ERROR (block_to_blob b);
        nd ← add_alt_block nd id (mk_alt_data (bei_height bei) weight (Z.land cum UINT64_MAX) (Z.land (Z.shiftr cum 64) UINT64_MAX) (already_generated_coins bei)) blob;
        if is_a_checkpoint || (main_chain_cumulative_difficulty <? cum) then
          '(r, nd) ← switch_to_alternative_blockchain alternative nd (alt_chain ++ [bei]) is_a_checkpoint;
          Ok (r, if r : bool then bvc_added bvc true else bvc_fail bvc, ps, nd)
        else Ok (true, bvc, ps, nd)
  end.

(** [fuel] bounds the reorganizations inside reorganizations, when a block that
    left the chain brings it back. *)
Fixpoint handle_alternative_block (fuel : nat) (nd : node) (b : block) (id : list Z) (bvc : block_verification_context) (ps : pool_supplement) : result outcome :=
  match fuel with
  | O => Err RUNTIME_ERROR
  | S fuel =>
      let nd := set_diff nd (forget_window (n_diff nd)) in
      let block_height := get_block_height_of b in
      if (block_height =? 0) || negb (is_alternative_block_allowed m_checkpoints (height (n_db nd)) block_height) then Ok (false, bvc_fail bvc, ps, nd)
      else
        let hf_version := get_ideal_version (m_hardfork nd) block_height in
        version_ok ← try RUNTIME_ERROR (check_for_height (m_hardfork nd) (hf_block b) block_height);
        if negb version_ok then Ok (false, bvc_fail bvc, ps, nd)
        else
          let prev_data := n_alt_blocks nd !! prev_id b in
          if negb (bool_decide (is_Some prev_data) || block_exists (n_db nd) (prev_id b)) then Ok (true, bvc_orphaned bvc, ps, nd)
          else
            built ← build_alt_chain nd (prev_id b);
            match built with
            | None => Ok (false, bvc, ps, nd)
            | Some (alt_chain, timestamps) =>
                '(prev_height, prev_generated_coins, prev_cumulative_difficulty) ←
                  match (if bool_decide (alt_chain = []) then None else prev_data) with
                  | Some (data, _) => Ok (ad_height data, ad_already_generated_coins data, join_difficulty data)
                  | None => h ← get_block_height (n_db nd) (prev_id b); c ← get_block_already_generated_coins (n_db nd) h; d ← get_block_cumulative_difficulty (n_db nd) h; Ok (h, c, d)
                  end;
                let bei_height' := prev_height ⊞ 1 in
                let coins := cap_generated_coins prev_generated_coins (get_outs_money_amount (map out_amount (tx_vout (miner_tx b)))) in
                if negb (check_block_timestamp now timestamps (timestamp b)).1 then Ok (false, bvc_fail bvc, ps, nd)
                else
                  let '(checkpoint_ok, is_a_checkpoint) := check_block m_checkpoints bei_height' id in
                  if negb checkpoint_ok then Ok (false, bvc_fail bvc, ps, nd)
                  else
                    current_diff ← get_next_difficulty_for_alternative_chain (m_fixed_difficulty (n_diff nd)) (m_hardfork nd) (n_db nd) alt_chain (mk_bei b bei_height' 0 0 coins);
                    if current_diff =? 0 then Ok (false, bvc, ps, nd)
                    else if negb (check_hash (alt_proof_of_work nd b bei_height' alt_chain) current_diff) then Ok (false, bvc_pow (bvc_fail bvc), ps, nd)
                    else if negb (prevalidate_miner_transaction (miner_tx b) bei_height' hf_version) then Ok (false, bvc_fail bvc, ps, nd)
                    else
                      main_chain_cumulative_difficulty ← get_block_cumulative_difficulty (n_db nd) (height (n_db nd) ⊟ 1);
                      '(supplement_ok, ps) ← ver_supplement ps hf_version;
                      if negb supplement_ok then Ok (false, bvc_fail bvc, ps, nd)
                      else
                        let '(entered, p) := supplement_to_pool (cs_of nd) hf_version (txs_by_txid ps) (m_tx_pool nd) in
                        let nd := set_pool nd p in
                        if negb entered then Ok (false, bvc_fail bvc, ps, nd)
                        else
                          let bei := mk_bei b bei_height' 0 (u128 (prev_cumulative_difficulty + current_diff)) coins in
                          store_alternative (handle_alternative_block fuel) nd id bei alt_chain is_a_checkpoint main_chain_cumulative_difficulty bvc no_supplement
            end
  end.

(** *** A new block *)

(** A block that the node has already, with whether it is a bad one. *)
Definition have_block (nd : node) (id : list Z) : option bool :=
  if block_exists (n_db nd) id then Some false
  else if bool_decide (is_Some (n_alt_blocks nd !! id)) then Some false
  else if bool_decide (id ∈ m_invalid_blocks nd) then Some true
  else None.

(** An exception is logged: the state it leaves is that of where it was thrown. *)
Definition add_new_block (fuel : nat) (nd : node) (bl : block) (bvc : block_verification_context) (ps : pool_supplement) : result outcome :=
  id ← try RUNTIME_ERROR (calculate_block_hash bl None);
  match have_block nd id with
  | Some invalid => Ok (false, (if invalid : bool then bvc_fail else fun b => b) (bvc_exists bvc), ps, nd)
  | None =>
      '(top, _) ← top_block_hash (n_db nd);
      if negb (bool_decide (prev_id bl = top)) then handle_alternative_block fuel nd bl id (bvc_added bvc false) ps
      else handle_block_to_main_chain nd bl id bvc ps
  end.

End chain.
