(* ===== verification/BlockHandling.v ===== *)
(** * BlockHandling: what handling a block does to the chain

    Lemmas and theorems about [handle_block_to_main_chain] of Blockchain.v: a block
    that is refused leaves the chain alone, a block that is accepted obeys every
    rule and is stored with the values the rules determine, and the pool is in
    order either way. *)
From stdpp Require Import gmap.
From S2P Require Import Prelude HardFork Varint Archive Config Reward RollingMedian BlockWeight FeesTime Money MinerTx Keccak TxFormat RctFormat Transaction TxParse TreeHash TxHash TxWeight TxVerify Difficulty ChainDb ChainDifficulty Checkpoints TxInputs Floats TxPool PoolInvariant PoolTheorems Blockchain.
#[local] Open Scope mach_scope.
#[local] Arguments put : simpl never.
#[local] Arguments get : simpl never.

(** ** Lemmas *)

(** What of a node is its chain: the database, the fork versions, the hard fork
    object and the alternative blocks. *)
Definition same_chain (nd nd' : node) : Prop :=
  n_db nd' = n_db nd /\ n_hf_versions nd' = n_hf_versions nd /\ m_hardfork nd' = m_hardfork nd /\ n_alt_blocks nd' = n_alt_blocks nd.

Section handling.
Context `{Crypto}.
Context (get_block_longhash : db -> block -> Z -> list Z) (m_checkpoints : checkpoints) (m_blocks_hash_check : list (list Z * Z)) (now delay : Z) (in_batch : bool).

Abbreviation cs_of := (cs_of m_blocks_hash_check now).
Abbreviation store_block := (store_block m_blocks_hash_check now).
Abbreviation block_stored := (block_stored m_blocks_hash_check now delay).
Abbreviation finish_block := (finish_block m_blocks_hash_check now delay in_batch).
Abbreviation handle_main := (handle_block_to_main_chain get_block_longhash m_checkpoints m_blocks_hash_check now delay in_batch).

(** A block that is not stored leaves the chain. *)
Lemma store_block_none nd bl w cum coins txs nd' : store_block nd bl w cum coins txs = (nd', None) -> same_chain nd nd' /\ m_tx_pool nd' = m_tx_pool nd.
Proof.
  unfold Blockchain.store_block. destruct (get_next_long_term_block_weight _ _) as [[lt bc]|]; [|by intros [= <-]].
  destruct (ChainDb.add_block _ _ _) as [s|]; cbn [mbind result_bind]; [|by intros [= <-]]. destruct (HardFork.add_block _ _ _ _) as [[[ok hf] hdb]|]; cbn; [done|by intros [= <-]].
Qed.

Lemma finish_refused nd bl bvc hf bh diff st bvc' ps nd' : finish_block nd bl bvc hf bh diff st = Ok (false, bvc', ps, nd') -> same_chain nd nd'.
Proof.
  unfold Blockchain.finish_block. cbv zeta. destruct (if 0 <? l_pruned st then _ else _) as [w|]; [|by intros [= <- <- <-]]. intros E. step E coins Ec.
  destruct (validate_miner_transaction _ _ _ _ _ _) as [[reward partial]|]; [|by simplify_eq]. step E cum Ed. destruct (bvc_verifivation_failed _); [step E nd1 E1; simplify_eq|].
  destruct (Blockchain.store_block _ _ _ _ _ _ _ _) as [nd1 [be|]] eqn:Es; [step E nd2 E2; simplify_eq|]. simplify_eq. destruct (store_block_none _ _ _ _ _ _ _ Es) as [Hs _]. exact Hs.
Qed.

(** The checks before the transactions of the block. *)
Record header_ok (nd : node) (bl : block) (id : list Z) (top_height hf diff : Z) (d : diff_state) (fast : bool) : Prop := {
  hk_parent : top_block_hash (n_db nd) = Ok (prev_id bl, top_height);
  hk_current : current_version nd = Ok hf;
  hk_version : HardFork.check (m_hardfork nd) (hf_block bl) = Some true;
  hk_time : exists median_ts, check_block_timestamp_main_chain (bc_of (cs_of nd)) now (timestamp bl) = Some (true, median_ts);
  hk_diff : get_difficulty_for_next_block (n_db nd) hf (n_diff nd) = Ok (diff, d);
  hk_diff_pos : diff <> 0;
  hk_work : check_work get_block_longhash m_blocks_hash_check (set_diff nd d) bl id (top_height ⊞ 1) diff = work_ok fast;
  hk_checkpoint : is_in_checkpoint_zone m_checkpoints (top_height ⊞ 1) && negb (check_block m_checkpoints (top_height ⊞ 1) id).1 = false;
  hk_coinbase : prevalidate_miner_transaction (miner_tx bl) (top_height ⊞ 1) hf = true;
}.

Definition loop_start (nd : node) (ps : pool_supplement) (coinbase_weight : Z) : loop_state := mk_loop (m_tx_pool nd) ps [] 0 coinbase_weight 0.

(** A block is refused before its transactions are looked at, or by the loop over
    them, or it comes to the end. *)
Lemma main_cases nd bl id bvc ps r bvc' ps' nd' : handle_main nd bl id bvc ps = Ok (r, bvc', ps', nd') ->
  (r = false /\ same_chain nd nd' /\ m_tx_pool nd' = m_tx_pool nd) \/
  exists th hf diff d fast ps1 cw st failure,
    header_ok nd bl id th hf diff d fast /\ (fast = false -> ver_supplement ps hf = Ok (true, ps1)) /\ get_transaction_weight_of (miner_tx bl) None = Some cw /\
    block_txs_loop (cs_of (set_diff nd d)) fast (tx_hashes bl) (loop_start nd ps1 cw) = Ok (st, failure) /\
    match failure with
    | Some _ => r = false /\ same_chain nd nd' /\ m_tx_pool nd' = return_txs_to_pool delay in_batch (cs_of (set_diff nd d)) hf (l_txs st) (l_pool st)
    | None => finish_block (set_diff nd d) bl bvc hf (th ⊞ 1) diff st = Ok (r, bvc', ps', nd')
    end.
Proof.
  unfold handle_block_to_main_chain. intros E. step E tp Et. destruct tp as [top_hash th]. cbv zeta in E.
  destruct (bool_decide_reflect (prev_id bl = top_hash)) as [<-|_]; cbn [negb] in E; [|left; by simplify_eq]. step E hf Eh. step E vok Ev. destruct vok; cbn [negb] in E; [|left; by simplify_eq].
  step E tm Etm. destruct tm as [tok med]. destruct tok; cbn [negb] in E; [|left; by simplify_eq]. step E df Ed. destruct df as [diff d].
  destruct (Z.eqb_spec diff 0) as [_|Hnz]; [left; by simplify_eq|]. destruct (check_work _ _ _ _ _ _ _) as [| |fast] eqn:Ew; [left; by simplify_eq..|].
  destruct (_ && negb _) eqn:Ecp; [left; by simplify_eq|]. destruct (prevalidate_miner_transaction _ _ _) eqn:Epre; cbn [negb] in E; [|left; by simplify_eq].
  step E sp Es. destruct sp as [sok ps1]. destruct sok; cbn [negb] in E; [|left; by simplify_eq]. step E cw Ecw. step E lp El. destruct lp as [st failure].
  right. exists th, hf, diff, d, fast, ps1, cw, st, failure. split; [split; try done; [by unfold current_version; rewrite Eh|by exists med]|]. split; [by intros ->|]. split; [done|]. split; [exact El|].
  destruct failure as [[]|]; [by simplify_eq..|exact E].
Qed.

Lemma main_refused nd bl id bvc ps bvc' ps' nd' : handle_main nd bl id bvc ps = Ok (false, bvc', ps', nd') -> same_chain nd nd'.
Proof.
  intros [(_ & Hs & _)|(th & hf & diff & d & fast & ps1 & cw & st & failure & _ & _ & _ & _ & E)]%main_cases; [done|]. destruct failure; [by destruct E as (_ & Hs & _)|]. exact (finish_refused _ _ _ _ _ _ _ _ _ _ E).
Qed.

(** *** Transactions of the block *)

Notation inputs_ok cs t := (ir_ok (check_tx_inputs zeroCommitVartime verRctNonSemanticsSimple verRct_non_sem check_ring_signature cs (pt_tx (bt_tx t)) [] (bt_valid_id t)) = true).

Lemma block_txs_loop_spec cs fast hashes : forall st st' failure, block_txs_loop cs fast hashes st = Ok (st', failure) ->
  exists ts, l_txs st' = l_txs st ++ ts /\
    (failure = None -> map bt_id ts = hashes /\ Forall (fun id => tx_exists (cs_db cs) id = false) hashes /\ (fast = false -> Forall (fun t => inputs_ok cs t) ts) /\
       l_weight st' = foldl (fun w t => w ⊞ bt_weight t) (l_weight st) ts).
Proof.
  induction hashes as [|tx_id hashes IH]; intros st st' failure E; cbn [block_txs_loop] in E; [simplify_eq; exists []; rewrite app_nil_r; repeat split; constructor|].
  destruct (tx_exists (cs_db cs) tx_id) eqn:Ex; [simplify_eq; exists []; by rewrite app_nil_r|]. step E found Ef. destruct found as [[[[[t fee] pruned] p] ps]|]; [|simplify_eq; exists []; by rewrite app_nil_r].
  cbv zeta in E. destruct (negb fast && negb _) eqn:Ei; [simplify_eq; by exists [t]|]. apply IH in E as (ts & Etx & Hok). cbn [l_txs l_weight] in Etx, Hok. exists (t :: ts). split; [by rewrite Etx, <- app_assoc|]. intros Hn. destruct (Hok Hn) as (Hid & Hnew & Hin & Hw).
  assert (Hb : bt_id t = tx_id). { unfold find_block_tx in Ef. destruct (take_tx cs (l_pool st) tx_id) as [[tk p']|]; [by simplify_eq|]. destruct (ps_find (l_ps st) tx_id) as [[tx blob]|]; [|by simplify_eq]. step Ef w1 Ew1. by simplify_eq. }
  split; [cbn; by rewrite Hb, Hid|]. split; [by constructor|]. split; [|done]. intros ->. constructor; [|by apply Hin]. cbn in Ei. by apply negb_false_iff in Ei.
Qed.

(** *** Storing *)

Lemma store_block_some nd bl w cum coins txs nd' be : store_block nd bl w cum coins txs = (nd', Some be) ->
  ChainDb.add_block zeroCommitVartime (n_db nd) be = Ok (n_db nd') /\ be_block be = bl /\ be_txs be = tx_entries txs /\ be_weight be = w /\ be_cumulative_difficulty be = cum /\ be_coins be = coins /\
  (exists ok hdb, HardFork.add_block (m_hardfork nd) (hf_db (n_db nd) (n_hf_versions nd)) (hf_block bl) (height (n_db nd)) = Some (ok, m_hardfork nd', hdb) /\ n_hf_versions nd' = db_versions hdb) /\
  n_alt_blocks nd' = n_alt_blocks nd /\ m_tx_pool nd' = m_tx_pool nd.
Proof.
  unfold Blockchain.store_block. destruct (get_next_long_term_block_weight _ _) as [[lt bc]|]; [|done]. cbn [set_bc n_db m_hardfork n_hf_versions].
  destruct (ChainDb.add_block _ _ _) as [s|] eqn:Ea; cbn [mbind result_bind]; [|done]. destruct (HardFork.add_block _ _ _ _) as [[[ok hf] hdb]|] eqn:Eh; cbn [try mbind result_bind]; [|done]. intros [= <- <-].
  split; [exact Ea|]. cbn. split_and!; try done. by exists ok, hdb.
Qed.

Lemma block_stored_chain nd hf nd' : block_stored nd hf = Ok nd' -> same_chain nd nd' /\
  (m_tx_pool nd' = on_blockchain_inc (m_tx_pool nd) \/ exists cs version, m_tx_pool nd' = (validate cs delay version (on_blockchain_inc (m_tx_pool nd))).2).
Proof.
  unfold Blockchain.block_stored. intros E. step E bc Eb. cbv zeta in E. step E v Ev. step E dd Ed. destruct dd as [x d]. simplify_eq. destruct (negb _ && negb _); (split; [done|]); [right; by do 2 eexists|by left].
Qed.

(** What a block that is accepted went through, from its transactions on. *)
Record stored_ok (nd : node) (bl : block) (hf bh diff : Z) (st : loop_state) (be : block_entry) (nd' : node) : Prop := {
  sk_added : ChainDb.add_block zeroCommitVartime (n_db nd) be = Ok (n_db nd');
  sk_block : be_block be = bl;
  sk_txs : be_txs be = tx_entries (l_txs st);
  sk_weight : (l_pruned st <= 0 -> be_weight be = l_weight st) /\ (0 < l_pruned st -> exists h, zlookup m_blocks_hash_check bh = Some (h, be_weight be) /\ be_weight be <> 0);
  sk_coins : exists coins reward partial, (if negb (bh =? 0) then get_block_already_generated_coins (n_db nd) (bh - 1) else Ok 0) = Ok coins /\
    validate_miner_transaction (bc_of (cs_of nd)) (miner_tx bl) (be_weight be) (l_fee st) coins hf = Some (reward, partial) /\ be_coins be = cap_generated_coins coins reward;
  sk_work : exists prev, (if negb (bh =? 0) then get_block_cumulative_difficulty (n_db nd) (bh - 1) else Ok 0) = Ok prev /\ be_cumulative_difficulty be = (if negb (bh =? 0) then wrap 128 (diff + prev) else diff);
  sk_fork : exists ok hdb, HardFork.add_block (m_hardfork nd) (hf_db (n_db nd) (n_hf_versions nd)) (hf_block bl) (height (n_db nd)) = Some (ok, m_hardfork nd', hdb) /\ n_hf_versions nd' = db_versions hdb;
  sk_alt : n_alt_blocks nd' = n_alt_blocks nd;
  sk_pool : m_tx_pool nd' = on_blockchain_inc (l_pool st) \/ exists cs version, m_tx_pool nd' = (validate cs delay version (on_blockchain_inc (l_pool st))).2;
}.

Lemma finish_accepted nd bl bvc hf bh diff st bvc' ps nd' : finish_block nd bl bvc hf bh diff st = Ok (true, bvc', ps, nd') -> bvc_verifivation_failed bvc = false ->
  exists be, stored_ok nd bl hf bh diff st be nd' /\ m_added_to_main_chain bvc' = true /\ bvc_verifivation_failed bvc' = false.
Proof.
  unfold Blockchain.finish_block. cbv zeta. intros E Hb. destruct (if 0 <? l_pruned st then _ else _) as [w|] eqn:Ew; [|done]. step E coins Ec.
  destruct (validate_miner_transaction _ _ _ _ _ _) as [[reward partial]|] eqn:Em; [|by simplify_eq]. step E cum Ed. cbn [bvc_partial bvc_verifivation_failed] in E. rewrite Hb in E.
  destruct (Blockchain.store_block _ _ _ _ _ _ _ _) as [nd1 [be|]] eqn:Es; [|by simplify_eq]. step E nd2 E2. injection E as <- <- <-. destruct (block_stored_chain _ _ _ E2) as [(Hdb & Hv & Hh & Ha) Hp].
  destruct (store_block_some _ _ _ _ _ _ _ _ Es) as (Hadd & Hbl & Htx & Hw & Hcum & Hcoins & (ok & hdb & Hf & Hfv) & Halt & Hpool). exists be. split; [|done]. rewrite Hpool in Hp. cbn [set_pool m_tx_pool n_db m_hardfork n_hf_versions n_alt_blocks] in *.
  split; try done.
  - by rewrite Hdb.
  - rewrite Hw. split; intros Hl.
    + destruct (Z.ltb_spec 0 (l_pruned st)); [lia|]. by simplify_eq.
    + destruct (Z.ltb_spec 0 (l_pruned st)); [|lia]. destruct (zlookup m_blocks_hash_check bh) as [[h w']|]; [|done]. destruct (Z.eqb_spec w' 0); [done|]. simplify_eq. by exists h.
  - exists coins, reward, partial. rewrite Hw, Hcoins. done.
  - rewrite Hcum. destruct (negb (bh =? 0)); [|by simplify_eq; exists 0]. step Ed prev Ep. simplify_eq. by exists prev.
  - rewrite Hh, Hv. by exists ok, hdb.
  - by rewrite Ha.
Qed.

(** *** The pool *)

Section pool_kept.
Context (ins : list Z -> list txin_v) (wt : list Z -> Z).
Abbreviation pool_ok := (pool_ok ins wt).
Abbreviation entry_wf := (entry_wf ins wt).

Definition held (txs : list block_tx) : list block_tx := List.filter bt_found_in_pool txs.
Definition held_weight (txs : list block_tx) : Z := zsum (map bt_weight (held txs)).
Definition held_ok (txs : list block_tx) : Prop := Forall (fun t => entry_wf (bt_tx t) (bt_id t) (bt_blob t) (bt_weight t)) (held txs).

(** The transactions taken out are as they were in the pool, and weigh what the
    pool lost. *)
Definition loop_ok (W : Z) (st : loop_state) : Prop := pool_ok (l_pool st) /\ held_ok (l_txs st) /\ pool_weight (tp_tables (l_pool st)) + held_weight (l_txs st) = W.

Lemma held_snoc txs t : held (txs ++ [t]) = held txs ++ (if bt_found_in_pool t then [t] else []).
Proof. unfold held. rewrite List.filter_app. cbn. by destruct (bt_found_in_pool t). Qed.

Lemma find_ok cs W p ps id t fee pruned p' ps' txs : loop_ok W (mk_loop p ps txs 0 0 0) -> find_block_tx cs p ps id = Ok (Some (t, fee, pruned, p', ps')) -> loop_ok W (mk_loop p' ps' (txs ++ [t]) 0 0 0).
Proof.
  unfold loop_ok. cbn [l_pool l_txs]. intros (Hp & Ht & Hw) E. unfold find_block_tx in E. destruct (take_tx cs p id) as [[tk q]|] eqn:Et.
  - simplify_eq. destruct (take_ok ins wt _ _ _ _ _ Hp Et) as (m & Em & Hq & Hv & Hb & Hwt & Htab & _). split; [done|]. unfold held_weight, held_ok. rewrite held_snoc. cbn [bt_found_in_pool bt_weight]. rewrite map_app. cbn [map bt_weight]. rewrite zsum_snoc, Htab, (removed_weight _ _ _ Em).
    destruct Hp as (Hc & _). destruct (ok_blob _ _ _ _ _ Hc _ _ Hb) as [Hby (pre & Hpre & Hvin)]. destruct (ok_weights _ _ _ _ _ Hc _ _ Em) as [Hw1 Hw2]. split.
    + apply Forall_app. split; [done|]. constructor; [|constructor]. split; cbn; try done; [by exists pre|apply (ok_ins _ _ _ _ _ Hc); by eexists|by rewrite Hwt].
    + rewrite Hwt. lia.
  - destruct (ps_find ps id) as [[tx blob]|]; [|by simplify_eq]. step E w1 Ew1. simplify_eq. split; [done|]. unfold held_weight, held_ok. rewrite held_snoc. cbn [bt_found_in_pool]. by rewrite app_nil_r.
Qed.

Lemma loop_keeps cs fast W hashes : forall st st' failure, loop_ok W st -> block_txs_loop cs fast hashes st = Ok (st', failure) -> loop_ok W st'.
Proof.
  induction hashes as [|tx_id hashes IH]; intros st st' failure Hok E; cbn [block_txs_loop] in E; [by simplify_eq|]. destruct (tx_exists (cs_db cs) tx_id); [by simplify_eq|].
  step E found Ef. destruct found as [[[[[t fee] pruned] p] ps]|]; [|by simplify_eq]. cbv zeta in E. pose proof (find_ok cs W (l_pool st) (l_ps st) tx_id t fee pruned p ps (l_txs st) Hok Ef) as Hf.
  destruct (negb fast && negb _); [by simplify_eq|]. by eapply IH; [|exact E].
Qed.

Lemma return_ok cs hf txs : forall p, pool_ok p -> held_ok txs -> pool_weight (tp_tables p) + held_weight txs < 2 ^ 64 -> pool_ok (return_txs_to_pool delay in_batch cs hf txs p).
Proof.
  unfold held_ok, held_weight. induction txs as [|t txs IH]; intros p Hp Ht Hw; [done|]. cbn [return_txs_to_pool fold_left held List.filter] in *. fold (held txs) in *. destruct (bt_found_in_pool t); [|by apply IH].
  apply Forall_cons in Ht as [Ht Hts]. cbn in Hw. assert (0 <= zsum (map bt_weight (held txs))).
  { clear -Hts. induction Hts as [|x l Hx _ IHl]; [done|]. destruct (wf_weight _ _ _ _ _ _ Hx). cbn. unfold zsum in IHl. lia. }
  unfold zsum in *. pose proof (add_tx_ok ins wt cs in_batch delay p (bt_tx t) (bt_id t) (bt_blob t) (bt_weight t) [] relay_block true hf hf (bt_valid_id t) Hp Ht ltac:(lia)) as (Hq & Hqw & _). apply IH; [done|done|lia].
Qed.

Lemma inc_ok p : pool_ok p -> pool_ok (on_blockchain_inc p).
Proof. intros Hp. exact (pool_step_ok ins wt _ _ Hp (step_inc ins wt p)). Qed.

Lemma stored_pool_ok nd hf nd' : block_stored nd hf = Ok nd' -> pool_ok (m_tx_pool nd) -> pool_ok (m_tx_pool nd').
Proof. intros E Hp. destruct (block_stored_chain _ _ _ E) as [_ [->|(cs & v & ->)]]; [by apply inc_ok|]. by apply (validate_ok ins wt), inc_ok. Qed.

Lemma finish_pool nd bl bvc hf bh diff st r bvc' ps nd' : finish_block nd bl bvc hf bh diff st = Ok (r, bvc', ps, nd') -> loop_ok (pool_weight (tp_tables (l_pool st)) + held_weight (l_txs st)) st ->
  pool_weight (tp_tables (l_pool st)) + held_weight (l_txs st) < 2 ^ 64 -> pool_ok (m_tx_pool nd').
Proof.
  unfold Blockchain.finish_block. cbv zeta. intros E (Hp & Ht & _) Hw. destruct (if 0 <? l_pruned st then _ else _) as [w1|]; [|by simplify_eq]. step E coins Ec.
  destruct (validate_miner_transaction _ _ _ _ _ _) as [[reward partial]|]; [|simplify_eq; by apply return_ok]. step E cum Ed. destruct (bvc_verifivation_failed _); [step E nd1 E1; simplify_eq; by eapply stored_pool_ok|].
  destruct (Blockchain.store_block _ _ _ _ _ _ _ _) as [nd1 [be|]] eqn:Es; [|simplify_eq; by apply return_ok]. step E nd2 E2. simplify_eq. eapply stored_pool_ok; [done|]. by destruct (store_block_some _ _ _ _ _ _ _ _ Es) as (_ & _ & _ & _ & _ & _ & _ & _ & ->).
Qed.

Lemma main_pool nd bl id bvc ps r bvc' ps' nd' : handle_main nd bl id bvc ps = Ok (r, bvc', ps', nd') -> pool_ok (m_tx_pool nd) -> pool_ok (m_tx_pool nd').
Proof.
  intros E Hp. apply main_cases in E as [(_ & _ & ->)|(th & hf & diff & d & fast & ps1 & cw & st & failure & _ & _ & _ & El & E)]; [done|].
  assert (Hlt : pool_weight (tp_tables (m_tx_pool nd)) < 2 ^ 64) by (destruct Hp as (Hc & _); exact (ok_bound _ _ _ _ _ Hc)).
  assert (Hl : loop_ok (pool_weight (tp_tables (m_tx_pool nd))) st). { eapply loop_keeps; [|exact El]. split; [done|]. split; [constructor|]. cbn. lia. }
  pose proof Hl as (Hp1 & Ht & Hw). destruct failure as [f|].
  - destruct E as (_ & _ & ->). apply return_ok; [done|done|lia].
  - eapply finish_pool; [exact E|by rewrite Hw|lia].
Qed.

(** The fee of a transaction of the block: what the pool [T] had recorded, or what
    the transaction itself says. *)
Definition fee_of (T : gmap (list Z) txpool_tx_meta_t) (t : block_tx) (fee : Z) : Prop :=
  if bt_found_in_pool t then exists m, T !! bt_id t = Some m /\ meta_fee m = fee /\ meta_weight m = bt_weight t else fee = get_tx_fee (bt_tx t).

Lemma find_fee cs p ps id t fee pruned p' ps' T : pool_ok p -> m_txpool_meta (tp_tables p) ⊆ T -> find_block_tx cs p ps id = Ok (Some (t, fee, pruned, p', ps')) ->
  pool_ok p' /\ m_txpool_meta (tp_tables p') ⊆ T /\ fee_of T t fee.
Proof.
  intros Hp HT E. unfold find_block_tx in E. destruct (take_tx cs p id) as [[tk q]|] eqn:Et.
  - simplify_eq. destruct (take_ok ins wt _ _ _ _ _ Hp Et) as (m & Em & Hq & _ & _ & Hwt & Htab & _). split; [done|]. split; [rewrite Htab; cbn; etrans; [apply delete_subseteq|done]|].
    exists m. split; [by eapply lookup_weaken|]. split; [|done]. unfold take_tx in Et. rewrite Em in Et. cbn [mbind option_bind] in Et. destruct (get_txpool_tx_blob _ _ _); [|done]. cbn [mbind option_bind] in Et.
    destruct (match m_parsed_tx_cache p !! id with Some _ => _ | None => _ end); [|done]. cbn [mbind option_bind] in Et. destruct (remove_transaction_keyimages _ _ _). by simplify_eq.
  - destruct (ps_find ps id) as [[tx blob]|]; [|by simplify_eq]. step E w1 Ew1. by simplify_eq.
Qed.

Lemma loop_fees cs fast T hashes : forall st st', pool_ok (l_pool st) -> m_txpool_meta (tp_tables (l_pool st)) ⊆ T -> block_txs_loop cs fast hashes st = Ok (st', None) ->
  exists ts fees, l_txs st' = l_txs st ++ ts /\ Forall2 (fee_of T) ts fees /\ l_fee st' = foldl (fun a f => a ⊞ f) (l_fee st) fees.
Proof.
  induction hashes as [|tx_id hashes IH]; intros st st' Hp HT E; cbn [block_txs_loop] in E; [simplify_eq; exists [], []; rewrite app_nil_r; repeat split; constructor|].
  destruct (tx_exists (cs_db cs) tx_id); [done|]. step E found Ef. destruct found as [[[[[t fee] pruned] p] ps]|]; [|done]. cbv zeta in E. destruct (find_fee _ _ _ _ _ _ _ _ _ T Hp HT Ef) as (Hp' & HT' & Hfee).
  destruct (negb fast && negb _); [done|]. apply IH in E as (ts & fees & Ets & HF & Efee); [|done|done]. exists (t :: ts), (fee :: fees). split; [rewrite Ets; cbn; by rewrite <- app_assoc|]. split; [by constructor|done].
Qed.
End pool_kept.

(** The verdict on the work of a block. *)
Lemma check_work_ok nd bl id bh diff fast : check_work get_block_longhash m_blocks_hash_check nd bl id bh diff = work_ok fast ->
  (fast = true /\ exists w, zlookup m_blocks_hash_check bh = Some (id, w)) \/
  (fast = false /\ check_hash (default (get_block_longhash (n_db nd) bl bh) (m_blocks_longhash_table nd !! id)) diff = true).
Proof.
  unfold check_work. destruct (zlookup m_blocks_hash_check bh) as [[e w]|].
  - case_bool_decide as Hn; cbn [negb].
    + destruct (check_hash _ _) eqn:Ec; cbn; [|done]. intros [= <-]. by right.
    + case_bool_decide as Hi; cbn [negb]; [|done]. intros [= <-]. left. split; [done|]. exists w. by rewrite Hi.
  - destruct (check_hash _ _) eqn:Ec; cbn; [|done]. intros [= <-]. by right.
Qed.

Lemma checkpoint_passed bh id h' : checkpoints_ok m_checkpoints -> is_in_checkpoint_zone m_checkpoints bh && negb (check_block m_checkpoints bh id).1 = false ->
  map_find (m_points m_checkpoints) bh = Some h' -> h' = id.
Proof.
  intros [Hs _] Hc Hf. unfold check_block in Hc. rewrite Hf in Hc. assert (Hz : is_in_checkpoint_zone m_checkpoints bh = true).
  { unfold is_in_checkpoint_zone. apply map_find_elem in Hf; [|done]. destruct (last (m_points m_checkpoints)) as [[k v]|] eqn:El.
    - apply last_max in El as [_ Hmax]; [|done]. specialize (Hmax _ Hf). cbn in Hmax. by apply Z.leb_le.
    - apply last_None in El. rewrite El in Hf. by apply elem_of_nil in Hf. }
  rewrite Hz in Hc. cbn in Hc. apply negb_false_iff in Hc. by apply bool_decide_eq_true in Hc.
Qed.

End handling.

(** ** Theorems *)


(** C2: A block that is accepted extends the top of the chain, has the version, the
    timestamp and the coinbase the rules ask for, meets the difficulty of the next
    block or is one whose hash is known ahead, and agrees with the checkpoints; its
    transactions are new to the chain, and unless the block is known ahead their
    inputs were verified; the coinbase is measured with the fees of its transactions.
    It is stored with the transactions in its order, the sum of their weights (or a
    weight known ahead), the coins generated so far and the sum of the difficulties,
    and the pool is in order. *)
Theorem accepted_block_rules `{Crypto} longhash points known now delay in_batch ins wt nd bl id bvc ps bvc' ps' nd' :
  handle_block_to_main_chain longhash points known now delay in_batch nd bl id bvc ps = Ok (true, bvc', ps', nd') ->
  bvc_verifivation_failed bvc = false -> checkpoints_ok points -> pool_ok ins wt (m_tx_pool nd) ->
  exists th hf diff d ts fees cw be coins reward partial prev, let h := th ⊞ 1 in let cs := cs_of known now (set_diff nd d) in
    top_block_hash (n_db nd) = Ok (prev_id bl, th) /\ current_version nd = Ok hf /\ HardFork.check (m_hardfork nd) (hf_block bl) = Some true /\
    (exists median_ts, check_block_timestamp_main_chain (bc_of (cs_of known now nd)) now (timestamp bl) = Some (true, median_ts)) /\
    get_difficulty_for_next_block (n_db nd) hf (n_diff nd) = Ok (diff, d) /\ diff <> 0 /\
    ((exists w, zlookup known h = Some (id, w)) \/
     (check_hash (default (longhash (n_db nd) bl h) (m_blocks_longhash_table nd !! id)) diff = true /\
      Forall (fun t => ir_ok (check_tx_inputs zeroCommitVartime verRctNonSemanticsSimple verRct_non_sem check_ring_signature cs (pt_tx (bt_tx t)) [] (bt_valid_id t)) = true) ts)) /\
    (forall h', map_find (m_points points) h = Some h' -> h' = id) /\
    prevalidate_miner_transaction (miner_tx bl) h hf = true /\ Forall2 (fee_of (m_txpool_meta (tp_tables (m_tx_pool nd)))) ts fees /\
    validate_miner_transaction (bc_of cs) (miner_tx bl) (be_weight be) (foldl (fun a f => a ⊞ f) 0 fees) coins hf = Some (reward, partial) /\
    get_transaction_weight_of (miner_tx bl) None = Some cw /\ (be_weight be = foldl (fun w t => w ⊞ bt_weight t) cw ts \/ exists h', zlookup known h = Some (h', be_weight be)) /\
    map bt_id ts = tx_hashes bl /\ Forall (fun tx => tx_exists (n_db nd) tx = false) (tx_hashes bl) /\
    ChainDb.add_block zeroCommitVartime (n_db nd) be = Ok (n_db nd') /\ be_block be = bl /\ be_txs be = tx_entries ts /\
    (if negb (h =? 0) then get_block_already_generated_coins (n_db nd) (h - 1) else Ok 0) = Ok coins /\ be_coins be = cap_generated_coins coins reward /\
    (if negb (h =? 0) then get_block_cumulative_difficulty (n_db nd) (h - 1) else Ok 0) = Ok prev /\ be_cumulative_difficulty be = (if negb (h =? 0) then wrap 128 (diff + prev) else diff) /\
    m_added_to_main_chain bvc' = true /\ pool_ok ins wt (m_tx_pool nd').
Proof.
  intros E Hb Hcp Hp. pose proof (main_pool _ _ _ _ _ _ ins wt _ _ _ _ _ _ _ _ _ E Hp) as Hp'. apply main_cases in E as [(? & _)|(th & hf & diff & d & fast & ps1 & cw & st & failure & Hk & _ & Hcw & El & E)]; [done|].
  destruct failure; [by destruct E|]. destruct (finish_accepted _ _ _ _ _ _ _ _ _ _ _ _ _ _ E Hb) as (be & Hs & Hadd & _).
  destruct (block_txs_loop_spec _ _ _ _ _ _ El) as (ts & Ets & Hts). cbn [loop_start l_txs app] in Ets. destruct (Hts eq_refl) as (Hid & Hnew & Hin & Hwt).
  destruct (loop_fees ins wt _ _ (m_txpool_meta (tp_tables (m_tx_pool nd))) _ (loop_start nd ps1 cw) _ Hp ltac:(done) El) as (ts' & fees & Ets' & Hfees & Efee). cbn [loop_start l_txs app l_fee] in Ets', Efee. rewrite Ets in Ets'. subst ts'.
  destruct (sk_coins _ _ _ _ _ _ _ _ _ _ _ Hs) as (coins & reward & partial & Ec & Em & Ecap). destruct (sk_work _ _ _ _ _ _ _ _ _ _ _ Hs) as (prev & Eprev & Ecum).
  exists th, hf, diff, d, ts, fees, cw, be, coins, reward, partial, prev. destruct Hk as [K1 K2 K3 K4 K5 K6 K7 K8 K9]. cbv zeta. split_and!; try done.
  - destruct (check_work_ok _ _ _ _ _ _ _ _ K7) as [(-> & Hw)|(-> & Hw)]; [by left|]. right. split; [exact Hw|]. by apply Hin.
  - intros h'. by apply checkpoint_passed.
  - by rewrite <- Efee.
  - destruct (sk_weight _ _ _ _ _ _ _ _ _ _ _ Hs) as [H1 H2]. destruct (Z.le_gt_cases (l_pruned st) 0) as [Hle|Hgt]; [left; by rewrite (H1 Hle), Hwt|right]. destruct (H2 Hgt) as (h' & Hh & _). by exists h'.
  - exact (sk_added _ _ _ _ _ _ _ _ _ _ _ Hs).
  - exact (sk_block _ _ _ _ _ _ _ _ _ _ _ Hs).
  - rewrite <- Ets. exact (sk_txs _ _ _ _ _ _ _ _ _ _ _ Hs).
Qed.

(** ** Examples *)

Definition genesis_tx : transaction := mk_tx (mk_prefix 1 60 [txin_gen 0] [mk_out 17592186044415 (txout_to_key (sample_k 2))] []) [[]] null_base null_prunable false.
Definition genesis (hashes : list (list Z)) : block := mk_block (mk_header 1 1 0 null_hash 10000) genesis_tx hashes.
Definition start_node : node := mk_node (empty_db 0) ∅ ∅ sample_init (initial [] 1 100 []) (new_diff_state 0) (empty_pool 648000000 false) ∅ ∅ ∅ true false.

(** A block of the start node, every hash a proof of work. *)
Definition run_genesis (hashes : list (list Z)) : result outcome :=
  handle_block_to_main_chain (H := example_crypto) (fun _ _ _ => null_hash) no_checkpoints [] 5 0 true start_node (genesis hashes) (sample_k 4) new_bvc no_supplement.


Lemma accepted_block_rules_witness : exists bvc ps nd', run_genesis [] = Ok (true, bvc, ps, nd') /\ exists be, ChainDb.add_block (fun _ => zero_key) (empty_db 0) be = Ok (n_db nd') /\ be_block be = genesis [].
Proof.
  assert (Hc : match run_genesis [] with Ok (r, _, _, _) => r | Err _ => false end = true) by (by vm_compute).
  destruct (run_genesis []) as [[[[r bvc] ps] nd']|] eqn:E; [|done]. subst r. exists bvc, ps, nd'. split; [exact eq_refl|]. unfold run_genesis in E.
  destruct (accepted_block_rules (H := example_crypto) _ _ _ _ _ _ (fun _ => []) (fun _ => 0) start_node _ _ _ _ _ _ _ E eq_refl (conj (SSorted_nil _) (SSorted_nil _)) (empty_pool_ok _ _ _ _))
    as (th & hf & diff & d & ts & fees & cw & be & coins & reward & partial & prev & _ & _ & _ & _ & _ & _ & _ & _ & _ & _ & _ & _ & _ & _ & _ & Hadd & Hbe & _).
  exists be. exact (conj Hadd Hbe).
Defined.
