(* ===== verification/Reorganize.v ===== *)
(** * Reorganize: switching between chains

    What popping, re-adding and switching do to the blocks of the database:
    [pop_block_from_blockchain], [rollback_blockchain_switching],
    [switch_to_alternative_blockchain], [handle_alternative_block] and
    [add_new_block] of Blockchain.v, on the list of blocks of the main chain. *)
From stdpp Require Import gmap.
From S2P Require Import Prelude HardFork Varint Archive Config Reward RollingMedian BlockWeight FeesTime Money MinerTx Keccak TxFormat RctFormat Transaction TxParse TreeHash TxHash TxWeight TxVerify Difficulty ChainDb ChainDifficulty Checkpoints TxInputs Floats TxPool PoolInvariant PoolTheorems Blockchain BlockHandling.
#[local] Open Scope mach_scope.
#[local] Arguments put : simpl never.
#[local] Arguments get : simpl never.

(** ** Lemmas *)

(** *** The blocks of the database *)

Definition hash_is (b : block) (h : list Z) : Prop := calculate_block_hash b None = Some h.

(** The block at a height: found by its height and by its hash, a child of the
    block before it. *)
Definition block_stored_at (t : block_tables) (bs : list block) (i : nat) (b : block) : Prop :=
  exists h bi blob, block_ok b /\ hash_is b h /\ m_block_info t !! (i : Z) = Some bi /\ ChainDb.bi_hash bi = h /\ block_to_blob b = Some blob /\ m_blocks t !! (i : Z) = Some blob /\
    m_block_heights t !! h = Some (i : Z) /\ (i <> O -> exists p, bs !! (i - 1)%nat = Some p /\ hash_is p (prev_id b)).

(** The blocks of the database, oldest first, form one chain. *)
Definition chain_is (t : block_tables) (bs : list block) : Prop :=
  ms_entries (m_blocks t) = length bs /\ (forall i b, bs !! i = Some b -> block_stored_at t bs i b) /\
  (forall h i, m_block_heights t !! h = Some i -> exists b, zlookup bs i = Some b /\ hash_is b h).

Lemma linked_add t bs b w ltw cd coins n h t' : chain_is t bs -> block_ok b -> hash_is b h -> add_block_tables t b w ltw cd coins n h = Ok t' -> chain_is t' (bs ++ [b]).
Proof.
  intros (Hsz & Hat & Hinv) Hok Hh E. pose proof (add_block_tables_undo _ _ _ _ _ _ _ _ _ E) as (Hsz' & _). unfold add_block_tables in E.
  step E u1 E1. step E u2 E2. step E blob E3. step E blocks E4. step E cum E5. step E info E6. simplify_eq. apply bool_decide_eq_true in E1. rewrite Hsz in *.
  apply append_Some in E4 as [-> _]. apply append_Some in E6 as [-> _]. cbn [m_blocks] in Hsz'. split; [cbn [m_blocks]; rewrite Hsz', length_app; cbn; lia|].
  split; cbn [m_blocks m_block_info m_block_heights].
  - intros i x Hi. apply lookup_app_Some in Hi as [Hi|[Hle Hi]].
    + pose proof (lookup_lt_Some _ _ _ Hi) as Hlt. destruct (Hat i x Hi) as (hx & bi & bl & A0 & A1 & A2 & A3 & A4 & A5 & A6 & A7). exists hx, bi, bl. cbn [m_blocks m_block_info m_block_heights].
      rewrite !lookup_insert_ne by (lia || congruence). split_and!; try done. intros Hn. destruct (A7 Hn) as (prev & P1 & P2). exists prev. split; [|done]. by rewrite lookup_app_l by lia.
    + apply list_lookup_singleton_Some in Hi as [Hz <-]. assert (i = length bs) as -> by lia. exists h. eexists. exists blob. cbn [m_blocks m_block_info m_block_heights]. rewrite !lookup_insert_eq.
      split_and!; try done. intros Hn. rewrite lookup_app_l by lia. rewrite (proj2 (Z.ltb_lt 0 (length bs))) in E2 by lia.
      step E2 prev Ep. apply require_Ok in E2. bcase_hyps. destruct (Hinv _ _ Ep) as (pb & Hpb & Hph). exists pb. split; [|done]. subst prev.
      unfold zlookup in Hpb. rewrite (proj2 (Z.leb_le 0 (length bs - 1))) in Hpb by lia. by replace (Z.to_nat (length bs - 1)) with (length bs - 1)%nat in Hpb by lia.
  - intros h' i. destruct (decide (h = h')) as [<-|Hne]; [rewrite lookup_insert_eq; intros [= <-]; exists b; rewrite zlookup_snoc; by rewrite decide_True|].
    rewrite lookup_insert_ne by done. intros Hi. destruct (Hinv _ _ Hi) as (x & Hx & Hxh). exists x. split; [|done]. rewrite zlookup_snoc. rewrite decide_False; [done|].
    pose proof (proj1 (zlookup_Some bs i) ltac:(by eexists)). lia.
Qed.

Lemma linked_remove t bs b t' : chain_is t (bs ++ [b]) -> remove_block t = Ok t' -> chain_is t' bs.
Proof.
  intros (Hsz & Hat & Hinv) E. rewrite length_app in Hsz. cbn in Hsz. destruct (Hat (length bs) b) as (h & bi & blob & _ & Hh & Hbi & Eh & Ebl & Hbl & Hhh & _); [by rewrite lookup_app_r, Nat.sub_diag by lia|].
  unfold remove_block in E. rewrite Hsz in E. replace ((length bs + 1)%nat - 1) with (Z.of_nat (length bs)) in E by lia. destruct (Z.eqb_spec (length bs + 1)%nat 0) as [?|_]; [lia|].
  rewrite Hbi in E. cbn [try mbind result_bind] in E. rewrite Eh, Hhh, Hbl in E. cbn [try mbind result_bind] in E. injection E as <-. split; [|split]; cbn [m_blocks m_block_info m_block_heights].
  - unfold ms_entries in *. rewrite map_size_delete_Some by (by eexists). lia.
  - intros i x Hi. pose proof (lookup_lt_Some _ _ _ Hi) as Hlt. destruct (Hat i x) as (hx & bix & bl & A0 & A1 & A2 & A3 & A4 & A5 & A6 & A7); [by rewrite lookup_app_l by lia|]. exists hx, bix, bl. cbn [m_blocks m_block_info m_block_heights].
    assert (h <> hx) by (intros <-; rewrite Hhh in A6; injection A6; lia). rewrite (lookup_delete_ne (m_block_info t)) by lia. rewrite (lookup_delete_ne (m_blocks t)) by lia. rewrite (lookup_delete_ne (m_block_heights t)) by done.
    split_and!; try done. intros Hn. destruct (A7 Hn) as (p & P1 & P2). exists p. split; [|done]. by rewrite lookup_app_l in P1 by lia.
  - intros h' i Hi. apply lookup_delete_Some in Hi as [Hne Hi]. destruct (Hinv _ _ Hi) as (x & Hx & Hxh). exists x. split; [|done]. rewrite zlookup_snoc in Hx. destruct (decide (i = length bs)) as [->|]; [|done]. simplify_eq. unfold hash_is in *. congruence.
Qed.

Lemma chain_snoc t bs : chain_is t bs -> 0 < ms_entries (m_blocks t) -> exists bs' b, bs = bs' ++ [b].
Proof. intros (Hsz & _) Hlt. destruct bs as [|b bs] using rev_ind; [cbn in Hsz; lia|by eauto]. Qed.

Lemma stored_block t bs (i : nat) b : chain_is t bs -> bs !! i = Some b -> exists blob, m_blocks t !! (i : Z) = Some blob /\ parse_and_validate_block_from_blob blob = Some b.
Proof.
  intros (_ & Hat & _) Hi. destruct (Hat i b Hi) as (h & bi & blob & Hok & _ & _ & _ & Ebl & Hbl & _). exists blob. split; [done|].
  destruct (parse_dump block_ok _ _ c_block _ Hok) as (blob' & Ed & _ & Ep). unfold block_to_blob in Ebl. rewrite Ebl in Ed. by simplify_eq.
Qed.

Lemma add_transaction_blocks f s te hp s' : add_transaction f s te hp = Ok s' -> d_blocks s' = d_blocks s.
Proof.
  unfold add_transaction. intros E. step E h Eh. step E ph Ep. step E sp Es. destruct sp as [spent miner]. step E td Et. destruct td as [txs id]. step E ot Eo. destruct ot as [outs idx]. step E t2 E2. by simplify_eq.
Qed.

Lemma add_block_chain f s be s' bs : chain_is (d_blocks s) bs -> block_ok (be_block be) -> ChainDb.add_block f s be = Ok s' -> chain_is (d_blocks s') (bs ++ [be_block be]).
Proof.
  intros Hc Hok E. unfold ChainDb.add_block in E. step E u Eu. step E h Eh. step E bd Ebd. step E s1 E1. step E s2 E2. step E t Et. simplify_eq. cbn [d_blocks].
  assert (Hs2 : d_blocks s2 = d_blocks s1). { clear -E2. revert s1 E2. generalize (tx_hashes (be_block be)). induction (be_txs be) as [|te tes IH]; intros [|h hs] s1 E2; cbn [add_transactions] in E2; try by simplify_eq.
    step E2 s3 E3. rewrite (IH _ _ E2). by eapply add_transaction_blocks. }
  rewrite Hs2, (add_transaction_blocks _ _ _ _ _ E1) in Et. by eapply linked_add.
Qed.

Lemma remove_transaction_blocks f s h s' : remove_transaction f s h = Ok s' -> d_blocks s' = d_blocks s.
Proof. unfold remove_transaction. intros E. step E tx Et. step E td Ed. destruct td as [txs outs]. by simplify_eq. Qed.

Lemma pop_transactions_blocks f l : forall s s' txs, pop_transactions f s l = Ok (s', txs) -> d_blocks s' = d_blocks s.
Proof.
  induction l as [|h l IH]; intros s s' txs E; cbn [pop_transactions] in E; [by simplify_eq|]. step E full Ef. step E tx Et. step E s1 E1. step E r Er. destruct r as [s2 txs2]. simplify_eq. rewrite (IH _ _ _ Er). by eapply remove_transaction_blocks.
Qed.

(** Popping takes the last block of the chain. *)
Lemma pop_block_chain f s s' blk txs bs : chain_is (d_blocks s) bs -> pop_block f s = Ok (s', blk, txs) -> exists bs', bs = bs' ++ [blk] /\ chain_is (d_blocks s') bs'.
Proof.
  intros Hc E. unfold pop_block in E. destruct (Z.eqb_spec (height s) 0) as [|Hh]; [done|]. unfold height in Hh. destruct (chain_snoc _ _ Hc) as (bs' & b & ->); [unfold ms_entries in *; lia|].
  assert (Hlen : height s - 1 = Z.of_nat (length bs')). { destruct Hc as (Hsz & _). unfold height. rewrite Hsz, length_app. cbn. lia. }
  step E b1 Eb. rewrite Hlen in Eb. destruct (stored_block _ _ (length bs') b Hc) as (blob & Hbl & Hp); [by rewrite lookup_app_r, Nat.sub_diag by lia|].
  unfold ChainDb.get_block_from_height in Eb. rewrite Hbl in Eb. cbn [try mbind result_bind] in Eb. rewrite Hp in Eb. cbn in Eb. simplify_eq.
  step E t Et. step E r Er. destruct r as [s1 txs1]. step E mh Emh. step E s2 E2. simplify_eq. exists bs'. split; [done|].
  rewrite (remove_transaction_blocks _ _ _ _ E2), (pop_transactions_blocks _ _ _ _ _ Er). cbn [d_blocks]. by eapply linked_remove.
Qed.

Lemma top_hash_chain s bs b : chain_is (d_blocks s) (bs ++ [b]) -> Z.of_nat (length bs) + 1 < 2 ^ 64 -> exists h th, top_block_hash s = Ok (h, th) /\ hash_is b h.
Proof.
  intros (Hsz & Hat & _) Hlt. destruct (Hat (length bs) b) as (h & bi & blob & _ & Hh & Hbi & Eh & _); [by rewrite lookup_app_r, Nat.sub_diag by lia|].
  unfold top_block_hash, height. rewrite Hsz, length_app. cbn [length]. destruct (Z.eqb_spec (length bs + 1)%nat 0) as [?|_]; [lia|]. cbn [negb]. rewrite wrap_small by (unfold is_uint; lia).
  replace ((length bs + 1)%nat - 1) with (Z.of_nat (length bs)) by lia. unfold ChainDb.get_block_hash_from_height. rewrite Hbi. cbn. rewrite Eh. by do 2 eexists.
Qed.

(** *** Nodes *)

Definition node_chain (nd : node) (bs : list block) : Prop := chain_is (d_blocks (n_db nd)) bs.

Section switching.
Context `{Crypto}.
Context (get_block_longhash : db -> block -> Z -> list Z) (get_altblock_longhash : block -> list Z -> list Z) (m_checkpoints : checkpoints) (m_blocks_hash_check : list (list Z * Z)) (now delay : Z) (in_batch : bool).

Abbreviation pop_from := (pop_block_from_blockchain m_blocks_hash_check now delay in_batch).
Abbreviation handle := (handle_block get_block_longhash m_checkpoints m_blocks_hash_check now delay in_batch).
Abbreviation add_all := (add_blocks get_block_longhash m_checkpoints m_blocks_hash_check now delay in_batch).
Abbreviation pop_n := (pop_blocks m_blocks_hash_check now delay in_batch).
Abbreviation pop_to := (pop_until m_blocks_hash_check now delay in_batch).
Abbreviation rollback := (rollback_blockchain_switching get_block_longhash m_checkpoints m_blocks_hash_check now delay in_batch).
Abbreviation switch := (switch_to_alternative_blockchain get_block_longhash m_checkpoints m_blocks_hash_check now delay in_batch).
Abbreviation alternative := (handle_alternative_block get_block_longhash get_altblock_longhash m_checkpoints m_blocks_hash_check now delay in_batch).

Lemma pop_from_chain nd keep b nd' bs : node_chain nd bs -> pop_from nd keep = Ok (b, nd') -> exists bs', bs = bs' ++ [b] /\ node_chain nd' bs' /\ n_alt_blocks nd' = n_alt_blocks nd /\ bs' <> [].
Proof.
  unfold pop_block_from_blockchain. intros Hc E. step E u Eu. step E v Ev. step E r Er. destruct r as [[s blk] txs]. step E hf Eh. cbv zeta in E. step E v2 Ev2. simplify_eq. cbn [n_db set_diff] in Er.
  destruct (pop_block_chain _ _ _ _ _ _ Hc Er) as (bs' & -> & Hc'). exists bs'. split; [done|].
  assert (Hne : bs' <> []). { apply Z.ltb_lt in Eu. cbn [set_diff n_db] in Eu. destruct Hc as (Hsz & _). unfold height in Eu. rewrite Hsz, length_app in Eu. cbn in Eu. intros ->. cbn in Eu. lia. }
  destruct keep; (destruct (negb _); (split; [exact Hc'|split; [done|exact Hne]])).
Qed.

Lemma handle_stored nd bl bvc nd' : handle nd bl = Ok (true, bvc, nd') ->
  m_added_to_main_chain bvc = true /\ n_alt_blocks nd' = n_alt_blocks nd /\ exists be, ChainDb.add_block zeroCommitVartime (n_db nd) be = Ok (n_db nd') /\ be_block be = bl.
Proof.
  intros E. unfold handle_block in E. step E bid Ei. step E o Eo. destruct o as [[[r0 bvc0] ps0] nd0]. simplify_eq.
  apply main_cases in Eo as [(? & _)|(th & hf & diff & d & fast & ps1 & cw & st & failure & _ & _ & _ & _ & E)]; [done|]. destruct failure; [by destruct E|].
  destruct (finish_accepted _ _ _ _ _ _ _ _ _ _ _ _ _ _ E eq_refl) as (be & Hs & -> & _). split; [done|]. split; [exact (sk_alt _ _ _ _ _ _ _ _ _ _ _ Hs)|].
  exists be. split; [exact (sk_added _ _ _ _ _ _ _ _ _ _ _ Hs)|exact (sk_block _ _ _ _ _ _ _ _ _ _ _ Hs)].
Qed.

Lemma handle_chain nd bl r bvc nd' bs : node_chain nd bs -> block_ok bl -> handle nd bl = Ok (r, bvc, nd') ->
  n_alt_blocks nd' = n_alt_blocks nd /\ if r && m_added_to_main_chain bvc then node_chain nd' (bs ++ [bl]) else node_chain nd' bs.
Proof.
  intros Hc Hok E. destruct r; cbn [andb].
  - destruct (handle_stored _ _ _ _ E) as (-> & Ha & be & Hadd & <-). split; [exact Ha|]. by eapply add_block_chain.
  - unfold handle_block in E. step E bid Ei. step E o Eo. destruct o as [[[r0 bvc0] ps0] nd0]. simplify_eq.
    destruct (main_refused _ _ _ _ _ _ _ _ _ _ _ _ _ _ Eo) as (Hdb & _ & _ & Ha). split; [done|]. unfold node_chain. by rewrite Hdb.
Qed.

Lemma chain_blocks_ok t bs : chain_is t bs -> Forall block_ok bs.
Proof. intros (_ & Hat & _). apply Forall_lookup. intros i b Hi. by destruct (Hat i b Hi) as (? & ? & ? & ? & _). Qed.

Lemma node_height nd bs : node_chain nd bs -> height (n_db nd) = length bs.
Proof. by intros (? & _). Qed.

Lemma add_all_chain bls : forall nd remaining nd' bs, node_chain nd bs -> Forall block_ok bls -> add_all nd bls = Ok (remaining, nd') ->
  n_alt_blocks nd' = n_alt_blocks nd /\ match remaining with None => node_chain nd' (bs ++ bls) | Some n => (S n <= length bls)%nat /\ node_chain nd' (bs ++ take (length bls - S n) bls) end.
Proof.
  induction bls as [|b bls IH]; intros nd rem nd' bs Hc HF E; cbn [add_blocks] in E; [simplify_eq; by rewrite app_nil_r|]. apply Forall_cons in HF as [Hb HF]. step E o Eo. destruct o as [[r bvc] nd1].
  destruct (handle_chain _ _ _ _ _ _ Hc Hb Eo) as [Ha Hc1]. destruct (r && m_added_to_main_chain bvc); cbn [negb] in E.
  - destruct (IH _ _ _ _ Hc1 HF E) as [Ha' Hr]. split; [by rewrite Ha', Ha|]. destruct rem as [n|]; [|by rewrite <- app_assoc in Hr]. destruct Hr as [Hn Hr]. split; [cbn; lia|]. cbn [length].
    replace (S (length bls) - S n)%nat with (S (length bls - S n)) by lia. cbn [take]. by rewrite <- app_assoc in Hr.
  - simplify_eq. split; [done|]. cbn [length]. split; [lia|]. rewrite Nat.sub_diag. cbn [take]. by rewrite app_nil_r.
Qed.

Lemma pop_n_chain n : forall nd popped l nd' bs, node_chain nd bs -> pop_n n nd popped = Ok (l, nd') -> node_chain nd' (take (length bs - n) bs) /\ n_alt_blocks nd' = n_alt_blocks nd.
Proof.
  induction n as [|n IH]; intros nd popped l nd' bs Hc E; cbn [pop_blocks] in E; [simplify_eq; by rewrite Nat.sub_0_r, firstn_all|]. step E o Eo. destruct o as [b nd1].
  destruct (pop_from_chain _ _ _ _ _ Hc Eo) as (bs' & -> & Hc1 & Ha & _). destruct (IH _ _ _ _ _ Hc1 E) as [Hc2 Ha2]. split; [|by rewrite Ha2]. rewrite length_app. cbn [length]. rewrite take_app_le by lia. by replace (length bs' + 1 - S n)%nat with (length bs' - n)%nat by lia.
Qed.

Lemma pop_to_chain fuel : forall nd prev popped l nd' bs, node_chain nd bs -> pop_to fuel nd prev popped = Ok (l, nd') ->
  exists k, (k <= length bs)%nat /\ (bs <> [] -> k <> O) /\ node_chain nd' (take k bs) /\ l = drop k bs ++ popped /\ n_alt_blocks nd' = n_alt_blocks nd /\ exists th, top_block_hash (n_db nd') = Ok (prev, th).
Proof.
  induction fuel as [|fuel IH]; intros nd prev popped l nd' bs Hc E; cbn [pop_until] in E; step E tp Et; destruct tp as [h th]; case_bool_decide as Hh; try done.
  1, 2: simplify_eq; exists (length bs); split; [done|]; rewrite firstn_all, drop_all; split_and!; try done; [by destruct bs|by eexists].
  step E o Eo. destruct o as [b nd1]. destruct (pop_from_chain _ _ _ _ _ Hc Eo) as (bs' & -> & Hc1 & Ha & Hne). destruct (IH _ _ _ _ _ _ Hc1 E) as (k & Hk & Hk0 & Hc2 & -> & Ha2 & Ht). exists k. rewrite length_app. cbn [length]. split; [lia|].
  split; [intros _; by apply Hk0|]. rewrite take_app_le, drop_app_le by lia. rewrite <- app_assoc. split_and!; try done. by rewrite Ha2.
Qed.

Lemma update_limit_chain nd nd' : update_weight_limit m_blocks_hash_check now nd = Ok nd' -> n_db nd' = n_db nd /\ n_alt_blocks nd' = n_alt_blocks nd.
Proof. unfold update_weight_limit. intros E. step E bc Eb. by simplify_eq. Qed.

Lemma reorganize_hf_chain nd h nd' : reorganize_hardfork nd h = Ok nd' -> n_db nd' = n_db nd /\ n_alt_blocks nd' = n_alt_blocks nd.
Proof. unfold reorganize_hardfork. intros E. step E r Er. destruct r as [[ok hf] hdb]. by simplify_eq. Qed.

Lemma rollback_chain nd orig (h : nat) r nd' bs : node_chain nd bs -> Forall block_ok orig -> (h <= length bs)%nat -> rollback nd orig h = Ok (r, nd') ->
  n_alt_blocks nd' = n_alt_blocks nd /\ exists k, node_chain nd' (take h bs ++ take k orig) /\ (r = true -> take k orig = orig).
Proof.
  intros Hc HF Hh E. unfold rollback_blockchain_switching in E. rewrite (node_height _ _ Hc) in E. destruct (Z.ltb_spec (length bs) h) as [?|_]; [lia|]. cbn [set_diff n_db] in E. rewrite (node_height _ _ Hc) in E.
  step E o Eo. destruct o as [l nd1]. replace (Z.to_nat (length bs - h)) with (length bs - h)%nat in Eo by lia. destruct (pop_n_chain _ (set_diff nd (forget_window (n_diff nd))) _ _ _ bs Hc Eo) as [Hc1 Ha1]. cbn [set_diff n_alt_blocks] in Ha1. replace (length bs - (length bs - h))%nat with h in Hc1 by lia.
  step E nd2 E2. destruct (update_limit_chain _ _ E2) as [D2 A2]. step E nd3 E3. destruct (reorganize_hf_chain _ _ _ E3) as [D3 A3].
  step E o Eo2. destruct o as [rem nd4]. assert (Hc3 : node_chain nd3 (take h bs)) by (unfold node_chain; by rewrite D3, D2). destruct (add_all_chain _ _ _ _ _ Hc3 HF Eo2) as [Ha4 Hr].
  destruct rem as [n|].
  - simplify_eq. destruct Hr as [_ Hr]. split; [congruence|]. exists (length orig - S n)%nat. split; [done|done].
  - step E nd5 E5. destruct (reorganize_hf_chain _ _ _ E5) as [D5 A5]. simplify_eq. split; [congruence|]. exists (length orig). rewrite firstn_all. split; [unfold node_chain; by rewrite D5|done].
Qed.

Lemma remove_alt_chain bls : forall nd nd', remove_alt_blocks nd bls = Ok nd' -> n_db nd' = n_db nd /\ n_alt_blocks nd' ⊆ n_alt_blocks nd.
Proof.
  induction bls as [|b bls IH]; intros nd nd' E; cbn [remove_alt_blocks] in E; [by simplify_eq|]. step E bid Ei. step E nd1 E1. unfold remove_alt_block in E1. step E1 x Ex. simplify_eq. destruct (IH _ _ E) as [D A]. split; [done|]. etrans; [exact A|]. apply delete_subseteq.
Qed.

(** The block with a hash is at one height only. *)
Lemma chain_hash_unique t bs (i j : nat) b b' h : chain_is t bs -> bs !! i = Some b -> bs !! j = Some b' -> hash_is b h -> hash_is b' h -> i = j.
Proof.
  intros (_ & Hat & _) Hi Hj Hb Hb'. destruct (Hat i b Hi) as (h1 & _ & _ & _ & H1 & _ & _ & _ & _ & E1 & _). destruct (Hat j b' Hj) as (h2 & _ & _ & _ & H2 & _ & _ & _ & _ & E2 & _).
  unfold hash_is in *. assert (h1 = h2) as -> by congruence. rewrite E1 in E2. injection E2. lia.
Qed.

(** The last block that stays when the chain is popped back to a hash. *)
Lemma top_is_parent nd (bs : list block) k prev th (i : nat) b : node_chain nd (take k bs) -> (k <= length bs)%nat -> k <> O -> Z.of_nat (length bs) < 2 ^ 64 -> top_block_hash (n_db nd) = Ok (prev, th) ->
  forall t, chain_is t bs -> bs !! i = Some b -> hash_is b prev -> S i = k.
Proof.
  intros Hc Hk Hk0 Hlt Ht t Ht' Hi Hh. destruct k as [|k]; [done|]. destruct (lookup_lt_is_Some_2 bs k ltac:(lia)) as [b' Hb']. rewrite (take_S_r _ _ _ Hb') in Hc.
  destruct (top_hash_chain _ _ _ Hc) as (h & th' & Ht2 & Hh2); [rewrite length_take; lia|]. rewrite Ht in Ht2. simplify_eq. f_equal. by eapply chain_hash_unique.
Qed.

Definition alternative_keeps_chain (alt : node -> block -> list Z -> block_verification_context -> pool_supplement -> result outcome) : Prop :=
  forall nd b bid bvc ps r bvc' ps' nd', alt nd b bid bvc ps = Ok (r, bvc', ps', nd') -> n_db nd' = n_db nd.

Lemma disconnected_keeps alt l : alternative_keeps_chain alt -> forall nd nd',
  foldl (fun r b => nd ← r; bid ← try RUNTIME_ERROR (calculate_block_hash b None); '(_, _, _, nd) ← alt nd b bid new_bvc no_supplement; Ok nd) (Ok nd) l = Ok nd' -> n_db nd' = n_db nd.
Proof.
  intros Halt. assert (Hf : forall l e, foldl (fun r b => nd ← r; bid ← try RUNTIME_ERROR (calculate_block_hash b None); '(_, _, _, nd) ← alt nd b bid new_bvc no_supplement; Ok nd) (Err e) l = Err e) by (clear; induction l; done).
  induction l as [|b l IH]; intros nd nd' E; cbn [foldl] in E; [by simplify_eq|]. cbn [mbind result_bind] in E. destruct (calculate_block_hash b None) as [bid|]; cbn [try mbind result_bind] in E; [|by rewrite Hf in E].
  destruct (alt nd b bid new_bvc no_supplement) as [[[[r bvc] ps] nd1]|] eqn:Ea; cbn [mbind result_bind] in E; [|by rewrite Hf in E]. rewrite (IH _ _ E). by eapply Halt.
Qed.

Lemma switch_chain alt nd alt_chain discard r nd' bs : node_chain nd bs -> Z.of_nat (length bs) < 2 ^ 64 -> Forall block_ok (map bl alt_chain) -> (discard = true \/ alternative_keeps_chain alt) -> switch alt nd alt_chain discard = Ok (r, nd') ->
  if r then exists k front p, head alt_chain = Some front /\ bs !! k = Some p /\ hash_is p (prev_id (bl front)) /\ node_chain nd' (take (S k) bs ++ map bl alt_chain)
  else exists n, node_chain nd' (take n bs) /\ forall front i p, head alt_chain = Some front -> bs !! i = Some p -> hash_is p (prev_id (bl front)) -> (i < n)%nat.
Proof.
  intros Hc Hlt HF Hd E. assert (Hall : node_chain nd (take (length bs) bs)) by (by rewrite firstn_all). unfold switch_to_alternative_blockchain in E. cbv zeta in E. destruct alt_chain as [|front alts]; [simplify_eq; by exists (length bs)|].
  cbn [set_diff n_db] in E. destruct (block_exists (n_db nd) (prev_id (bl front))) eqn:Ex; cbn [negb] in E; [|simplify_eq; exists (length bs); split; [done|]; intros ? i p _ Hi _; by eapply lookup_lt_Some].
  step E o Eo. destruct o as [disc nd1]. destruct (pop_to_chain _ (set_diff nd (forget_window (n_diff nd))) _ _ _ _ bs Hc Eo) as (k & Hk & Hk0 & Hc1 & -> & _ & th & Ht). rewrite app_nil_r in E.
  apply bool_decide_eq_true in Ex as [i0 Ei0]. pose proof Hc as (_ & Hat & Hinv). destruct (Hinv _ _ Ei0) as (p0 & Hp0 & Hh0). assert (Hp0' : bs !! Z.to_nat i0 = Some p0) by (unfold zlookup in Hp0; destruct (0 <=? i0); done).
  assert (Hk1 : k <> O) by (apply Hk0; intros ->; done). pose proof (fun i p => top_is_parent _ bs k _ th i p Hc1 Hk Hk1 Hlt Ht _ Hc) as Hpar. pose proof (Hpar _ _ Hp0' Hh0) as Ek.
  step E nd2 E2. destruct (update_limit_chain _ _ E2) as [D2 _]. assert (Hc2 : node_chain nd2 (take k bs)) by (unfold node_chain; by rewrite D2). step E o Eo2. destruct o as [rem nd3].
  assert (Hsplit : height (n_db nd2) = Z.of_nat k) by (rewrite (node_height _ _ Hc2), length_take; lia). rewrite Hsplit in E. destruct (add_all_chain _ _ _ _ _ Hc2 HF Eo2) as [_ Hadd]. destruct rem as [n|].
  - destruct Hadd as [Hn Hc3]. step E o Eo3. destruct o as [rb nd4]. destruct (rollback_chain _ (drop k bs) k _ _ _ Hc3 ltac:(by apply Forall_drop, (chain_blocks_ok _ _ Hc)) ltac:(rewrite length_app, length_take; lia) Eo3) as (_ & j & Hc4 & _).
    step E nd5 E5. destruct (remove_alt_chain _ _ _ E5) as [D5 _]. injection E as <- <-. exists (k + j)%nat. split.
    + unfold node_chain. rewrite D5. rewrite take_app_le, take_take in Hc4 by (rewrite length_take; lia). rewrite Nat.min_id in Hc4. by rewrite <- take_take_drop.
    + intros ? i p [= <-] Hi Hh. pose proof (Hpar _ _ Hi Hh). lia.
  - step E nd4 E4. assert (D4 : n_db nd4 = n_db nd3). { destruct discard; [by simplify_eq|]. destruct Hd as [|Hd]; [done|]. by eapply disconnected_keeps. }
    step E nd5 E5. destruct (remove_alt_chain _ _ _ E5) as [D5 _]. step E nd6 E6. destruct (reorganize_hf_chain _ _ _ E6) as [D6 _]. injection E as <- <-. exists (Z.to_nat i0), front, p0. split_and!; try done. unfold node_chain. by rewrite D6, D5, D4, Ek.
Qed.

(** *** Everything that can happen to the chain *)

Definition alts_ok (nd : node) : Prop := forall bid d blob, n_alt_blocks nd !! bid = Some (d, blob) -> exists b, block_ok b /\ block_to_blob b = Some blob /\ hash_is b bid.

(** One chain from the genesis block [g], and alternative blocks under their hashes. *)
Definition good (g : block) (nd : node) : Prop := alts_ok nd /\ exists bs, node_chain nd bs /\ head bs = Some g.

Lemma good_same g nd nd' : n_db nd' = n_db nd -> n_alt_blocks nd' ⊆ n_alt_blocks nd -> good g nd -> good g nd'.
Proof.
  intros Hdb Hs [Ha (bs & Hc & Hg)]. split; [intros bid d blob Hb; eapply Ha; by eapply lookup_weaken|]. exists bs. split; [|done]. unfold node_chain. by rewrite Hdb.
Qed.

Lemma head_app (bs l : list block) g : head bs = Some g -> head (bs ++ l) = Some g.
Proof. by destruct bs. Qed.
Lemma head_take (bs : list block) k g : head bs = Some g -> k <> O -> head (take k bs) = Some g.
Proof. destruct bs, k; done. Qed.

Lemma alt_loop_ok fuel t : (forall bid d blob, t !! bid = Some (d, blob) -> exists b, block_ok b /\ block_to_blob b = Some blob /\ hash_is b bid) -> forall prev acc ts l ts',
  Forall block_ok (map bl acc) -> alt_chain_loop fuel t prev acc ts = Ok (Some (l, ts')) -> Forall block_ok (map bl l).
Proof.
  intros Ht. induction fuel as [|fuel IH]; intros prev acc ts l ts' HF E; cbn [alt_chain_loop] in E; destruct (t !! prev) as [[d blob]|] eqn:Ep; try done; try by simplify_eq.
  destruct (parse_and_validate_block_from_blob blob) as [b|] eqn:Eb; [|done]. eapply IH; [|exact E]. cbn. constructor; [|done]. destruct (Ht _ _ _ Ep) as (b' & Hok & Hbl & _).
  destruct (parse_dump block_ok _ _ c_block _ Hok) as (blob' & Ed & _ & Epd). unfold block_to_blob in Hbl. rewrite Hbl in Ed. simplify_eq. unfold parse_and_validate_block_from_blob in Eb. rewrite Eb in Epd. by simplify_eq.
Qed.

Lemma build_ok g nd prev l ts : good g nd -> build_alt_chain nd prev = Ok (Some (l, ts)) -> Forall block_ok (map bl l).
Proof.
  intros [Ha _] E. unfold build_alt_chain in E. step E o Eo. destruct o as [[l0 ts0]|]; [|done]. assert (Hl : Forall block_ok (map bl l0)) by (eapply alt_loop_ok; [exact Ha| |exact Eo]; constructor).
  destruct l0 as [|front l0].
  - destruct (negb _); [done|]. step E tp Et. step E ts1 Ets. by simplify_eq.
  - destruct (negb (bei_height front <? _)); [done|]. destruct (negb (block_exists _ _)); [done|]. step E h Eh. destruct (negb _); [done|]. step E tp Et. step E ts1 Ets. by simplify_eq.
Qed.

Definition alt_good (g : block) (alt : node -> block -> list Z -> block_verification_context -> pool_supplement -> result outcome) : Prop :=
  forall nd b bid bvc ps r bvc' ps' nd', good g nd -> block_ok b -> hash_is b bid -> alt nd b bid bvc ps = Ok (r, bvc', ps', nd') -> good g nd'.

Lemma disconnected_good g alt l : alt_good g alt -> Forall block_ok l -> forall nd nd', good g nd ->
  foldl (fun r b => nd ← r; bid ← try RUNTIME_ERROR (calculate_block_hash b None); '(_, _, _, nd) ← alt nd b bid new_bvc no_supplement; Ok nd) (Ok nd) l = Ok nd' -> good g nd'.
Proof.
  intros Halt. assert (Hf : forall l e, foldl (fun r b => nd ← r; bid ← try RUNTIME_ERROR (calculate_block_hash b None); '(_, _, _, nd) ← alt nd b bid new_bvc no_supplement; Ok nd) (Err e) l = Err e) by (clear; induction l; done).
  induction l as [|b l IH]; intros HF nd nd' Hg E; cbn [foldl] in E; [by simplify_eq|]. apply Forall_cons in HF as [Hb HF]. cbn [mbind result_bind] in E. destruct (calculate_block_hash b None) as [bid|] eqn:Eb; cbn [try mbind result_bind] in E; [|by rewrite Hf in E].
  destruct (alt nd b bid new_bvc no_supplement) as [[[[r bvc] ps] nd1]|] eqn:Ea; cbn [mbind result_bind] in E; [|by rewrite Hf in E]. eapply IH; [done| |exact E]. by eapply Halt.
Qed.

Lemma switch_good g alt nd alt_chain discard r nd' : alt_good g alt -> good g nd -> Forall block_ok (map bl alt_chain) -> switch alt nd alt_chain discard = Ok (r, nd') -> good g nd'.
Proof.
  intros Halt Hgood HF E. unfold switch_to_alternative_blockchain in E. cbv zeta in E. destruct alt_chain as [|front alts]; [simplify_eq; by apply (good_same _ nd)|]. cbn [set_diff n_db] in E.
  destruct (negb (block_exists _ _)); [simplify_eq; by apply (good_same _ nd)|]. pose proof Hgood as [Ha (bs & Hc & Hg)]. step E o Eo. destruct o as [disc nd1].
  destruct (pop_to_chain _ (set_diff nd (forget_window (n_diff nd))) _ _ _ _ bs Hc Eo) as (k & Hk & Hk0 & Hc1 & -> & Ha1 & _). rewrite app_nil_r in E. assert (Hk1 : k <> O) by (apply Hk0; by destruct bs).
  step E nd2 E2. destruct (update_limit_chain _ _ E2) as [D2 A2]. assert (Hc2 : node_chain nd2 (take k bs)) by (unfold node_chain; by rewrite D2). step E o Eo2. destruct o as [rem nd3].
  assert (Hsplit : height (n_db nd2) = Z.of_nat k) by (rewrite (node_height _ _ Hc2), length_take; lia). rewrite Hsplit in E. destruct (add_all_chain _ _ _ _ _ Hc2 HF Eo2) as [A3 Hadd].
  assert (Hak : n_alt_blocks nd3 = n_alt_blocks nd) by (rewrite A3, A2, Ha1; done). assert (Hdisc : Forall block_ok (drop k bs)) by (apply Forall_drop, (chain_blocks_ok _ _ Hc)). destruct rem as [n|].
  - destruct Hadd as [Hn Hc3]. step E o Eo3. destruct o as [rb nd4]. destruct (rollback_chain _ (drop k bs) k _ _ _ Hc3 Hdisc ltac:(rewrite length_app, length_take; lia) Eo3) as (A4 & j & Hc4 & _).
    step E nd5 E5. destruct (remove_alt_chain _ _ _ E5) as [D5 A5]. injection E as <- <-. apply (good_same _ nd4); [done|done|]. split; [unfold alts_ok; by rewrite A4, Hak|]. eexists. split; [exact Hc4|]. apply head_app, head_take; [|done]. by apply head_app, head_take.
  - step E nd4 E4. assert (Hg3 : good g nd3). { split; [unfold alts_ok; by rewrite Hak|]. eexists. split; [exact Hadd|]. by apply head_app, head_take. }
    assert (Hg4 : good g nd4) by (destruct discard; [by simplify_eq|by eapply disconnected_good]).
    step E nd5 E5. destruct (remove_alt_chain _ _ _ E5) as [D5 A5]. step E nd6 E6. destruct (reorganize_hf_chain _ _ _ E6) as [D6 A6]. injection E as <- <-. apply (good_same _ nd5); [done|by rewrite A6|]. by apply (good_same _ nd4).
Qed.

(** The work of an alternative chain up to a block on it: that of the parent and
    the difficulty of the block. *)
Definition alt_work (nd : node) (alt_chain : list block_extended_info) (bei : block_extended_info) (diff : Z) : Prop :=
  exists prev, cumulative_difficulty bei = u128 (prev + diff) /\
    match (if bool_decide (alt_chain = []) then None else n_alt_blocks nd !! prev_id (bl bei)) with
    | Some (data, _) => prev = join_difficulty data
    | None => exists h, get_block_height (n_db nd) (prev_id (bl bei)) = Ok h /\ get_block_cumulative_difficulty (n_db nd) h = Ok prev
    end.

(** An alternative block is turned away, or it is on a chain that was built, with
    enough work for its difficulty, and stored. *)
Lemma alternative_cases fuel nd b bid bvc ps r bvc' ps' nd' : alternative (S fuel) nd b bid bvc ps = Ok (r, bvc', ps', nd') ->
  (n_db nd' = n_db nd /\ n_alt_blocks nd' = n_alt_blocks nd) \/
  exists nd1 alt_chain ts bei diff is_cp main, n_db nd1 = n_db nd /\ n_alt_blocks nd1 = n_alt_blocks nd /\
    build_alt_chain (set_diff nd (forget_window (n_diff nd))) (prev_id b) = Ok (Some (alt_chain, ts)) /\ bl bei = b /\ check_block m_checkpoints (bei_height bei) bid = (true, is_cp) /\
    get_next_difficulty_for_alternative_chain (m_fixed_difficulty (n_diff nd)) (m_hardfork nd) (n_db nd) alt_chain (mk_bei b (bei_height bei) 0 0 (already_generated_coins bei)) = Ok diff /\
    check_hash (alt_proof_of_work get_block_longhash get_altblock_longhash (set_diff nd (forget_window (n_diff nd))) b (bei_height bei) alt_chain) diff = true /\ alt_work nd alt_chain bei diff /\
    get_block_cumulative_difficulty (n_db nd) (height (n_db nd) ⊟ 1) = Ok main /\
    store_alternative get_block_longhash m_checkpoints m_blocks_hash_check now delay in_batch (alternative fuel) nd1 bid bei alt_chain is_cp main bvc no_supplement = Ok (r, bvc', ps', nd').
Proof.
  intros E. cbn [handle_alternative_block] in E. cbv zeta in E. cbn [set_diff n_db n_alt_blocks m_hardfork n_diff m_fixed_difficulty forget_window] in E.
  destruct (_ || negb _); [left; by simplify_eq|]. step E vok Ev. destruct (negb vok); [left; by simplify_eq|]. destruct (negb (_ || _)); [left; by simplify_eq|].
  step E built Eb. destruct built as [[alt_chain ts]|]; [|left; by simplify_eq]. step E pr Ep. destruct pr as [[ph pc] pd].
  destruct (negb (check_block_timestamp _ _ _).1); [left; by simplify_eq|]. destruct (check_block m_checkpoints (ph ⊞ 1) bid) as [cok is_cp] eqn:Ecp. destruct cok; cbn [negb] in E; [|left; by simplify_eq].
  step E diff Ed. destruct (diff =? 0); [left; by simplify_eq|]. destruct (check_hash _ diff) eqn:Ew; cbn [negb] in E; [|left; by simplify_eq]. destruct (negb (prevalidate_miner_transaction _ _ _)); [left; by simplify_eq|].
  step E main Em. step E sp Es. destruct sp as [sok ps1]. destruct (negb sok); [left; by simplify_eq|]. destruct (supplement_to_pool _ _ _ _ _ _) as [entered p]. destruct (negb entered); [left; by simplify_eq|].
  right. eexists. exists alt_chain, ts. eexists. exists diff, is_cp, main. split_and!; last exact E; try done.
  exists pd. split; [done|]. cbn [bl]. destruct (if bool_decide (alt_chain = []) then None else _) as [[data blob]|]; [by simplify_eq|]. step Ep h Eh. step Ep c Ec. step Ep d Edd. simplify_eq. by exists ph.
Qed.

(** Storing the block: the chain changes only by a switch, to a checkpoint or to
    more work. *)
Lemma store_alternative_cases alt nd bid bei alt_chain is_cp main bvc ps r bvc' ps' nd' :
  store_alternative get_block_longhash m_checkpoints m_blocks_hash_check now delay in_batch alt nd bid bei alt_chain is_cp main bvc ps = Ok (r, bvc', ps', nd') ->
  (n_db nd' = n_db nd /\ n_alt_blocks nd' = n_alt_blocks nd) \/
  exists nd1 w blob data, n_db nd1 = n_db nd /\ block_to_blob (bl bei) = Some blob /\ n_alt_blocks nd1 = <[bid := (data, blob)]> (n_alt_blocks nd) /\
    if is_cp || (main <? cumulative_difficulty bei)
    then switch alt nd1 (alt_chain ++ [mk_bei (bl bei) (bei_height bei) w (cumulative_difficulty bei) (already_generated_coins bei)]) is_cp = Ok (r, nd')
    else nd' = nd1.
Proof.
  unfold store_alternative. intros E. step E cw Ecw. step E w1 Ew. destruct w1 as [w1|]; [|left; by simplify_eq]. destruct (negb _); [left; by simplify_eq|]. cbv zeta in E. step E blob Ebl. step E nd1 E1. unfold add_alt_block in E1. step E1 u Eu. simplify_eq.
  cbn [bei_height already_generated_coins] in E. right. eexists. exists w1, blob. eexists. split; [|split; [exact Ebl|split; [|destruct (is_cp || (main <? cumulative_difficulty bei))]]]; cycle 2.
  - step E o Eo. destruct o as [r0 nd2]. simplify_eq. exact Eo.
  - by simplify_eq.
  - done.
  - done.
Qed.

Lemma store_good g alt nd bid bei alt_chain is_cp main bvc ps r bvc' ps' nd' : alt_good g alt -> good g nd -> block_ok (bl bei) -> hash_is (bl bei) bid -> Forall block_ok (map bl alt_chain) ->
  store_alternative get_block_longhash m_checkpoints m_blocks_hash_check now delay in_batch alt nd bid bei alt_chain is_cp main bvc ps = Ok (r, bvc', ps', nd') -> good g nd'.
Proof.
  intros Halt Hg Hb Hh HF [(D & A)|(nd1 & w & blob & data & D & Hbl & A & Hs)]%store_alternative_cases; [apply (good_same _ nd); [done|by rewrite A|done]|].
  assert (Hg1 : good g nd1).
  { destruct Hg as [Ha (bs & Hc & Hhd)]. split; [|exists bs; split; [unfold node_chain; by rewrite D|done]]. intros k d bb Hk. rewrite A in Hk. apply lookup_insert_Some in Hk as [[<- [= <- <-]]|[_ Hk]]; [by exists (bl bei)|]. by eapply Ha. }
  destruct (_ || _); [|by subst]. eapply switch_good; [done|done| |exact Hs]. rewrite map_app. apply Forall_app. split; [done|by constructor].
Qed.

Lemma alternative_good g fuel : alt_good g (alternative fuel).
Proof.
  induction fuel as [|fuel IH]; intros nd b bid bvc ps r bvc' ps' nd' Hg Hb Hh E; [done|]. apply alternative_cases in E as [(D & A)|(nd1 & alt_chain & ts & bei & diff & is_cp & main & D1 & A1 & Hbuild & <- & _ & _ & _ & _ & _ & E)].
  - apply (good_same _ nd); [done|by rewrite A|done].
  - eapply store_good; [exact IH| |done|done| |exact E]; [apply (good_same _ nd); [done|by rewrite A1|done]|]. eapply (build_ok g); [|exact Hbuild]. by apply (good_same _ nd).
Qed.

Lemma add_new_good g fuel nd b bvc ps r bvc' ps' nd' : good g nd -> block_ok b -> add_new_block get_block_longhash get_altblock_longhash m_checkpoints m_blocks_hash_check now delay in_batch fuel nd b bvc ps = Ok (r, bvc', ps', nd') ->
  bvc_verifivation_failed bvc = false -> good g nd'.
Proof.
  intros Hg Hb E Hbvc. unfold add_new_block in E. step E bid Ei. destruct (have_block nd bid); [by simplify_eq|]. step E tp Et. destruct tp as [top_hash th]. destruct (negb _); [by eapply alternative_good|]. destruct r.
  - apply main_cases in E as [(? & _)|(th' & hf & diff & d & fast & ps1 & cw & st & failure & _ & _ & _ & _ & E)]; [done|]. destruct failure; [by destruct E|].
    destruct (finish_accepted _ _ _ _ _ _ _ _ _ _ _ _ _ _ E Hbvc) as (be & Hs & _). pose proof (sk_added _ _ _ _ _ _ _ _ _ _ _ Hs) as Ha. pose proof (sk_block _ _ _ _ _ _ _ _ _ _ _ Hs) as Hbe. pose proof (sk_alt _ _ _ _ _ _ _ _ _ _ _ Hs) as Halt.
    destruct Hg as [Hao (bs & Hc & Hhd)]. split; [unfold alts_ok; by rewrite Halt|]. exists (bs ++ [b]). split; [|by apply head_app]. unfold node_chain. rewrite <- Hbe. eapply add_block_chain; [exact Hc|by rewrite Hbe|exact Ha].
  - destruct (main_refused _ _ _ _ _ _ _ _ _ _ _ _ _ _ E) as (Hdb & _ & _ & Ha). apply (good_same _ nd); [done|by rewrite Ha|done].
Qed.

End switching.

(** ** Theorems *)


(** C8: The main chain is left only for more work or for a checkpoint: when an
    alternative block changes the database, it is at a checkpoint, or its proof of
    work meets the difficulty of its chain and the cumulative difficulty of that
    chain exceeds the one of the main chain. *)
Theorem switch_needs_work `{Crypto} longhash althash points known now delay in_batch fuel nd b bid bvc ps r bvc' ps' nd' :
  handle_alternative_block longhash althash points known now delay in_batch fuel nd b bid bvc ps = Ok (r, bvc', ps', nd') -> n_db nd' <> n_db nd ->
  (exists h, map_find (m_points points) h = Some bid) \/
  exists alt_chain ts bei diff main, build_alt_chain (set_diff nd (forget_window (n_diff nd))) (prev_id b) = Ok (Some (alt_chain, ts)) /\ bl bei = b /\
    get_next_difficulty_for_alternative_chain (m_fixed_difficulty (n_diff nd)) (m_hardfork nd) (n_db nd) alt_chain (mk_bei b (bei_height bei) 0 0 (already_generated_coins bei)) = Ok diff /\
    check_hash (alt_proof_of_work longhash althash (set_diff nd (forget_window (n_diff nd))) b (bei_height bei) alt_chain) diff = true /\
    alt_work nd alt_chain bei diff /\ get_block_cumulative_difficulty (n_db nd) (height (n_db nd) ⊟ 1) = Ok main /\ main < cumulative_difficulty bei.
Proof.
  intros E Hne. destruct fuel as [|fuel]; [done|]. apply alternative_cases in E as [(D & _)|(nd1 & alt_chain & ts & bei & diff & is_cp & main & D1 & A1 & Hbuild & Hb & Hcp & Hd & Hw & Hwork & Hm & E)]; [done|].
  apply store_alternative_cases in E as [(D & _)|(nd2 & w & blob & data & D & _ & _ & Hs)]; [congruence|]. destruct is_cp; cbn [orb] in Hs.
  - left. unfold check_block in Hcp. destruct (map_find (m_points points) (bei_height bei)) as [h|] eqn:Ef; [|done]. exists (bei_height bei). rewrite Ef. case_bool_decide; by simplify_eq.
  - destruct (Z.ltb_spec main (cumulative_difficulty bei)) as [Hlt|_]; [|subst; congruence]. right. by exists alt_chain, ts, bei, diff, main.
Qed.

(** A new block handled by the node, whatever the time, the checkpoints and the
    proofs of work. *)
Inductive node_step `{Crypto} : node -> node -> Prop :=
  | step_new_block longhash althash points known now delay in_batch fuel nd b bvc ps r bvc' ps' nd' : block_ok b -> bvc_verifivation_failed bvc = false ->
      add_new_block longhash althash points known now delay in_batch fuel nd b bvc ps = Ok (r, bvc', ps', nd') -> node_step nd nd'.

(** C1: Whatever blocks a node is given from its genesis block on, whichever are
    refused, kept as alternatives or cause reorganizations, its database holds one
    chain from that genesis block: every block is found by its height and by its
    hash, and refers to the hash of the block before it. *)
Theorem chain_always_linked `{Crypto} f seed be nd0 nd :
  ChainDb.add_block f (empty_db seed) be = Ok (n_db nd0) -> block_ok (be_block be) -> n_alt_blocks nd0 = ∅ -> rtc node_step nd0 nd ->
  exists bs, head bs = Some (be_block be) /\ height (n_db nd) = length bs /\
    (forall (i : nat) b, bs !! i = Some b -> exists h, calculate_block_hash b None = Some h /\ ChainDb.get_block_from_height (n_db nd) i = Ok b /\
       ChainDb.get_block_hash_from_height (n_db nd) i = Ok h /\ get_block_height (n_db nd) h = Ok (i : Z) /\ (i <> O -> ChainDb.get_block_hash_from_height (n_db nd) (i - 1) = Ok (prev_id b))) /\
    (forall h, block_exists (n_db nd) h = true -> exists i b, bs !! i = Some b /\ calculate_block_hash b None = Some h).
Proof.
  intros Ha Hb Halt Hr. assert (Hg0 : good (be_block be) nd0).
  { split; [intros bid d blob Hl; by rewrite Halt, lookup_empty in Hl|]. exists [be_block be]. split; [|done]. eapply (add_block_chain f (empty_db seed) be _ []); [|done|exact Ha]. split; [done|]. split; [by intros [] ?|]. intros h i Hi. cbn in Hi. by rewrite lookup_empty in Hi. }
  assert (Hg : good (be_block be) nd) by (clear -Hg0 Hr; induction Hr as [|x y z Hs _ IH]; [done|]; apply IH; destruct Hs; by eapply add_new_good).
  destruct Hg as [_ (bs & Hc & Hhd)]. exists bs. split; [done|]. split; [by apply node_height|]. split.
  - intros i b Hi. pose proof (stored_block _ _ _ _ Hc Hi) as (blob & Hbl & Hp). destruct Hc as (_ & Hat & _). destruct (Hat i b Hi) as (h & bi & blob' & _ & Hh & Hbi & Eh & _ & _ & Hhh & Hprev).
    exists h. unfold ChainDb.get_block_from_height, ChainDb.get_block_hash_from_height, get_block_height. rewrite Hbl, Hbi, Hhh. cbn [try mbind result_bind]. rewrite Hp, Eh. cbn [try]. split_and!; try done.
    intros Hn. destruct (Hprev Hn) as (p & Hip & Hph). destruct (Hat _ p Hip) as (h' & bi' & _ & _ & Hh' & Hbi' & Eh' & _). replace (i - 1) with (Z.of_nat (i - 1)) by lia. rewrite Hbi'. cbn. rewrite Eh'. unfold hash_is in *. congruence.
  - intros h Hh. apply bool_decide_eq_true in Hh as [i Hi]. destruct Hc as (_ & _ & Hinv). destruct (Hinv _ _ Hi) as (b & Hz & Hbh). exists (Z.to_nat i), b. split; [|done]. unfold zlookup in Hz. by destruct (0 <=? i).
Qed.

(** ** Examples *)

Definition genesis_hash : list Z :=
  [79; 134; 126; 27; 88; 82; 158; 39; 124; 12; 137; 41; 148; 68; 179; 6; 235; 65; 140; 219; 38; 156; 123; 77; 77; 18; 226; 79; 243; 140; 83; 173].
Definition child_hash : list Z :=
  [221; 60; 251; 53; 227; 102; 150; 68; 189; 47; 55; 228; 150; 62; 171; 20; 224; 172; 255; 221; 169; 13; 145; 251; 88; 94; 74; 242; 88; 22; 58; 212].

(** A child of the genesis block. *)
Definition child : block :=
  mk_block (mk_header 1 1 70 genesis_hash 0) (mk_tx (mk_prefix 1 61 [txin_gen 1] [mk_out 17592169267200 (txout_to_key (sample_k 3))] []) [[]] null_base null_prunable false) [].

Definition first_run : result (bool * block_verification_context * node) :=
  handle_block (H := example_crypto) (fun _ _ _ => null_hash) no_checkpoints [] 100 0 true start_node (genesis []).
Definition left_node (r : result (bool * block_verification_context * node)) : node := match r with Ok (_, _, nd) => nd | Err _ => start_node end.
Definition one_block : node := left_node first_run.

(** The node of one block with the child kept as an alternative. *)
Definition forked_node : node := set_alt_blocks one_block {[child_hash := (mk_alt_data 1 0 2 0 0, [])]}.
Definition switch_example : result (bool * node) :=
  switch_to_alternative_blockchain (H := example_crypto) (fun _ _ _ => null_hash) no_checkpoints [] 100 0 true (fun _ _ _ _ _ => Err RUNTIME_ERROR) forked_node [mk_bei child 1 0 2 0] true.
Definition alternative_example : result outcome :=
  handle_alternative_block (H := example_crypto) (fun _ _ _ => null_hash) (fun _ _ => null_hash) no_checkpoints [] 100 0 true 2 one_block child child_hash new_bvc no_supplement.
Definition new_example : result outcome :=
  add_new_block (H := example_crypto) (fun _ _ _ => null_hash) (fun _ _ => null_hash) no_checkpoints [] 100 0 true 1 one_block child new_bvc no_supplement.

Definition taken_in (r : result (bool * block_verification_context * node)) : bool := match r with Ok (r, _, _) => r | Err _ => false end.
Definition switched (r : result (bool * node)) : bool := match r with Ok (r, _) => r | Err _ => false end.
Definition height_after (r : result outcome) : Z := match r with Ok (_, _, _, nd) => height (n_db nd) | Err _ => 0 end.

Lemma examples_run :
  taken_in first_run && (height (n_db one_block) =? 1) && switched switch_example && (height_after alternative_example =? 2) && (height_after new_example =? 2) = true.
Proof. by vm_compute. Qed.

Lemma block_parses b blob : bool_decide (Forall is_u8 blob) = true -> parse_binary c_block blob = Some b -> block_ok b.
Proof. intros Hb Hp. apply bool_decide_eq_true in Hb. exact (proj1 (parse_binary_inv block_ok _ _ c_block _ _ Hb Hp)). Qed.

Lemma genesis_ok : block_ok (genesis []).
Proof. by apply (block_parses _ (default [] (block_to_blob (genesis [])))); vm_compute. Qed.

Lemma child_ok : block_ok child.
Proof. by apply (block_parses _ (default [] (block_to_blob child))); vm_compute. Qed.

Lemma empty_chain : node_chain start_node [].
Proof. split; [done|]. split; [by intros [] ?|]. intros h i Hi. cbn in Hi. by rewrite lookup_empty in Hi. Qed.

(** The genesis block is stored by the first run. *)
Lemma one_block_stored : n_alt_blocks one_block = ∅ /\ exists be, ChainDb.add_block (fun _ => zero_key) (empty_db 0) be = Ok (n_db one_block) /\ be_block be = genesis [].
Proof.
  pose proof examples_run as Hr. do 4 apply andb_true_iff in Hr as [Hr _]. unfold one_block. destruct first_run as [[[r bvc] nd]|e] eqn:E; [|done]. cbn [taken_in left_node] in *. subst r. unfold first_run in E.
  destruct (handle_stored _ _ _ _ _ _ _ _ _ _ E) as (_ & Ha & be & Hadd & Hbe). split; [exact Ha|]. exists be. exact (conj Hadd Hbe).
Qed.

Lemma one_block_chain : node_chain one_block [genesis []].
Proof.
  destruct one_block_stored as (_ & be & Hadd & Hbe). rewrite <- Hbe. eapply (add_block_chain _ _ _ _ [] empty_chain); [|exact Hadd]. rewrite Hbe. exact genesis_ok.
Qed.

Lemma set_alt_chain nd a bs : node_chain nd bs -> node_chain (set_alt_blocks nd a) bs.
Proof. done. Qed.

Lemma same_height nd nd' : n_db nd = n_db nd' -> height (n_db nd) = height (n_db nd').
Proof. by intros ->. Qed.


Lemma switch_needs_work_witness : exists r bvc ps nd' main cd, alternative_example = Ok (r, bvc, ps, nd') /\ get_block_cumulative_difficulty (n_db one_block) (height (n_db one_block) ⊟ 1) = Ok main /\ main < cd.
Proof.
  pose proof examples_run as Hr. apply andb_true_iff in Hr as [Hr _]. apply andb_true_iff in Hr as [Hr Ha]. apply andb_true_iff in Hr as [Hr _]. apply andb_true_iff in Hr as [_ Hl]. apply Z.eqb_eq in Hl, Ha.
  destruct alternative_example as [[[[r bvc] ps] nd']|e] eqn:E; [|done]. cbn [height_after] in Ha. exists r, bvc, ps, nd'. unfold alternative_example in E.
  assert (Hne : n_db nd' <> n_db one_block) by (intros Hd; pose proof (same_height _ _ Hd); lia).
  destruct (switch_needs_work (H := example_crypto) _ _ _ _ _ _ _ _ _ _ _ _ _ _ _ _ _ E Hne) as [(h & Hf)|(alt_chain & ts & bei & diff & main & _ & _ & _ & _ & _ & Hm & Hlt)]; [done|].
  exists main, (cumulative_difficulty bei). exact (conj eq_refl (conj Hm Hlt)).
Defined.

Lemma chain_always_linked_witness : exists r bvc ps nd bs, new_example = Ok (r, bvc, ps, nd) /\ head bs = Some (genesis []) /\ length bs = 2%nat /\ height (n_db nd) = length bs.
Proof.
  pose proof examples_run as Hr. apply andb_true_iff in Hr as [_ Hn]. apply Z.eqb_eq in Hn. destruct one_block_stored as (Ha & be & Hadd & Hbe).
  destruct new_example as [[[[r bvc] ps] nd]|e] eqn:E; [|discriminate Hn]. cbn [height_after] in Hn. exists r, bvc, ps, nd. unfold new_example in E.
  destruct (chain_always_linked (H := example_crypto) (fun _ => zero_key) 0 be one_block nd Hadd ltac:(rewrite Hbe; exact genesis_ok) Ha (rtc_once _ _ (step_new_block _ _ _ _ _ _ _ _ _ child new_bvc _ _ _ _ _ child_ok eq_refl E)))
    as (bs & Hhd & Hlen & _). exists bs. rewrite <- Hbe. split; [exact eq_refl|]. split; [exact Hhd|]. split; [lia|exact Hlen].
Defined.
